(** * jsonformatter: a shallow embedding of the JSON repair, formatting,
      path evaluation, tree search and undo logic

    The development follows the JavaScript sources:
    - [utils/jsonUtils.js] with [fixJson] (src/unnamed/part_001):
      [validateJson], [fixJson], [formatJson], [minifyJson], module [JsonUtils];
    - src/src/utils/jsonUtils.js: [formatJson], [minifyJson] with a fixed
      error, module [JsonUtils0];
    - src/src/components/JsonTreeView.jsx: [JsonNode] (search matching,
      collapse default), module [TreeView];
    - the [JsonOutput] component (src/unnamed/part_002): [evaluatePath],
      module [PathEval], and [JsonItem], module [TreeView];
    - the [JsonFormatter] component with undo (src/unnamed/part_003):
      [pushUndo], [handleUndo], [handleFormat], [handleMinify], ..., module
      [Controller].

    JavaScript strings are sequences of UTF-16 code units; a code unit is a
    natural number.  The runtime builtins the sources call
    ([String.prototype.trim], regular expressions, [JSON.parse],
    [JSON.stringify], [Number::toString], property access) are modelled
    after ECMA-262, Numbers as IEEE 754 binary64 values. *)

(** Covered as well: [validateJson] and [countLines] of
    src/src/utils/jsonUtils.js (module [JsonUtils0]); the first
    [JsonFormatter] component, src/src/components/JsonFormatter.jsx (module
    [Formatter0]); the remaining handlers of the later [JsonFormatter]
    component, from the font size buttons to the save dialog (module
    [Controller]); and the lines a [JsonNode] renders (module [TreeView]). *)

From Stdlib Require Import String Ascii.
From Stdlib Require Import List ZArith NArith Bool Lia.
From Stdlib Require Import DecimalPos DecimalN.
From Stdlib Require Import Floats.SpecFloat.
Import ListNotations.

Set Implicit Arguments.

(* ================================================================== *)
(** * Part I.  Definitions                                             *)
(* ================================================================== *)

(** ** JavaScript strings *)

Abbreviation char16 := N (only parsing).
Abbreviation jsstring := (list N) (only parsing).

(** [js "abc"] is the JavaScript string with the same (Latin-1) characters. *)
Definition js (s : string) : jsstring :=
  List.map N_of_ascii (list_ascii_of_string s).

(** U+0022 QUOTATION MARK.  [jsq] is [js] with every GRAVE ACCENT (U+0060) of
    the literal standing for a quotation mark, so that JSON texts can be
    written down: [jsq "{`a`: 1}"] is the text [{"a": 1}]. *)
Definition dquote : char16 := 34%N.

Definition jsq (s : string) : jsstring :=
  List.map (fun c => if N.eqb c 96 then dquote else c) (js s).

Fixpoint jsstring_eqb (a b : jsstring) : bool :=
  match a, b with
  | [], [] => true
  | x :: a', y :: b' => N.eqb x y && jsstring_eqb a' b'
  | _, _ => false
  end.

Definition in_range (lo hi c : N) : bool := N.leb lo c && N.leb c hi.

Definition one_of (cs : list N) (c : N) : bool := existsb (N.eqb c) cs.

Definition chr (a : ascii) : char16 := N_of_ascii a.

(** WhiteSpace and LineTerminator code points of ECMA-262 (what [trim] strips
    and what [\s] matches). *)
Definition isLineTerminator (c : char16) : bool :=
  one_of [10; 13; 8232; 8233]%N c.

Definition isWhiteSpace (c : char16) : bool :=
  one_of [9; 11; 12; 32; 160; 5760; 8239; 8287; 12288; 65279]%N c
  || in_range 8192 8202 c.

Definition isSpace (c : char16) : bool := isWhiteSpace c || isLineTerminator c.

Definition isDigit (c : char16) : bool := in_range 48 57 c.
Definition isUpper (c : char16) : bool := in_range 65 90 c.
Definition isLower (c : char16) : bool := in_range 97 122 c.
Definition isAlpha (c : char16) : bool := isUpper c || isLower c.

(** [\w] : [[A-Za-z0-9_]] *)
Definition isWordChar (c : char16) : bool :=
  isAlpha c || isDigit c || N.eqb c 95.

Fixpoint dropWhile {A} (p : A -> bool) (l : list A) : list A :=
  match l with
  | [] => []
  | x :: t => if p x then dropWhile p t else l
  end.

Fixpoint takeWhile {A} (p : A -> bool) (l : list A) : list A :=
  match l with
  | [] => []
  | x :: t => if p x then x :: takeWhile p t else []
  end.

(** [String.prototype.trim] *)
Definition trim (s : jsstring) : jsstring :=
  rev (dropWhile isSpace (rev (dropWhile isSpace s))).

(** JavaScript truthiness of a string: [!s] holds exactly for the empty one. *)
Definition truthy (s : jsstring) : bool :=
  match s with [] => false | _ => true end.

Fixpoint startsWith (p s : jsstring) : bool :=
  match p, s with
  | [], _ => true
  | x :: p', y :: s' => N.eqb x y && startsWith p' s'
  | _ :: _, [] => false
  end.

(** [String.prototype.includes] *)
Fixpoint includes (s t : jsstring) : bool :=
  startsWith t s ||
  match s with
  | [] => false
  | _ :: s' => includes s' t
  end.

(** [String.prototype.split] with a separator of one code unit: the pieces
    between the separators, one more than there are separators. *)
Fixpoint split (sep : char16) (s : jsstring) {struct s} : list jsstring :=
  match s with
  | [] => [[]]
  | c :: t =>
      if N.eqb c sep then [] :: split sep t
      else match split sep t with
           | piece :: more => (c :: piece) :: more
           | [] => [[c]]
           end
  end.

(** ** Regular expressions

    The sources use regular-expression literals with [replace], [match] and
    [test].  A literal is written here as a term of [regex]; the matcher is
    the backtracking matcher of ECMA-262 (leftmost alternative first, greedy
    and lazy stars, numbered capture groups), working on code units since none
    of the literals carries the [u] flag. *)

Module RegExp.

Inductive regex : Type :=
| Eps                                   (* empty pattern *)
| Chr (p : char16 -> bool)              (* one code unit in a class *)
| Seq (r1 r2 : regex)                   (* r1 r2 *)
| Alt (r1 r2 : regex)                   (* r1|r2 *)
| Star (r : regex)                      (* r*  *)
| LazyStar (r : regex)                  (* r*? *)
| Group (i : nat) (r : regex)           (* ( r ), the i-th capture group *)
| WordB                                 (* \b *)
| Bos                                   (* ^ (no m flag) *)
| Eos.                                  (* $ (no m flag) *)

Definition Plus (r : regex) : regex := Seq r (Star r).       (* r+ *)
Definition Opt (r : regex) : regex := Alt r Eps.             (* r? *)

Definition lit (c : ascii) : regex := Chr (N.eqb (chr c)).
Definition code (c : N) : regex := Chr (N.eqb c).
Definition any_of (cs : list N) : regex := Chr (one_of cs).
Definition none_of (cs : list N) : regex := Chr (fun c => negb (one_of cs c)).
(** [.] without the s flag *)
Definition dot : regex := Chr (fun c => negb (isLineTerminator c)).
(** [[\s\S]] *)
Definition anychar : regex := Chr (fun _ => true).

Fixpoint word (s : list char16) : regex :=
  match s with
  | [] => Eps
  | c :: t => Seq (code c) (word t)
  end.

(** Matcher state: the input before the current position (most recent code
    unit first), the input from the current position on, and the captures
    recorded so far (most recent first). *)
Record mstate : Type := MState {
  before : list char16;
  rest : list char16;
  caps : list (nat * jsstring)
}.

Definition isWordAt (o : option char16) : bool :=
  match o with Some c => isWordChar c | None => false end.

Definition consumed_since (st st' : mstate) : jsstring :=
  rev (firstn (length (before st') - length (before st)) (before st')).

(** [run r st k]: match [r] at [st] and hand every way of matching it, in
    priority order, to the continuation [k], until one succeeds. *)
Fixpoint run (r : regex) (st : mstate) (k : mstate -> option mstate)
  {struct r} : option mstate :=
  match r with
  | Eps => k st
  | Chr p =>
      match rest st with
      | c :: t => if p c then k (MState (c :: before st) t (caps st)) else None
      | [] => None
      end
  | Seq r1 r2 => run r1 st (fun st' => run r2 st' k)
  | Alt r1 r2 =>
      match run r1 st k with
      | Some res => Some res
      | None => run r2 st k
      end
  | Star r1 =>
      (fix star (n : nat) (st : mstate) (k : mstate -> option mstate)
         {struct n} : option mstate :=
         match n with
         | O => k st
         | S n' =>
             match run r1 st (fun st' =>
                     if Nat.ltb (length (rest st')) (length (rest st))
                     then star n' st' k else None) with
             | Some res => Some res
             | None => k st
             end
         end) (length (rest st)) st k
  | LazyStar r1 =>
      (fix star (n : nat) (st : mstate) (k : mstate -> option mstate)
         {struct n} : option mstate :=
         match n with
         | O => k st
         | S n' =>
             match k st with
             | Some res => Some res
             | None =>
                 run r1 st (fun st' =>
                     if Nat.ltb (length (rest st')) (length (rest st))
                     then star n' st' k else None)
             end
         end) (length (rest st)) st k
  | Group i r1 =>
      run r1 st (fun st' =>
        k (MState (before st') (rest st')
                  ((i, consumed_since st st') :: caps st')))
  | WordB =>
      if xorb (isWordAt (hd_error (before st))) (isWordAt (hd_error (rest st)))
      then k st else None
  | Bos => match before st with [] => k st | _ => None end
  | Eos => match rest st with [] => k st | _ => None end
  end.

(** A successful match: the matched text and the capture groups. *)
Record mresult : Type := MResult {
  matched : jsstring;
  groups : list (nat * jsstring)
}.

(** [group m i] is [Some] text when group [i] took part in the match
    ([undefined] otherwise). *)
Fixpoint assoc_nat (i : nat) (l : list (nat * jsstring)) : option jsstring :=
  match l with
  | [] => None
  | (j, s) :: t => if Nat.eqb i j then Some s else assoc_nat i t
  end.

Definition group (m : mresult) (i : nat) : option jsstring :=
  assoc_nat i (groups m).

(** [$i] in a replacement template: the empty string for an unmatched group. *)
Definition dollar (m : mresult) (i : nat) : jsstring :=
  match group m i with Some s => s | None => [] end.

(** Try to match [r] at the position described by [prev] (code units before
    the position, most recent first) and [s]. *)
Definition match_at (r : regex) (prev s : list char16) : option mresult :=
  let st := MState prev s [] in
  match run r st Some with
  | Some st' => Some (MResult (consumed_since st st') (caps st'))
  | None => None
  end.

(** Left-to-right scan shared by the global operations.  [skip] counts the
    code units of the current match still to be passed over. *)
Fixpoint scan (r : regex) (f : mresult -> jsstring) (prev : list char16)
  (skip : nat) (s : list char16) {struct s} : jsstring :=
  match s with
  | [] =>
      match skip with
      | O => match match_at r prev [] with Some m => f m | None => [] end
      | S _ => []
      end
  | c :: t =>
      match skip with
      | S k => scan r f (c :: prev) k t
      | O =>
          match match_at r prev s with
          | Some m =>
              match length (matched m) with
              | O => f m ++ c :: scan r f (c :: prev) 0 t
              | S k => f m ++ scan r f (c :: prev) k t
              end
          | None => c :: scan r f (c :: prev) 0 t
          end
      end
  end.

(** [s.replace(/r/g, f)] *)
Definition replace_all (r : regex) (f : mresult -> jsstring) (s : jsstring)
  : jsstring :=
  scan r f [] 0 s.

(** [s.replace(/r/, f)]: only the first match is replaced. *)
Fixpoint replace_first_from (r : regex) (f : mresult -> jsstring)
  (prev s : list char16) {struct s} : jsstring :=
  match match_at r prev s with
  | Some m => f m ++ skipn (length (matched m)) s
  | None =>
      match s with
      | [] => []
      | c :: t => c :: replace_first_from r f (c :: prev) t
      end
  end.

Definition replace_first (r : regex) (f : mresult -> jsstring) (s : jsstring)
  : jsstring :=
  replace_first_from r f [] s.

(** [s.match(/r/g)]: the matched texts, or [null] when there is none. *)
Fixpoint matches_from (r : regex) (prev : list char16) (skip : nat)
  (s : list char16) {struct s} : list jsstring :=
  match s with
  | [] =>
      match skip with
      | O => match match_at r prev [] with Some m => [matched m] | None => [] end
      | S _ => []
      end
  | c :: t =>
      match skip with
      | S k => matches_from r (c :: prev) k t
      | O =>
          match match_at r prev s with
          | Some m =>
              matched m :: matches_from r (c :: prev) (length (matched m) - 1) t
          | None => matches_from r (c :: prev) 0 t
          end
      end
  end.

Definition match_all (r : regex) (s : jsstring) : option (list jsstring) :=
  match matches_from r [] 0 s with
  | [] => None
  | l => Some l
  end.

(** [s.match(/r/)]: the first match with its groups, or [null]. *)
Fixpoint match_first_from (r : regex) (prev s : list char16) {struct s}
  : option mresult :=
  match match_at r prev s with
  | Some m => Some m
  | None =>
      match s with
      | [] => None
      | c :: t => match_first_from r (c :: prev) t
      end
  end.

Definition match_first (r : regex) (s : jsstring) : option mresult :=
  match_first_from r [] s.

(** [/r/.test(s)] *)
Fixpoint test_from (r : regex) (prev s : list char16) {struct s} : bool :=
  match match_at r prev s with
  | Some _ => true
  | None =>
      match s with
      | [] => false
      | c :: t => test_from r (c :: prev) t
      end
  end.

Definition test (r : regex) (s : jsstring) : bool := test_from r [] s.

End RegExp.

(** ** Numbers

    A JavaScript Number is an IEEE 754 binary64 value, here a [spec_float]
    of precision 53 and maximal exponent 1024. *)

Module JSNumber.

Definition prec : Z := 53.
Definition emax : Z := 1024.

Definition Number := spec_float.

Definition isFinite (x : Number) : bool :=
  match x with
  | S754_zero _ | S754_finite _ _ _ => true
  | S754_infinity _ | S754_nan => false
  end.

(** Numeric equality ([===] on Numbers): the two zeros are equal. *)
Definition eqb (x y : Number) : bool := SFeqb x y.

(** The Number nearest to [m * 10^e10] (ties to even), sign [neg], for a
    natural [m]: overflow gives an infinity, underflow a zero. *)
Definition of_decimal (neg : bool) (m : Z) (e10 : Z) : Number :=
  match m with
  | Zpos p =>
      if (0 <=? e10)%Z
      then binary_round prec emax neg (Z.to_pos (Zpos p * 10 ^ e10)) 0
      else
        let d := (10 ^ (- e10))%Z in
        let s := Z.max 0 (Z.log2 d + 64 - Z.log2 (Zpos p)) in
        let n := (Zpos p * 2 ^ s)%Z in
        let q := (n / d)%Z in
        let r := (n mod d)%Z in
        let loc := if (r =? 0)%Z then loc_Exact
                   else loc_Inexact (Z.compare (2 * r) d) in
        binary_round_aux prec emax neg q (- s) loc
  | _ => S754_zero neg
  end.

Definition of_N (n : N) : Number := of_decimal false (Z.of_N n) 0.

Fixpoint uint_chars (u : Decimal.uint) : jsstring :=
  match u with
  | Decimal.Nil => []
  | Decimal.D0 u' => 48%N :: uint_chars u'
  | Decimal.D1 u' => 49%N :: uint_chars u'
  | Decimal.D2 u' => 50%N :: uint_chars u'
  | Decimal.D3 u' => 51%N :: uint_chars u'
  | Decimal.D4 u' => 52%N :: uint_chars u'
  | Decimal.D5 u' => 53%N :: uint_chars u'
  | Decimal.D6 u' => 54%N :: uint_chars u'
  | Decimal.D7 u' => 55%N :: uint_chars u'
  | Decimal.D8 u' => 56%N :: uint_chars u'
  | Decimal.D9 u' => 57%N :: uint_chars u'
  end.

(** The decimal numeral of a natural number, without leading zeros. *)
Definition decimal (n : N) : jsstring := uint_chars (N.to_uint n).

(** The value of a string of decimal digits. *)
Definition digits_value (s : jsstring) : N :=
  fold_left (fun acc c => (10 * acc + (c - 48))%N) s 0%N.

(** The exact value of a positive finite Number [m * 2^e] as a fraction. *)
Definition fraction (m : positive) (e : Z) : Z * Z :=
  if (0 <=? e)%Z then (Zpos m * 2 ^ e, 1)%Z else (Zpos m, 2 ^ (- e))%Z.

(** Number of decimal digits of a positive integer. *)
Fixpoint count_digits (fuel : nat) (a : Z) : Z :=
  match fuel with
  | O => 1
  | S f => if (a <? 10)%Z then 1 else (1 + count_digits f (a / 10))%Z
  end.

(** For [0 < num/den < 1]: the least [j >= 1] with [num * 10^j >= den]. *)
Fixpoint leading_zeros (fuel : nat) (num den : Z) (j : Z) : Z :=
  match fuel with
  | O => j
  | S f => if (den <=? num * 10)%Z then j else leading_zeros f (num * 10) den (j + 1)
  end.

(** The integer [n] with [10^(n-1) <= num/den < 10^n]. *)
Definition decimal_exponent (num den : Z) : Z :=
  if (den <=? num)%Z then count_digits 400 (num / den)
  else (1 - leading_zeros 400 num den 1)%Z.

(** [floor ((num/den) / 10^p)] *)
Definition scaled_floor (num den p : Z) : Z :=
  if (0 <=? p)%Z then (num / (den * 10 ^ p))%Z
  else ((num * 10 ^ (- p)) / den)%Z.

(** Compare [|s * 10^p - num/den|] for two candidates [lo < hi = lo + 1]
    around [num/den]: [Lt] when [lo] is strictly closer. *)
Definition closer (num den p lo : Z) : comparison :=
  (* x - lo*10^p  versus  (lo+1)*10^p - x, i.e. 2x versus (2lo+1) * 10^p *)
  if (0 <=? p)%Z
  then (2 * num ?= (2 * lo + 1) * 10 ^ p * den)%Z
  else (2 * num * 10 ^ (- p) ?= (2 * lo + 1) * den)%Z.

Fixpoint strip_zeros (fuel : nat) (s : Z) (p : Z) : Z * Z :=
  match fuel with
  | O => (s, p)
  | S f => if ((s mod 10 =? 0) && (0 <? s))%Z
           then strip_zeros f (s / 10) (p + 1) else (s, p)
  end.

(** Shortest digits: the pair [(s, p)] with the fewest digits in [s] such
    that [s * 10^p] converts back to [x]; among those the one closest to
    [x], the even one on a tie (Number::toString, step 5 with NOTE 2). *)
Fixpoint shortest (todo : nat) (k : Z) (x : Number) (num den n : Z)
  : Z * Z :=
  let p := (n - k)%Z in
  let lo := scaled_floor num den p in
  let hi := (lo + 1)%Z in
  let lo_ok := eqb (of_decimal false lo p) x in
  let hi_ok := eqb (of_decimal false hi p) x in
  let pick :=
    if lo_ok && hi_ok then
      match closer num den p lo with
      | Lt => Some lo
      | Gt => Some hi
      | Eq => Some (if Z.even lo then lo else hi)
      end
    else if lo_ok then Some lo
    else if hi_ok then Some hi
    else None in
  match pick, todo with
  | Some s, _ => strip_zeros 20 s p
  | None, S t => shortest t (k + 1) x num den n
  | None, O => (lo, p)
  end.

Definition zeros (n : Z) : jsstring := repeat 48%N (Z.to_nat n).

Definition Zdecimal (z : Z) : jsstring := decimal (Z.to_N z).

(** Number::toString for a positive finite value, from its shortest digits. *)
Definition layout (s p : Z) : jsstring :=
  let ds := Zdecimal s in
  let k := Z.of_nat (length ds) in
  let n := (p + k)%Z in
  if ((k <=? n) && (n <=? 21))%Z then ds ++ zeros (n - k)
  else if ((0 <? n) && (n <=? 21))%Z then
    firstn (Z.to_nat n) ds ++ chr "." :: skipn (Z.to_nat n) ds
  else if ((-6 <? n) && (n <=? 0))%Z then
    chr "0" :: chr "." :: zeros (- n) ++ ds
  else
    let e := (n - 1)%Z in
    let sign := if (0 <=? e)%Z then chr "+" else chr "-" in
    let mant := match ds with
                | [d] => [d]
                | d :: more => d :: chr "." :: more
                | [] => []
                end in
    mant ++ chr "e" :: sign :: Zdecimal (Z.abs e).

(** [Number::toString(x)], radix 10 *)
Definition toString (x : Number) : jsstring :=
  match x with
  | S754_nan => js "NaN"
  | S754_zero _ => js "0"
  | S754_infinity neg => (if neg then js "-" else []) ++ js "Infinity"
  | S754_finite neg m e =>
      let '(num, den) := fraction m e in
      let n := decimal_exponent num den in
      let '(s, p) := shortest 16 1 (S754_finite false m e) num den n in
      (if neg then js "-" else []) ++ layout s p
  end.

End JSNumber.

(** ** JSON values, [JSON.parse] and [JSON.stringify] *)

Module JSON.

Import JSNumber.

(** The values [JSON.parse] produces.  An object is the sequence of its own
    properties in enumeration order ([Object.keys] order). *)
#[warnings="-register-all"]
Inductive JsonValue : Type :=
| JNull
| JBool (b : bool)
| JNumber (x : Number)
| JString (s : jsstring)
| JArray (items : list JsonValue)
| JObject (props : list (jsstring * JsonValue)).

(** *** Objects: property creation and enumeration order *)

Definition nonempty {A} (l : list A) : bool :=
  match l with [] => false | _ => true end.

(** An array index is a canonical numeric string below [2^32 - 1]; own
    properties with such keys are enumerated first, in ascending order. *)
Definition array_index (k : jsstring) : option N :=
  match k with
  | [] => None
  | d :: more =>
      if forallb isDigit k
         && negb (N.eqb d 48 && nonempty more)
         && (digits_value k <? 4294967295)%N
      then Some (digits_value k) else None
  end.

Fixpoint has_key (k : jsstring) (o : list (jsstring * JsonValue)) : bool :=
  match o with
  | [] => false
  | (k', _) :: t => jsstring_eqb k k' || has_key k t
  end.

Fixpoint update (k : jsstring) (v : JsonValue) (o : list (jsstring * JsonValue))
  : list (jsstring * JsonValue) :=
  match o with
  | [] => []
  | (k', v') :: t =>
      if jsstring_eqb k k' then (k', v) :: t else (k', v') :: update k v t
  end.

Fixpoint insert_index (n : N) (k : jsstring) (v : JsonValue)
  (o : list (jsstring * JsonValue)) : list (jsstring * JsonValue) :=
  match o with
  | [] => [(k, v)]
  | (k', v') :: t =>
      match array_index k' with
      | Some n' => if (n' <? n)%N then (k', v') :: insert_index n k v t
                   else (k, v) :: o
      | None => (k, v) :: o
      end
  end.

(** [CreateDataProperty(o, k, v)] on an ordinary object. *)
Definition obj_set (o : list (jsstring * JsonValue)) (kv : jsstring * JsonValue)
  : list (jsstring * JsonValue) :=
  let '(k, v) := kv in
  if has_key k o then update k v o
  else match array_index k with
       | Some n => insert_index n k v o
       | None => o ++ [(k, v)]
       end.

(** The object built from the members of an object literal, in source order. *)
Definition build_object (members : list (jsstring * JsonValue))
  : list (jsstring * JsonValue) :=
  fold_left obj_set members [].

Fixpoint own (k : jsstring) (o : list (jsstring * JsonValue)) : option JsonValue :=
  match o with
  | [] => None
  | (k', v) :: t => if jsstring_eqb k k' then Some v else own k t
  end.

(** *** Parsing *)

(** Result of a parsing step: a value and the remaining input, or the
    remaining input at the point of failure. *)
Inductive presult (A : Type) : Type :=
| POk (a : A) (rest : jsstring)
| PErr (rest : jsstring).
Arguments PErr {A} rest.

Definition isJsonWs (c : char16) : bool := one_of [9; 10; 13; 32]%N c.
Definition skip_ws (s : jsstring) : jsstring := dropWhile isJsonWs s.

Definition isHex (c : char16) : bool :=
  isDigit c || in_range 97 102 c || in_range 65 70 c.

Definition hex_value (c : char16) : N :=
  if isDigit c then (c - 48)%N
  else if in_range 97 102 c then (c - 87)%N
  else (c - 55)%N.

Definition simple_escape (c : char16) : option char16 :=
  if N.eqb c 34 then Some 34%N            (* escaped quotation mark *)
  else if N.eqb c 92 then Some 92%N       (* escaped reverse solidus *)
  else if N.eqb c 47 then Some 47%N       (* escaped solidus *)
  else if N.eqb c 98 then Some 8%N        (* \b *)
  else if N.eqb c 102 then Some 12%N      (* \f *)
  else if N.eqb c 110 then Some 10%N      (* \n *)
  else if N.eqb c 114 then Some 13%N      (* \r *)
  else if N.eqb c 116 then Some 9%N       (* \t *)
  else None.

(** The characters of a string literal after its opening quotation mark. *)
Fixpoint parse_string (s : jsstring) {struct s} : presult jsstring :=
  match s with
  | [] => PErr []
  | c :: t =>
      if N.eqb c 34 then POk [] t
      else if N.eqb c 92 then
        match t with
        | [] => PErr []
        | e :: t1 =>
            if N.eqb e 117 then            (* \uXXXX *)
              match t1 with
              | h1 :: h2 :: h3 :: h4 :: t2 =>
                  if isHex h1 && isHex h2 && isHex h3 && isHex h4 then
                    match parse_string t2 with
                    | POk r rest =>
                        POk ((4096 * hex_value h1 + 256 * hex_value h2
                              + 16 * hex_value h3 + hex_value h4)%N :: r) rest
                    | PErr rest => PErr rest
                    end
                  else PErr t1
              | _ => PErr t1
              end
            else
              match simple_escape e with
              | Some c' =>
                  match parse_string t1 with
                  | POk r rest => POk (c' :: r) rest
                  | PErr rest => PErr rest
                  end
              | None => PErr t
              end
        end
      else if (c <? 32)%N then PErr s
      else
        match parse_string t with
        | POk r rest => POk (c :: r) rest
        | PErr rest => PErr rest
        end
  end.

(** A number literal: an optional minus sign, an integer part without
    leading zero, an optional fraction, an optional exponent. *)

(** The exponent part, if any, after a mantissa of value
    [mant * 10^(- scale)]. *)
Definition lex_exponent (neg : bool) (mant scale : Z) (s : jsstring)
  : presult Number :=
  match s with
  | c :: t =>
      if N.eqb c 101 || N.eqb c 69 then
        let '(eneg, t1) :=
          match t with
          | sg :: t' =>
              if N.eqb sg 45 then (true, t')
              else if N.eqb sg 43 then (false, t')
              else (false, t)
          | [] => (false, t)
          end in
        match takeWhile isDigit t1 with
        | [] => PErr t1
        | ed =>
            let ev := Z.of_N (digits_value ed) in
            POk (of_decimal neg mant ((if eneg then - ev else ev) - scale))
                (dropWhile isDigit t1)
        end
      else POk (of_decimal neg mant (- scale)) s
  | [] => POk (of_decimal neg mant (- scale)) s
  end.

(** The fraction part, if any, after the integer digits [ip]. *)
Definition lex_fraction (neg : bool) (ip : jsstring) (s : jsstring)
  : presult Number :=
  match s with
  | c :: t =>
      if N.eqb c 46 then
        match takeWhile isDigit t with
        | [] => PErr t
        | fr =>
            lex_exponent neg (Z.of_N (digits_value (ip ++ fr)))
              (Z.of_nat (length fr)) (dropWhile isDigit t)
        end
      else lex_exponent neg (Z.of_N (digits_value ip)) 0 s
  | [] => lex_exponent neg (Z.of_N (digits_value ip)) 0 s
  end.

Definition lex_unsigned (neg : bool) (s : jsstring) : presult Number :=
  match takeWhile isDigit s with
  | [] => PErr s
  | d :: more =>
      if N.eqb d 48 && nonempty more then PErr (skipn 1 s)
      else lex_fraction neg (d :: more) (dropWhile isDigit s)
  end.

Definition lex_number (s : jsstring) : presult Number :=
  match s with
  | c :: t => if N.eqb c 45 then lex_unsigned true t else lex_unsigned false s
  | [] => lex_unsigned false s
  end.

(** One of the literals [true], [false], [null]. *)
Fixpoint literal (w : jsstring) (v : JsonValue) (s : jsstring) {struct w}
  : presult JsonValue :=
  match w, s with
  | [], _ => POk v s
  | x :: w', y :: s' => if N.eqb x y then literal w' v s' else PErr s
  | _ :: _, [] => PErr []
  end.

Fixpoint parse_value (fuel : nat) (s : jsstring) {struct fuel}
  : presult JsonValue :=
  match fuel with
  | O => PErr s
  | S n =>
      match skip_ws s with
      | [] => PErr []
      | c :: t =>
          if N.eqb c 123 then                          (* { *)
            match skip_ws t with
            | [] => PErr []
            | c2 :: t2 =>
                if N.eqb c2 125 then POk (JObject []) t2
                else
                  match parse_members n (c2 :: t2) with
                  | POk ms rest => POk (JObject (build_object ms)) rest
                  | PErr rest => PErr rest
                  end
            end
          else if N.eqb c 91 then                      (* [ *)
            match skip_ws t with
            | [] => PErr []
            | c2 :: t2 =>
                if N.eqb c2 93 then POk (JArray []) t2
                else
                  match parse_elements n (c2 :: t2) with
                  | POk vs rest => POk (JArray vs) rest
                  | PErr rest => PErr rest
                  end
            end
          else if N.eqb c 34 then
            match parse_string t with
            | POk str rest => POk (JString str) rest
            | PErr rest => PErr rest
            end
          else if N.eqb c 45 || isDigit c then
            match lex_number (c :: t) with
            | POk x rest => POk (JNumber x) rest
            | PErr rest => PErr rest
            end
          else if N.eqb c 116 then literal (js "true") (JBool true) (c :: t)
          else if N.eqb c 102 then literal (js "false") (JBool false) (c :: t)
          else if N.eqb c 110 then literal (js "null") JNull (c :: t)
          else PErr (c :: t)
      end
  end

(** elements of a non-empty array, up to and including the closing bracket *)
with parse_elements (fuel : nat) (s : jsstring) {struct fuel}
  : presult (list JsonValue) :=
  match fuel with
  | O => PErr s
  | S n =>
      match parse_value n s with
      | PErr rest => PErr rest
      | POk v rest =>
          match skip_ws rest with
          | [] => PErr []
          | c :: t =>
              if N.eqb c 44 then
                match parse_elements n t with
                | POk vs rest' => POk (v :: vs) rest'
                | PErr rest' => PErr rest'
                end
              else if N.eqb c 93 then POk [v] t
              else PErr (c :: t)
          end
      end
  end

(** members of a non-empty object, up to and including the closing brace;
    the input starts at the first member's key *)
with parse_members (fuel : nat) (s : jsstring) {struct fuel}
  : presult (list (jsstring * JsonValue)) :=
  match fuel with
  | O => PErr s
  | S n =>
      match skip_ws s with
      | [] => PErr []
      | q :: t0 =>
          if negb (N.eqb q 34) then PErr (q :: t0)
          else
            match parse_string t0 with
            | PErr rest => PErr rest
            | POk k rest =>
                match skip_ws rest with
                | [] => PErr []
                | c :: t =>
                    if negb (N.eqb c 58) then PErr (c :: t)
                    else
                      match parse_value n t with
                      | PErr rest' => PErr rest'
                      | POk v rest' =>
                          match skip_ws rest' with
                          | [] => PErr []
                          | c' :: t' =>
                              if N.eqb c' 44 then
                                match parse_members n t' with
                                | POk ms r => POk ((k, v) :: ms) r
                                | PErr r => PErr r
                                end
                              else if N.eqb c' 125 then POk [(k, v)] t'
                              else PErr (c' :: t')
                          end
                      end
                end
            end
      end
  end.

(** The message of the [SyntaxError] thrown for a failure with [rest] left
    of the input [s].  The wording is the host's: this is the wording of V8
    up to Node.js 18, other hosts word the message differently and may leave
    the position out.  The properties proved of a message do not depend on
    it; the wording shows in the examples only. *)
Definition error_message (s rest : jsstring) : jsstring :=
  match rest with
  | [] => js "Unexpected end of JSON input"
  | c :: _ =>
      js "Unexpected token " ++ [c] ++ js " in JSON at position "
      ++ decimal (N.of_nat (length s - length rest))
  end.

(** [JSON.parse(s)]: the value, or the message of the exception thrown. *)
Definition parse (s : jsstring) : JsonValue + jsstring :=
  match parse_value (2 * length s + 2) s with
  | POk v rest =>
      match skip_ws rest with
      | [] => inl v
      | r => inr (error_message s r)
      end
  | PErr rest => inr (error_message s rest)
  end.

(** *** Serialisation *)

Definition hex_digit (n : N) : char16 :=
  if (n <? 10)%N then (48 + n)%N else (87 + n)%N.

(** [UnicodeEscape]: a reverse solidus, [u] and four lowercase hex digits. *)
Definition unicode_escape (c : char16) : jsstring :=
  [92; 117; hex_digit ((c / 4096) mod 16); hex_digit ((c / 256) mod 16);
   hex_digit ((c / 16) mod 16); hex_digit (c mod 16)]%N.

Definition isLeadSurrogate (c : char16) : bool := in_range 55296 56319 c.
Definition isTrailSurrogate (c : char16) : bool := in_range 56320 57343 c.

Fixpoint quote_chars (s : jsstring) {struct s} : jsstring :=
  match s with
  | [] => []
  | c :: t =>
      if N.eqb c 8 then 92%N :: 98%N :: quote_chars t
      else if N.eqb c 9 then 92%N :: 116%N :: quote_chars t
      else if N.eqb c 10 then 92%N :: 110%N :: quote_chars t
      else if N.eqb c 12 then 92%N :: 102%N :: quote_chars t
      else if N.eqb c 13 then 92%N :: 114%N :: quote_chars t
      else if N.eqb c 34 then 92%N :: 34%N :: quote_chars t
      else if N.eqb c 92 then 92%N :: 92%N :: quote_chars t
      else if (c <? 32)%N then unicode_escape c ++ quote_chars t
      else if isLeadSurrogate c then
        match t with
        | c2 :: t2 =>
            if isTrailSurrogate c2 then c :: c2 :: quote_chars t2
            else unicode_escape c ++ quote_chars t
        | [] => unicode_escape c
        end
      else if isTrailSurrogate c then unicode_escape c ++ quote_chars t
      else c :: quote_chars t
  end.

(** [QuoteJSONString] *)
Definition quote (s : jsstring) : jsstring :=
  dquote :: quote_chars s ++ [dquote].

Fixpoint join (sep : jsstring) (parts : list jsstring) : jsstring :=
  match parts with
  | [] => []
  | [p] => p
  | p :: more => p ++ sep ++ join sep more
  end.

(** [SerializeJSONArray] / [SerializeJSONObject], from the serialised
    elements or members: [stepback] is the indentation of the enclosing
    level, [indent] the one of this level. *)
Definition wrap (opening closing : char16) (gap stepback indent : jsstring)
  (parts : list jsstring) : jsstring :=
  match parts with
  | [] => [opening; closing]
  | _ =>
      match gap with
      | [] => opening :: join [44%N] parts ++ [closing]
      | _ =>
          opening :: 10%N :: indent
            ++ join (44%N :: 10%N :: indent) parts
            ++ 10%N :: stepback ++ [closing]
      end
  end.

(** [SerializeJSONProperty] on a value produced by [JSON.parse] (no
    [undefined], no function, no [toJSON] method). *)
Fixpoint serialize (gap indent : jsstring) (v : JsonValue) {struct v}
  : jsstring :=
  match v with
  | JNull => js "null"
  | JBool true => js "true"
  | JBool false => js "false"
  | JNumber x => if isFinite x then toString x else js "null"
  | JString s => quote s
  | JArray items =>
      wrap 91%N 93%N gap indent (indent ++ gap)
           (List.map (serialize gap (indent ++ gap)) items)
  | JObject props =>
      wrap 123%N 125%N gap indent (indent ++ gap)
           (List.map (fun kv =>
                   quote (fst kv) ++ 58%N
                     :: (match gap with [] => [] | _ => [32%N] end)
                     ++ serialize gap (indent ++ gap) (snd kv)) props)
  end.

(** The gap for a numeric [space] argument: [min(10, space)] spaces. *)
Definition gap_of (space : Z) : jsstring :=
  repeat 32%N (Z.to_nat (Z.min 10 space)).

(** [JSON.stringify(v, null, space)] *)
Definition stringify (v : JsonValue) (space : Z) : jsstring :=
  serialize (gap_of space) [] v.

End JSON.

(** ** [utils/jsonUtils.js] *)

(** A call either returns or throws an [Error] with a message. *)
Inductive outcome (A : Type) : Type :=
| Return (a : A)
| Throw (message : jsstring).
Arguments Throw {A} message.

Module JsonUtils.

Import RegExp.

Record Validation : Type := { isValid : bool; verror : option jsstring }.

Definition validateJson (jsonString : jsstring) : Validation :=
  if negb (truthy (trim jsonString))
  then {| isValid := false; verror := Some (js "Input is empty") |}
  else match JSON.parse jsonString with
       | inl _ => {| isValid := true; verror := None |}
       | inr message => {| isValid := false; verror := Some message |}
       end.

Record FixResult : Type := {
  fixed : jsstring;
  wasFixed : bool;
  error : option jsstring
}.

Fixpoint cat (rs : list regex) : regex :=
  match rs with
  | [] => Eps
  | [r] => r
  | r :: more => Seq r (cat more)
  end.

(** A double-quoted string literal, as the first two passes recognise it. *)
Definition string_literal : regex :=
  Group 1 (cat [code 34;
                Star (Alt (none_of [34; 92]%N) (Seq (code 92) dot));
                code 34]).

Definition keep_string (m : mresult) : jsstring :=
  match group m 1 with Some str => str | None => [] end.

(** 1. Strip single-line comments *)
Definition line_comment : regex :=
  Alt string_literal (cat [lit "/"; lit "/"; Star (none_of [10]%N)]).

(** 2. Strip block comments *)
Definition block_comment : regex :=
  Alt string_literal
      (cat [lit "/"; lit "*"; LazyStar anychar; lit "*"; lit "/"]).

(** 3. Python / JS literals *)
Definition bare (w : string) : regex := cat [WordB; word (js w); WordB].

(** 4. Single-quoted strings *)
Definition single_quoted : regex :=
  cat [code 39;
       Group 1 (Seq (Star (none_of [39; 92]%N))
                    (Star (cat [code 92; dot; Star (none_of [39; 92]%N)])));
       code 39].

Definition requote (m : mresult) : jsstring :=
  let inner := dollar m 1 in
  let escaped :=
    replace_all (code 34) (fun _ => [92; 34]%N)
      (replace_all (Seq (code 92) (code 39)) (fun _ => [39%N]) inner) in
  dquote :: escaped ++ [dquote].

(** 5. Unquoted object keys *)
Definition isIdentStart (c : char16) : bool :=
  isAlpha c || N.eqb c 95 || N.eqb c 36.
Definition isIdentPart (c : char16) : bool :=
  isAlpha c || isDigit c || N.eqb c 95 || N.eqb c 36.

Definition bare_key : regex :=
  cat [Group 1 (Seq (any_of [123; 44]%N) (Star (Chr isSpace)));
       Group 2 (Seq (Chr isIdentStart) (Star (Chr isIdentPart)));
       Group 3 (Seq (Star (Chr isSpace)) (code 58))].

Definition quote_key (m : mresult) : jsstring :=
  dollar m 1 ++ dquote :: dollar m 2 ++ dquote :: dollar m 3.

(** 6. Trailing commas *)
Definition trailing_comma : regex :=
  Seq (code 44) (Group 1 (Seq (Star (Chr isSpace)) (any_of [125; 93]%N))).

(** The six repair passes of [fixJson], in order. *)
Definition strip_line_comments (s : jsstring) : jsstring :=
  replace_all line_comment keep_string s.

Definition strip_block_comments (s : jsstring) : jsstring :=
  replace_all block_comment keep_string s.

Definition fix_literals (s : jsstring) : jsstring :=
  replace_all (bare "undefined") (fun _ => js "null")
    (replace_all (bare "None") (fun _ => js "null")
      (replace_all (bare "False") (fun _ => js "false")
        (replace_all (bare "True") (fun _ => js "true") s))).

Definition fix_single_quotes (s : jsstring) : jsstring :=
  replace_all single_quoted requote s.

Definition quote_keys (s : jsstring) : jsstring :=
  replace_all bare_key quote_key s.

Definition strip_trailing_commas (s : jsstring) : jsstring :=
  replace_all trailing_comma (fun m => dollar m 1) s.

Definition patch (raw : jsstring) : jsstring :=
  strip_trailing_commas
    (quote_keys
      (fix_single_quotes
        (fix_literals
          (strip_block_comments
            (strip_line_comments raw))))).

Definition fixJson (raw : jsstring) : FixResult :=
  if negb (truthy (trim raw))
  then {| fixed := raw; wasFixed := false;
          error := Some (js "Input is empty") |}
  else
    match JSON.parse raw with
    | inl _ => {| fixed := raw; wasFixed := false; error := None |}
    | inr _ =>
        let s := patch raw in
        match JSON.parse s with
        | inl _ => {| fixed := s; wasFixed := true; error := None |}
        | inr err =>
            match JSON.parse raw with
            | inr origErr =>
                {| fixed := raw; wasFixed := false; error := Some origErr |}
            | inl _ =>
                {| fixed := raw; wasFixed := false; error := Some err |}
            end
        end
    end.

Definition formatJson (jsonString : jsstring) (indent : Z) : outcome jsstring :=
  match JSON.parse jsonString with
  | inl parsed => Return (JSON.stringify parsed indent)
  | inr message => Throw message
  end.

Definition minifyJson (jsonString : jsstring) : outcome jsstring :=
  match JSON.parse jsonString with
  | inl parsed => Return (JSON.stringify parsed 0)
  | inr message => Throw message
  end.

End JsonUtils.

(** ** [JsonFormatter.jsx]: the session state controller *)

Module Controller.

Import JsonUtils.

Inductive ViewMode : Type := edit | tree.

Record Snippet : Type := {
  id : Z;
  name : jsstring;
  preview : jsstring;
  json : jsstring;
  savedAt : jsstring
}.

(** Flags and inputs of the toolbar, dialogs and sidebar. *)
Record Chrome : Type := {
  darkMode : bool;
  showUrlBar : bool;
  urlInput : jsstring;
  urlLoading : bool;
  showSnippets : bool;
  showSaveDlg : bool;
  snippetName : jsstring;
  sidebarOpen : bool;
  fontSize : Z
}.

(** The component state: the [useState] cells and the two [useRef] cells
    [undoStack] and [value_ref]. *)
Record State : Type := {
  viewMode : ViewMode;
  value : jsstring;
  formattedVal : jsstring;
  error : jsstring;
  toast : jsstring;
  indentSize : Z;
  snippets : list Snippet;
  activeId : option Z;
  undoStack : list jsstring;
  value_ref : jsstring;
  undoLen : nat;
  chrome : Chrome
}.

Definition setViewMode (m : ViewMode) (st : State) : State :=
  {| viewMode := m; value := value st; formattedVal := formattedVal st;
     error := error st; toast := toast st; indentSize := indentSize st;
     snippets := snippets st; activeId := activeId st;
     undoStack := undoStack st; value_ref := value_ref st;
     undoLen := undoLen st; chrome := chrome st |}.

Definition setFormattedVal (v : jsstring) (st : State) : State :=
  {| viewMode := viewMode st; value := value st; formattedVal := v;
     error := error st; toast := toast st; indentSize := indentSize st;
     snippets := snippets st; activeId := activeId st;
     undoStack := undoStack st; value_ref := value_ref st;
     undoLen := undoLen st; chrome := chrome st |}.

Definition setError (e : jsstring) (st : State) : State :=
  {| viewMode := viewMode st; value := value st;
     formattedVal := formattedVal st;
     error := e; toast := toast st; indentSize := indentSize st;
     snippets := snippets st; activeId := activeId st;
     undoStack := undoStack st; value_ref := value_ref st;
     undoLen := undoLen st; chrome := chrome st |}.

Definition showToast (msg : jsstring) (st : State) : State :=
  {| viewMode := viewMode st; value := value st;
     formattedVal := formattedVal st;
     error := error st; toast := msg; indentSize := indentSize st;
     snippets := snippets st; activeId := activeId st;
     undoStack := undoStack st; value_ref := value_ref st;
     undoLen := undoLen st; chrome := chrome st |}.

Definition setActiveId (a : option Z) (st : State) : State :=
  {| viewMode := viewMode st; value := value st;
     formattedVal := formattedVal st;
     error := error st; toast := toast st; indentSize := indentSize st;
     snippets := snippets st; activeId := a;
     undoStack := undoStack st; value_ref := value_ref st;
     undoLen := undoLen st; chrome := chrome st |}.

Definition setChrome (c : Chrome) (st : State) : State :=
  {| viewMode := viewMode st; value := value st;
     formattedVal := formattedVal st;
     error := error st; toast := toast st; indentSize := indentSize st;
     snippets := snippets st; activeId := activeId st;
     undoStack := undoStack st; value_ref := value_ref st;
     undoLen := undoLen st; chrome := c |}.

(** [undoStack.current = s; setUndoLen(s.length)] *)
Definition setUndoStack (s : list jsstring) (st : State) : State :=
  {| viewMode := viewMode st; value := value st;
     formattedVal := formattedVal st;
     error := error st; toast := toast st; indentSize := indentSize st;
     snippets := snippets st; activeId := activeId st;
     undoStack := s; value_ref := value_ref st;
     undoLen := length s; chrome := chrome st |}.

(** [setValue]: the ref and the state cell are written together (the draft
    kept in local storage is outside the model). *)
Definition setValue (v : jsstring) (st : State) : State :=
  {| viewMode := viewMode st; value := v;
     formattedVal := formattedVal st;
     error := error st; toast := toast st; indentSize := indentSize st;
     snippets := snippets st; activeId := activeId st;
     undoStack := undoStack st; value_ref := v;
     undoLen := undoLen st; chrome := chrome st |}.

Definition pushUndo (st : State) : State :=
  if negb (truthy (value_ref st)) then st
  else setUndoStack (firstn 50 (value_ref st :: undoStack st)) st.

Definition toast_undone : jsstring := 8617%N :: js " Undone".
Definition toast_fixed (what : string) : jsstring :=
  55357%N :: 56615%N :: js " Auto-fixed & " ++ js what.
Definition toast_done (what : string) : jsstring :=
  9989%N :: js " " ++ js what.

Definition handleUndo (st : State) : State :=
  match undoStack st with
  | [] => st
  | prev :: rest =>
      showToast toast_undone
        (setActiveId None
          (setViewMode edit
            (setError []
              (setValue prev
                (setUndoStack rest st)))))
  end.

(** A non-null, non-empty error message. *)
Definition reported (e : option jsstring) : option jsstring :=
  match e with
  | Some msg => if truthy msg then Some msg else None
  | None => None
  end.

Definition handleFormat (st : State) : State :=
  let st := setError [] st in
  let raw := trim (value_ref st) in
  if negb (truthy raw) then st
  else
    let r := fixJson raw in
    match reported (JsonUtils.error r) with
    | Some fixErr => setError fixErr st
    | None =>
        let st := pushUndo st in
        match formatJson (fixed r) (indentSize st) with
        | Throw _ => st
        | Return pretty =>
            showToast (if wasFixed r then toast_fixed "Formatted!"
                       else toast_done "Formatted!")
              (setViewMode tree
                (setFormattedVal pretty
                  (setValue pretty st)))
        end
    end.

Definition handleMinify (st : State) : State :=
  let raw := trim (value st) in
  let st := setError [] st in
  if negb (truthy raw) then st
  else
    let r := fixJson raw in
    match reported (JsonUtils.error r) with
    | Some fixErr => setError fixErr st
    | None =>
        let st := pushUndo st in
        match minifyJson (fixed r) with
        | Throw _ => st
        | Return small =>
            showToast (if wasFixed r then toast_fixed "Minified!"
                       else toast_done "Minified!")
              (setViewMode edit
                (setValue small st))
        end
    end.

Definition isEdit (m : ViewMode) : bool :=
  match m with edit => true | tree => false end.

Definition handleClear (st : State) : State :=
  if negb (truthy (trim (value st))) && isEdit (viewMode st) then st
  else
    showToast (55357%N :: 56785%N :: js " Cleared " ++ 8212%N
                 :: js " press Undo to recover")
      (setActiveId None
        (setViewMode edit
          (setFormattedVal []
            (setError []
              (setValue []
                (pushUndo st)))))).

(** The [onload] callback of [handleFileUpload], with the text read. *)
Definition fileLoaded (text : jsstring) (st : State) : State :=
  showToast (55357%N :: 56514%N :: js " File loaded")
    (setActiveId None
      (setViewMode edit
        (setError []
          (setValue text
            (pushUndo st))))).

Definition closeUrlBar (c : Chrome) : Chrome :=
  {| darkMode := darkMode c; showUrlBar := false; urlInput := [];
     urlLoading := false; showSnippets := showSnippets c;
     showSaveDlg := showSaveDlg c; snippetName := snippetName c;
     sidebarOpen := sidebarOpen c; fontSize := fontSize c |}.

(** [handleFetchUrl] once the response text has arrived. *)
Definition urlLoaded (text : jsstring) (st : State) : State :=
  let st :=
    showToast (55356%N :: 57104%N :: js " Loaded from URL")
      (setActiveId None
        (setViewMode edit
          (setError []
            (setValue text
              (pushUndo st))))) in
  setChrome (closeUrlBar (chrome st)) st.

Definition sameId (a : option Z) (i : Z) : bool :=
  match a with Some j => Z.eqb j i | None => false end.

Definition handleSwitchSnippet (s : Snippet) (st : State) : State :=
  if sameId (activeId st) (id s) then st
  else
    showToast (55357%N :: 56516%N :: js " " ++ name s)
      (setActiveId (Some (id s))
        (setViewMode edit
          (setFormattedVal []
            (setError []
              (setValue (json s)
                (pushUndo st)))))).

Definition handleNew (st : State) : State :=
  setActiveId None
    (setViewMode edit
      (setFormattedVal []
        (setError []
          (setValue []
            (pushUndo st))))).

Definition closeSnippets (c : Chrome) : Chrome :=
  {| darkMode := darkMode c; showUrlBar := showUrlBar c;
     urlInput := urlInput c; urlLoading := urlLoading c;
     showSnippets := false;
     showSaveDlg := showSaveDlg c; snippetName := snippetName c;
     sidebarOpen := sidebarOpen c; fontSize := fontSize c |}.

Definition handleRestore (s : Snippet) (st : State) : State :=
  let st :=
    setActiveId (Some (id s))
      (setViewMode edit
        (setError []
          (setValue (json s)
            (pushUndo st)))) in
  showToast (8617%N :: js " Restored: " ++ name s)
    (setChrome (closeSnippets (chrome st)) st).

Definition setSnippets (l : list Snippet) (st : State) : State :=
  {| viewMode := viewMode st; value := value st;
     formattedVal := formattedVal st;
     error := error st; toast := toast st; indentSize := indentSize st;
     snippets := l; activeId := activeId st;
     undoStack := undoStack st; value_ref := value_ref st;
     undoLen := undoLen st; chrome := chrome st |}.

Definition without (i : Z) (l : list Snippet) : list Snippet :=
  filter (fun s => negb (Z.eqb (id s) i)) l.

Definition handleDeleteSnippet (i : Z) (st : State) : State :=
  let st' := setSnippets (without i (snippets st)) st in
  if sameId (activeId st) i then setActiveId None st' else st'.

Definition handleSidebarDelete (i : Z) (st : State) : State :=
  let st' := setSnippets (without i (snippets st)) st in
  if sameId (activeId st) i then setActiveId None (setValue [] st') else st'.

(** The textarea's [onChange]. *)
Definition typed (text : jsstring) (st : State) : State := setValue text st.

(** The user actions that touch the document or the undo stack. *)
Inductive Action : Type :=
| Type_ (text : jsstring)
| Undo
| Format
| Minify
| Clear
| FileLoaded (text : jsstring)
| UrlLoaded (text : jsstring)
| SwitchSnippet (s : Snippet)
| New
| Restore (s : Snippet)
| DeleteSnippet (i : Z)
| SidebarDelete (i : Z).

Definition step (a : Action) (st : State) : State :=
  match a with
  | Type_ text => typed text st
  | Undo => handleUndo st
  | Format => handleFormat st
  | Minify => handleMinify st
  | Clear => handleClear st
  | FileLoaded text => fileLoaded text st
  | UrlLoaded text => urlLoaded text st
  | SwitchSnippet s => handleSwitchSnippet s st
  | New => handleNew st
  | Restore s => handleRestore s st
  | DeleteSnippet i => handleDeleteSnippet i st
  | SidebarDelete i => handleSidebarDelete i st
  end.

Definition run (actions : list Action) (st : State) : State :=
  fold_left (fun s a => step a s) actions st.

(** The state of a freshly mounted component whose stored draft is [draft]. *)
Definition initial (draft : jsstring) (stored : list Snippet) (c : Chrome)
  : State :=
  {| viewMode := edit; value := draft; formattedVal := []; error := [];
     toast := []; indentSize := 2; snippets := stored; activeId := None;
     undoStack := []; value_ref := draft; undoLen := 0; chrome := c |}.

(** The session state of the specification: document text, view mode, undo
    stack and active snippet. *)
Record Session : Type := {
  documentText : jsstring;
  sessionView : ViewMode;
  sessionUndo : list jsstring;
  activeSnippetId : option Z
}.

Definition session (st : State) : Session :=
  {| documentText := value st; sessionView := viewMode st;
     sessionUndo := undoStack st; activeSnippetId := activeId st |}.

(** *** The remaining handlers of the component *)

Definition FONT_MIN : Z := 11.
Definition FONT_MAX : Z := 22.
Definition FONT_DEF : Z := 14.

Definition setFontSize (n : Z) (c : Chrome) : Chrome :=
  {| darkMode := darkMode c; showUrlBar := showUrlBar c;
     urlInput := urlInput c; urlLoading := urlLoading c;
     showSnippets := showSnippets c; showSaveDlg := showSaveDlg c;
     snippetName := snippetName c; sidebarOpen := sidebarOpen c;
     fontSize := n |}.

Definition setSidebarOpen (b : bool) (c : Chrome) : Chrome :=
  {| darkMode := darkMode c; showUrlBar := showUrlBar c;
     urlInput := urlInput c; urlLoading := urlLoading c;
     showSnippets := showSnippets c; showSaveDlg := showSaveDlg c;
     snippetName := snippetName c; sidebarOpen := b;
     fontSize := fontSize c |}.

Definition setDarkMode (b : bool) (c : Chrome) : Chrome :=
  {| darkMode := b; showUrlBar := showUrlBar c;
     urlInput := urlInput c; urlLoading := urlLoading c;
     showSnippets := showSnippets c; showSaveDlg := showSaveDlg c;
     snippetName := snippetName c; sidebarOpen := sidebarOpen c;
     fontSize := fontSize c |}.

Definition setShowUrlBar (b : bool) (c : Chrome) : Chrome :=
  {| darkMode := darkMode c; showUrlBar := b;
     urlInput := urlInput c; urlLoading := urlLoading c;
     showSnippets := showSnippets c; showSaveDlg := showSaveDlg c;
     snippetName := snippetName c; sidebarOpen := sidebarOpen c;
     fontSize := fontSize c |}.

Definition setUrlInput (u : jsstring) (c : Chrome) : Chrome :=
  {| darkMode := darkMode c; showUrlBar := showUrlBar c;
     urlInput := u; urlLoading := urlLoading c;
     showSnippets := showSnippets c; showSaveDlg := showSaveDlg c;
     snippetName := snippetName c; sidebarOpen := sidebarOpen c;
     fontSize := fontSize c |}.

Definition setUrlLoading (b : bool) (c : Chrome) : Chrome :=
  {| darkMode := darkMode c; showUrlBar := showUrlBar c;
     urlInput := urlInput c; urlLoading := b;
     showSnippets := showSnippets c; showSaveDlg := showSaveDlg c;
     snippetName := snippetName c; sidebarOpen := sidebarOpen c;
     fontSize := fontSize c |}.

Definition setShowSnippets (b : bool) (c : Chrome) : Chrome :=
  {| darkMode := darkMode c; showUrlBar := showUrlBar c;
     urlInput := urlInput c; urlLoading := urlLoading c;
     showSnippets := b; showSaveDlg := showSaveDlg c;
     snippetName := snippetName c; sidebarOpen := sidebarOpen c;
     fontSize := fontSize c |}.

Definition setShowSaveDlg (b : bool) (c : Chrome) : Chrome :=
  {| darkMode := darkMode c; showUrlBar := showUrlBar c;
     urlInput := urlInput c; urlLoading := urlLoading c;
     showSnippets := showSnippets c; showSaveDlg := b;
     snippetName := snippetName c; sidebarOpen := sidebarOpen c;
     fontSize := fontSize c |}.

Definition setSnippetName (n : jsstring) (c : Chrome) : Chrome :=
  {| darkMode := darkMode c; showUrlBar := showUrlBar c;
     urlInput := urlInput c; urlLoading := urlLoading c;
     showSnippets := showSnippets c; showSaveDlg := showSaveDlg c;
     snippetName := n; sidebarOpen := sidebarOpen c;
     fontSize := fontSize c |}.

Definition setIndentSize (n : Z) (st : State) : State :=
  {| viewMode := viewMode st; value := value st;
     formattedVal := formattedVal st;
     error := error st; toast := toast st; indentSize := n;
     snippets := snippets st; activeId := activeId st;
     undoStack := undoStack st; value_ref := value_ref st;
     undoLen := undoLen st; chrome := chrome st |}.

Definition toggleSidebar (st : State) : State :=
  setChrome (setSidebarOpen (negb (sidebarOpen (chrome st))) (chrome st)) st.

(** [changeFontSize]: sizes are whole numbers of pixels. *)
Definition changeFontSize (delta : Z) (st : State) : State :=
  let next := Z.min FONT_MAX (Z.max FONT_MIN (fontSize (chrome st) + delta)) in
  setChrome (setFontSize next (chrome st)) st.

(** [viewMode === 'tree' ? formattedVal : value]: the text that Copy,
    Download and Save work on. *)
Definition exportSource (st : State) : jsstring :=
  match viewMode st with
  | tree => formattedVal st
  | edit => value st
  end.

(** The text [handleCopy] writes to the clipboard and [handleDownload] puts
    into the file, if any. *)
Definition exported (st : State) : option jsstring :=
  let src := exportSource st in
  if negb (truthy (trim src)) then None else Some src.

(** [handleCopy], once the clipboard has been written. *)
Definition handleCopy (st : State) : State :=
  match exported st with
  | None => st
  | Some _ => showToast (55357%N :: 56523%N :: js " Copied!") st
  end.

(** The file name [handleDownload] offers. *)
Definition downloadName (st : State) : jsstring :=
  match activeId st with
  | Some i =>
      if Z.eqb i 0 then js "output"
      else match find (fun s => Z.eqb (id s) i) (snippets st) with
           | Some s => if truthy (name s) then name s else js "output"
           | None => js "output"
           end
  | None => js "output"
  end ++ js ".json".

Definition handleDownload (st : State) : State :=
  match exported st with
  | None => st
  | Some _ => showToast (11015%N :: js " Downloaded!") st
  end.

Definition openSave (st : State) : State :=
  match exported st with
  | None => st
  | Some _ =>
      setChrome (setShowSaveDlg true (setSnippetName [] (chrome st))) st
  end.

(** [src.slice(0, 80) + (src.length > 80 ? '...' : '')], with U+2026 for the
    three dots. *)
Definition previewOf (src : jsstring) : jsstring :=
  firstn 80 src ++ (if Nat.ltb 80 (length src) then [8230%N] else []).

(** [snippetName.trim() || `Snippet ${snippets.length + 1}`] *)
Definition nameOf (st : State) : jsstring :=
  let given := trim (snippetName (chrome st)) in
  if truthy given then given
  else js "Snippet "
         ++ JSNumber.decimal (N.of_nat (length (snippets st) + 1)).

(** [confirmSave]; [now] is [Date.now()] and [iso] is
    [new Date().toISOString()]. *)
Definition confirmSave (now : Z) (iso : jsstring) (st : State) : State :=
  let src := exportSource st in
  let entry :=
    {| id := now; name := nameOf st; preview := previewOf src; json := src;
       savedAt := iso |} in
  showToast (55357%N :: 56510%N :: js " Saved!")
    (setActiveId (Some now)
      (setChrome (setShowSaveDlg false (chrome st))
        (setSnippets (entry :: snippets st) st))).

(** [handleFetchUrl] up to the request, and its [catch] and [finally]
    blocks. *)
Definition fetchStarted (st : State) : State :=
  if negb (truthy (trim (urlInput (chrome st)))) then st
  else setChrome (setUrlLoading true (chrome st)) st.

Definition fetchFailed (message : jsstring) (st : State) : State :=
  let st := setError (js "Failed to fetch: " ++ message) st in
  setChrome (setUrlLoading false (chrome st)) st.

(** The actions that replace the document after pushing it on the undo
    stack: all but typing, Undo itself and the sidebar's delete button. *)
Definition undoable (a : Action) : bool :=
  match a with
  | Type_ _ | Undo | SidebarDelete _ => false
  | _ => true
  end.

(** Everything a user, a timer or a completed request can do to the
    component: the actions above and the remaining handlers of the toolbar,
    dialogs, tree view and keyboard. *)
Inductive Event : Type :=
| Act (a : Action)
| EditTree                                (* the tree view's Edit button *)
| ChangeFontSize (delta : Z)
| SetIndentSize (n : Z)
| ToggleSidebar
| ToggleTheme
| ToggleUrlBar
| CancelUrlBar
| UrlInput (text : jsstring)
| FetchStarted
| FetchFailed (message : jsstring)
| DismissError
| ToastTimeout
| Copy
| Download
| OpenSave
| SnippetName (text : jsstring)
| ConfirmSave (now : Z) (iso : jsstring)
| CancelSave
| OpenSnippets
| CloseSnippets.

Definition handle (e : Event) (st : State) : State :=
  match e with
  | Act a => step a st
  | EditTree => setViewMode edit st
  | ChangeFontSize delta => changeFontSize delta st
  | SetIndentSize n => setIndentSize n st
  | ToggleSidebar => toggleSidebar st
  | ToggleTheme =>
      setChrome (setDarkMode (negb (darkMode (chrome st))) (chrome st)) st
  | ToggleUrlBar =>
      setError []
        (setChrome (setShowUrlBar (negb (showUrlBar (chrome st))) (chrome st))
                   st)
  | CancelUrlBar => setChrome (setShowUrlBar false (chrome st)) st
  | UrlInput text => setChrome (setUrlInput text (chrome st)) st
  | FetchStarted => fetchStarted st
  | FetchFailed message => fetchFailed message st
  | DismissError => setError [] st
  | ToastTimeout => showToast [] st
  | Copy => handleCopy st
  | Download => handleDownload st
  | OpenSave => openSave st
  | SnippetName text => setChrome (setSnippetName text (chrome st)) st
  | ConfirmSave now iso => confirmSave now iso st
  | CancelSave => setChrome (setShowSaveDlg false (chrome st)) st
  | OpenSnippets => setChrome (setShowSnippets true (chrome st)) st
  | CloseSnippets => setChrome (setShowSnippets false (chrome st)) st
  end.

Definition play (events : list Event) (st : State) : State :=
  fold_left (fun s e => handle e s) events st.

(** The sidebar and the snippets dialog list the stored snippets only: a
    snippet can be switched to or restored when it is one of them. *)
Definition offered (e : Event) (st : State) : Prop :=
  match e with
  | Act (SwitchSnippet s) | Act (Restore s) => In s (snippets st)
  | _ => True
  end.

Fixpoint offered_all (events : list Event) (st : State) : Prop :=
  match events with
  | [] => True
  | e :: more => offered e st /\ offered_all more (handle e st)
  end.

(** *** Invariants of the component *)

(** The two cells of the document agree and [undoLen] is the height of the
    undo stack. *)
Definition in_sync (st : State) : Prop :=
  value_ref st = value st /\ undoLen st = length (undoStack st).

(** The active id, if any, is the id of a stored snippet. *)
Definition active_stored (st : State) : Prop :=
  forall i, activeId st = Some i -> exists s, In s (snippets st) /\ id s = i.

Definition font_in_range (st : State) : Prop :=
  (FONT_MIN <= fontSize (chrome st) <= FONT_MAX)%Z.

End Controller.

(** ** [JsonTreeView.jsx] and the tree of [JsonOutput.jsx] *)

Module TreeView.

Import JSON.

(** [String(v)] *)
Fixpoint ToString (v : JsonValue) {struct v} : jsstring :=
  match v with
  | JNull => js "null"
  | JBool true => js "true"
  | JBool false => js "false"
  | JNumber x => JSNumber.toString x
  | JString s => s
  | JArray items =>
      (* Array.prototype.join: null elements give the empty string *)
      join [44%N]
        (List.map (fun e => match e with JNull => [] | _ => ToString e end)
                  items)
  | JObject _ => js "[object Object]"
  end.

(** [value !== null && typeof value !== 'object'] *)
Definition isPrimitive (v : JsonValue) : bool :=
  match v with
  | JBool _ | JNumber _ | JString _ => true
  | JNull | JArray _ | JObject _ => false
  end.

(** [value === null || typeof value !== 'object'] *)
Definition isLeaf (v : JsonValue) : bool :=
  match v with
  | JArray _ | JObject _ => false
  | _ => true
  end.

(** [Object.keys(value)] with the property values: the indices of an array,
    the own keys of an object. *)
Fixpoint indexed (i : N) (items : list JsonValue) : list (jsstring * JsonValue) :=
  match items with
  | [] => []
  | x :: t => (JSNumber.decimal i, x) :: indexed (i + 1) t
  end.

Definition entries (v : JsonValue) : list (jsstring * JsonValue) :=
  match v with
  | JArray items => indexed 0 items
  | JObject props => props
  | _ => []
  end.

Definition isArray (v : JsonValue) : bool :=
  match v with JArray _ => true | _ => false end.

Section Search.

(** [String.prototype.toLowerCase] (the Unicode case mapping of the host). *)
Variable toLowerCase : jsstring -> jsstring.

(** The props of a [JsonNode]. *)
Record NodeProps : Type := {
  keyName : option jsstring;
  value : JsonValue;
  isLast : bool;
  depth : nat
}.

(** [JsonNode]: [matchesSearch] *)
Definition matchesSearch (keyName : option jsstring) (value : JsonValue)
  (searchTerm : jsstring) : bool :=
  if negb (truthy searchTerm) then true
  else if match keyName with
          | Some k => includes (toLowerCase k) searchTerm
          | None => false
          end then true
  else if isPrimitive value
  then includes (toLowerCase (ToString value)) searchTerm
  else false.

(** [recurse] inside [hasMatchingDescendant] *)
Fixpoint recurse (searchTerm : jsstring) (v : JsonValue) {struct v} : bool :=
  match v with
  | JArray items =>
      (fix some (i : N) (l : list JsonValue) {struct l} : bool :=
         match l with
         | [] => false
         | x :: t =>
             includes (toLowerCase (JSNumber.decimal i)) searchTerm
             || recurse searchTerm x || some (i + 1)%N t
         end) 0%N items
  | JObject props =>
      (fix some (l : list (jsstring * JsonValue)) {struct l} : bool :=
         match l with
         | [] => false
         | (k, x) :: t =>
             includes (toLowerCase k) searchTerm
             || recurse searchTerm x || some t
         end) props
  | _ => includes (toLowerCase (ToString v)) searchTerm
  end.

Definition hasMatchingDescendant (keyName : option jsstring)
  (value : JsonValue) (searchTerm : jsstring) : bool :=
  if negb (truthy searchTerm) then true
  else if isLeaf value then matchesSearch keyName value searchTerm
  else matchesSearch keyName value searchTerm || recurse searchTerm value.

(** [JsonItem] of [JsonOutput.jsx]: its [matchesSearch] tests the key name
    for truthiness. *)
Definition item_matchesSearch (keyName : option jsstring) (value : JsonValue)
  (searchTerm : jsstring) : bool :=
  if negb (truthy searchTerm) then true
  else if match keyName with
          | Some k => truthy k && includes (toLowerCase k) searchTerm
          | None => false
          end then true
  else if isPrimitive value
  then includes (toLowerCase (ToString value)) searchTerm
  else false.

End Search.

(** [useState(depth > 3)]: the collapse flag a [JsonNode] is mounted with. *)
Definition initialCollapsed (p : NodeProps) : bool := Nat.ltb 3 (depth p).

(** The root node rendered by [JsonTreeView]. *)
Definition rootProps (data : JsonValue) : NodeProps :=
  {| keyName := None; value := data; isLast := true; depth := 0 |}.

Fixpoint childProps (isArr : bool) (d : nat) (kvs : list (jsstring * JsonValue))
  : list NodeProps :=
  match kvs with
  | [] => []
  | (k, v) :: t =>
      {| keyName := if isArr then None else Some k;
         value := v;
         isLast := match t with [] => true | _ => false end;
         depth := d + 1 |} :: childProps isArr d t
  end.

(** The child nodes an open [JsonNode] renders, in order. *)
Definition children (p : NodeProps) : list NodeProps :=
  childProps (isArray (value p)) (depth p) (entries (value p)).

(** The node reached from [p] along a path of child positions. *)
Fixpoint nodeAt (p : NodeProps) (path : list nat) : option NodeProps :=
  match path with
  | [] => Some p
  | i :: more =>
      match nth_error (children p) i with
      | Some c => nodeAt c more
      | None => None
      end
  end.

(** The props of a [JsonItem] of [JsonOutput.jsx]; the component has no
    depth prop. *)
Record ItemProps : Type := {
  item_keyName : option jsstring;
  item_value : JsonValue;
  item_isLast : bool;
  item_isRoot : bool
}.

(** [useState(false)]: the collapse flag a [JsonItem] is mounted with. *)
Definition item_initialCollapsed (p : ItemProps) : bool := false.

Definition rootItem (displayData : JsonValue) : ItemProps :=
  {| item_keyName := None; item_value := displayData; item_isLast := true;
     item_isRoot := true |}.

Fixpoint childItems (isArr : bool) (kvs : list (jsstring * JsonValue))
  : list ItemProps :=
  match kvs with
  | [] => []
  | (k, v) :: t =>
      {| item_keyName := if isArr then None else Some k;
         item_value := v;
         item_isLast := match t with [] => true | _ => false end;
         item_isRoot := false |} :: childItems isArr t
  end.

Definition item_children (p : ItemProps) : list ItemProps :=
  childItems (isArray (item_value p)) (entries (item_value p)).

Fixpoint itemAt (p : ItemProps) (path : list nat) : option ItemProps :=
  match path with
  | [] => Some p
  | i :: more =>
      match nth_error (item_children p) i with
      | Some c => itemAt c more
      | None => None
      end
  end.

(** The reading of the search rule in the specification: the key name
    contains the term, or the value is primitive or null and its string
    form contains the term. *)
Definition spec_matchesSearch (toLowerCase : jsstring -> jsstring)
  (keyName : option jsstring) (value : JsonValue) (searchTerm : jsstring)
  : bool :=
  match keyName with
  | Some k => includes (toLowerCase k) (toLowerCase searchTerm)
  | None => false
  end
  || (isLeaf value
      && includes (toLowerCase (ToString value)) (toLowerCase searchTerm)).

(** The case mapping on the letters A to Z only; it instantiates
    [toLowerCase] in the examples. *)
Definition lower_ascii (s : jsstring) : jsstring :=
  List.map (fun c => if isUpper c then (c + 32)%N else c) s.

(** *** What a [JsonNode] renders

    The lines of the tree, from top to bottom.  A line carries what the
    markup shows: the highlight class, the key, the text and whether a comma
    follows. *)
Inductive Line : Type :=
| ValueLine (highlight : bool) (key : option jsstring) (cls disp : jsstring)
    (comma : bool)                        (* null or a primitive *)
| EmptyLine (key : option jsstring) (opening closing : char16) (comma : bool)
| OpenLine (highlight : bool) (key : option jsstring) (opening : char16)
| ClosedLine (highlight : bool) (key : option jsstring) (opening : char16)
    (meta : jsstring) (closing : char16) (comma : bool)
| CloseLine (closing : char16) (comma : bool).

(** [`${n} item${n !== 1 ? 's' : ''}`] *)
Definition meta (isArr : bool) (n : nat) : jsstring :=
  JSNumber.decimal (N.of_nat n)
  ++ (if isArr then js " item" else js " key")
  ++ (if Nat.eqb n 1 then [] else js "s").

Definition valueClass (v : JsonValue) : jsstring :=
  match v with
  | JNull => js "jtv-null"
  | JNumber _ => js "jtv-number"
  | JBool _ => js "jtv-boolean"
  | _ => js "jtv-string"
  end.

Definition display (v : JsonValue) : jsstring :=
  match v with
  | JString s => dquote :: s ++ [dquote]
  | _ => ToString v
  end.

Section Render.

Variable toLowerCase : jsstring -> jsstring.
Variable searchTerm : jsstring.
Variable filterMode : bool.

(** The [collapsed] state cell of the node at a position; a position is the
    path of child indices from the root (the [key] props). *)
Variable collapsed : list nat -> bool.

Fixpoint render (path : list nat) (keyName : option jsstring)
  (v : JsonValue) (isLast : bool) {struct v} : list Line :=
  let found := hasMatchingDescendant toLowerCase keyName v searchTerm in
  if filterMode && negb found then []
  else
    let highlight :=
      matchesSearch toLowerCase keyName v searchTerm && truthy searchTerm in
    let isOpen := negb (collapsed path) || (truthy searchTerm && found) in
    match v with
    | JArray [] => [EmptyLine keyName 91 93 (negb isLast)]
    | JArray items =>
        if isOpen then
          OpenLine highlight keyName 91
          :: (fix kids (i : nat) (l : list JsonValue) {struct l} : list Line :=
                match l with
                | [] => []
                | x :: t =>
                    render (path ++ [i]) None x
                           (match t with [] => true | _ => false end)
                    ++ kids (S i) t
                end) 0 items
          ++ [CloseLine 93 (negb isLast)]
        else [ClosedLine highlight keyName 91 (meta true (length items)) 93
                         (negb isLast)]
    | JObject [] => [EmptyLine keyName 123 125 (negb isLast)]
    | JObject props =>
        if isOpen then
          OpenLine highlight keyName 123
          :: (fix kids (i : nat) (l : list (jsstring * JsonValue)) {struct l}
                : list Line :=
                match l with
                | [] => []
                | (k, x) :: t =>
                    render (path ++ [i]) (Some k) x
                           (match t with [] => true | _ => false end)
                    ++ kids (S i) t
                end) 0 props
          ++ [CloseLine 125 (negb isLast)]
        else [ClosedLine highlight keyName 123 (meta false (length props)) 125
                         (negb isLast)]
    | _ => [ValueLine highlight keyName (valueClass v) (display v)
                      (negb isLast)]
    end.

(** The lines of the children of an open array or object, the first child
    having index [i]. *)
Fixpoint render_items (path : list nat) (i : nat) (l : list JsonValue)
  {struct l} : list Line :=
  match l with
  | [] => []
  | x :: t =>
      render (path ++ [i]) None x (match t with [] => true | _ => false end)
      ++ render_items path (S i) t
  end.

Fixpoint render_props (path : list nat) (i : nat)
  (l : list (jsstring * JsonValue)) {struct l} : list Line :=
  match l with
  | [] => []
  | (k, x) :: t =>
      render (path ++ [i]) (Some k) x
             (match t with [] => true | _ => false end)
      ++ render_props path (S i) t
  end.

End Render.

(** The collapse flags of a freshly mounted tree: [useState(depth > 3)],
    the depth of a node being the length of its path. *)
Definition mounted (path : list nat) : bool := Nat.ltb 3 (length path).

(** What [JsonTreeView] shows for a document: the message of the parse
    error, or the lines of the root node. *)
Definition treeView (toLowerCase : jsstring -> jsstring)
  (collapsed : list nat -> bool) (searchTerm : jsstring) (filterMode : bool)
  (jsonString : jsstring) : jsstring + list Line :=
  let root data :=
    inr (render toLowerCase searchTerm filterMode collapsed [] None data true) in
  match JSON.parse jsonString with
  | inr message => if truthy message then inl message else root JNull
  | inl data => root data
  end.

End TreeView.

(** ** [evaluatePath] of [JsonOutput.jsx] *)

Module PathEval.

Import JSON RegExp JsonUtils.

(** What a property access can give: [undefined], a JSON value, or a value
    of the host that is not JSON data (a method or an object found on the
    built-in prototypes, and whatever is read from those).  The host's
    values are the parameter [Host]. *)
Inductive JsVal (Host : Type) : Type :=
| Undefined
| Json (v : JsonValue)
| Builtin (h : Host).

Arguments Undefined {Host}.
Arguments Json {Host} v.
Arguments Builtin {Host} h.

(** A canonical numeric string that denotes a natural number. *)
Definition canonical_index (k : jsstring) : option N :=
  match k with
  | [] => None
  | d :: more =>
      if forallb isDigit k && negb (N.eqb d 48 && nonempty more)
      then Some (JSNumber.digits_value k) else None
  end.

(** The own properties of a value (after [ToObject] for a primitive). *)
Definition own_property (v : JsonValue) (key : jsstring) : option JsonValue :=
  match v with
  | JString s =>
      if jsstring_eqb key (js "length")
      then Some (JNumber (JSNumber.of_N (N.of_nat (length s))))
      else match canonical_index key with
           | Some n =>
               match nth_error s (N.to_nat n) with
               | Some c => Some (JString [c])
               | None => None
               end
           | None => None
           end
  | JArray items =>
      if jsstring_eqb key (js "length")
      then Some (JNumber (JSNumber.of_N (N.of_nat (length items))))
      else match array_index key with
           | Some n => nth_error items (N.to_nat n)
           | None => None
           end
  | JObject props => own key props
  | _ => None
  end.

Section Evaluate.

(** The host: its values that are not JSON data, what the prototype chain
    of a JSON value gives for a name that is not an own property
    ([String.prototype], [Array.prototype], [Number.prototype],
    [Boolean.prototype] and [Object.prototype]; [undefined] when the chain
    has no such property), and the property [key] of a host value. *)
Variable Host : Type.
Variable inherited : JsonValue -> jsstring -> JsVal Host.
Variable member : Host -> jsstring -> JsVal Host.

(** [v[key]] for a value [v] other than [null] *)
Definition get (v : JsonValue) (key : jsstring) : JsVal Host :=
  match own_property v key with
  | Some x => Json x
  | None => inherited v key
  end.

(** [current[key]] for a [current] other than [null] and [undefined], on
    which the access throws; the loop returns before it gets there. *)
Definition property (current : JsVal Host) (key : jsstring) : JsVal Host :=
  match current with
  | Undefined => Undefined
  | Json v => get v key
  | Builtin h => member h key
  end.

(** [/^\$\.?/] *)
Definition root_prefix : regex := cat [Bos; code 36; Opt (code 46)].

(** The three kinds of path parts: a name, [[digits]], a quoted key in
    brackets. *)
Definition part_pattern : regex :=
  Group 1
    (Alt (Plus (none_of [91; 46; 93]%N))
      (Alt (cat [code 91; Plus (Chr isDigit); code 93])
           (cat [code 91; any_of [39; 34]%N; Plus (none_of [39; 34]%N);
                 any_of [39; 34]%N; code 93]))).

(** [/^\d+$/] *)
Definition all_digits : regex := cat [Bos; Plus (Chr isDigit); Eos].

(** A quotation mark or apostrophe at either end. *)
Definition end_quote : regex :=
  Alt (Seq Bos (any_of [39; 34]%N)) (Seq (any_of [39; 34]%N) Eos).

(** [part.slice(1, -1)] *)
Definition inner (part : jsstring) : jsstring := removelast (tl part).

(** [parseInt(content, 10)] on a string of digits, as a property key. *)
Definition index_key (content : jsstring) : jsstring :=
  JSNumber.toString (JSNumber.of_N (JSNumber.digits_value content)).

(** One turn of the loop over the parts. *)
Definition walk (current : JsVal Host) (part : jsstring) : JsVal Host :=
  match current with
  | Undefined | Json JNull => Undefined
  | _ =>
      if startsWith [91%N] part then
        let content := inner part in
        if test all_digits content then property current (index_key content)
        else property current (replace_all end_quote (fun _ => []) content)
      else property current part
  end.

(** The property name a part stands for in [walk]. *)
Definition part_key (part : jsstring) : jsstring :=
  if startsWith [91%N] part then
    if test all_digits (inner part) then index_key (inner part)
    else replace_all end_quote (fun _ => []) (inner part)
  else part.

Definition evaluatePath (obj : JsonValue) (path : jsstring) : JsVal Host :=
  let path := replace_first root_prefix (fun _ => []) path in
  if negb (truthy path) then Json obj
  else
    match match_all part_pattern path with
    | None => Undefined
    | Some parts => fold_left walk parts (Json obj)
    end.

(** One property access of the loop: nothing below [null] or [undefined],
    otherwise the property of that name. *)
Definition select (current : JsVal Host) (key : jsstring) : JsVal Host :=
  match current with
  | Undefined | Json JNull => Undefined
  | _ => property current key
  end.

End Evaluate.

(** *** Paths written with a leading [$]

    The parts of such a path: [.name], [[digits]] and a key in brackets
    between two quotation marks or apostrophes. *)
Inductive Segment : Type :=
| Name (n : jsstring)
| Index (digits : jsstring)
| Quoted (q1 : char16) (key : jsstring) (q2 : char16).

Definition isQuote (c : char16) : bool := one_of [39; 34]%N c.

(** The segments the three alternatives of [part_pattern] describe. *)
Definition segment_ok (g : Segment) : bool :=
  match g with
  | Name n => nonempty n && forallb (fun c => negb (one_of [91; 46; 93]%N c)) n
  | Index digits => nonempty digits && forallb isDigit digits
  | Quoted q1 key q2 =>
      isQuote q1 && isQuote q2 && nonempty key
      && forallb (fun c => negb (isQuote c)) key
  end.

Definition segment_text (g : Segment) : jsstring :=
  match g with
  | Name n => 46%N :: n
  | Index digits => 91%N :: digits ++ [93%N]
  | Quoted q1 key q2 => 91%N :: q1 :: key ++ [q2; 93%N]
  end.

(** The part of the path [part_pattern] matches for a segment. *)
Definition segment_token (g : Segment) : jsstring :=
  match g with
  | Name n => n
  | _ => segment_text g
  end.

(** The path [$] followed by the segments. *)
Definition path_text (segments : list Segment) : jsstring :=
  36%N :: concat (List.map segment_text segments).

(** The property name a segment selects. *)
Definition segment_key (g : Segment) : jsstring :=
  match g with
  | Name n => n
  | Index digits => index_key digits
  | Quoted _ key _ => key
  end.

(** A small host for the examples: a prototype member is kept by its name.
    The prototype chains carry the properties of [Object.prototype] only,
    and no property of a member is recorded; no example reads one. *)
Definition object_prototype (v : JsonValue) (key : jsstring) : JsVal jsstring :=
  match v with
  | JNull => Undefined
  | _ =>
      if existsb (fun n => jsstring_eqb key (js n))
           ["constructor"; "hasOwnProperty"; "isPrototypeOf";
            "propertyIsEnumerable"; "toLocaleString"; "toString"; "valueOf";
            "__proto__"; "__defineGetter__"; "__defineSetter__";
            "__lookupGetter__"; "__lookupSetter__"]%string
      then Builtin key else Undefined
  end.

Definition no_members (h key : jsstring) : JsVal jsstring := Undefined.

End PathEval.

(** ** The other [utils/jsonUtils.js]: formatting with a fixed error *)

Module JsonUtils0.

Import RegExp JsonUtils.

(** [/position (\d+)/] *)
Definition position_pattern : regex :=
  Seq (word (js "position ")) (Group 1 (Plus (Chr isDigit))).

(** [validateJson]: the message of the exception, followed by the position
    found in it, if any. *)
Definition validateJson (jsonString : jsstring) : Validation :=
  if negb (truthy (trim jsonString))
  then {| isValid := false; verror := Some (js "Input is empty") |}
  else match JSON.parse jsonString with
       | inl _ => {| isValid := true; verror := None |}
       | inr message =>
           let position :=
             match match_first position_pattern message with
             | Some m => dollar m 1
             | None => []
             end in
           {| isValid := false;
              verror := Some (message ++
                                if truthy position
                                then js " at position " ++ position
                                else []) |}
       end.

Definition formatJson (jsonString : jsstring) (indent : Z) : outcome jsstring :=
  match JSON.parse jsonString with
  | inl parsed => Return (JSON.stringify parsed indent)
  | inr _ => Throw (js "Invalid JSON")
  end.

Definition minifyJson (jsonString : jsstring) : outcome jsstring :=
  match JSON.parse jsonString with
  | inl parsed => Return (JSON.stringify parsed 0)
  | inr _ => Throw (js "Invalid JSON")
  end.

(** [countLines] *)
Definition countLines (str : jsstring) : nat := length (split 10%N str).

End JsonUtils0.

(** ** The first [JsonFormatter.jsx]: input and output panels

    src/src/components/JsonFormatter.jsx works with the functions of
    src/src/utils/jsonUtils.js. *)

Module Formatter0.

Import JsonUtils JsonUtils0.

Inductive View : Type := input | output.

Record State : Type := {
  inputJson : jsstring;
  outputJson : jsstring;
  error : option jsstring;
  indentSize : Z;
  activeView : View;
  darkMode : bool
}.

Definition initial : State :=
  {| inputJson := []; outputJson := []; error := None; indentSize := 2;
     activeView := input; darkMode := false |}.

Definition setInputJson (s : jsstring) (st : State) : State :=
  {| inputJson := s; outputJson := outputJson st; error := error st;
     indentSize := indentSize st; activeView := activeView st;
     darkMode := darkMode st |}.

Definition setOutputJson (s : jsstring) (st : State) : State :=
  {| inputJson := inputJson st; outputJson := s; error := error st;
     indentSize := indentSize st; activeView := activeView st;
     darkMode := darkMode st |}.

Definition setError (e : option jsstring) (st : State) : State :=
  {| inputJson := inputJson st; outputJson := outputJson st; error := e;
     indentSize := indentSize st; activeView := activeView st;
     darkMode := darkMode st |}.

Definition setIndentSize (n : Z) (st : State) : State :=
  {| inputJson := inputJson st; outputJson := outputJson st;
     error := error st; indentSize := n; activeView := activeView st;
     darkMode := darkMode st |}.

Definition setActiveView (v : View) (st : State) : State :=
  {| inputJson := inputJson st; outputJson := outputJson st;
     error := error st; indentSize := indentSize st; activeView := v;
     darkMode := darkMode st |}.

Definition setDarkMode (b : bool) (st : State) : State :=
  {| inputJson := inputJson st; outputJson := outputJson st;
     error := error st; indentSize := indentSize st;
     activeView := activeView st; darkMode := b |}.

(** [handleFormat] and [handleMinify] do not catch what [formatJson] and
    [minifyJson] throw. *)
Definition handleFormat (st : State) : outcome State :=
  let st := setError None st in
  let validation := validateJson (inputJson st) in
  if negb (isValid validation)
  then Return (setOutputJson [] (setError (verror validation) st))
  else
    match formatJson (inputJson st) (indentSize st) with
    | Throw message => Throw message
    | Return formatted =>
        Return (setActiveView output (setOutputJson formatted st))
    end.

Definition handleMinify (st : State) : outcome State :=
  let st := setError None st in
  let validation := validateJson (inputJson st) in
  if negb (isValid validation)
  then Return (setOutputJson [] (setError (verror validation) st))
  else
    match minifyJson (inputJson st) with
    | Throw message => Throw message
    | Return minified =>
        Return (setActiveView output (setOutputJson minified st))
    end.

Definition handleClear (st : State) : State :=
  setActiveView input (setError None (setOutputJson [] (setInputJson [] st))).

(** The text [handleCopy] writes to the clipboard and [handleDownload] puts
    into the file [formatted.json], if any. *)
Definition exported (st : State) : option jsstring :=
  if truthy (outputJson st) then Some (outputJson st) else None.

Definition handleEditOriginal (st : State) : State := setActiveView input st.

Definition handleEditResult (st : State) : State :=
  setActiveView input
    (if truthy (outputJson st) then setInputJson (outputJson st) st else st).

(** What can happen to the component: the callbacks handed to [JsonInput]
    and [JsonOutput]. *)
Inductive Event : Type :=
| Change (text : jsstring)      (* typing, a file read, a fetched text *)
| Format
| Minify
| Clear
| SetIndentSize (n : Z)
| ToggleTheme
| EditOriginal
| EditResult.

Definition handle (e : Event) (st : State) : outcome State :=
  match e with
  | Change text => Return (setInputJson text st)
  | Format => handleFormat st
  | Minify => handleMinify st
  | Clear => Return (handleClear st)
  | SetIndentSize n => Return (setIndentSize n st)
  | ToggleTheme => Return (setDarkMode (negb (darkMode st)) st)
  | EditOriginal => Return (handleEditOriginal st)
  | EditResult => Return (handleEditResult st)
  end.

(** The events in order; an exception ends the run. *)
Fixpoint play (events : list Event) (st : State) : outcome State :=
  match events with
  | [] => Return st
  | e :: more =>
      match handle e st with
      | Return st' => play more st'
      | Throw message => Throw message
      end
  end.

(** An error is never shown beside a result. *)
Definition settled (st : State) : Prop :=
  error st = None \/ outputJson st = [].

End Formatter0.

(** ** Notions used to state what matching and replacing do *)

Module Matching.

Import RegExp.

(** No capture group occurs in the pattern. *)
Fixpoint group_free (r : regex) : bool :=
  match r with
  | Seq r1 r2 | Alt r1 r2 => group_free r1 && group_free r2
  | Star r1 | LazyStar r1 => group_free r1
  | Group _ _ => false
  | _ => true
  end.

(** [erased p a b]: the text [a] is [b] with some code units satisfying [p]
    taken out, the others kept in order. *)
Inductive erased (p : char16 -> bool) : jsstring -> jsstring -> Prop :=
| erased_nil : erased p [] []
| erased_keep (c : char16) (a b : jsstring) :
    erased p a b -> erased p (c :: a) (c :: b)
| erased_drop (c : char16) (a b : jsstring) :
    p c = true -> erased p a b -> erased p a (c :: b).

End Matching.

(** ** Notions used to state the round trip of formatting *)

Module RoundTrip.

Import JSNumber JSON.

(** The Number read back from the printed form of [x]. *)
Definition reread (x : Number) : Number :=
  match lex_number (toString x) with
  | POk y _ => y
  | PErr _ => x
  end.

(** [x] is finite and its printed form is a number literal that reads back
    as a Number equal to [x]. *)
Definition number_survives (x : Number) : bool :=
  isFinite x &&
  match lex_number (toString x) with
  | POk y [] => JSNumber.eqb x y
  | _ => false
  end.

Fixpoint numbers_survive (v : JsonValue) {struct v} : bool :=
  match v with
  | JNumber x => number_survives x
  | JArray items => forallb numbers_survive items
  | JObject props => forallb (fun kv => numbers_survive (snd kv)) props
  | _ => true
  end.

(** Structural equality of JSON values: same shape, same keys in the same
    order, equal strings and booleans, numerically equal numbers. *)
Fixpoint json_eqb (a b : JsonValue) {struct a} : bool :=
  match a, b with
  | JNull, JNull => true
  | JBool x, JBool y => Bool.eqb x y
  | JNumber x, JNumber y => JSNumber.eqb x y
  | JString s, JString t => jsstring_eqb s t
  | JArray xs, JArray ys =>
      (fix all2 (l r : list JsonValue) {struct l} : bool :=
         match l, r with
         | [], [] => true
         | x :: l', y :: r' => json_eqb x y && all2 l' r'
         | _, _ => false
         end) xs ys
  | JObject ps, JObject qs =>
      (fix all2 (l r : list (jsstring * JsonValue)) {struct l} : bool :=
         match l, r with
         | [], [] => true
         | p :: l', q :: r' =>
             jsstring_eqb (fst p) (fst q) && json_eqb (snd p) (snd q)
             && all2 l' r'
         | _, _ => false
         end) ps qs
  | _, _ => false
  end.

(** The value with every number replaced by its re-read form. *)
Fixpoint renumber (v : JsonValue) {struct v} : JsonValue :=
  match v with
  | JNumber x => JNumber (reread x)
  | JArray items => JArray (List.map renumber items)
  | JObject props =>
      JObject (List.map (fun kv => (fst kv, renumber (snd kv))) props)
  | _ => v
  end.

(** What may follow a serialised value: the end of the text, or a code unit
    that cannot continue a number literal. *)
Definition delimited (rest : jsstring) : bool :=
  match rest with
  | [] => true
  | c :: _ => negb (isDigit c || N.eqb c 46 || N.eqb c 101 || N.eqb c 69)
  end.

Definition ws_only (w : jsstring) : bool := forallb isJsonWs w.

(** The line break and indentation [JSON.stringify] puts before an element
    or a closing bracket when the gap is not empty. *)
Definition lead (gap indent : jsstring) : jsstring :=
  match gap with
  | [] => []
  | _ => 10%N :: indent
  end.

(** Enumeration order of own keys: array indices first, ascending, then the
    other keys; no key twice. *)
Definition precedes (k k' : jsstring) : bool :=
  match array_index k, array_index k' with
  | Some n, Some n' => (n <? n')%N
  | Some _, None => true
  | None, Some _ => false
  | None, None => true
  end.

Fixpoint canonical (keys : list jsstring) : bool :=
  match keys with
  | [] => true
  | k :: t =>
      negb (existsb (jsstring_eqb k) t) && forallb (precedes k) t
      && canonical t
  end.

Fixpoint well_formed (v : JsonValue) {struct v} : bool :=
  match v with
  | JArray items => forallb well_formed items
  | JObject props =>
      canonical (List.map fst props)
      && forallb (fun kv => well_formed (snd kv)) props
  | _ => true
  end.

(** Fuel that [parse_value] needs on the serialised form of a value. *)
Fixpoint cost (v : JsonValue) {struct v} : nat :=
  match v with
  | JArray items => 1 + list_sum (List.map (fun x => 1 + cost x) items)
  | JObject props =>
      1 + list_sum (List.map (fun kv => 1 + cost (snd kv)) props)
  | _ => 1
  end.

(** [parse_value] reads the serialised form of [x] back, after any white
    space and in front of any delimiter. *)
Definition reads_back (gap indent : jsstring) (x : JsonValue) : Prop :=
  forall w rest fuel,
    ws_only w = true -> delimited rest = true -> cost x <= fuel ->
    parse_value fuel (w ++ serialize gap indent x ++ rest)
    = POk (renumber x) rest.

(** Every number of a value satisfies [q]. *)
Fixpoint numbers_all (q : Number -> bool) (v : JsonValue) {struct v} : bool :=
  match v with
  | JNumber x => q x
  | JArray items => forallb (numbers_all q) items
  | JObject props => forallb (fun kv => numbers_all q (snd kv)) props
  | _ => true
  end.

(** No number of the value is an infinity or NaN. *)
Definition numbers_finite (v : JsonValue) : bool := numbers_all isFinite v.

(** A binary64 value: the mantissa has at most 53 bits and is normalised
    unless the exponent is the least one. *)
Definition is_binary64 (x : Number) : bool := valid_binary prec emax x.

End RoundTrip.

(** ** Notions used to state how a decimal is rounded to a Number *)

Module Rounding.

(** The position of the fraction [n / d] between [n / d] rounded down and
    the next integer, as [binary_round_aux] takes it. *)
Definition loc_of (n d : Z) : location :=
  if (n mod d =? 0)%Z then loc_Exact
  else loc_Inexact (2 * (n mod d) ?= d)%Z.

(** The mantissa with its round and sticky bits that stands for [n / d]. *)
Definition rec_of (n d : Z) : shr_record :=
  shr_record_of_loc (n / d) (loc_of n d).

(** The fraction [n / d] and the exponent [ex] that [of_decimal] hands to
    [binary_round_aux] for [c * 10^p]: the value is [(n / d) * 2^ex]. *)
Definition decimal_repr (c p : Z) : Z * Z * Z :=
  if (0 <=? p)%Z then
    let N := (c * 10 ^ p)%Z in
    let t := Z.max 0 (53 - Zdigits2 N) in
    (N * 2 ^ t, 1, - t)%Z
  else
    let d := (10 ^ (- p))%Z in
    let s := Z.max 0 (Z.log2 d + 64 - Z.log2 c) in
    (c * 2 ^ s, d, - s)%Z.

End Rounding.

(** ** Example data *)

Module Examples.

Import JSNumber JSON Controller.

Definition blank_chrome : Chrome :=
  {| darkMode := false; showUrlBar := false; urlInput := [];
     urlLoading := false; showSnippets := false; showSaveDlg := false;
     snippetName := []; sidebarOpen := true; fontSize := 14 |}.

(** A session in tree view whose document [{a: }] cannot be repaired. *)
Definition broken_session : State :=
  {| viewMode := tree; value := js " {a: } "; formattedVal := js "{}";
     error := []; toast := []; indentSize := 2; snippets := [];
     activeId := Some 7%Z; undoStack := [js "{}"]; value_ref := js " {a: } ";
     undoLen := 1; chrome := blank_chrome |}.

(** The document [[[[[[1]]]]]]: arrays at depths 0 to 4. *)
Definition nested5 : JsonValue :=
  JArray [JArray [JArray [JArray [JArray [JNumber (JSNumber.of_N 1)]]]]].

Definition users_doc : JsonValue :=
  JObject [(js "users", JArray [JObject [(js "name", JString (js "Al"))]]);
           (js "n", JNumber (JSNumber.of_N 5))].

Definition sample_text : jsstring :=
  jsq "{`b`: [1, -2.5e-7, 0.1, 1e21, -0], `a`: {`10`: `x\ny`, `9`: null, `k`: [true, false, [], {}]}}".

Definition sample_value : JsonValue :=
  JObject
    [(js "b", JArray [JNumber (of_decimal false 1 0);
                      JNumber (of_decimal true 25 (-8));
                      JNumber (of_decimal false 1 (-1));
                      JNumber (of_decimal false 1 21);
                      JNumber (S754_zero true)]);
     (js "a", JObject [(js "9", JNull);
                       (js "10", JString [120; 10; 121]%N);
                       (js "k", JArray [JBool true; JBool false;
                                        JArray []; JObject []])])].

End Examples.

(* ================================================================== *)
(** * Part II.  Properties                                             *)
(* ================================================================== *)

(** ** The repair function [fixJson] *)

Section FixJson.

Import JSON JsonUtils.

Lemma error_message_truthy (s rest : jsstring) :
  truthy (error_message s rest) = true.
Proof. destruct rest; reflexivity. Qed.

Lemma parse_error_truthy (s msg : jsstring) :
  parse s = inr msg -> truthy msg = true.
Proof.
  unfold parse.
  destruct (parse_value _ s) as [v rest|rest].
  - destruct (skip_ws rest) eqn:E; [discriminate|].
    intros H; injection H as <-. reflexivity.
  - intros H; injection H as <-. apply error_message_truthy.
Qed.

(** Every error [fixJson] reports is a non-empty message. *)
Lemma fixJson_error_truthy (raw msg : jsstring) :
  error (fixJson raw) = Some msg -> truthy msg = true.
Proof.
  unfold fixJson.
  destruct (truthy (trim raw)); simpl.
  - destruct (parse raw) as [v|e] eqn:E; simpl; [discriminate|].
    destruct (parse (patch raw)) as [v'|e'] eqn:E'; simpl; [discriminate|].
    intros H; injection H as <-. eapply parse_error_truthy; eassumption.
  - intros H; injection H as <-. reflexivity.
Qed.

(** The repair examples of the specification. *)
Lemma fixJson_examples :
  fixJson (jsq "{name: `John`, age: 30,}")
  = {| fixed := jsq "{`name`: `John`, `age`: 30}"; wasFixed := true;
       error := None |}
  /\ fixJson (js "{'a': 'b'}")
     = {| fixed := jsq "{`a`: `b`}"; wasFixed := true; error := None |}
  /\ fixJson (jsq "{`a`: undefined}")
     = {| fixed := jsq "{`a`: null}"; wasFixed := true; error := None |}
  /\ fixJson (js "not json at all")
     = {| fixed := js "not json at all"; wasFixed := false;
          error := Some (js "Unexpected token o in JSON at position 1") |}
  /\ fixJson (js "  ")
     = {| fixed := js "  "; wasFixed := false;
          error := Some (js "Input is empty") |}.
Proof. repeat split; vm_compute; reflexivity. Qed.

(** C1. An input that is not blank and already parses under strict JSON is
    returned verbatim: [fixed] is the input itself, [wasFixed] is false and
    there is no error, whatever the repair passes would have made of it. *)
Theorem fixJson_valid_verbatim (raw : jsstring) (v : JsonValue) :
  truthy (trim raw) = true ->
  parse raw = inl v ->
  fixJson raw = {| fixed := raw; wasFixed := false; error := None |}.
Proof.
  intros Hne Hok. unfold fixJson. rewrite Hne, Hok. reflexivity.
Qed.

(** The passes would rewrite this valid text (its string [True] would become
    [true]); [fixJson] hands it back untouched. *)
Lemma fixJson_valid_verbatim_witness :
  patch (jsq "{`a`: `True`, `b`: [1, 2]}") <> jsq "{`a`: `True`, `b`: [1, 2]}"
  /\ fixJson (jsq "{`a`: `True`, `b`: [1, 2]}")
     = {| fixed := jsq "{`a`: `True`, `b`: [1, 2]}";
          wasFixed := false; error := None |}.
Proof.
  split.
  - vm_compute. discriminate.
  - apply (@fixJson_valid_verbatim (jsq "{`a`: `True`, `b`: [1, 2]}")
             (JObject [(js "a", JString (js "True"));
                       (js "b", JArray [JNumber (JSNumber.of_N 1);
                                        JNumber (JSNumber.of_N 2)])]));
      vm_compute; reflexivity.
Defined.

(** C2 (the code departs from the claim).  Only the two comment passes
    skip over double-quoted string literals; the later passes rewrite inside
    them.  On [{a: "True"}] the string content [True] comes back as [true];
    the comma pass turns the string [",}"] into ["}"]. *)
Theorem fixJson_rewrites_inside_strings :
  fixJson (jsq "{a: `True`}")
  = {| fixed := jsq "{`a`: `true`}"; wasFixed := true; error := None |}
  /\ parse (jsq "{`a`: `true`}") = inl (JObject [(js "a", JString (js "true"))])
  /\ strip_line_comments (jsq "{a: `x // y`}") = jsq "{a: `x // y`}"
  /\ strip_block_comments (jsq "{a: `x /* y */`}") = jsq "{a: `x /* y */`}"
  /\ strip_trailing_commas (jsq "{`a`: `,}`}") = jsq "{`a`: `}`}".
Proof. repeat split; vm_compute; reflexivity. Qed.

(** C3. When an input fails strict parsing both as given and after the
    repair passes, [fixJson] returns the input itself (not the patched
    text), [wasFixed] false, and an error that describes the ORIGINAL text:
    the message [e] of the failed parse of [raw] (or [Input is empty] when
    [raw] is blank), never the message [e'] of the patched text. *)
Theorem fixJson_reports_original_error (raw e e' : jsstring) :
  parse raw = inr e ->
  parse (patch raw) = inr e' ->
  fixJson raw
  = {| fixed := raw; wasFixed := false;
       error := Some (if truthy (trim raw) then e else js "Input is empty") |}.
Proof.
  intros Hraw Hpatched. unfold fixJson.
  destruct (truthy (trim raw)); simpl; [|reflexivity].
  rewrite Hraw. simpl. rewrite Hpatched. reflexivity.
Qed.

(** On [{a: }] the two messages differ: the original fails at position 1,
    the patched text [{"a": }] at position 6. *)
Lemma fixJson_reports_original_error_witness :
  parse (js "{a: }") = inr (js "Unexpected token a in JSON at position 1")
  /\ parse (patch (js "{a: }"))
     = inr (js "Unexpected token } in JSON at position 6")
  /\ fixJson (js "{a: }")
     = {| fixed := js "{a: }"; wasFixed := false;
          error := Some (js "Unexpected token a in JSON at position 1") |}.
Proof.
  split; [vm_compute; reflexivity|].
  split; [vm_compute; reflexivity|].
  apply (@fixJson_reports_original_error (js "{a: }")
           (js "Unexpected token a in JSON at position 1")
           (js "Unexpected token } in JSON at position 6"));
    vm_compute; reflexivity.
Defined.

End FixJson.

(** ** The session state controller *)

Section ControllerProps.

Import JsonUtils Controller Examples.

Local Arguments firstn : simpl never.
Local Arguments skipn : simpl never.

Lemma firstn_length_le {A} (n : nat) (l : list A) : length (firstn n l) <= n.
Proof.
  revert l; induction n as [|n IH]; intros [|x l]; simpl; try lia.
  specialize (IH l). lia.
Qed.

Lemma pushUndo_bounded (st : State) :
  length (undoStack st) <= 50 -> length (undoStack (pushUndo st)) <= 50.
Proof.
  intros H. unfold pushUndo.
  destruct (truthy (value_ref st)); cbn [negb]; [|exact H].
  change (length (firstn 50 (value_ref st :: undoStack st)) <= 50).
  apply firstn_length_le.
Qed.

Lemma handleUndo_bounded (st : State) :
  length (undoStack st) <= 50 -> length (undoStack (handleUndo st)) <= 50.
Proof.
  intros H. unfold handleUndo.
  destruct (undoStack st) as [|prev rest] eqn:E; simpl in *; [rewrite E|]; simpl; lia.
Qed.

Lemma handleFormat_bounded (st : State) :
  length (undoStack st) <= 50 -> length (undoStack (handleFormat st)) <= 50.
Proof.
  intros H. unfold handleFormat.
  destruct (truthy (trim (value_ref (setError [] st)))); simpl; [|exact H].
  destruct (reported _); simpl; [exact H|].
  destruct (formatJson _ _); simpl;
    apply (pushUndo_bounded (setError [] st)); exact H.
Qed.

Lemma handleMinify_bounded (st : State) :
  length (undoStack st) <= 50 -> length (undoStack (handleMinify st)) <= 50.
Proof.
  intros H. unfold handleMinify.
  destruct (truthy (trim (value st))); simpl; [|exact H].
  destruct (reported _); simpl; [exact H|].
  destruct (minifyJson _); simpl;
    apply (pushUndo_bounded (setError [] st)); exact H.
Qed.

Lemma step_bounded (a : Action) (st : State) :
  length (undoStack st) <= 50 -> length (undoStack (step a st)) <= 50.
Proof.
  intros H. destruct a; simpl.
  - exact H.
  - apply handleUndo_bounded, H.
  - apply handleFormat_bounded, H.
  - apply handleMinify_bounded, H.
  - unfold handleClear. destruct (_ && _); simpl; [exact H|].
    apply pushUndo_bounded, H.
  - apply pushUndo_bounded, H.
  - apply pushUndo_bounded, H.
  - unfold handleSwitchSnippet. destruct (sameId _ _); simpl; [exact H|].
    apply pushUndo_bounded, H.
  - apply pushUndo_bounded, H.
  - apply pushUndo_bounded, H.
  - unfold handleDeleteSnippet. destruct (sameId _ _); exact H.
  - unfold handleSidebarDelete. destruct (sameId _ _); exact H.
Qed.

Lemma run_bounded (actions : list Action) (st : State) :
  length (undoStack st) <= 50 -> length (undoStack (run actions st)) <= 50.
Proof.
  revert st; induction actions as [|a more IH]; intros st H; simpl.
  - exact H.
  - apply IH, step_bounded, H.
Qed.

(** Typing a non-empty text and pressing New pushes that text. *)
Lemma type_new_stack (t : jsstring) (st : State) :
  truthy t = true ->
  undoStack (step New (step (Type_ t) st)) = firstn 50 (t :: undoStack st).
Proof.
  intros Ht. simpl. unfold handleNew, typed, pushUndo. simpl.
  rewrite Ht. reflexivity.
Qed.

Lemma pushes_stack (texts : list jsstring) (st : State) :
  Forall (fun t => truthy t = true) texts ->
  length (undoStack st) <= 50 ->
  undoStack (run (flat_map (fun t => [Type_ t; New]) texts) st)
  = firstn 50 (rev texts ++ undoStack st).
Proof.
  intros Hall. revert st.
  induction Hall as [|t more Ht _ IH]; intros st Hlen.
  - simpl. symmetry. apply firstn_all2. exact Hlen.
  - change (run (flat_map (fun t0 => [Type_ t0; New]) (t :: more)) st)
      with (run (flat_map (fun t0 => [Type_ t0; New]) more)
                (step New (step (Type_ t) st))).
    rewrite IH.
    + rewrite type_new_stack by exact Ht.
      simpl rev. rewrite <- app_assoc. simpl app.
      rewrite !firstn_app, firstn_firstn.
      f_equal. f_equal. lia.
    + apply step_bounded, step_bounded, Hlen.
Qed.

Lemma hd_rev_last {A} (l : list A) (d : A) : nth 0 (rev l) d = last l d.
Proof.
  destruct l using rev_ind; [reflexivity|].
  rewrite rev_app_distr, last_last. reflexivity.
Qed.

Lemma undo_iter (k : nat) (st : State) :
  k <= length (undoStack st) ->
  undoStack (Nat.iter k handleUndo st) = skipn k (undoStack st)
  /\ (1 <= k -> value (Nat.iter k handleUndo st)
                = nth (k - 1) (undoStack st) []).
Proof.
  induction k as [|k IH]; intros Hk.
  - split; [reflexivity|lia].
  - destruct IH as [IHs IHv]; [lia|].
    simpl Nat.iter. unfold handleUndo at 1 3. rewrite IHs.
    destruct (skipn k (undoStack st)) as [|prev rest] eqn:E.
    + exfalso. apply (f_equal (@length _)) in E.
      rewrite length_skipn in E. simpl in E. lia.
    + simpl. split.
      * replace (S k) with (1 + k) by lia. rewrite <- skipn_skipn, E.
        reflexivity.
      * intros _. replace (k - 0) with k by lia.
        rewrite <- (firstn_skipn k (undoStack st)) at 1.
        rewrite E, app_nth2; rewrite length_firstn; [|lia].
        replace (k - Nat.min k (length (undoStack st))) with 0 by lia.
        reflexivity.
Qed.

(** C8. The undo stack never holds more than 50 entries, whatever the user
    does; a push prepends the document text and keeps the 50 most recent
    entries (an empty document is not pushed); undo removes the newest entry
    and restores it.  After 51 pushes (here: 51 times typing a text and pressing
    New) the first-pushed text is gone from the stack, which holds the other
    50, newest first: one undo restores the last pushed text, fifty undos end
    on the second pushed one, and a further undo does nothing. *)
Theorem undo_stack_bounded (st : State) (texts : list jsstring) :
  length (undoStack st) <= 50 ->
  Forall (fun t => truthy t = true) texts ->
  length texts = 51 ->
  (forall actions, length (undoStack (run actions st)) <= 50)
  /\ (truthy (value_ref st) = true ->
      undoStack (pushUndo st) = firstn 50 (value_ref st :: undoStack st))
  /\ (truthy (value_ref st) = false -> pushUndo st = st)
  /\ (forall prev rest, undoStack st = prev :: rest ->
      undoStack (handleUndo st) = rest /\ value (handleUndo st) = prev)
  /\ let st' := run (flat_map (fun t => [Type_ t; New]) texts) st in
     undoStack st' = rev (tl texts)
     /\ length (undoStack st') = 50
     /\ value (handleUndo st') = last texts []
     /\ value (Nat.iter 50 handleUndo st') = nth 1 texts []
     /\ undoStack (Nat.iter 50 handleUndo st') = []
     /\ handleUndo (Nat.iter 50 handleUndo st') = Nat.iter 50 handleUndo st'.
Proof.
  intros Hlen Hall H51.
  split; [intros actions; apply run_bounded, Hlen|].
  split; [intros Ht; unfold pushUndo; rewrite Ht; reflexivity|].
  split; [intros Ht; unfold pushUndo; rewrite Ht; reflexivity|].
  split.
  { intros prev rest E. unfold handleUndo. rewrite E. simpl. auto. }
  intros st'.
  assert (Hstack : undoStack st' = rev (tl texts)).
  { unfold st'. rewrite pushes_stack by assumption.
    destruct texts as [|t1 more]; [discriminate|].
    simpl in H51. simpl tl. simpl rev.
    rewrite <- app_assoc, firstn_app, length_rev.
    replace (50 - length more) with 0 by lia.
    simpl. rewrite app_nil_r. apply firstn_all2. rewrite length_rev. lia. }
  assert (Hl50 : length (undoStack st') = 50).
  { rewrite Hstack, length_rev. destruct texts; [discriminate|].
    simpl in *. lia. }
  split; [exact Hstack|]. split; [exact Hl50|].
  destruct (@undo_iter 1 st') as [_ H1]; [lia|].
  destruct (@undo_iter 50 st') as [H50s H50v]; [lia|].
  split.
  { simpl in H1. rewrite H1 by lia. rewrite Hstack.
    destruct texts as [|t1 more]; [discriminate|]. simpl tl.
    rewrite hd_rev_last.
    destruct more; [discriminate|reflexivity]. }
  split.
  { rewrite H50v by lia. rewrite Hstack.
    destruct texts as [|t1 more]; [discriminate|]. simpl tl.
    rewrite rev_nth; rewrite ?length_rev; simpl in H51; [|lia].
    replace (length more - S (50 - 1)) with 0 by lia.
    reflexivity. }
  assert (Hempty : undoStack (Nat.iter 50 handleUndo st') = []).
  { rewrite H50s. apply skipn_all2. lia. }
  split; [exact Hempty|].
  unfold handleUndo at 1. rewrite Hempty. reflexivity.
Qed.

(** The texts [1], [2], ..., [51] pushed on a fresh session: the stack is
    [51; 50; ...; 2]. *)
Lemma undo_stack_bounded_witness :
  let texts := List.map (fun i => JSNumber.decimal (N.of_nat i)) (seq 1 51) in
  let st' := run (flat_map (fun t => [Type_ t; New]) texts)
                 (initial [] [] blank_chrome) in
  undoStack st' = rev (tl texts)
  /\ value (handleUndo st') = js "51"
  /\ value (Nat.iter 50 handleUndo st') = js "2".
Proof.
  intros texts st'.
  destruct (@undo_stack_bounded (initial [] [] blank_chrome) texts)
    as (_ & _ & _ & _ & Hs & _ & H1 & H50 & _).
  - simpl. lia.
  - unfold texts. apply Forall_forall. intros t Ht.
    apply in_map_iff in Ht. destruct Ht as (i & <- & Hi).
    apply in_seq in Hi.
    do 52 (destruct i as [|i]; [try lia; reflexivity|]). lia.
  - reflexivity.
  - split; [exact Hs|]. split; [exact H1|exact H50].
Defined.

(** C9. When [fixJson] reports an error for the (trimmed) current text,
    Format and Minify change nothing but the displayed error message: the
    document text, the undo stack and every other cell stay as they are and
    no undo entry is pushed. *)
Theorem format_minify_atomic_on_error (st : State) (e : jsstring) :
  (JsonUtils.error (fixJson (trim (value_ref st))) = Some e ->
   handleFormat st
   = setError (if truthy (trim (value_ref st)) then e else []) st)
  /\ (JsonUtils.error (fixJson (trim (value st))) = Some e ->
      handleMinify st
      = setError (if truthy (trim (value st)) then e else []) st).
Proof.
  split; intros He.
  - unfold handleFormat. simpl value_ref.
    destruct (truthy (trim (value_ref st))); simpl; [|reflexivity].
    rewrite He. unfold reported.
    rewrite (fixJson_error_truthy _ He). reflexivity.
  - unfold handleMinify.
    destruct (truthy (trim (value st))); simpl; [|reflexivity].
    rewrite He. unfold reported.
    rewrite (fixJson_error_truthy _ He). reflexivity.
Qed.

Lemma format_minify_atomic_on_error_witness :
  handleFormat broken_session
  = setError (js "Unexpected token a in JSON at position 1") broken_session
  /\ handleMinify broken_session
     = setError (js "Unexpected token a in JSON at position 1") broken_session.
Proof.
  destruct (@format_minify_atomic_on_error broken_session
              (js "Unexpected token a in JSON at position 1")) as [Hf Hm].
  split; [apply Hf | apply Hm]; vm_compute; reflexivity.
Defined.

(** C10. An undo on a non-empty stack pops the newest entry and restores it
    as the document text, and with it sets the view mode to raw edit, clears
    the error message and clears the active snippet: the session state after
    the undo (text, view mode, stack, active snippet) and the error depend on
    nothing but the stack.  The cells outside the session state (formatted
    text, indent size, snippets, toolbar state) are left as they are. *)
Theorem undo_resets_session (st : State) (prev : jsstring)
  (rest : list jsstring) :
  undoStack st = prev :: rest ->
  handleUndo st
  = {| viewMode := edit; value := prev; formattedVal := formattedVal st;
       error := []; toast := toast_undone; indentSize := indentSize st;
       snippets := snippets st; activeId := None; undoStack := rest;
       value_ref := prev; undoLen := length rest; chrome := chrome st |}
  /\ session (handleUndo st)
     = {| documentText := prev; sessionView := edit; sessionUndo := rest;
          activeSnippetId := None |}
  /\ error (handleUndo st) = []
  /\ forall st2, undoStack st2 = undoStack st ->
       session (handleUndo st2) = session (handleUndo st)
       /\ error (handleUndo st2) = error (handleUndo st).
Proof.
  intros E.
  assert (H : forall s, undoStack s = prev :: rest ->
            handleUndo s
            = {| viewMode := edit; value := prev;
                 formattedVal := formattedVal s;
                 error := []; toast := toast_undone;
                 indentSize := indentSize s;
                 snippets := snippets s; activeId := None; undoStack := rest;
                 value_ref := prev; undoLen := length rest;
                 chrome := chrome s |}).
  { intros s Es. unfold handleUndo. rewrite Es. reflexivity. }
  split; [apply H, E|].
  rewrite (H st E).
  split; [reflexivity|]. split; [reflexivity|].
  intros st2 E2. rewrite (H st2) by congruence. split; reflexivity.
Qed.

Lemma undo_resets_session_witness :
  session (handleUndo broken_session)
  = {| documentText := js "{}"; sessionView := edit; sessionUndo := [];
       activeSnippetId := None |}
  /\ error (handleUndo broken_session) = [].
Proof.
  destruct (@undo_resets_session broken_session (js "{}") [])
    as (_ & Hs & He & _).
  - reflexivity.
  - split; [exact Hs | exact He].
Defined.

End ControllerProps.

(** ** Search matching and the collapse default of the tree views *)

Section TreeProps.

Import JSON TreeView.

Variable toLowerCase : jsstring -> jsstring.

(** C6.  [matchesSearch] leaves null out, against the claim and against
    the descendant test of the same component.  For a property [k] whose
    value is null and a lowercase search term found in [null] but not in the
    key, the claim's rule makes the node a match, yet it does not match, in
    [JsonNode] and in [JsonItem], although
    [hasMatchingDescendant] compares [String(null)] and counts the object
    that holds the property as having a match.  With Filter on, the object
    is therefore shown open and empty: the line of the only match is left
    out. *)
Theorem matchesSearch_misses_null (k term : jsstring)
  (collapsed : list nat -> bool) :
  truthy term = true ->
  toLowerCase term = term ->
  includes (toLowerCase k) term = false ->
  includes (toLowerCase (js "null")) term = true ->
  spec_matchesSearch toLowerCase (Some k) JNull term = true
  /\ matchesSearch toLowerCase (Some k) JNull term = false
  /\ item_matchesSearch toLowerCase (Some k) JNull term = false
  /\ recurse toLowerCase term (JObject [(k, JNull)]) = true
  /\ hasMatchingDescendant toLowerCase None (JObject [(k, JNull)]) term = true
  /\ render toLowerCase term true collapsed [] None (JObject [(k, JNull)]) true
     = [OpenLine false None 123; CloseLine 125 false].
Proof.
  intros Ht Hl Hk Hn.
  split.
  { unfold spec_matchesSearch. rewrite Hl, Hk. cbn [isLeaf ToString orb andb].
    exact Hn. }
  assert (M : matchesSearch toLowerCase (Some k) JNull term = false).
  { unfold matchesSearch. rewrite Ht, Hk. reflexivity. }
  assert (R : recurse toLowerCase term (JObject [(k, JNull)]) = true).
  { cbn [recurse ToString]. rewrite Hk, Hn. reflexivity. }
  assert (D : hasMatchingDescendant toLowerCase None (JObject [(k, JNull)])
                term = true).
  { unfold hasMatchingDescendant. rewrite Ht, R. cbn [negb isLeaf].
    apply orb_true_r. }
  split; [exact M|].
  split.
  { unfold item_matchesSearch. rewrite Ht, Hk, andb_false_r. reflexivity. }
  split; [exact R|]. split; [exact D|].
  assert (L : hasMatchingDescendant toLowerCase (Some k) JNull term = false).
  { unfold hasMatchingDescendant. rewrite Ht. exact M. }
  assert (T : matchesSearch toLowerCase None (JObject [(k, JNull)]) term
              = false).
  { unfold matchesSearch. rewrite Ht. reflexivity. }
  cbn [render]. rewrite D, L, T, Ht. cbn [andb negb app].
  rewrite orb_true_r. reflexivity.
Qed.

End TreeProps.

Section TreeExamples.

Import JSON TreeView Examples.

(** Searching [null] in the document [{"a": null}] with Filter on. *)
Lemma matchesSearch_misses_null_witness :
  spec_matchesSearch lower_ascii (Some (js "a")) JNull (js "null") = true
  /\ matchesSearch lower_ascii (Some (js "a")) JNull (js "null") = false
  /\ item_matchesSearch lower_ascii (Some (js "a")) JNull (js "null") = false
  /\ recurse lower_ascii (js "null") (JObject [(js "a", JNull)]) = true
  /\ hasMatchingDescendant lower_ascii None (JObject [(js "a", JNull)])
       (js "null") = true
  /\ render lower_ascii (js "null") true mounted [] None
       (JObject [(js "a", JNull)]) true
     = [OpenLine false None 123; CloseLine 125 false].
Proof.
  apply (@matchesSearch_misses_null lower_ascii (js "a") (js "null") mounted);
    reflexivity.
Defined.

Lemma childProps_depth (isArr : bool) (d : nat)
  (kvs : list (jsstring * JsonValue)) (c : NodeProps) :
  In c (childProps isArr d kvs) -> depth c = d + 1.
Proof.
  induction kvs as [|[k v] t IH]; simpl; [tauto|].
  intros [<-|H]; [reflexivity|auto].
Qed.

Lemma nodeAt_depth (path : list nat) (p q : NodeProps) :
  nodeAt p path = Some q -> depth q = depth p + length path.
Proof.
  revert p; induction path as [|i more IH]; intros p; simpl.
  - intros H; injection H as <-. lia.
  - destruct (nth_error (children p) i) as [c|] eqn:E; [|discriminate].
    intros H. apply IH in H. apply nth_error_In in E.
    apply childProps_depth in E. lia.
Qed.

(** C7 (as amended).  In [JsonTreeView] the node at depth [d] (the length of
    its path from the root, root = 0) is mounted collapsed exactly when
    [d > 3], expanded when [d <= 3].  A [JsonItem] of [JsonOutput] is mounted
    expanded at every depth. *)
Theorem collapse_default (data : JsonValue) (path : list nat) (p : NodeProps) :
  nodeAt (rootProps data) path = Some p ->
  depth p = length path
  /\ initialCollapsed p = Nat.ltb 3 (length path)
  /\ (initialCollapsed p = true <-> length path > 3)
  /\ forall q : ItemProps, item_initialCollapsed q = false.
Proof.
  intros H. apply nodeAt_depth in H. simpl in H.
  unfold initialCollapsed. rewrite H.
  split; [reflexivity|]. split; [reflexivity|]. split; [|reflexivity].
  rewrite Nat.ltb_lt. lia.
Qed.

Lemma collapse_default_witness :
  exists p, nodeAt (rootProps nested5) [0; 0; 0; 0] = Some p
            /\ isArray (value p) = true
            /\ initialCollapsed p = true.
Proof.
  exists {| keyName := None; value := JArray [JNumber (JSNumber.of_N 1)];
            isLast := true; depth := 4 |}.
  split; [reflexivity|]. split; [reflexivity|].
  destruct (@collapse_default nested5 [0; 0; 0; 0]
              {| keyName := None; value := JArray [JNumber (JSNumber.of_N 1)];
                 isLast := true; depth := 4 |}) as (_ & H & _).
  - reflexivity.
  - exact H.
Defined.

(** C7 as stated fails on the tree of [JsonOutput]: the container at depth 4
    of [[[[[[1]]]]]] is mounted expanded. *)
Lemma collapse_default_counterexample :
  exists q, itemAt (rootItem nested5) [0; 0; 0; 0] = Some q
            /\ isArray (item_value q) = true
            /\ length [0; 0; 0; 0] > 3
            /\ item_initialCollapsed q = false.
Proof.
  eexists. split; [reflexivity|]. simpl. repeat split. lia.
Qed.

End TreeExamples.

(** ** Path evaluation *)

Section PathProps.

Import JSON RegExp PathEval.

Variable Host : Type.
Variable inherited : JsonValue -> jsstring -> JsVal Host.
Variable member : Host -> jsstring -> JsVal Host.

Lemma jsstring_eqb_eq (a b : jsstring) : jsstring_eqb a b = true -> a = b.
Proof.
  revert b; induction a as [|x a IH]; intros [|y b]; simpl;
    try discriminate; [reflexivity|].
  intros H. apply andb_true_iff in H. destruct H as [Hx Hab].
  apply N.eqb_eq in Hx. subst. f_equal. apply IH, Hab.
Qed.

Lemma array_index_not_length (key : jsstring) (n : N) :
  array_index key = Some n -> jsstring_eqb key (js "length") = false.
Proof.
  intros H. destruct (jsstring_eqb key (js "length")) eqn:E; [|reflexivity].
  apply jsstring_eqb_eq in E. subst. discriminate.
Qed.

Lemma canonical_index_not_length (key : jsstring) (n : N) :
  canonical_index key = Some n -> jsstring_eqb key (js "length") = false.
Proof.
  intros H. destruct (jsstring_eqb key (js "length")) eqn:E; [|reflexivity].
  apply jsstring_eqb_eq in E. subst. discriminate.
Qed.

Lemma walk_undefined (parts : list jsstring) :
  fold_left (walk inherited member) parts Undefined = Undefined.
Proof. induction parts; simpl; auto. Qed.

(** A turn of the loop reads the property its part stands for. *)
Lemma walk_select (current : JsVal Host) (part : jsstring) :
  walk inherited member current part
  = select inherited member current (part_key part).
Proof.
  unfold walk, select, part_key.
  destruct current as [|v|h]; [reflexivity| |];
    [destruct v; try reflexivity|];
    destruct (startsWith [91%N] part); try reflexivity;
    destruct (test all_digits (inner part)); reflexivity.
Qed.

(** C5 (as amended).  [evaluatePath] strips the optional leading [$] or
    [$.] and returns the root unchanged when nothing is left; otherwise it
    walks the parts of the path from left to right, each part reading one
    property of the current value by plain property access, also when the
    current value is one the host's prototypes gave.  The walk gives
    [undefined], not an error, as soon as the current value is null or
    undefined, or the part names a property the current value does not have:
    an array index out of range, any property of a number or a boolean, a key
    absent from an object (each provided the prototype chain has no property
    of that name).  A part [[n]] on a string within its length gives the
    one-character string there, the name [length] on a string or an array
    gives its length, and a part on an object that has that own key gives its
    value, whether the part is written as a name or as [[n]]. *)
Theorem evaluatePath_walks (root : JsonValue) (path : jsstring) :
  let p := replace_first root_prefix (fun _ => []) path in
  (p = [] -> evaluatePath inherited member root path = Json root)
  /\ (p <> [] ->
      evaluatePath inherited member root path
      = match match_all part_pattern p with
        | None => Undefined
        | Some parts => fold_left (walk inherited member) parts (Json root)
        end)
  /\ (forall part more,
        fold_left (walk inherited member) (part :: more) Undefined = Undefined
        /\ fold_left (walk inherited member) (part :: more) (Json JNull)
           = Undefined)
  /\ (forall v part, v <> JNull ->
        walk inherited member (Json v) part = get inherited v (part_key part))
  /\ (forall h part,
        walk inherited member (Builtin h) part = member h (part_key part))
  /\ (forall items key n,
        array_index key = Some n ->
        get inherited (JArray items) key
        = match nth_error items (N.to_nat n) with
          | Some x => Json x
          | None => inherited (JArray items) key
          end)
  /\ (forall items key n,
        array_index key = Some n ->
        inherited (JArray items) key = Undefined ->
        (length items <= N.to_nat n)%nat ->
        get inherited (JArray items) key = Undefined)
  /\ (forall x key,
        inherited (JNumber x) key = Undefined ->
        get inherited (JNumber x) key = Undefined)
  /\ (forall b key,
        inherited (JBool b) key = Undefined ->
        get inherited (JBool b) key = Undefined)
  /\ (forall props key,
        get inherited (JObject props) key
        = match own key props with
          | Some x => Json x
          | None => inherited (JObject props) key
          end)
  /\ (forall s key n c,
        canonical_index key = Some n ->
        nth_error s (N.to_nat n) = Some c ->
        get inherited (JString s) key = Json (JString [c]))
  /\ (forall s,
        get inherited (JString s) (js "length")
        = Json (JNumber (JSNumber.of_N (N.of_nat (length s)))))
  /\ (forall items,
        get inherited (JArray items) (js "length")
        = Json (JNumber (JSNumber.of_N (N.of_nat (length items))))).
Proof.
  intros p. unfold evaluatePath. fold p.
  split; [intros ->; reflexivity|].
  split.
  { intros Hp. destruct p; [congruence|]. reflexivity. }
  split.
  { intros part more. simpl. split; apply walk_undefined. }
  split.
  { intros v part Hv. rewrite walk_select. unfold select.
    destruct v; try congruence; reflexivity. }
  split.
  { intros h part. rewrite walk_select. reflexivity. }
  assert (Harr : forall items key n,
            array_index key = Some n ->
            get inherited (JArray items) key
            = match nth_error items (N.to_nat n) with
              | Some x => Json x
              | None => inherited (JArray items) key
              end).
  { intros items key n Hi. unfold get, own_property.
    rewrite (array_index_not_length _ Hi), Hi.
    destruct (nth_error items (N.to_nat n)); reflexivity. }
  split; [exact Harr|].
  split.
  { intros items key n Hi Hinh Hlen. rewrite (Harr _ _ _ Hi).
    apply nth_error_None in Hlen. rewrite Hlen. exact Hinh. }
  split.
  { intros x key Hinh. unfold get. simpl. exact Hinh. }
  split.
  { intros b key Hinh. unfold get. simpl. exact Hinh. }
  split.
  { intros props key. unfold get. simpl. reflexivity. }
  split.
  { intros s key n c Hi Hc. unfold get, own_property.
    rewrite (canonical_index_not_length _ Hi), Hi, Hc. reflexivity. }
  split; intros; reflexivity.
Qed.

End PathProps.

Section PathExamples.

Import JSON RegExp PathEval Examples.

(** The paths [$.users[0].name] and [$.users.length], three undefined
    paths, and the path [$.]. *)
Lemma evaluatePath_walks_witness :
  evaluatePath object_prototype no_members users_doc (js "$.users[0].name")
  = Json (JString (js "Al"))
  /\ evaluatePath object_prototype no_members users_doc (js "$.users.length")
     = Json (JNumber (JSNumber.of_N 1))
  /\ evaluatePath object_prototype no_members users_doc
       (js "$.users[0].name.length")
     = Json (JNumber (JSNumber.of_N 2))
  /\ evaluatePath object_prototype no_members users_doc (js "$.users[3]")
     = Undefined
  /\ evaluatePath object_prototype no_members users_doc (js "$.missing.x")
     = Undefined
  /\ evaluatePath object_prototype no_members users_doc (js "$.n[0]")
     = Undefined
  /\ evaluatePath object_prototype no_members users_doc (js "$.")
     = Json users_doc.
Proof.
  pose proof (fun path =>
                @evaluatePath_walks _ object_prototype no_members users_doc
                  path) as W.
  pose proof (W (js "$.users[0].name")) as (_ & H1 & _).
  pose proof (W (js "$.users.length")) as (_ & H2 & _).
  pose proof (W (js "$.users[0].name.length")) as (_ & H3 & _).
  pose proof (W (js "$.users[3]")) as (_ & H4 & _).
  pose proof (W (js "$.missing.x")) as (_ & H5 & _).
  pose proof (W (js "$.n[0]")) as (_ & H6 & _).
  pose proof (W (js "$.")) as (H7 & _).
  split; [rewrite H1; [vm_compute; reflexivity | vm_compute; discriminate]|].
  split; [rewrite H2; [vm_compute; reflexivity | vm_compute; discriminate]|].
  split; [rewrite H3; [vm_compute; reflexivity | vm_compute; discriminate]|].
  split; [rewrite H4; [vm_compute; reflexivity | vm_compute; discriminate]|].
  split; [rewrite H5; [vm_compute; reflexivity | vm_compute; discriminate]|].
  split; [rewrite H6; [vm_compute; reflexivity | vm_compute; discriminate]|].
  apply H7. vm_compute. reflexivity.
Defined.

(** C5 as stated fails: [[n]] on a non-array is not always undefined, nor is
    a key on a non-object.  On a string [[n]] gives a character, on an object
    with that key the property, and [length] on an array its length. *)
Lemma evaluatePath_index_counterexample :
  evaluatePath object_prototype no_members users_doc
    (js "$.users[0].name[0]")
  = Json (JString (js "A"))
  /\ evaluatePath object_prototype no_members
       (JObject [(js "7", JString (js "seven"))]) (js "$[7]")
     = Json (JString (js "seven"))
  /\ evaluatePath object_prototype no_members users_doc (js "$.users.length")
     = Json (JNumber (JSNumber.of_N 1)).
Proof. repeat split; vm_compute; reflexivity. Qed.

End PathExamples.

(** ** Formatting and minifying round trip *)

Section RoundTripProps.

Import JSNumber JSON RoundTrip.

(** *** Strings *)

Lemma hex_digit_ok (d : N) :
  (d < 16)%N -> isHex (hex_digit d) = true /\ hex_value (hex_digit d) = d.
Proof.
  intros H.
  assert (E : (d = 0 \/ d = 1 \/ d = 2 \/ d = 3 \/ d = 4 \/ d = 5 \/ d = 6
               \/ d = 7 \/ d = 8 \/ d = 9 \/ d = 10 \/ d = 11 \/ d = 12
               \/ d = 13 \/ d = 14 \/ d = 15)%N) by lia.
  repeat (destruct E as [ -> | E ]; [ split; reflexivity | ]).
  subst. split; reflexivity.
Qed.

Lemma nibbles (c : N) :
  (c < 65536)%N ->
  (4096 * ((c / 4096) mod 16) + 256 * ((c / 256) mod 16)
   + 16 * ((c / 16) mod 16) + c mod 16 = c)%N.
Proof.
  intros H.
  pose proof (N.div_mod c 16) as E0.
  pose proof (N.div_mod (c / 16) 16) as E1.
  pose proof (N.div_mod (c / 256) 16) as E2.
  replace (c / 16 / 16)%N with (c / 256)%N in E1
    by (rewrite N.Div0.div_div; reflexivity).
  replace (c / 256 / 16)%N with (c / 4096)%N in E2
    by (rewrite N.Div0.div_div; reflexivity).
  assert (E3 : ((c / 4096) mod 16 = c / 4096)%N).
  { apply N.mod_small. apply N.Div0.div_lt_upper_bound. lia. }
  rewrite E3. lia.
Qed.

Lemma parse_unicode_escape (c : N) (tail : jsstring) :
  (c < 65536)%N ->
  parse_string (unicode_escape c ++ tail)
  = match parse_string tail with
    | POk r rest => POk (c :: r) rest
    | PErr rest => PErr rest
    end.
Proof.
  intros H. unfold unicode_escape.
  assert (H3 : ((c / 4096) mod 16 < 16)%N) by (apply N.mod_lt; lia).
  assert (H2 : ((c / 256) mod 16 < 16)%N) by (apply N.mod_lt; lia).
  assert (H1 : ((c / 16) mod 16 < 16)%N) by (apply N.mod_lt; lia).
  assert (H0 : (c mod 16 < 16)%N) by (apply N.mod_lt; lia).
  destruct (hex_digit_ok H3) as [A3 B3].
  destruct (hex_digit_ok H2) as [A2 B2].
  destruct (hex_digit_ok H1) as [A1 B1].
  destruct (hex_digit_ok H0) as [A0 B0].
  cbn [app parse_string]. change (N.eqb 92 34) with false.
  change (N.eqb 92 92) with true. change (N.eqb 117 117) with true.
  cbv iota. rewrite A3, A2, A1, A0, B3, B2, B1, B0. cbn [andb].
  rewrite (nibbles H). reflexivity.
Qed.

Lemma parse_string_literal_char (c : N) (tail : jsstring) :
  N.eqb c 34 = false -> N.eqb c 92 = false -> (c <? 32)%N = false ->
  parse_string (c :: tail)
  = match parse_string tail with
    | POk r rest => POk (c :: r) rest
    | PErr rest => PErr rest
    end.
Proof. intros H1 H2 H3. cbn [parse_string]. rewrite H1, H2, H3. reflexivity. Qed.

Lemma parse_string_simple_escape (e c : N) (tail : jsstring) :
  N.eqb e 117 = false -> simple_escape e = Some c ->
  parse_string (92%N :: e :: tail)
  = match parse_string tail with
    | POk r rest => POk (c :: r) rest
    | PErr rest => PErr rest
    end.
Proof.
  intros H1 H2. cbn [parse_string]. change (N.eqb 92 34) with false.
  change (N.eqb 92 92) with true. cbv iota. rewrite H1, H2. reflexivity.
Qed.

(** Reading back a quoted string gives the string. *)
Lemma parse_quote_chars (s rest : jsstring) :
  parse_string (quote_chars s ++ dquote :: rest) = POk s rest.
Proof.
  remember (length s) as n eqn:Hn.
  assert (Hle : length s <= n) by lia. clear Hn.
  revert s Hle. induction n as [|n IH]; intros s Hle.
  { destruct s; [reflexivity|simpl in Hle; lia]. }
  destruct s as [|c t]; [reflexivity|].
  simpl in Hle. assert (IHt : parse_string (quote_chars t ++ dquote :: rest)
                              = POk t rest) by (apply IH; lia).
  cbn [quote_chars].
  destruct (N.eqb c 8) eqn:E8.
  { apply N.eqb_eq in E8. subst c. cbn [app].
    rewrite (@parse_string_simple_escape 98 8) by reflexivity.
    rewrite IHt. reflexivity. }
  destruct (N.eqb c 9) eqn:E9.
  { apply N.eqb_eq in E9. subst c. cbn [app].
    rewrite (@parse_string_simple_escape 116 9) by reflexivity.
    rewrite IHt. reflexivity. }
  destruct (N.eqb c 10) eqn:E10.
  { apply N.eqb_eq in E10. subst c. cbn [app].
    rewrite (@parse_string_simple_escape 110 10) by reflexivity.
    rewrite IHt. reflexivity. }
  destruct (N.eqb c 12) eqn:E12.
  { apply N.eqb_eq in E12. subst c. cbn [app].
    rewrite (@parse_string_simple_escape 102 12) by reflexivity.
    rewrite IHt. reflexivity. }
  destruct (N.eqb c 13) eqn:E13.
  { apply N.eqb_eq in E13. subst c. cbn [app].
    rewrite (@parse_string_simple_escape 114 13) by reflexivity.
    rewrite IHt. reflexivity. }
  destruct (N.eqb c 34) eqn:E34.
  { apply N.eqb_eq in E34. subst c. cbn [app].
    rewrite (@parse_string_simple_escape 34 34) by reflexivity.
    rewrite IHt. reflexivity. }
  destruct (N.eqb c 92) eqn:E92.
  { apply N.eqb_eq in E92. subst c. cbn [app].
    rewrite (@parse_string_simple_escape 92 92) by reflexivity.
    rewrite IHt. reflexivity. }
  destruct (c <? 32)%N eqn:E32.
  { apply N.ltb_lt in E32. rewrite <- app_assoc.
    rewrite parse_unicode_escape by lia. rewrite IHt. reflexivity. }
  destruct (isLeadSurrogate c) eqn:EL.
  { assert (Hc : (c < 65536)%N).
    { unfold isLeadSurrogate, in_range in EL.
      apply andb_true_iff in EL. destruct EL as [_ EL].
      apply N.leb_le in EL. lia. }
    destruct t as [|c2 t2].
    - cbn [app]. rewrite <- (app_nil_r (unicode_escape c)), <- app_assoc.
      rewrite parse_unicode_escape by lia.
      cbn [app parse_string]. change (N.eqb dquote 34) with true.
      reflexivity.
    - destruct (isTrailSurrogate c2) eqn:ET.
      + assert (IHt2 : parse_string (quote_chars t2 ++ dquote :: rest)
                       = POk t2 rest) by (apply IH; simpl in Hle; lia).
        cbn [app].
        rewrite parse_string_literal_char by assumption.
        unfold isTrailSurrogate, in_range in ET.
        apply andb_true_iff in ET. destruct ET as [ET1 ET2].
        apply N.leb_le in ET1.
        rewrite parse_string_literal_char;
          [rewrite IHt2; reflexivity | | | ];
          [apply N.eqb_neq | apply N.eqb_neq | apply N.ltb_ge]; lia.
      + rewrite <- app_assoc.
        rewrite parse_unicode_escape by lia. rewrite IHt. reflexivity. }
  destruct (isTrailSurrogate c) eqn:ET.
  { assert (Hc : (c < 65536)%N).
    { unfold isTrailSurrogate, in_range in ET.
      apply andb_true_iff in ET. destruct ET as [_ ET].
      apply N.leb_le in ET. lia. }
    rewrite <- app_assoc.
    rewrite parse_unicode_escape by lia. rewrite IHt. reflexivity. }
  cbn [app]. rewrite parse_string_literal_char by assumption.
  rewrite IHt. reflexivity.
Qed.

Lemma parse_quote (s rest : jsstring) :
  parse_string (tl (quote s) ++ rest) = POk s rest.
Proof.
  unfold quote. cbn [tl]. rewrite <- app_assoc. apply parse_quote_chars.
Qed.

(** *** Numbers *)

Lemma takeWhile_app_stop (l r : jsstring) :
  match r with [] => True | c :: _ => isDigit c = false end ->
  takeWhile isDigit (l ++ r) = takeWhile isDigit l
  /\ dropWhile isDigit (l ++ r) = dropWhile isDigit l ++ r.
Proof.
  intros Hr. induction l as [|x l [IH1 IH2]]; simpl.
  - destruct r as [|c r]; [auto|]. simpl. rewrite Hr. auto.
  - destruct (isDigit x); [rewrite IH1, IH2|]; auto.
Qed.

Lemma delimited_not_digit (rest : jsstring) :
  delimited rest = true ->
  match rest with [] => True | c :: _ => isDigit c = false end.
Proof.
  destruct rest as [|c r]; simpl; [auto|].
  destruct (isDigit c); simpl; [discriminate|auto].
Qed.

Lemma lex_exponent_app (neg : bool) (mant scale : Z) (s rest : jsstring)
  (y : Number) :
  delimited rest = true ->
  lex_exponent neg mant scale s = POk y [] ->
  lex_exponent neg mant scale (s ++ rest) = POk y rest.
Proof.
  intros Hd. pose proof (delimited_not_digit _ Hd) as Hnd.
  unfold lex_exponent. destruct s as [|c t].
  - intros H; injection H as <-. simpl.
    destruct rest as [|c r]; [reflexivity|].
    simpl in Hd. destruct (isDigit c); simpl in Hd; [discriminate|].
    destruct (N.eqb c 46); simpl in Hd; [discriminate|].
    destruct (N.eqb c 101); simpl in Hd; [discriminate|].
    destruct (N.eqb c 69); simpl in Hd; [discriminate|]. reflexivity.
  - cbn [app]. destruct (N.eqb c 101 || N.eqb c 69); [|discriminate].
    destruct t as [|sg t'].
    { cbv beta iota. cbn [takeWhile]. discriminate. }
    cbn [app].
    destruct (N.eqb sg 45); [|destruct (N.eqb sg 43)]; cbv beta iota.
    + destruct (takeWhile_app_stop t' _ Hnd) as [E1 E2]. rewrite E1, E2.
      destruct (takeWhile isDigit t'); [discriminate|].
      intros H; injection H as <- ->. reflexivity.
    + destruct (takeWhile_app_stop t' _ Hnd) as [E1 E2]. rewrite E1, E2.
      destruct (takeWhile isDigit t'); [discriminate|].
      intros H; injection H as <- ->. reflexivity.
    + destruct (takeWhile_app_stop (sg :: t') _ Hnd) as [E1 E2].
      change (sg :: t' ++ rest) with ((sg :: t') ++ rest).
      rewrite E1, E2.
      generalize (dropWhile isDigit (sg :: t')).
      destruct (takeWhile isDigit (sg :: t')); [discriminate|].
      intros D H; injection H as <- ->. reflexivity.
Qed.

Lemma lex_fraction_app (neg : bool) (ip s rest : jsstring) (y : Number) :
  delimited rest = true ->
  lex_fraction neg ip s = POk y [] ->
  lex_fraction neg ip (s ++ rest) = POk y rest.
Proof.
  intros Hd. pose proof (delimited_not_digit _ Hd) as Hnd.
  unfold lex_fraction. destruct s as [|c t].
  - intros H. pose proof (@lex_exponent_app neg _ _ [] rest y Hd H) as H'.
    cbn [app] in *. destruct rest as [|c r]; [exact H'|].
    destruct (N.eqb c 46) eqn:E; [|exact H'].
    simpl in Hd. rewrite E in Hd.
    destruct (isDigit c); discriminate.
  - cbn [app]. destruct (N.eqb c 46).
    + destruct (takeWhile_app_stop t _ Hnd) as [E1 E2]. rewrite E1, E2.
      destruct (takeWhile isDigit t); [discriminate|].
      apply lex_exponent_app, Hd.
    + apply (@lex_exponent_app neg _ _ (c :: t) rest y Hd).
Qed.

Lemma lex_unsigned_app (neg : bool) (s rest : jsstring) (y : Number) :
  delimited rest = true ->
  lex_unsigned neg s = POk y [] ->
  lex_unsigned neg (s ++ rest) = POk y rest.
Proof.
  intros Hd. pose proof (delimited_not_digit _ Hd) as Hnd.
  unfold lex_unsigned.
  destruct (takeWhile_app_stop s _ Hnd) as [E1 E2]. rewrite E1, E2.
  destruct (takeWhile isDigit s) as [|d more]; [discriminate|].
  destruct (N.eqb d 48 && nonempty more); [discriminate|].
  apply lex_fraction_app, Hd.
Qed.

Lemma lex_unsigned_starts (neg : bool) (s rest : jsstring) (y : Number) :
  lex_unsigned neg s = POk y rest ->
  exists c t, s = c :: t /\ isDigit c = true.
Proof.
  unfold lex_unsigned. destruct s as [|c t]; [discriminate|].
  cbn [takeWhile]. destruct (isDigit c) eqn:E; [|discriminate].
  intros _. exists c, t. split; [reflexivity|exact E].
Qed.

(** A printed number that reads back alone also reads back in front of a
    delimiter, and it starts with a minus sign or a digit. *)
Lemma lex_number_app (s rest : jsstring) (y : Number) :
  delimited rest = true ->
  lex_number s = POk y [] ->
  lex_number (s ++ rest) = POk y rest
  /\ exists c t, s = c :: t /\ (N.eqb c 45 || isDigit c) = true.
Proof.
  intros Hd H. unfold lex_number in *.
  destruct s as [|c t]; [discriminate|]. cbn [app].
  destruct (N.eqb c 45) eqn:E.
  - split; [apply lex_unsigned_app; assumption|]. exists c, t.
    split; [reflexivity | rewrite E; reflexivity].
  - split; [apply (@lex_unsigned_app false (c :: t) rest y Hd H)|].
    apply lex_unsigned_starts in H. destruct H as (c' & t' & Hs & Hc).
    injection Hs as <- <-. exists c, t. rewrite Hc, orb_true_r.
    split; reflexivity.
Qed.

End RoundTripProps.

Section ObjectProps.

Import JSNumber JSON RoundTrip.

(** *** Canonical numeric strings denote distinct numbers *)

Lemma digits_value_snoc (s : jsstring) (c : N) :
  digits_value (s ++ [c]) = (10 * digits_value s + (c - 48))%N.
Proof. unfold digits_value. rewrite fold_left_app. reflexivity. Qed.

Lemma isDigit_range (c : N) : isDigit c = true -> (48 <= c <= 57)%N.
Proof.
  unfold isDigit, in_range. intros H. apply andb_true_iff in H.
  destruct H as [H1 H2]. apply N.leb_le in H1, H2. lia.
Qed.

Lemma digits_value_upper (s : jsstring) :
  forallb isDigit s = true ->
  (digits_value s < 10 ^ N.of_nat (length s))%N.
Proof.
  induction s as [|c s IH] using rev_ind; intros H.
  - vm_compute. reflexivity.
  - rewrite forallb_app in H. apply andb_true_iff in H. destruct H as [Hs Hc].
    simpl in Hc. rewrite andb_true_r in Hc. apply isDigit_range in Hc.
    rewrite digits_value_snoc, length_app. simpl length.
    replace (N.of_nat (length s + 1)) with (N.succ (N.of_nat (length s)))
      by lia.
    rewrite N.pow_succ_r'. specialize (IH Hs). lia.
Qed.

Lemma digits_value_lower (s : jsstring) :
  forallb isDigit s = true ->
  s <> [] ->
  hd 0%N s <> 48%N ->
  (10 ^ N.of_nat (length s - 1) <= digits_value s)%N.
Proof.
  induction s as [|c s IH] using rev_ind; intros H Hne Hz; [congruence|].
  rewrite forallb_app in H. apply andb_true_iff in H. destruct H as [Hs Hc].
  simpl in Hc. rewrite andb_true_r in Hc. apply isDigit_range in Hc.
  rewrite digits_value_snoc, length_app. simpl length.
  destruct s as [|d s'].
  - simpl in *. lia.
  - specialize (IH Hs). simpl hd in *. simpl length in *.
    replace (S (length s') + 1 - 1) with (S (length s')) by lia.
    replace (S (length s') - 1) with (length s') in IH by lia.
    replace (N.of_nat (S (length s'))) with (N.succ (N.of_nat (length s')))
      by lia.
    rewrite N.pow_succ_r'.
    assert (10 ^ N.of_nat (length s') <= digits_value (d :: s'))%N
      by (apply IH; [discriminate|assumption]).
    lia.
Qed.

Lemma digits_value_inj_same_length (s s' : jsstring) :
  forallb isDigit s = true -> forallb isDigit s' = true ->
  length s = length s' ->
  digits_value s = digits_value s' -> s = s'.
Proof.
  revert s'. induction s as [|c s IH] using rev_ind; intros s' H H' Hl Hv.
  - destruct s'; [reflexivity|discriminate].
  - destruct s' as [|c' s'] using rev_ind.
    { rewrite length_app in Hl. simpl in Hl. lia. }
    clear IHs'.
    rewrite forallb_app in H, H'.
    apply andb_true_iff in H, H'. destruct H as [Hs Hc], H' as [Hs' Hc'].
    simpl in Hc, Hc'. rewrite andb_true_r in Hc, Hc'.
    apply isDigit_range in Hc, Hc'.
    rewrite !digits_value_snoc in Hv. rewrite !length_app in Hl.
    simpl in Hl.
    assert (digits_value s = digits_value s') by lia.
    assert (c = c') by lia. subst c'.
    f_equal. apply IH; auto. lia.
Qed.

Lemma array_index_spec (k : jsstring) (n : N) :
  array_index k = Some n ->
  forallb isDigit k = true /\ digits_value k = n /\ k <> []
  /\ (length k = 1 \/ hd 0%N k <> 48%N).
Proof.
  unfold array_index. destruct k as [|d more]; [discriminate|].
  destruct (forallb isDigit (d :: more)) eqn:Hd; [|discriminate].
  destruct (N.eqb d 48 && nonempty more) eqn:Hz; [discriminate|].
  simpl andb. destruct (digits_value (d :: more) <? 4294967295)%N;
    [|discriminate].
  intros H; injection H as <-.
  split; [reflexivity|]. split; [reflexivity|]. split; [discriminate|].
  apply andb_false_iff in Hz. destruct Hz as [Hz|Hz].
  - right. simpl. apply N.eqb_neq, Hz.
  - left. destruct more; [reflexivity|discriminate].
Qed.

Lemma array_index_inj (k k' : jsstring) (n : N) :
  array_index k = Some n -> array_index k' = Some n -> k = k'.
Proof.
  intros H H'. apply array_index_spec in H, H'.
  destruct H as (Hd & Hv & Hne & Hc), H' as (Hd' & Hv' & Hne' & Hc').
  assert (Hlen : length k = length k').
  { pose proof (@digits_value_upper k Hd) as U.
    pose proof (@digits_value_upper k' Hd') as U'.
    destruct (Nat.lt_trichotomy (length k) (length k')) as [L|[L|L]];
      [exfalso|exact L|exfalso].
    - destruct Hc' as [Hc'|Hc']; [destruct k; simpl in *; [congruence|lia]|].
      pose proof (@digits_value_lower k' Hd' Hne' Hc') as Lo.
      assert (10 ^ N.of_nat (length k) <= 10 ^ N.of_nat (length k' - 1))%N
        by (apply N.pow_le_mono_r; lia).
      lia.
    - destruct Hc as [Hc|Hc]; [destruct k'; simpl in *; [congruence|lia]|].
      pose proof (@digits_value_lower k Hd Hne Hc) as Lo.
      assert (10 ^ N.of_nat (length k') <= 10 ^ N.of_nat (length k - 1))%N
        by (apply N.pow_le_mono_r; lia).
      lia. }
  apply digits_value_inj_same_length; auto. congruence.
Qed.

Lemma jsstring_eqb_refl (a : jsstring) : jsstring_eqb a a = true.
Proof. induction a; simpl; [reflexivity|]. rewrite N.eqb_refl. exact IHa. Qed.

Lemma jsstring_eqb_spec (a b : jsstring) :
  jsstring_eqb a b = true <-> a = b.
Proof.
  split; [apply jsstring_eqb_eq|]. intros ->. apply jsstring_eqb_refl.
Qed.

Lemma jsstring_eqb_sym (a b : jsstring) : jsstring_eqb a b = jsstring_eqb b a.
Proof.
  destruct (jsstring_eqb a b) eqn:E, (jsstring_eqb b a) eqn:E'; auto.
  - apply jsstring_eqb_eq in E. subst. rewrite jsstring_eqb_refl in E'.
    discriminate.
  - apply jsstring_eqb_eq in E'. subst. rewrite jsstring_eqb_refl in E.
    discriminate.
Qed.

(** *** Property creation keeps objects in enumeration order *)

Lemma has_key_keys (k : jsstring) (o : list (jsstring * JsonValue)) :
  has_key k o = existsb (jsstring_eqb k) (List.map fst o).
Proof.
  induction o as [|[k' v'] t IH]; simpl; [reflexivity|]. rewrite IH.
  reflexivity.
Qed.

Lemma update_keys (k : jsstring) (v : JsonValue)
  (o : list (jsstring * JsonValue)) :
  List.map fst (update k v o) = List.map fst o.
Proof.
  induction o as [|[k' v'] t IH]; simpl; [reflexivity|].
  destruct (jsstring_eqb k k'); simpl; [reflexivity|]. rewrite IH.
  reflexivity.
Qed.

Lemma insert_index_existsb (p : jsstring -> bool) (n : N) (k : jsstring)
  (v : JsonValue) (o : list (jsstring * JsonValue)) :
  existsb p (List.map fst (insert_index n k v o))
  = p k || existsb p (List.map fst o).
Proof.
  induction o as [|[k' v'] t IH]; simpl; [reflexivity|].
  destruct (array_index k') as [n'|]; [destruct (n' <? n)%N|]; simpl;
    try reflexivity.
  rewrite IH. destruct (p k), (p k'); reflexivity.
Qed.

Lemma insert_index_forallb (p : jsstring -> bool) (n : N) (k : jsstring)
  (v : JsonValue) (o : list (jsstring * JsonValue)) :
  forallb p (List.map fst (insert_index n k v o))
  = p k && forallb p (List.map fst o).
Proof.
  induction o as [|[k' v'] t IH]; simpl; [reflexivity|].
  destruct (array_index k') as [n'|]; [destruct (n' <? n)%N|]; simpl;
    try reflexivity.
  rewrite IH. destruct (p k), (p k'); reflexivity.
Qed.

Lemma precedes_trans (a b c : jsstring) :
  precedes a b = true -> precedes b c = true -> precedes a c = true.
Proof.
  unfold precedes.
  destruct (array_index a), (array_index b), (array_index c);
    try discriminate; try reflexivity.
  rewrite !N.ltb_lt. lia.
Qed.

Lemma forallb_precedes_trans (a b : jsstring) (l : list jsstring) :
  precedes a b = true -> forallb (precedes b) l = true ->
  forallb (precedes a) l = true.
Proof.
  intros Hab H. rewrite forallb_forall in *. intros x Hx.
  eapply precedes_trans; [exact Hab|]. apply H, Hx.
Qed.

Lemma insert_index_canonical (n : N) (k : jsstring) (v : JsonValue)
  (o : list (jsstring * JsonValue)) :
  array_index k = Some n ->
  has_key k o = false ->
  canonical (List.map fst o) = true ->
  canonical (List.map fst (insert_index n k v o)) = true.
Proof.
  intros Hk. induction o as [|[k' v'] t IH]; intros Hnew Hc.
  - reflexivity.
  - simpl in Hnew. apply orb_false_iff in Hnew. destruct Hnew as [Hkk' Hnew].
    simpl in Hc. apply andb_true_iff in Hc. destruct Hc as [Hc Hct].
    apply andb_true_iff in Hc. destruct Hc as [Hnd Hpre].
    assert (Hfront : precedes k k' = true ->
              canonical (List.map fst ((k, v) :: (k', v') :: t)) = true).
    { intros Hp. cbn [List.map fst canonical existsb forallb].
      rewrite (has_key_keys k t) in Hnew. rewrite Hkk', Hnew, Hp.
      rewrite (@forallb_precedes_trans k k' _ Hp Hpre).
      rewrite Hnd, Hpre, Hct. reflexivity. }
    simpl insert_index.
    destruct (array_index k') as [n'|] eqn:Ek'.
    + destruct (n' <? n)%N eqn:Elt.
      * cbn [List.map fst canonical].
        rewrite insert_index_existsb, insert_index_forallb.
        rewrite (IH Hnew Hct), Hpre, andb_true_r.
        rewrite jsstring_eqb_sym, Hkk'. simpl orb.
        rewrite Hnd. simpl. unfold precedes. rewrite Ek', Hk, Elt.
        reflexivity.
      * apply Hfront. unfold precedes. rewrite Hk, Ek'.
        apply N.ltb_lt. apply N.ltb_ge in Elt.
        assert (n <> n').
        { intros ->. pose proof (@array_index_inj k k' n' Hk Ek') as E.
          subst k'. rewrite jsstring_eqb_refl in Hkk'. discriminate. }
        lia.
    + apply Hfront. unfold precedes. rewrite Hk, Ek'. reflexivity.
Qed.

Lemma append_canonical (k : jsstring) (l : list jsstring) :
  array_index k = None ->
  existsb (jsstring_eqb k) l = false ->
  canonical l = true ->
  canonical (l ++ [k]) = true.
Proof.
  intros Hk. induction l as [|k0 l IH]; intros Hnew Hc; [reflexivity|].
  simpl in Hnew. apply orb_false_iff in Hnew. destruct Hnew as [Hkk0 Hnew].
  simpl in Hc. apply andb_true_iff in Hc. destruct Hc as [Hc Hct].
  apply andb_true_iff in Hc. destruct Hc as [Hnd Hpre].
  cbn [app canonical]. rewrite existsb_app, forallb_app.
  rewrite (IH Hnew Hct), Hpre. cbn [existsb forallb].
  rewrite jsstring_eqb_sym, Hkk0.
  apply negb_true_iff in Hnd. rewrite Hnd. simpl.
  unfold precedes. rewrite Hk. destruct (array_index k0); reflexivity.
Qed.

Lemma obj_set_canonical (o : list (jsstring * JsonValue))
  (kv : jsstring * JsonValue) :
  canonical (List.map fst o) = true ->
  canonical (List.map fst (obj_set o kv)) = true.
Proof.
  intros Hc. destruct kv as [k v]. unfold obj_set.
  destruct (has_key k o) eqn:Hk.
  - rewrite update_keys. exact Hc.
  - destruct (array_index k) as [n|] eqn:Ek.
    + apply insert_index_canonical; assumption.
    + rewrite map_app. apply append_canonical; try assumption.
      rewrite <- has_key_keys. exact Hk.
Qed.

Lemma build_object_canonical (ms : list (jsstring * JsonValue)) :
  canonical (List.map fst (build_object ms)) = true.
Proof.
  unfold build_object.
  assert (H : forall acc, canonical (List.map fst acc) = true ->
            canonical (List.map fst (fold_left obj_set ms acc)) = true).
  { induction ms as [|m ms IH]; intros acc Hacc; simpl; [exact Hacc|].
    apply IH, obj_set_canonical, Hacc. }
  apply H. reflexivity.
Qed.

(** Values of the built object are values of the members. *)
Lemma update_values (P : JsonValue -> Prop) (k : jsstring) (v : JsonValue)
  (o : list (jsstring * JsonValue)) :
  P v -> Forall (fun kv => P (snd kv)) o ->
  Forall (fun kv => P (snd kv)) (update k v o).
Proof.
  intros Hv Ho. induction Ho as [|[k' v'] t Hx Ht IH]; simpl; [constructor|].
  destruct (jsstring_eqb k k'); constructor; auto.
Qed.

Lemma insert_index_values (P : JsonValue -> Prop) (n : N) (k : jsstring)
  (v : JsonValue) (o : list (jsstring * JsonValue)) :
  P v -> Forall (fun kv => P (snd kv)) o ->
  Forall (fun kv => P (snd kv)) (insert_index n k v o).
Proof.
  intros Hv Ho. induction Ho as [|[k' v'] t Hx Ht IH]; simpl.
  - constructor; [exact Hv|constructor].
  - destruct (array_index k') as [n'|]; [destruct (n' <? n)%N|];
      repeat constructor; auto.
Qed.

Lemma build_object_values (P : JsonValue -> Prop)
  (ms : list (jsstring * JsonValue)) :
  Forall (fun kv => P (snd kv)) ms ->
  Forall (fun kv => P (snd kv)) (build_object ms).
Proof.
  unfold build_object.
  assert (H : forall acc, Forall (fun kv => P (snd kv)) ms ->
            Forall (fun kv => P (snd kv)) acc ->
            Forall (fun kv => P (snd kv)) (fold_left obj_set ms acc)).
  { induction ms as [|[k v] ms IH]; intros acc Hms Hacc; simpl; [exact Hacc|].
    inversion Hms as [|? ? Hv Hms']; subst. apply IH; [exact Hms'|].
    destruct (has_key k acc).
    - apply update_values; assumption.
    - destruct (array_index k).
      + apply insert_index_values; assumption.
      + apply Forall_app. split; [assumption|]. constructor; [exact Hv|constructor]. }
  intros Hms. apply H; [exact Hms|constructor].
Qed.

(** An object already in enumeration order is rebuilt as it is. *)
Lemma canonical_app_l (a b : list jsstring) :
  canonical (a ++ b) = true -> canonical a = true.
Proof.
  induction a as [|k a IH]; intros H; [reflexivity|].
  cbn [app canonical] in *. apply andb_true_iff in H. destruct H as [H Ht].
  apply andb_true_iff in H. destruct H as [Hnd Hpre].
  rewrite existsb_app in Hnd. rewrite forallb_app in Hpre.
  apply negb_true_iff, orb_false_iff in Hnd. destruct Hnd as [Hnd _].
  apply andb_true_iff in Hpre. destruct Hpre as [Hpre _].
  rewrite Hnd, Hpre, (IH Ht). reflexivity.
Qed.

Lemma obj_set_append (o : list (jsstring * JsonValue)) (k : jsstring)
  (v : JsonValue) :
  canonical (List.map fst o ++ [k]) = true ->
  obj_set o (k, v) = o ++ [(k, v)].
Proof.
  intros Hc. unfold obj_set.
  assert (Hnew : has_key k o = false /\
                 forall n, array_index k = Some n ->
                           insert_index n k v o = o ++ [(k, v)]).
  { induction o as [|[k' v'] t IH]; [split; [reflexivity|reflexivity]|].
    cbn [List.map fst app canonical] in Hc.
    apply andb_true_iff in Hc. destruct Hc as [Hc Hct].
    apply andb_true_iff in Hc. destruct Hc as [Hnd Hpre].
    rewrite existsb_app in Hnd. rewrite forallb_app in Hpre.
    apply negb_true_iff, orb_false_iff in Hnd. destruct Hnd as [_ Hnd].
    apply andb_true_iff in Hpre. destruct Hpre as [_ Hpre].
    cbn [existsb forallb] in Hnd, Hpre.
    rewrite orb_false_r in Hnd. rewrite andb_true_r in Hpre.
    destruct (IH Hct) as [IH1 IH2]. split.
    - cbn [has_key]. rewrite jsstring_eqb_sym, Hnd, IH1. reflexivity.
    - intros n Hn. cbn [insert_index]. unfold precedes in Hpre.
      rewrite Hn in Hpre. destruct (array_index k') as [n'|]; [|discriminate].
      rewrite Hpre, (IH2 n Hn). reflexivity. }
  destruct Hnew as [Hk Hi]. rewrite Hk.
  destruct (array_index k) as [n|]; [apply Hi|]; reflexivity.
Qed.

Lemma build_object_canonical_id (o : list (jsstring * JsonValue)) :
  canonical (List.map fst o) = true -> build_object o = o.
Proof.
  unfold build_object.
  assert (H : forall l acc, canonical (List.map fst (acc ++ l)) = true ->
            fold_left obj_set l acc = acc ++ l).
  { induction l as [|[k v] l IH]; intros acc Hc; cbn [fold_left].
    - rewrite app_nil_r. reflexivity.
    - assert (Hc' : canonical (List.map fst ((acc ++ [(k, v)]) ++ l)) = true)
        by (rewrite <- app_assoc; exact Hc).
      rewrite obj_set_append.
      + rewrite (IH _ Hc'), <- app_assoc. reflexivity.
      + rewrite map_app in Hc'. apply canonical_app_l in Hc'.
        rewrite map_app in Hc'. exact Hc'. }
  intros Hc. apply (H o []). exact Hc.
Qed.

End ObjectProps.

Section ValueProps.

Import JSNumber JSON RoundTrip.

(** Induction on JSON values, with the hypothesis on every element of an
    array and every property value of an object. *)
Lemma JsonValue_induction (P : JsonValue -> Prop) :
  P JNull ->
  (forall b, P (JBool b)) ->
  (forall x, P (JNumber x)) ->
  (forall s, P (JString s)) ->
  (forall items, Forall P items -> P (JArray items)) ->
  (forall props, Forall (fun kv => P (snd kv)) props -> P (JObject props)) ->
  forall v, P v.
Proof.
  intros Hnull Hbool Hnum Hstr Harr Hobj.
  fix IH 1. intros [ |b|x|s|items|props].
  - exact Hnull.
  - apply Hbool.
  - apply Hnum.
  - apply Hstr.
  - apply Harr. induction items as [|x xs IHxs]; constructor;
      [apply IH | exact IHxs].
  - apply Hobj. induction props as [|[k x] ps IHps]; constructor;
      [apply IH | exact IHps].
Qed.

(** *** What the parser builds is in enumeration order *)

Lemma literal_result (w : jsstring) (v v' : JsonValue) (s rest : jsstring) :
  literal w v s = POk v' rest -> v' = v.
Proof.
  revert s; induction w as [|x w IH]; intros s; simpl.
  - intros H; injection H as <- _. reflexivity.
  - destruct s as [|y s]; [discriminate|].
    destruct (N.eqb x y); [apply IH|discriminate].
Qed.

Lemma forallb_Forall {A} (p : A -> bool) (l : list A) :
  forallb p l = true <-> Forall (fun x => p x = true) l.
Proof.
  rewrite forallb_forall, Forall_forall. reflexivity.
Qed.

Lemma parse_well_formed (fuel : nat) :
  (forall s v rest, parse_value fuel s = POk v rest -> well_formed v = true)
  /\ (forall s vs rest, parse_elements fuel s = POk vs rest ->
        forallb well_formed vs = true)
  /\ (forall s ms rest, parse_members fuel s = POk ms rest ->
        forallb (fun kv => well_formed (snd kv)) ms = true).
Proof.
  induction fuel as [|n (IHv & IHe & IHm)].
  { repeat split; intros; discriminate. }
  split; [|split].
  - intros s v rest. cbn [parse_value].
    destruct (skip_ws s) as [|c t]; [discriminate|].
    destruct (N.eqb c 123).
    { destruct (skip_ws t) as [|c2 t2]; [discriminate|].
      destruct (N.eqb c2 125); [intros H; injection H as <- _; reflexivity|].
      destruct (parse_members n (c2 :: t2)) as [ms r|r] eqn:E; [|discriminate].
      intros H; injection H as <- _. cbn [well_formed].
      rewrite build_object_canonical. simpl andb.
      apply forallb_Forall.
      apply (@build_object_values (fun v => well_formed v = true)).
      apply forallb_Forall. eapply IHm, E. }
    destruct (N.eqb c 91).
    { destruct (skip_ws t) as [|c2 t2]; [discriminate|].
      destruct (N.eqb c2 93); [intros H; injection H as <- _; reflexivity|].
      destruct (parse_elements n (c2 :: t2)) as [vs r|r] eqn:E; [|discriminate].
      intros H; injection H as <- _. cbn [well_formed]. eapply IHe, E. }
    destruct (N.eqb c 34).
    { destruct (parse_string t); [|discriminate].
      intros H; injection H as <- _. reflexivity. }
    destruct (N.eqb c 45 || isDigit c).
    { destruct (lex_number (c :: t)); [|discriminate].
      intros H; injection H as <- _. reflexivity. }
    destruct (N.eqb c 116).
    { intros H. apply literal_result in H. subst. reflexivity. }
    destruct (N.eqb c 102).
    { intros H. apply literal_result in H. subst. reflexivity. }
    destruct (N.eqb c 110); [|discriminate].
    intros H. apply literal_result in H. subst. reflexivity.
  - intros s vs rest. cbn [parse_elements].
    destruct (parse_value n s) as [v r|r] eqn:Ev; [|discriminate].
    destruct (skip_ws r) as [|c t]; [discriminate|].
    destruct (N.eqb c 44).
    { destruct (parse_elements n t) as [vs' r'|r'] eqn:Ee; [|discriminate].
      intros H; injection H as <- _. cbn [forallb].
      rewrite (IHv _ _ _ Ev), (IHe _ _ _ Ee). reflexivity. }
    destruct (N.eqb c 93); [|discriminate].
    intros H; injection H as <- _. cbn [forallb].
    rewrite (IHv _ _ _ Ev). reflexivity.
  - intros s ms rest. cbn [parse_members].
    destruct (skip_ws s) as [|q t0]; [discriminate|].
    destruct (negb (N.eqb q 34)); [discriminate|].
    destruct (parse_string t0) as [k r|r]; [|discriminate].
    destruct (skip_ws r) as [|c t]; [discriminate|].
    destruct (negb (N.eqb c 58)); [discriminate|].
    destruct (parse_value n t) as [v r'|r'] eqn:Ev; [|discriminate].
    destruct (skip_ws r') as [|c' t']; [discriminate|].
    destruct (N.eqb c' 44).
    { destruct (parse_members n t') as [ms' r''|r''] eqn:Em; [|discriminate].
      intros H; injection H as <- _. cbn [forallb snd].
      rewrite (IHv _ _ _ Ev), (IHm _ _ _ Em). reflexivity. }
    destruct (N.eqb c' 125); [|discriminate].
    intros H; injection H as <- _. cbn [forallb snd].
    rewrite (IHv _ _ _ Ev). reflexivity.
Qed.

Lemma parse_gives_well_formed (s : jsstring) (v : JsonValue) :
  parse s = inl v -> well_formed v = true.
Proof.
  unfold parse.
  destruct (parse_value _ s) as [v' rest|rest] eqn:E; [|discriminate].
  destruct (skip_ws rest); [|discriminate].
  intros H; injection H as <-.
  eapply (proj1 (parse_well_formed _)), E.
Qed.

(** *** Numbers that survive printing *)

Lemma eqb_finite (s : bool) (m : positive) (e : Z) (y : Number) :
  JSNumber.eqb (S754_finite s m e) y = true -> y = S754_finite s m e.
Proof.
  unfold JSNumber.eqb, SFeqb, SFcompare.
  destruct y as [s'|s'| |s' m' e']; try (destruct s; discriminate);
    try (destruct s'; discriminate).
  destruct s, s'; try discriminate.
  - destruct (Z.compare e e') eqn:Ee; try discriminate.
    apply Z.compare_eq in Ee. subst e'.
    destruct (Pos.compare_cont Eq m m') eqn:Em; try discriminate.
    apply Pos.compare_eq in Em. subst. reflexivity.
  - destruct (Z.compare e e') eqn:Ee; try discriminate.
    apply Z.compare_eq in Ee. subst e'.
    destruct (Pos.compare_cont Eq m m') eqn:Em; try discriminate.
    apply Pos.compare_eq in Em. subst. reflexivity.
Qed.

Lemma number_survives_reread (x : Number) :
  number_survives x = true ->
  lex_number (toString x) = POk (reread x) []
  /\ isFinite x = true
  /\ JSNumber.eqb x (reread x) = true
  /\ number_survives (reread x) = true
  /\ reread (reread x) = reread x.
Proof.
  unfold number_survives. intros H. apply andb_true_iff in H.
  destruct H as [Hfin H].
  destruct x as [s|s| |s m e]; try discriminate.
  - destruct s; vm_compute; repeat split; reflexivity.
  - unfold reread.
    destruct (lex_number (toString (S754_finite s m e))) as [y r|r] eqn:E;
      [|discriminate].
    destruct r; [|discriminate].
    pose proof (eqb_finite _ _ _ _ H) as ->.
    rewrite E. repeat split; assumption.
Qed.

Lemma renumber_keys (props : list (jsstring * JsonValue)) :
  List.map fst (List.map (fun kv => (fst kv, renumber (snd kv))) props)
  = List.map fst props.
Proof. rewrite map_map. reflexivity. Qed.

Lemma renumber_props (v : JsonValue) :
  numbers_survive v = true ->
  numbers_survive (renumber v) = true
  /\ renumber (renumber v) = renumber v
  /\ json_eqb v (renumber v) = true
  /\ well_formed (renumber v) = well_formed v.
Proof.
  induction v as [ |b|x|s|items IH|props IH] using JsonValue_induction;
    intros Hs.
  - repeat split.
  - repeat split. destruct b; reflexivity.
  - cbn [numbers_survive renumber json_eqb well_formed] in *.
    destruct (number_survives_reread _ Hs) as (_ & _ & He & Hs' & Hi).
    rewrite Hi. auto.
  - repeat split. apply jsstring_eqb_refl.
  - cbn [numbers_survive renumber well_formed] in *.
    induction IH as [|x xs Hx Hxs IHxs]; [repeat split|].
    cbn [forallb] in Hs. apply andb_true_iff in Hs. destruct Hs as [Hsx Hsxs].
    destruct (Hx Hsx) as (A1 & A2 & A3 & A4).
    destruct (IHxs Hsxs) as (B1 & B2 & B3 & B4).
    cbn [List.map forallb]. rewrite A1, B1, A4, B4.
    split; [reflexivity|]. split.
    { injection B2 as B2. rewrite A2, B2. reflexivity. }
    split; [|reflexivity].
    cbn [json_eqb List.map]. rewrite A3. exact B3.
  - cbn [numbers_survive renumber well_formed] in *.
    rewrite renumber_keys.
    set (f := fun kv : jsstring * JsonValue => (fst kv, renumber (snd kv))).
    assert (L : forallb (fun kv => numbers_survive (snd kv)) (List.map f props)
                = true
                /\ List.map f (List.map f props) = List.map f props
                /\ json_eqb (JObject props) (JObject (List.map f props)) = true
                /\ forallb (fun kv => well_formed (snd kv)) (List.map f props)
                   = forallb (fun kv => well_formed (snd kv)) props).
    { subst f. induction IH as [|[k x] ps Hx Hps IHps]; [repeat split|].
      cbn [forallb snd] in Hs. apply andb_true_iff in Hs.
      destruct Hs as [Hsx Hsps]. cbn [snd] in Hx.
      destruct (Hx Hsx) as (A1 & A2 & A3 & A4).
      destruct (IHps Hsps) as (B1 & B2 & B3 & B4).
      cbn [List.map forallb fst snd].
      rewrite A1, B1, A2, B2, A4, B4.
      split; [reflexivity|]. split; [reflexivity|]. split; [|reflexivity].
      cbn [json_eqb fst snd]. rewrite A3, jsstring_eqb_refl. exact B3. }
    destruct L as (L1 & L2 & L3 & L4). rewrite L1, L2, L4. auto.
Qed.

End ValueProps.

Section SerializeProps.

Import JSNumber JSON RoundTrip.

(** *** Reading back a serialised value *)

Lemma skip_ws_app (w s : jsstring) :
  ws_only w = true -> skip_ws (w ++ s) = skip_ws s.
Proof.
  unfold ws_only, skip_ws. induction w as [|c w IH]; simpl; [reflexivity|].
  intros H. apply andb_true_iff in H. destruct H as [Hc Hw].
  rewrite Hc. apply IH, Hw.
Qed.

Lemma skip_ws_cons (c : N) (t : jsstring) :
  isJsonWs c = false -> skip_ws (c :: t) = c :: t.
Proof. intros H. unfold skip_ws. simpl. rewrite H. reflexivity. Qed.

Lemma skip_ws_at (w : jsstring) (c : N) (t : jsstring) :
  ws_only w = true -> isJsonWs c = false -> skip_ws (w ++ c :: t) = c :: t.
Proof. intros Hw Hc. rewrite skip_ws_app by exact Hw. apply skip_ws_cons, Hc. Qed.

Lemma ws_not_number (c : N) :
  isJsonWs c = true ->
  (isDigit c || N.eqb c 46 || N.eqb c 101 || N.eqb c 69) = false.
Proof.
  unfold isJsonWs, one_of. simpl. rewrite !orb_false_r.
  intros H. repeat (apply orb_true_iff in H; destruct H as [H|H]);
    apply N.eqb_eq in H; subst; reflexivity.
Qed.

Lemma delimited_ws (w s : jsstring) :
  ws_only w = true -> delimited s = true -> delimited (w ++ s) = true.
Proof.
  destruct w as [|c w]; [auto|]. unfold ws_only. simpl.
  intros H _. apply andb_true_iff in H. destruct H as [Hc _].
  rewrite (ws_not_number _ Hc). reflexivity.
Qed.

Lemma ws_only_lead (gap indent : jsstring) :
  ws_only indent = true -> ws_only (lead gap indent) = true.
Proof. intros H. destruct gap; [reflexivity|]. simpl. exact H. Qed.

Lemma ws_only_app (a b : jsstring) :
  ws_only a = true -> ws_only b = true -> ws_only (a ++ b) = true.
Proof. unfold ws_only. intros Ha Hb. rewrite forallb_app, Ha, Hb. reflexivity. Qed.

Lemma wrap_shape (o c : N) (gap stepback indent : jsstring)
  (p : jsstring) (more : list jsstring) :
  wrap o c gap stepback indent (p :: more)
  = o :: lead gap indent ++ join (44%N :: lead gap indent) (p :: more)
      ++ lead gap stepback ++ [c].
Proof. unfold wrap, lead. destruct gap; reflexivity. Qed.

Lemma number_start (c : N) :
  (N.eqb c 45 || isDigit c) = true ->
  isJsonWs c = false /\ N.eqb c 123 = false /\ N.eqb c 91 = false
  /\ N.eqb c 34 = false /\ N.eqb c 93 = false /\ N.eqb c 125 = false.
Proof.
  intros H. apply orb_true_iff in H.
  assert (R : (45 <= c <= 57)%N).
  { destruct H as [H|H]; [apply N.eqb_eq in H; lia|].
    apply isDigit_range in H. lia. }
  assert (W : isJsonWs c = false).
  { unfold isJsonWs, one_of. simpl. rewrite !orb_false_r.
    repeat (apply orb_false_iff; split); apply N.eqb_neq; lia. }
  repeat split; try exact W; apply N.eqb_neq; lia.
Qed.

(** The first code unit of a serialised value starts a value. *)
Lemma serialize_head (gap indent : jsstring) (v : JsonValue) :
  numbers_survive v = true ->
  exists c t, serialize gap indent v = c :: t
              /\ isJsonWs c = false /\ N.eqb c 93 = false
              /\ N.eqb c 125 = false.
Proof.
  intros Hs. destruct v as [ |b|x|s|items|props].
  - eexists _, _. repeat split.
  - destruct b; eexists _, _; repeat split.
  - cbn [numbers_survive serialize] in *.
    destruct (number_survives_reread _ Hs) as (Hl & Hf & _).
    rewrite Hf.
    destruct (@lex_number_app (toString x) [] (reread x) eq_refl Hl)
      as (_ & c & t & E & Hc).
    destruct (number_start _ Hc) as (A & _ & _ & _ & B & C).
    exists c, t. auto.
  - eexists _, _. repeat split.
  - cbn [serialize]. unfold wrap.
    destruct (List.map _ items); [|destruct gap]; eexists _, _; repeat split.
  - cbn [serialize]. unfold wrap.
    destruct (List.map _ props); [|destruct gap]; eexists _, _; repeat split.
Qed.

Lemma join_cons2 (sep p q : jsstring) (more : list jsstring) :
  join sep (p :: q :: more) = p ++ sep ++ join sep (q :: more).
Proof. reflexivity. Qed.

Lemma parse_elements_serialized (gap indent w1 w2 : jsstring)
  (items : list JsonValue) (rest : jsstring) :
  Forall (reads_back gap indent) items ->
  items <> [] ->
  ws_only w1 = true -> ws_only w2 = true ->
  forall w fuel,
    ws_only w = true ->
    list_sum (List.map (fun x => 1 + cost x) items) <= fuel ->
    parse_elements fuel
      (w ++ join (44%N :: w1) (List.map (serialize gap indent) items)
         ++ w2 ++ 93%N :: rest)
    = POk (List.map renumber items) rest.
Proof.
  intros Hall Hne Hw1 Hw2.
  induction Hall as [|x xs Hx Hxs IH]; [congruence|].
  intros w fuel Hw Hfuel. cbn [List.map list_sum fold_right] in Hfuel.
  destruct fuel as [|n]; [lia|]. cbn [parse_elements].
  destruct xs as [|x2 xs'].
  - cbn [List.map join].
    rewrite (Hx w (w2 ++ 93%N :: rest) n Hw);
      [|apply delimited_ws; [exact Hw2|reflexivity] | simpl in Hfuel; lia].
    rewrite skip_ws_at by (exact Hw2 || reflexivity).
    reflexivity.
  - cbn [List.map]. cbn [List.map] in IH. rewrite join_cons2.
    rewrite <- !app_assoc. cbn [app].
    rewrite (Hx w _ n Hw); [|reflexivity | lia].
    rewrite skip_ws_cons by reflexivity.
    change (N.eqb 44 44) with true. cbv iota.
    rewrite (IH ltac:(discriminate) w1 n Hw1);
      [reflexivity | cbn [List.map list_sum fold_right] in *; lia].
Qed.

Lemma parse_members_serialized (gap indent w1 w2 sp : jsstring)
  (props : list (jsstring * JsonValue)) (rest : jsstring) :
  Forall (fun kv => reads_back gap indent (snd kv)) props ->
  props <> [] ->
  ws_only w1 = true -> ws_only w2 = true -> ws_only sp = true ->
  forall w fuel,
    ws_only w = true ->
    list_sum (List.map (fun kv => 1 + cost (snd kv)) props) <= fuel ->
    parse_members fuel
      (w ++ join (44%N :: w1)
              (List.map (fun kv => quote (fst kv) ++ 58%N :: sp
                                   ++ serialize gap indent (snd kv)) props)
         ++ w2 ++ 125%N :: rest)
    = POk (List.map (fun kv => (fst kv, renumber (snd kv))) props) rest.
Proof.
  intros Hall Hne Hw1 Hw2 Hsp.
  induction Hall as [|[k x] ps Hx Hps IH]; [congruence|].
  intros w fuel Hw Hfuel. cbn [List.map list_sum fold_right fst snd] in Hfuel.
  cbn [snd] in Hx.
  destruct fuel as [|n]; [lia|]. cbn [parse_members].
  destruct ps as [|p2 ps'].
  - cbn [List.map join fst snd]. unfold quote. cbn [app].
    rewrite <- !app_assoc. cbn [app].
    rewrite skip_ws_at by (exact Hw || reflexivity).
    change (N.eqb dquote 34) with true. cbn [negb]. cbv iota.
    rewrite parse_quote_chars.
    rewrite skip_ws_cons by reflexivity.
    change (N.eqb 58 58) with true. cbn [negb]. cbv iota.
    rewrite <- ?app_assoc.
    rewrite (Hx sp (w2 ++ 125%N :: rest) n Hsp);
      [|apply delimited_ws; [exact Hw2|reflexivity] | simpl in Hfuel; lia].
    rewrite skip_ws_at by (exact Hw2 || reflexivity).
    reflexivity.
  - cbn [List.map fst snd]. cbn [List.map] in IH. rewrite join_cons2.
    unfold quote at 1.
    cbn [app]. rewrite <- !app_assoc. cbn [app].
    rewrite skip_ws_at by (exact Hw || reflexivity).
    change (N.eqb dquote 34) with true. cbn [negb]. cbv iota.
    rewrite parse_quote_chars.
    rewrite skip_ws_cons by reflexivity.
    change (N.eqb 58 58) with true. cbn [negb]. cbv iota.
    rewrite <- ?app_assoc.
    rewrite (Hx sp _ n Hsp); [|reflexivity | lia].
    rewrite skip_ws_cons by reflexivity.
    change (N.eqb 44 44) with true. cbv iota.
    refine (eq_trans
              (f_equal (fun r => match r with
                                 | POk ms r0 => POk ((k, renumber x) :: ms) r0
                                 | PErr r0 => PErr r0
                                 end)
                       (IH _ w1 n Hw1 _)) _);
      [discriminate | cbn [List.map list_sum fold_right] in *; lia
      | reflexivity].
Qed.

End SerializeProps.

Section RoundTripMain.

Import JSNumber JSON RoundTrip JsonUtils.

Lemma rewrite_under {X Y : Type} (f : X -> Y) (a b : X) (y : Y) :
  a = b -> f b = y -> f a = y.
Proof. intros -> H. exact H. Qed.

Lemma join_starts (sep p : jsstring) (more : list jsstring) (z : jsstring)
  (c : N) (t : jsstring) :
  p = c :: t -> exists t', join sep (p :: more) ++ z = c :: t'.
Proof.
  intros ->. destruct more; cbn [join app]; eexists; reflexivity.
Qed.

(** Every value whose numbers survive printing is read back from its
    serialised form, whatever the gap and the indentation. *)
Lemma serialize_reads_back (v : JsonValue) :
  numbers_survive v = true -> well_formed v = true ->
  forall gap indent,
    ws_only gap = true -> ws_only indent = true -> reads_back gap indent v.
Proof.
  induction v as [ |b|x|s|items IH|props IH] using JsonValue_induction;
    intros Hs Hwf gap indent Hgap Hind w rest fuel Hw Hd Hfuel;
    (destruct fuel as [|n]; [simpl in Hfuel; lia|]).
  - cbn [serialize parse_value]. change (js "null") with [110; 117; 108; 108]%N.
    cbn [app]. rewrite skip_ws_at by (exact Hw || reflexivity). reflexivity.
  - cbn [serialize parse_value]. destruct b.
    + change (js "true") with [116; 114; 117; 101]%N.
      cbn [app]. rewrite skip_ws_at by (exact Hw || reflexivity). reflexivity.
    + change (js "false") with [102; 97; 108; 115; 101]%N.
      cbn [app]. rewrite skip_ws_at by (exact Hw || reflexivity). reflexivity.
  - cbn [serialize parse_value numbers_survive renumber] in *.
    destruct (number_survives_reread _ Hs) as (Hl & Hf & _).
    rewrite Hf.
    destruct (@lex_number_app (toString x) rest (reread x) Hd Hl)
      as (Happ & c & t & E & Hc).
    destruct (number_start _ Hc) as (A & B1 & B2 & B3 & _).
    rewrite E in *. cbn [app] in *.
    rewrite skip_ws_at by assumption.
    rewrite B1, B2, B3, Hc, Happ. reflexivity.
  - cbn [serialize parse_value renumber]. unfold quote. cbn [app].
    rewrite <- app_assoc. cbn [app].
    rewrite skip_ws_at by (exact Hw || reflexivity).
    change (N.eqb dquote 123) with false. change (N.eqb dquote 91) with false.
    change (N.eqb dquote 34) with true. cbv iota.
    rewrite parse_quote_chars. reflexivity.
  - cbn [serialize renumber numbers_survive well_formed cost] in *.
    destruct items as [|x xs].
    { cbn [List.map]. unfold wrap. cbn [app parse_value].
      rewrite skip_ws_at by (exact Hw || reflexivity).
      change (N.eqb 91 123) with false. change (N.eqb 91 91) with true.
      cbv iota. rewrite skip_ws_cons by reflexivity. reflexivity. }
    assert (Hall : Forall (reads_back gap (indent ++ gap)) (x :: xs)).
    { rewrite Forall_forall in IH. apply Forall_forall. intros y Hy.
      rewrite forallb_forall in Hs, Hwf.
      apply IH; auto. apply ws_only_app; assumption. }
    cbn [List.map]. rewrite wrap_shape. cbn [app]. rewrite <- !app_assoc.
    cbn [app parse_value].
    rewrite skip_ws_at by (exact Hw || reflexivity).
    change (N.eqb 91 123) with false. change (N.eqb 91 91) with true.
    cbv iota.
    rewrite skip_ws_app
      by (apply ws_only_lead, ws_only_app; assumption).
    cbn [forallb] in Hs. apply andb_true_iff in Hs. destruct Hs as [Hsx Hsxs].
    destruct (serialize_head gap (indent ++ gap) x Hsx)
      as (c2 & t2 & E & Hws & H93 & _).
    destruct (@join_starts (44%N :: lead gap (indent ++ gap))
                (serialize gap (indent ++ gap) x)
                (List.map (serialize gap (indent ++ gap)) xs)
                (lead gap indent ++ 93%N :: rest) c2 t2 E) as [t' HX].
    rewrite HX. rewrite skip_ws_cons by exact Hws. rewrite H93.
    rewrite <- HX.
    refine (rewrite_under
              (fun r => match r with
                        | POk vs r0 => POk (JArray vs) r0
                        | PErr r0 => PErr r0
                        end)
              (@parse_elements_serialized gap (indent ++ gap)
                 (lead gap (indent ++ gap)) (lead gap indent) (x :: xs) rest
                 Hall _ _ _ [] n eq_refl _) _).
    + discriminate.
    + apply ws_only_lead, ws_only_app; assumption.
    + apply ws_only_lead; assumption.
    + lia.
    + reflexivity.
  - cbn [serialize renumber numbers_survive well_formed cost] in *.
    apply andb_true_iff in Hwf. destruct Hwf as [Hcan Hwf].
    destruct props as [|[k x] ps].
    { cbn [List.map]. unfold wrap. cbn [app parse_value].
      rewrite skip_ws_at by (exact Hw || reflexivity).
      change (N.eqb 123 123) with true.
      cbv iota. rewrite skip_ws_cons by reflexivity. reflexivity. }
    assert (Hall : Forall (fun kv => reads_back gap (indent ++ gap) (snd kv))
                          ((k, x) :: ps)).
    { rewrite Forall_forall in IH. apply Forall_forall. intros y Hy.
      rewrite forallb_forall in Hs, Hwf.
      apply IH; auto. apply ws_only_app; assumption. }
    cbn [List.map]. rewrite wrap_shape. cbn [app]. rewrite <- !app_assoc.
    cbn [app parse_value].
    rewrite skip_ws_at by (exact Hw || reflexivity).
    change (N.eqb 123 123) with true. cbv iota.
    rewrite skip_ws_app
      by (apply ws_only_lead, ws_only_app; assumption).
    destruct (@join_starts (44%N :: lead gap (indent ++ gap))
                (quote (fst (k, x)) ++ 58%N
                   :: match gap with [] => [] | _ :: _ => [32%N] end
                   ++ serialize gap (indent ++ gap) (snd (k, x)))
                (List.map (fun kv => quote (fst kv) ++ 58%N
                   :: match gap with [] => [] | _ :: _ => [32%N] end
                   ++ serialize gap (indent ++ gap) (snd kv)) ps)
                (lead gap indent ++ 125%N :: rest) dquote
                (quote_chars k ++ [dquote] ++ 58%N
                   :: match gap with [] => [] | _ :: _ => [32%N] end
                   ++ serialize gap (indent ++ gap) x))
      as [t' HX].
    { unfold quote. cbn [fst snd app]. rewrite <- !app_assoc. reflexivity. }
    rewrite HX. rewrite skip_ws_cons by reflexivity.
    change (N.eqb dquote 125) with false. cbv iota.
    rewrite <- HX.
    refine (rewrite_under
              (fun r => match r with
                        | POk ms r0 => POk (JObject (build_object ms)) r0
                        | PErr r0 => PErr r0
                        end)
              (@parse_members_serialized gap (indent ++ gap)
                 (lead gap (indent ++ gap)) (lead gap indent)
                 (match gap with [] => [] | _ :: _ => [32%N] end)
                 ((k, x) :: ps) rest
                 Hall _ _ _ _ [] n eq_refl _) _).
    + discriminate.
    + apply ws_only_lead, ws_only_app; assumption.
    + apply ws_only_lead; assumption.
    + destruct gap; reflexivity.
    + lia.
    + rewrite build_object_canonical_id; [reflexivity|].
      rewrite renumber_keys. exact Hcan.
Qed.

(** *** Enough fuel *)

Lemma join_cost (sep : jsstring) (l : list (nat * jsstring)) :
  sep <> [] ->
  Forall (fun p => fst p <= 2 * length (snd p)) l ->
  list_sum (List.map (fun p => 1 + fst p) l)
  <= 2 * length (join sep (List.map snd l)) + 1.
Proof.
  intros Hsep Hall. induction Hall as [|[c t] l Hc Hl IH].
  - simpl. lia.
  - cbn [fst snd] in Hc. destruct l as [|p2 l'].
    + cbn [List.map list_sum fold_right join fst snd]. lia.
    + cbn [List.map] in *. rewrite join_cons2.
      cbn [list_sum fold_right fst snd] in *.
      rewrite !length_app.
      assert (1 <= length sep) by (destruct sep; [congruence|simpl; lia]).
      lia.
Qed.

Lemma wrap_length (o c : N) (gap stepback indent : jsstring)
  (parts : list jsstring) :
  2 + length (join (44%N :: lead gap indent) parts)
  <= length (wrap o c gap stepback indent parts).
Proof.
  destruct parts as [|p more]; [simpl; lia|].
  rewrite wrap_shape. cbn [length]. rewrite !length_app. cbn [length]. lia.
Qed.

Lemma cost_le_length (v : JsonValue) :
  numbers_survive v = true ->
  forall gap indent, cost v <= 2 * length (serialize gap indent v).
Proof.
  induction v as [ |b|x|s|items IH|props IH] using JsonValue_induction;
    intros Hs gap indent.
  - simpl. lia.
  - destruct b; simpl; lia.
  - destruct (serialize_head gap indent (JNumber x) Hs) as (c & t & E & _).
    rewrite E. simpl. lia.
  - simpl. lia.
  - cbn [cost serialize numbers_survive] in *.
    pose proof (wrap_length 91 93 gap indent (indent ++ gap)
                  (List.map (serialize gap (indent ++ gap)) items)) as W.
    pose proof (@join_cost (44%N :: lead gap (indent ++ gap))
                  (List.map (fun x => (cost x, serialize gap (indent ++ gap) x))
                            items)) as J.
    rewrite !map_map in J. cbn [fst snd] in J.
    assert (list_sum (List.map (fun x => 1 + cost x) items)
            <= 2 * length (join (44%N :: lead gap (indent ++ gap))
                             (List.map (serialize gap (indent ++ gap)) items))
               + 1).
    { apply J; [discriminate|]. apply Forall_map. cbn [fst snd].
      rewrite Forall_forall in *. rewrite forallb_forall in Hs.
      intros y Hy. apply IH; auto. }
    lia.
  - cbn [cost serialize numbers_survive] in *.
    set (member := fun kv : jsstring * JsonValue =>
           quote (fst kv) ++ 58%N
             :: match gap with [] => [] | _ :: _ => [32%N] end
             ++ serialize gap (indent ++ gap) (snd kv)) in *.
    pose proof (wrap_length 123 125 gap indent (indent ++ gap)
                  (List.map member props)) as W.
    pose proof (@join_cost (44%N :: lead gap (indent ++ gap))
                  (List.map (fun kv => (cost (snd kv), member kv)) props)) as J.
    rewrite !map_map in J. cbn [fst snd] in J.
    assert (list_sum (List.map (fun kv => 1 + cost (snd kv)) props)
            <= 2 * length (join (44%N :: lead gap (indent ++ gap))
                             (List.map member props)) + 1).
    { apply J; [discriminate|]. apply Forall_map. cbn [fst snd].
      rewrite Forall_forall in *. rewrite forallb_forall in Hs.
      intros y Hy. specialize (IH y Hy (Hs y Hy) gap (indent ++ gap)).
      unfold member. rewrite length_app. cbn [length].
      rewrite length_app. lia. }
    lia.
Qed.

Lemma ws_only_gap (space : Z) : ws_only (gap_of space) = true.
Proof.
  unfold gap_of, ws_only. induction (Z.to_nat (Z.min 10 space)); simpl; auto.
Qed.

(** [JSON.parse] reads back what [JSON.stringify] wrote. *)
Lemma parse_stringify (v : JsonValue) (space : Z) :
  numbers_survive v = true -> well_formed v = true ->
  parse (stringify v space) = inl (renumber v).
Proof.
  intros Hs Hwf. unfold parse, stringify.
  pose proof (@serialize_reads_back v Hs Hwf (gap_of space) []
                (ws_only_gap space) eq_refl [] []
                (2 * length (serialize (gap_of space) [] v) + 2)
                eq_refl eq_refl) as R.
  rewrite app_nil_r in R. cbn [app] in R.
  rewrite R; [reflexivity|].
  pose proof (cost_le_length v Hs (gap_of space) []). lia.
Qed.

End RoundTripMain.

(** ** Printing a Number and reading it back

    [JSON.parse] rounds a decimal literal to the nearest binary64 value
    ([of_decimal]), and [Number::toString] writes the shortest decimal that
    rounds back to the value.  This part proves that it always finds one
    with at most seventeen digits, so that every finite Number survives
    printing. *)

(** *** Shifting a mantissa with its round and sticky bits

    [rec_of n d] stands for the fraction [n / d]: shifting it right by one
    bit gives the record of [n / (2 d)]. *)

Section ShiftRecords.
Import Rounding.
Local Open Scope Z_scope.

Lemma shr_1_spec (m : Z) (r s : bool) :
  0 <= m ->
  shr_1 (Build_shr_record m r s) = Build_shr_record (m / 2) (Z.odd m) (r || s).
Proof.
  intros Hm. rewrite <- Z.div2_div.
  destruct m as [|p|p]; [reflexivity| |lia].
  destruct p; reflexivity.
Qed.

Lemma loc_of_shr_record_of_loc (m : Z) (l : location) :
  loc_of_shr_record (shr_record_of_loc m l) = l.
Proof. destruct l as [|[ | | ]]; reflexivity. Qed.

Lemma rec_of_double (n d : Z) :
  0 <= n -> 0 < d -> shr_1 (rec_of n d) = rec_of n (2 * d).
Proof.
  intros Hn Hd. unfold rec_of, loc_of.
  rewrite (Z.mul_comm 2 d).
  rewrite <- (Z.div_div n d 2) by lia.
  rewrite (Z.rem_mul_r n d 2) by lia.
  pose proof (Z.mod_pos_bound n d Hd) as Hr.
  pose proof (Z.div_pos n d Hn Hd) as Hq.
  rewrite (Zmod_odd (n / d)).
  set (q := n / d) in *. set (r := n mod d) in *.
  destruct (Z.eqb_spec r 0) as [E|E].
  - rewrite E. cbn [shr_record_of_loc]. rewrite shr_1_spec by exact Hq.
    destruct (Z.odd q).
    + replace (0 + d * 1 =? 0) with false by (symmetry; apply Z.eqb_neq; lia).
      replace (2 * (0 + d * 1) ?= d * 2) with Eq
        by (symmetry; apply Z.compare_eq_iff; lia).
      reflexivity.
    + replace (0 + d * 0 =? 0) with true by (symmetry; apply Z.eqb_eq; lia).
      reflexivity.
  - assert (S : forall c, shr_1 (shr_record_of_loc q (loc_Inexact c))
                          = Build_shr_record (q / 2) (Z.odd q) true).
    { intros [ | | ]; cbn [shr_record_of_loc]; rewrite shr_1_spec by exact Hq;
        reflexivity. }
    rewrite S.
    destruct (Z.odd q).
    + replace (r + d * 1 =? 0) with false by (symmetry; apply Z.eqb_neq; lia).
      replace (2 * (r + d * 1) ?= d * 2) with Gt
        by (symmetry; apply Z.compare_gt_iff; lia).
      reflexivity.
    + replace (r + d * 0 =? 0) with false by (symmetry; apply Z.eqb_neq; lia).
      replace (2 * (r + d * 0) ?= d * 2) with Lt
        by (symmetry; apply Z.compare_lt_iff; lia).
      reflexivity.
Qed.

Lemma pow2_xO (p : positive) : 2 ^ Zpos p~0 = 2 ^ Zpos p * 2 ^ Zpos p.
Proof.
  replace (Zpos p~0) with (Zpos p + Zpos p) by lia.
  apply Z.pow_add_r; lia.
Qed.

Lemma pow2_xI (p : positive) : 2 ^ Zpos p~1 = 2 * (2 ^ Zpos p * 2 ^ Zpos p).
Proof.
  replace (Zpos p~1) with (1 + (Zpos p + Zpos p)) by lia.
  rewrite Z.pow_add_r, Z.pow_add_r by lia. reflexivity.
Qed.

Lemma rec_of_shift (p : positive) :
  forall n d, 0 <= n -> 0 < d ->
    iter_pos shr_1 p (rec_of n d) = rec_of n (d * 2 ^ Zpos p).
Proof.
  induction p as [p IH|p IH|]; intros n d Hn Hd; cbn [iter_pos];
    try assert (Hp : 0 < 2 ^ Zpos p) by (apply Z.pow_pos_nonneg; lia).
  - rewrite rec_of_double, IH, IH by (try assumption; nia).
    f_equal. rewrite pow2_xI. ring.
  - rewrite IH, IH by (try assumption; nia).
    f_equal. rewrite pow2_xO. ring.
  - rewrite rec_of_double by assumption. f_equal. change (2 ^ 1) with 2. lia.
Qed.

Lemma rec_of_scale (a b a' b' : Z) :
  0 <= a -> 0 < b -> 0 < b' -> a * b' = a' * b -> rec_of a b = rec_of a' b'.
Proof.
  intros Ha Hb Hb' E.
  assert (Ha' : 0 <= a') by nia.
  pose proof (Z.div_mod a b ltac:(lia)) as D.
  pose proof (Z.mod_pos_bound a b Hb) as R.
  pose proof (Z.div_mod a' b' ltac:(lia)) as D'.
  pose proof (Z.mod_pos_bound a' b' Hb') as R'.
  assert (Q : a / b = a' / b').
  { apply (Z.div_unique a' b' (a / b) (a' - b' * (a / b))); [|lia].
    left. nia. }
  unfold rec_of, loc_of. rewrite <- Q.
  assert (M : a mod b * b' = a' mod b' * b) by nia.
  f_equal.
  destruct (Z.eqb_spec (a mod b) 0) as [Z0|Z0];
    destruct (Z.eqb_spec (a' mod b') 0) as [Z1|Z1]; try reflexivity; try nia.
  f_equal.
  destruct (Z.compare_spec (2 * (a mod b)) b) as [C|C|C];
    symmetry; [apply Z.compare_eq_iff|apply Z.compare_lt_iff
               |apply Z.compare_gt_iff]; nia.
Qed.

Lemma shr_fexp_rec_of (n d ex : Z) :
  0 <= n -> 0 < d ->
  let k := Z.max 0 (fexp 53 1024 (Zdigits2 (n / d) + ex) - ex) in
  shr_fexp 53 1024 (n / d) ex (loc_of n d) = (rec_of n (d * 2 ^ k), ex + k).
Proof.
  intros Hn Hd k. unfold shr_fexp, shr. fold (rec_of n d). subst k.
  destruct (fexp 53 1024 (Zdigits2 (n / d) + ex) - ex) as [|p|p].
  - cbn [Z.max Z.compare]. rewrite Z.pow_0_r, Z.mul_1_r, Z.add_0_r. reflexivity.
  - rewrite rec_of_shift by assumption.
    replace (Z.max 0 (Zpos p)) with (Zpos p) by lia. reflexivity.
  - replace (Z.max 0 (Zneg p)) with 0 by lia.
    rewrite Z.pow_0_r, Z.mul_1_r, Z.add_0_r. reflexivity.
Qed.

End ShiftRecords.

(** *** The number of bits of a mantissa, and [binary_round_aux] on a
    fraction *)

Section MantissaDigits.
Import Rounding.
Local Open Scope Z_scope.

Lemma digits2_size (p : positive) : digits2_pos p = Pos.size p.
Proof. induction p; cbn [digits2_pos Pos.size]; congruence. Qed.

Lemma Zdigits2_log2 (q : Z) : 0 < q -> Zdigits2 q = Z.log2 q + 1.
Proof.
  destruct q as [|p|p]; try lia. intros _. cbn [Zdigits2].
  rewrite digits2_size. destruct p; cbn [Pos.size Z.log2]; lia.
Qed.

Lemma Zdigits2_bounds (q : Z) :
  0 < q -> 2 ^ (Zdigits2 q - 1) <= q < 2 ^ Zdigits2 q.
Proof.
  intros Hq. rewrite Zdigits2_log2 by exact Hq.
  replace (Z.log2 q + 1 - 1) with (Z.log2 q) by lia.
  apply Z.log2_spec, Hq.
Qed.

Lemma Zdigits2_unique (q t : Z) :
  0 < q -> 2 ^ (t - 1) <= q < 2 ^ t -> Zdigits2 q = t.
Proof.
  intros Hq Hb. rewrite Zdigits2_log2 by exact Hq.
  assert (1 <= t).
  { destruct (Z.le_gt_cases 1 t) as [|Ht]; [assumption|].
    assert (2 ^ t <= 1).
    { destruct (Z.eq_dec t 0) as [->|]; [reflexivity|].
      rewrite Z.pow_neg_r by lia. lia. }
    lia. }
  rewrite (Z.log2_unique q (t - 1)); [lia|lia|].
  replace (Z.succ (t - 1)) with t by lia. exact Hb.
Qed.

Lemma Zdigits2_pos (q : Z) : 0 < q -> 1 <= Zdigits2 q.
Proof.
  intros Hq. rewrite Zdigits2_log2 by exact Hq.
  pose proof (Z.log2_nonneg q). lia.
Qed.

Lemma fexp_eq (z : Z) : fexp 53 1024 z = Z.max (z - 53) (-1074).
Proof. reflexivity. Qed.

Lemma shr_m_rec_of (n d : Z) : shr_m (rec_of n d) = n / d.
Proof. unfold rec_of. destruct (loc_of n d) as [|[ | | ]]; reflexivity. Qed.

Lemma loc_of_rec_of (n d : Z) : loc_of_shr_record (rec_of n d) = loc_of n d.
Proof. apply loc_of_shr_record_of_loc. Qed.

Lemma loc_of_1 (m : Z) : loc_of m 1 = loc_Exact.
Proof. unfold loc_of. rewrite Z.mod_1_r. reflexivity. Qed.

Lemma round_nearest_even_nonneg (m : Z) (l : location) :
  0 <= m -> 0 <= round_nearest_even m l.
Proof.
  intros Hm. destruct l as [|[ | | ]]; cbn [round_nearest_even]; try lia.
  destruct (Z.even m); lia.
Qed.

(** [binary_round_aux] on a mantissa and a location that stand for the
    fraction [n / d]. *)
Lemma binary_round_aux_rec (sx : bool) (n d ex : Z) :
  0 <= n -> 0 < d ->
  binary_round_aux 53 1024 sx (n / d) ex (loc_of n d)
  = let k := Z.max 0 (fexp 53 1024 (Zdigits2 (n / d) + ex) - ex) in
    let e1 := ex + k in
    let m2 := round_nearest_even (n / (d * 2 ^ k)) (loc_of n (d * 2 ^ k)) in
    let k2 := Z.max 0 (fexp 53 1024 (Zdigits2 m2 + e1) - e1) in
    match m2 / 2 ^ k2 with
    | Z0 => S754_zero sx
    | Zpos m => if e1 + k2 <=? 971 then S754_finite sx m (e1 + k2)
                else S754_infinity sx
    | Zneg _ => S754_nan
    end.
Proof.
  intros Hn Hd. cbv zeta. unfold binary_round_aux.
  rewrite shr_fexp_rec_of by assumption. cbv zeta.
  rewrite shr_m_rec_of, loc_of_rec_of.
  set (k := Z.max 0 (fexp 53 1024 (Zdigits2 (n / d) + ex) - ex)).
  set (m2 := round_nearest_even (n / (d * 2 ^ k)) (loc_of n (d * 2 ^ k))).
  assert (H2 : 0 <= m2).
  { apply round_nearest_even_nonneg. apply Z.div_pos; [lia|].
    assert (0 < 2 ^ k) by (apply Z.pow_pos_nonneg; lia). nia. }
  rewrite <- (Z.div_1_r m2) at 1. rewrite <- (loc_of_1 m2).
  rewrite shr_fexp_rec_of by lia. cbv zeta.
  rewrite shr_m_rec_of, Z.div_1_r, Z.mul_1_l. reflexivity.
Qed.

End MantissaDigits.

(** *** Rounding to the nearest integer *)

Section HalfWay.
Import Rounding.
Local Open Scope Z_scope.

Lemma rec_of_scale_parts (a b a' b' : Z) :
  0 <= a -> 0 < b -> 0 < b' -> a * b' = a' * b ->
  a / b = a' / b' /\ loc_of a b = loc_of a' b'.
Proof.
  intros Ha Hb Hb' E. pose proof (@rec_of_scale a b a' b' Ha Hb Hb' E) as R.
  split.
  - rewrite <- (shr_m_rec_of a b), R. apply shr_m_rec_of.
  - rewrite <- (loc_of_rec_of a b), R. apply loc_of_rec_of.
Qed.

(** Rounding a fraction less than one half away from an integer. *)
Lemma nearest_half (a b m : Z) :
  0 < b -> (2 * m - 1) * b < 2 * a < (2 * m + 1) * b ->
  round_nearest_even (a / b) (loc_of a b) = m.
Proof.
  intros Hb [Hl Hu].
  destruct (Z.le_gt_cases (m * b) a) as [C|C].
  - assert (Q : a / b = m).
    { symmetry. apply (Z.div_unique a b m (a - m * b)); [left; nia|lia]. }
    assert (R : a mod b = a - m * b).
    { symmetry. apply (Z.mod_unique a b m (a - m * b)); [left; nia|lia]. }
    unfold loc_of. rewrite Q, R.
    destruct (Z.eqb_spec (a - m * b) 0); [reflexivity|].
    replace (2 * (a - m * b) ?= b) with Lt
      by (symmetry; apply Z.compare_lt_iff; nia).
    reflexivity.
  - assert (Q : a / b = m - 1).
    { symmetry. apply (Z.div_unique a b (m - 1) (a - (m - 1) * b));
        [left; nia|lia]. }
    assert (R : a mod b = a - (m - 1) * b).
    { symmetry. apply (Z.mod_unique a b (m - 1) (a - (m - 1) * b));
        [left; nia|lia]. }
    unfold loc_of. rewrite Q, R.
    destruct (Z.eqb_spec (a - (m - 1) * b) 0); [nia|].
    replace (2 * (a - (m - 1) * b) ?= b) with Gt
      by (symmetry; apply Z.compare_gt_iff; nia).
    cbn [round_nearest_even]. lia.
Qed.

Lemma bounded_cases (m : positive) (e : Z) :
  bounded 53 1024 m e = true ->
  e <= 971 /\ -1074 <= e
  /\ 1 <= Zdigits2 (Zpos m) <= 53
  /\ fexp 53 1024 (Zdigits2 (Zpos m) + e) = e
  /\ (-1074 < e -> Zdigits2 (Zpos m) = 53).
Proof.
  unfold bounded, canonical_mantissa. intros H.
  apply andb_true_iff in H. destruct H as [C B].
  apply Z.eqb_eq in C. apply Z.leb_le in B.
  change (Zpos (digits2_pos m)) with (Zdigits2 (Zpos m)) in C.
  pose proof (@Zdigits2_pos (Zpos m) eq_refl) as D.
  rewrite fexp_eq in C |- *. change (1024 - 53) with 971 in B. lia.
Qed.

Lemma pow2_split (u v : Z) : 0 <= u -> 0 <= v -> 2 ^ (u + v) = 2 ^ u * 2 ^ v.
Proof. intros. apply Z.pow_add_r; assumption. Qed.

Lemma pow2_pos (u : Z) : 0 <= u -> 0 < 2 ^ u.
Proof. intros. apply Z.pow_pos_nonneg; lia. Qed.

End HalfWay.

(** *** A value less than half an ulp away from a Number rounds to it *)

Section NearestValue.
Import Rounding.
Local Open Scope Z_scope.

Lemma div_bounds (n d : Z) : 0 < d -> n / d * d <= n < (n / d + 1) * d.
Proof.
  intros Hd. pose proof (Z.div_mod n d ltac:(lia)).
  pose proof (Z.mod_pos_bound n d Hd). nia.
Qed.

Lemma round_near (sx : bool) (m : positive) (e n d ex a b : Z) :
  bounded 53 1024 m e = true ->
  0 < d -> d <= n -> 0 < b -> ex <= 0 ->
  ex <= fexp 53 1024 (Zdigits2 (n / d) + ex) ->
  n * b * 2 ^ Z.max 0 (- e) = a * d * 2 ^ (- ex) * 2 ^ Z.max 0 e ->
  (2 * Zpos m - 1) * b < 2 * a < (2 * Zpos m + 1) * b ->
  (Zpos m = 2 ^ 52 -> -1074 < e ->
   Zpos m * b <= a \/ (4 * Zpos m - 1) * b < 4 * a) ->
  binary_round_aux 53 1024 sx (n / d) ex (loc_of n d) = S754_finite sx m e.
Proof.
  intros Hb0 Hd Hn Hb Hex Hfine Hval [Hl Hu] Hbd.
  destruct (bounded_cases _ _ Hb0) as (He1 & He2 & Hdm & Hcan & Hnorm).
  pose proof (@Zdigits2_bounds (Zpos m) eq_refl) as Hm.
  set (dm := Zdigits2 (Zpos m)) in *.
  assert (HP : 2 ^ dm = 2 * 2 ^ (dm - 1)).
  { replace dm with (1 + (dm - 1)) at 1 by lia.
    rewrite pow2_split by lia. reflexivity. }
  assert (HP1 : 1 <= 2 ^ (dm - 1) <= 2 ^ 52).
  { split; [pose proof (@pow2_pos (dm - 1) ltac:(lia)); lia|].
    apply Z.pow_le_mono_r; lia. }
  set (P := 2 ^ (dm - 1)) in *.
  set (T := 2 ^ 52) in *.
  assert (Hq : 1 <= n / d) by (apply Z.div_le_lower_bound; lia).
  pose proof (@div_bounds n d Hd) as Hqd.
  pose proof (@Zdigits2_bounds (n / d) ltac:(lia)) as Hqb.
  pose proof (@Zdigits2_pos (n / d) ltac:(lia)) as Hdq.
  assert (Hn0 : 0 <= n) by lia.
  rewrite fexp_eq in Hfine.
  (* the representation is at least as fine as the target *)
  assert (Hle : ex <= e).
  { destruct (Z.le_gt_cases ex e) as [|Hgt]; [assumption|exfalso].
    assert (Hd53 : 53 <= Zdigits2 (n / d)) by lia.
    assert (HT : T <= n / d).
    { transitivity (2 ^ (Zdigits2 (n / d) - 1)); [|lia].
      apply Z.pow_le_mono_r; lia. }
    replace (Z.max 0 (- e)) with (- ex + (ex - e)) in Hval by lia.
    replace (Z.max 0 e) with 0 in Hval by lia.
    rewrite Z.pow_0_r, Z.mul_1_r, pow2_split in Hval by lia.
    pose proof (@pow2_pos (- ex) ltac:(lia)) as H1.
    assert (H2 : 2 <= 2 ^ (ex - e)).
    { change 2 with (2 ^ 1) at 1. apply Z.pow_le_mono_r; lia. }
    set (U := 2 ^ (- ex)) in *. set (V := 2 ^ (ex - e)) in *.
    assert (Hval' : n * b * V = a * d) by nia.
    assert (H3 : T * d <= n) by nia.
    assert (H4 : 2 * T * d * b <= a * d).
    { rewrite <- Hval'. 
      assert (T * d * b <= n * b) by nia. nia. }
    assert (H5 : 2 * T * b <= a) by nia.
    assert (H6 : Zpos m < 2 * T) by lia.
    nia. }
  set (j := e - ex).
  assert (Hj : 0 <= j) by (unfold j; lia).
  pose proof (@pow2_pos j Hj) as HJ.
  assert (Hrel : n * b = a * d * 2 ^ j).
  { destruct (Z.le_gt_cases 0 e) as [E|E].
    - replace (Z.max 0 (- e)) with 0 in Hval by lia.
      replace (Z.max 0 e) with e in Hval by lia.
      rewrite Z.pow_0_r, Z.mul_1_r in Hval.
      unfold j. replace (e - ex) with (- ex + e) by lia.
      rewrite pow2_split by lia. lia.
    - replace (Z.max 0 (- e)) with (- e) in Hval by lia.
      replace (Z.max 0 e) with 0 in Hval by lia.
      rewrite Z.pow_0_r, Z.mul_1_r in Hval.
      replace (- ex) with (j + - e) in Hval by (unfold j; lia).
      rewrite pow2_split in Hval by lia.
      pose proof (@pow2_pos (- e) ltac:(lia)) as H1.
      set (U := 2 ^ (- e)) in *. nia. }
  set (J := 2 ^ j) in *.
  assert (Ha : 0 < a) by nia.
  rewrite binary_round_aux_rec by lia. cbv zeta.
  rewrite fexp_eq.
  destruct (Z.le_gt_cases (P * b) a) as [C|C].
  - (* the value lies in the binade of the target *)
    assert (Dq : Zdigits2 (n / d) = dm + j).
    { apply Zdigits2_unique; [lia|].
      replace (dm + j - 1) with (dm - 1 + j) by lia.
      rewrite !pow2_split by lia. fold P J. rewrite HP. fold P.
      assert (L : P * J * d <= n).
      { assert (P * b * d * J <= n * b) by nia. nia. }
      assert (U : n < 2 * P * J * d).
      { assert (n * b < 2 * P * b * d * J) by nia. nia. }
      split.
      - apply Z.div_le_lower_bound; lia.
      - apply Z.div_lt_upper_bound; lia. }
    rewrite Dq.
    replace (dm + j + ex) with (dm + e) by (unfold j; lia).
    rewrite fexp_eq in Hcan. rewrite Hcan.
    replace (Z.max 0 (e - ex)) with j by (unfold j; lia). fold J.
    destruct (@rec_of_scale_parts n (d * J) a b Hn0 ltac:(nia) Hb
                ltac:(nia)) as [-> ->].
    rewrite (@nearest_half a b (Zpos m) Hb (conj Hl Hu)).
    replace (ex + j) with e by (unfold j; lia).
    fold dm. rewrite fexp_eq, Hcan, Z.sub_diag. cbn [Z.max Z.compare].
    rewrite Z.pow_0_r, Z.div_1_r, Z.add_0_r.
    replace (e <=? 971) with true by (symmetry; apply Z.leb_le; lia).
    reflexivity.
  - (* the value lies just below the binade of the target *)
    assert (Em : Zpos m = P) by nia.
    assert (U : n < P * J * d).
    { assert (n * b < P * b * d * J) by nia. nia. }
    assert (L : P * J * d < 2 * n).
    { assert (P * b * d * J < 2 * n * b) by nia. nia. }
    assert (Hdj : 2 <= dm + j).
    { destruct (Z.le_gt_cases 2 (dm + j)); [assumption|exfalso].
      assert (dm = 1) by lia. assert (j = 0) by lia.
      assert (P = 1)
        by (unfold P; replace (dm - 1) with 0 by lia; reflexivity).
      assert (J = 1) by (unfold J; replace j with 0 by lia; reflexivity).
      nia. }
    assert (HW : P * J = 2 * 2 ^ (dm + j - 2)).
    { unfold P, J. rewrite <- pow2_split by lia.
      replace (dm - 1 + j) with (1 + (dm + j - 2)) by lia.
      rewrite pow2_split by lia. reflexivity. }
    set (W := 2 ^ (dm + j - 2)) in *.
    assert (Dq : Zdigits2 (n / d) = dm + j - 1).
    { apply Zdigits2_unique; [lia|].
      replace (dm + j - 1 - 1) with (dm + j - 2) by lia. fold W.
      replace (dm + j - 1) with (1 + (dm + j - 2)) by lia.
      rewrite pow2_split by lia. fold W. change (2 ^ 1) with 2.
      split.
      - apply Z.div_le_lower_bound; nia.
      - apply Z.div_lt_upper_bound; nia. }
    rewrite Dq.
    replace (dm + j - 1 + ex) with (dm + e - 1) by (unfold j; lia).
    rewrite fexp_eq in Hcan.
    destruct (Z.eq_dec e (-1074)) as [Emin|Emin].
    + replace (Z.max (dm + e - 1 - 53) (-1074)) with e by lia.
      replace (Z.max 0 (e - ex)) with j by (unfold j; lia). fold J.
      destruct (@rec_of_scale_parts n (d * J) a b Hn0 ltac:(nia) Hb
                  ltac:(nia)) as [-> ->].
      rewrite (@nearest_half a b (Zpos m) Hb (conj Hl Hu)).
      replace (ex + j) with e by (unfold j; lia).
      fold dm. rewrite fexp_eq, Hcan, Z.sub_diag. cbn [Z.max Z.compare].
      rewrite Z.pow_0_r, Z.div_1_r, Z.add_0_r.
      replace (e <=? 971) with true by (symmetry; apply Z.leb_le; lia).
      reflexivity.
    + assert (D53 : dm = 53) by (apply Hnorm; lia).
      assert (PT : P = T) by (unfold P, T; rewrite D53; reflexivity).
      replace (Z.max (dm + e - 1 - 53) (-1074)) with (e - 1) by lia.
      replace (Z.max (dm + e - 1 - 53) (-1074)) with (e - 1) in Hfine by lia.
      assert (Hj1 : 1 <= j) by (unfold j; lia).
      replace (Z.max 0 (e - 1 - ex)) with (j - 1) by (unfold j; lia).
      assert (HJ2 : J = 2 * 2 ^ (j - 1)).
      { unfold J. replace j with (1 + (j - 1)) at 1 by lia.
        rewrite pow2_split by lia. reflexivity. }
      pose proof (@pow2_pos (j - 1) ltac:(lia)) as HJ1.
      set (J1 := 2 ^ (j - 1)) in *.
      destruct (@rec_of_scale_parts n (d * J1) (2 * a) b Hn0 ltac:(nia) Hb
                  ltac:(nia)) as [-> ->].
      assert (B4 : (4 * Zpos m - 1) * b < 4 * a).
      { destruct (Hbd ltac:(lia) ltac:(lia)) as [B|B]; [nia|exact B]. }
      rewrite (@nearest_half (2 * a) b (2 * Zpos m) Hb ltac:(lia)).
      replace (ex + (j - 1)) with (e - 1) by (unfold j; lia).
      assert (D2 : Zdigits2 (2 * Zpos m) = 54).
      { apply Zdigits2_unique; [lia|]. rewrite Em, PT. unfold T.
        change (2 * 2 ^ 52) with (2 ^ 53). change (54 - 1) with 53.
        split; [lia|]. apply Z.pow_lt_mono_r; lia. }
      rewrite D2, fexp_eq.
      replace (Z.max (54 + (e - 1) - 53) (-1074) - (e - 1)) with 1 by lia.
      cbn [Z.max Z.compare]. change (2 ^ 1) with 2.
      rewrite Z.mul_comm, Z.div_mul by lia.
      replace (e - 1 + 1) with e by lia.
      replace (e <=? 971) with true by (symmetry; apply Z.leb_le; lia).
      reflexivity.
Qed.

End NearestValue.

(** *** Rounding depends on the value only, and gives a binary64 value *)

Section Representations.
Import Rounding.
Local Open Scope Z_scope.

(** Two representations of one value, the second at least as fine as the
    first, round alike. *)
Lemma round_refine (sx : bool) (n d ex n' d' j : Z) :
  0 < d -> d <= n -> 0 < d' -> 0 <= j ->
  ex <= fexp 53 1024 (Zdigits2 (n / d) + ex) ->
  n * d' * 2 ^ j = n' * d ->
  binary_round_aux 53 1024 sx (n' / d') (ex - j) (loc_of n' d')
  = binary_round_aux 53 1024 sx (n / d) ex (loc_of n d).
Proof.
  intros Hd Hn Hd' Hj Hfine Hrel.
  pose proof (@pow2_pos j Hj) as HJ.
  assert (Hn0 : 0 <= n) by lia.
  assert (Hn0' : 0 <= n') by nia.
  unfold binary_round_aux.
  rewrite (@shr_fexp_rec_of n' d' (ex - j) Hn0' Hd').
  rewrite (@shr_fexp_rec_of n d ex Hn0 Hd). cbv zeta.
  assert (Hq : 1 <= n / d) by (apply Z.div_le_lower_bound; lia).
  pose proof (@div_bounds n d Hd) as Hqd.
  pose proof (@Zdigits2_bounds (n / d) ltac:(lia)) as Hqb.
  pose proof (@Zdigits2_pos (n / d) ltac:(lia)) as Hdq.
  set (q := n / d) in *. set (dq := Zdigits2 q) in *.
  assert (HP : 2 ^ dq = 2 * 2 ^ (dq - 1)).
  { replace dq with (1 + (dq - 1)) at 1 by lia.
    rewrite pow2_split by lia. reflexivity. }
  set (J := 2 ^ j) in *.
  assert (Hq' : q * J <= n' / d' < (q + 1) * J).
  { split.
    - apply Z.div_le_lower_bound; [lia|].
      assert (q * J * d' * d <= n' * d) by nia. nia.
    - apply Z.div_lt_upper_bound; [lia|].
      assert (n' * d < d' * ((q + 1) * J) * d) by nia. nia. }
  assert (Dq : Zdigits2 (n' / d') = dq + j).
  { apply Zdigits2_unique; [nia|].
    replace (dq + j - 1) with (dq - 1 + j) by lia.
    rewrite !pow2_split by lia. fold J. 
    set (P := 2 ^ (dq - 1)) in *. nia. }
  rewrite Dq.
  replace (dq + j + (ex - j)) with (dq + ex) by lia.
  set (f := fexp 53 1024 (dq + ex)) in *.
  replace (Z.max 0 (f - (ex - j))) with (Z.max 0 (f - ex) + j) by lia.
  replace (ex - j + (Z.max 0 (f - ex) + j)) with (ex + Z.max 0 (f - ex)) by lia.
  rewrite pow2_split by lia. fold J.
  pose proof (@pow2_pos (Z.max 0 (f - ex)) ltac:(lia)) as HK.
  set (K := 2 ^ Z.max 0 (f - ex)) in *.
  rewrite (@rec_of_scale n' (d' * (K * J)) n (d * K) Hn0' ltac:(nia)
             ltac:(nia) ltac:(nia)).
  reflexivity.
Qed.

Lemma round_repr_eq (sx : bool) (n d ex n' d' ex' : Z) :
  0 < d -> d <= n -> 0 < d' -> d' <= n' -> ex <= 0 -> ex' <= 0 ->
  ex <= fexp 53 1024 (Zdigits2 (n / d) + ex) ->
  ex' <= fexp 53 1024 (Zdigits2 (n' / d') + ex') ->
  n * d' * 2 ^ (- ex') = n' * d * 2 ^ (- ex) ->
  binary_round_aux 53 1024 sx (n / d) ex (loc_of n d)
  = binary_round_aux 53 1024 sx (n' / d') ex' (loc_of n' d').
Proof.
  intros Hd Hn Hd' Hn' Hex Hex' Hf Hf' Hrel.
  destruct (Z.le_ge_cases ex' ex) as [L|L].
  - symmetry. replace ex' with (ex - (ex - ex')) by lia.
    apply round_refine; try assumption; [lia|].
    replace (- ex') with (- ex + (ex - ex')) in Hrel by lia.
    rewrite pow2_split in Hrel by lia.
    pose proof (@pow2_pos (- ex) ltac:(lia)). nia.
  - replace ex with (ex' - (ex' - ex)) by lia.
    apply round_refine; try assumption; [lia|].
    replace (- ex) with (- ex' + (ex' - ex)) in Hrel by lia.
    rewrite pow2_split in Hrel by lia.
    pose proof (@pow2_pos (- ex') ltac:(lia)). nia.
Qed.

Lemma round_nearest_even_bounds (m : Z) (l : location) :
  m <= round_nearest_even m l <= m + 1.
Proof.
  destruct l as [|[ | | ]]; cbn [round_nearest_even]; try lia.
  destruct (Z.even m); lia.
Qed.

(** What [binary_round_aux] returns is a valid binary64 value. *)
Lemma binary_round_aux_valid (sx : bool) (n d ex : Z) :
  0 < d -> d <= n ->
  ex <= fexp 53 1024 (Zdigits2 (n / d) + ex) ->
  valid_binary 53 1024
    (binary_round_aux 53 1024 sx (n / d) ex (loc_of n d)) = true.
Proof.
  intros Hd Hn Hfine.
  assert (Hn0 : 0 <= n) by lia.
  assert (Hq : 1 <= n / d) by (apply Z.div_le_lower_bound; lia).
  pose proof (@Zdigits2_bounds (n / d) ltac:(lia)) as Hqb.
  pose proof (@Zdigits2_pos (n / d) ltac:(lia)) as Hdq.
  rewrite binary_round_aux_rec by lia. cbv zeta.
  rewrite <- (Z.div_div n d) by (try apply pow2_pos; lia).
  set (q := n / d) in *. set (dq := Zdigits2 q) in *.
  rewrite fexp_eq in Hfine |- *.
  set (e1 := Z.max (dq + ex - 53) (-1074)) in *.
  replace (Z.max 0 (e1 - ex)) with (e1 - ex) by lia.
  replace (ex + (e1 - ex)) with e1 by lia.
  set (k := e1 - ex) in *.
  pose proof (@pow2_pos k ltac:(lia)) as HK.
  assert (M1 : 0 <= q / 2 ^ k < 2 ^ 53).
  { split; [apply Z.div_pos; lia|].
    apply Z.div_lt_upper_bound; [lia|].
    rewrite <- pow2_split by lia.
    apply Z.lt_le_trans with (2 ^ dq); [lia|].
    apply Z.pow_le_mono_r; lia. }
  assert (M2 : -1074 < e1 -> 2 ^ 52 <= q / 2 ^ k).
  { intros He. apply Z.div_le_lower_bound; [lia|].
    rewrite <- pow2_split by lia.
    replace (k + 52) with (dq - 1) by lia. lia. }
  set (m1 := q / 2 ^ k) in *.
  pose proof (round_nearest_even_bounds m1 (loc_of n (d * 2 ^ k))) as R.
  set (m2 := round_nearest_even m1 (loc_of n (d * 2 ^ k))) in *.
  destruct (Z.eq_dec m2 0) as [Z0|Z0].
  { rewrite Z0. cbn [Zdigits2]. rewrite fexp_eq.
    replace (Z.max 0 (Z.max (0 + e1 - 53) (-1074) - e1)) with 0 by lia.
    reflexivity. }
  assert (H2 : 0 < m2) by lia.
  destruct (Z.eq_dec m2 (2 ^ 53)) as [Top|Top].
  - assert (D2 : Zdigits2 m2 = 54).
    { apply Zdigits2_unique; [lia|]. rewrite Top.
      split; [reflexivity|]. apply Z.pow_lt_mono_r; lia. }
    rewrite D2, fexp_eq.
    replace (Z.max 0 (Z.max (54 + e1 - 53) (-1074) - e1)) with 1 by lia.
    rewrite Top. change (2 ^ 53 / 2 ^ 1) with (Zpos (2 ^ 52)%positive).
    destruct (e1 + 1 <=? 971) eqn:B; [|reflexivity].
    cbn [valid_binary]. unfold bounded, canonical_mantissa.
    change (Zpos (digits2_pos (2 ^ 52))) with 53.
    rewrite fexp_eq. change (1024 - 53) with 971. rewrite B.
    replace (Z.max (53 + (e1 + 1) - 53) (-1074)) with (e1 + 1) by lia.
    rewrite Z.eqb_refl. reflexivity.
  - pose proof (@Zdigits2_bounds m2 H2) as B2.
    pose proof (@Zdigits2_pos m2 H2) as P2.
    assert (D2 : Zdigits2 m2 <= 53).
    { destruct (Z.le_gt_cases (Zdigits2 m2) 53); [assumption|exfalso].
      assert (2 ^ 53 <= 2 ^ (Zdigits2 m2 - 1))
        by (apply Z.pow_le_mono_r; lia).
      lia. }
    assert (D3 : -1074 < e1 -> Zdigits2 m2 = 53).
    { intros He. apply Zdigits2_unique; [lia|].
      change (53 - 1) with 52. specialize (M2 He). lia. }
    rewrite fexp_eq.
    replace (Z.max 0 (Z.max (Zdigits2 m2 + e1 - 53) (-1074) - e1)) with 0
      by lia.
    rewrite Z.pow_0_r, Z.div_1_r, Z.add_0_r.
    destruct m2 as [|p|p]; try lia.
    destruct (e1 <=? 971) eqn:B; [|reflexivity].
    cbn [valid_binary]. unfold bounded, canonical_mantissa.
    change (Zpos (digits2_pos p)) with (Zdigits2 (Zpos p)).
    rewrite fexp_eq. change (1024 - 53) with 971. rewrite B.
    replace (Z.max (Zdigits2 (Zpos p) + e1 - 53) (-1074)) with e1 by lia.
    rewrite Z.eqb_refl. reflexivity.
Qed.

End Representations.

(** *** What [of_decimal] rounds *)

Section DecimalValues.
Import Rounding JSNumber.
Local Open Scope Z_scope.

Lemma pow10_pos (u : Z) : 0 <= u -> 0 < 10 ^ u.
Proof. intros. apply Z.pow_pos_nonneg; lia. Qed.

Lemma iter_xO (dd : positive) (mx : positive) :
  Zpos (Pos.iter xO mx dd) = Zpos mx * 2 ^ Zpos dd.
Proof.
  revert mx. induction dd as [|dd IH] using Pos.peano_ind; intros mx.
  - cbn [Pos.iter]. change (2 ^ 1) with 2. lia.
  - rewrite Pos.iter_succ, Pos2Z.inj_xO, IH, Pos2Z.inj_succ.
    rewrite Z.pow_succ_r by lia. ring.
Qed.

Lemma of_decimal_repr (neg : bool) (c p : Z) :
  0 < c ->
  let '(n, d, ex) := decimal_repr c p in
  of_decimal neg c p
  = binary_round_aux 53 1024 neg (n / d) ex (loc_of n d)
  /\ 0 < d /\ d <= n /\ ex <= 0
  /\ ex <= fexp 53 1024 (Zdigits2 (n / d) + ex)
  /\ n * 10 ^ Z.max 0 (- p) = c * 10 ^ Z.max 0 p * d * 2 ^ (- ex).
Proof.
  intros Hc. unfold decimal_repr. destruct (0 <=? p) eqn:Hp.
  - apply Z.leb_le in Hp.
    pose proof (@pow10_pos p Hp) as H10.
    set (N := c * 10 ^ p). assert (HN : 0 < N) by (unfold N; nia).
    pose proof (@Zdigits2_bounds N HN) as HNb.
    pose proof (@Zdigits2_pos N HN) as HNd.
    set (t := Z.max 0 (53 - Zdigits2 N)).
    pose proof (@pow2_pos t ltac:(unfold t; lia)) as HT.
    rewrite Z.div_1_r, loc_of_1.
    assert (Dg : Zdigits2 (N * 2 ^ t) = Zdigits2 N + t).
    { apply Zdigits2_unique; [nia|].
      replace (Zdigits2 N + t - 1) with (Zdigits2 N - 1 + t) by lia.
      rewrite !pow2_split by (unfold t; lia). nia. }
    split; [|split; [lia|split; [nia|split; [unfold t; lia|split]]]].
    + destruct c as [|c0|c0]; try lia.
      unfold of_decimal. replace (0 <=? p) with true by (symmetry; apply Z.leb_le; lia).
      fold N. unfold binary_round, shl_align.
      destruct N as [|N0|N0] eqn:EN; try lia.
      cbn [Z.to_pos]. rewrite Z.add_0_r, Z.sub_0_r.
      change (Zpos (digits2_pos N0)) with (Zdigits2 (Zpos N0)).
      change JSNumber.prec with 53. change JSNumber.emax with 1024.
      rewrite fexp_eq.
      destruct (Z.max (Zdigits2 (Zpos N0) - 53) (-1074)) as [|f|f] eqn:Ef.
      * replace t with 0 by (unfold t; lia).
        rewrite Z.pow_0_r, Z.mul_1_r. reflexivity.
      * replace t with 0 by (unfold t; lia).
        rewrite Z.pow_0_r, Z.mul_1_r. reflexivity.
      * assert (Et : t = Zpos f) by (unfold t; lia).
        rewrite Et, <- iter_xO. reflexivity.
    + rewrite Dg, fexp_eq. unfold t. lia.
    + replace (Z.max 0 (- p)) with 0 by lia.
      replace (Z.max 0 p) with p by lia.
      replace (- - t) with t by lia. fold N.
      rewrite Z.pow_0_r. ring.
  - apply Z.leb_gt in Hp.
    pose proof (@pow10_pos (- p) ltac:(lia)) as H10.
    set (d := 10 ^ (- p)) in *.
    set (s := Z.max 0 (Z.log2 d + 64 - Z.log2 c)).
    pose proof (@pow2_pos s ltac:(unfold s; lia)) as HS.
    pose proof (Z.log2_spec c Hc) as Lc.
    pose proof (Z.log2_spec d H10) as Ld.
    pose proof (Z.log2_nonneg c) as Lc0.
    pose proof (Z.log2_nonneg d) as Ld0.
    assert (Big : d * 2 ^ 63 <= c * 2 ^ s).
    { apply Z.le_trans with (2 ^ (Z.log2 d + 64)).
      - replace (Z.log2 d + 64) with (Z.succ (Z.log2 d) + 63) by lia.
        rewrite pow2_split by lia.
        assert (0 < 2 ^ 63) by reflexivity. nia.
      - apply Z.le_trans with (2 ^ (Z.log2 c + s)).
        + apply Z.pow_le_mono_r; unfold s; lia.
        + rewrite pow2_split by (unfold s; lia). nia. }
    assert (Hq : 2 ^ 63 <= c * 2 ^ s / d).
    { apply Z.div_le_lower_bound; lia. }
    assert (Dq : 64 <= Zdigits2 (c * 2 ^ s / d)).
    { pose proof (@Zdigits2_bounds (c * 2 ^ s / d) ltac:(lia)) as B.
      destruct (Z.le_gt_cases 64 (Zdigits2 (c * 2 ^ s / d)));
        [assumption|exfalso].
      assert (2 ^ Zdigits2 (c * 2 ^ s / d) <= 2 ^ 63)
        by (apply Z.pow_le_mono_r; lia).
      lia. }
    split; [|split; [lia|split; [|split; [unfold s; lia|split]]]].
    + destruct c as [|c0|c0]; try lia.
      unfold of_decimal.
      replace (0 <=? p) with false by (symmetry; apply Z.leb_gt; lia).
      reflexivity.
    + assert (0 < 2 ^ 63) by reflexivity. nia.
    + rewrite fexp_eq. lia.
    + replace (Z.max 0 (- p)) with (- p) by lia.
      replace (Z.max 0 p) with 0 by lia.
      replace (- - s) with s by lia. fold d.
      rewrite Z.pow_0_r. ring.
Qed.

End DecimalValues.

(** *** Seventeen significant digits determine a Number *)

Section SeventeenDigits.
Import Rounding JSNumber.
Local Open Scope Z_scope.

(** [of_decimal] depends on the value [c * 10^p] only. *)
Lemma of_decimal_times_ten (neg : bool) (c p : Z) :
  0 < c -> of_decimal neg (10 * c) p = of_decimal neg c (p + 1).
Proof.
  intros Hc.
  pose proof (@of_decimal_repr neg (10 * c) p ltac:(lia)) as R1.
  pose proof (@of_decimal_repr neg c (p + 1) Hc) as R2.
  destruct (decimal_repr (10 * c) p) as [[n d] ex].
  destruct (decimal_repr c (p + 1)) as [[n' d'] ex'].
  destruct R1 as (-> & Hd & Hn & Hex & Hf & V1).
  destruct R2 as (-> & Hd' & Hn' & Hex' & Hf' & V2).
  apply round_repr_eq; try assumption.
  pose proof (@pow2_pos (- ex) ltac:(lia)) as E1.
  pose proof (@pow2_pos (- ex') ltac:(lia)) as E2.
  set (X := 2 ^ (- ex)) in *. set (X' := 2 ^ (- ex')) in *.
  destruct (Z.le_gt_cases 0 p) as [Hp|Hp].
  - replace (Z.max 0 (- p)) with 0 in V1 by lia.
    replace (Z.max 0 p) with p in V1 by lia.
    replace (Z.max 0 (- (p + 1))) with 0 in V2 by lia.
    replace (Z.max 0 (p + 1)) with (Z.succ p) in V2 by lia.
    rewrite Z.pow_0_r, Z.mul_1_r in V1, V2.
    rewrite Z.pow_succ_r in V2 by lia.
    pose proof (@pow10_pos p Hp) as H10. set (Q := 10 ^ p) in *.
    rewrite V1, V2. ring.
  - replace (Z.max 0 (- p)) with (Z.succ (- (p + 1))) in V1 by lia.
    replace (Z.max 0 p) with 0 in V1 by lia.
    replace (Z.max 0 (- (p + 1))) with (- (p + 1)) in V2 by lia.
    replace (Z.max 0 (p + 1)) with 0 in V2 by lia.
    rewrite Z.pow_0_r, Z.mul_1_r in V1, V2.
    rewrite Z.pow_succ_r in V1 by lia.
    pose proof (@pow10_pos (- (p + 1)) ltac:(lia)) as H10.
    set (Q := 10 ^ (- (p + 1))) in *.
    assert (V1' : n * Q = c * d * X) by lia.
    assert (A1 : n * d' * X' * Q = c * d * X * d' * X').
    { rewrite <- V1'. ring. }
    assert (A2 : n' * d * X * Q = c * d' * X' * d * X).
    { rewrite <- V2. ring. }
    assert (A3 : n * d' * X' * Q = n' * d * X * Q) by lia.
    nia.
Qed.

Lemma binary_round_aux_sign (sx : bool) (mx ex : Z) (lx : location)
  (m : positive) (e : Z) :
  binary_round_aux 53 1024 false mx ex lx = S754_finite false m e ->
  binary_round_aux 53 1024 sx mx ex lx = S754_finite sx m e.
Proof.
  unfold binary_round_aux.
  destruct (shr_fexp 53 1024 mx ex lx) as [mrs' e'].
  destruct (shr_fexp 53 1024 _ e' loc_Exact) as [mrs'' e''].
  destruct (shr_m mrs''); try discriminate.
  destruct (e'' <=? 1024 - 53); try discriminate.
  intros H. injection H as -> ->. reflexivity.
Qed.

Lemma of_decimal_sign (neg : bool) (c p : Z) (m : positive) (e : Z) :
  of_decimal false c p = S754_finite false m e ->
  of_decimal neg c p = S754_finite neg m e.
Proof.
  destruct c as [|c0|c0]; try discriminate.
  pose proof (@of_decimal_repr false (Zpos c0) p eq_refl) as R1.
  pose proof (@of_decimal_repr neg (Zpos c0) p eq_refl) as R2.
  destruct (decimal_repr (Zpos c0) p) as [[n d] ex].
  destruct R1 as (-> & _). destruct R2 as (-> & _).
  apply binary_round_aux_sign.
Qed.

(** Seventeen digits are enough: of the two decimals with the exponent
    [p] around a Number that is at least [10^(p+16)], the nearer one
    converts back to it. *)
Lemma seventeen_digits (neg : bool) (m : positive) (e p : Z) :
  bounded 53 1024 m e = true ->
  let B := 2 ^ Z.max 0 (- e) * 10 ^ Z.max 0 p in
  let G := 10 ^ Z.max 0 (- p) * 2 ^ Z.max 0 e in
  10 ^ 16 * B <= Zpos m * G ->
  let lo := Zpos m * G / B in
  of_decimal neg lo p = S754_finite neg m e
  \/ of_decimal neg (lo + 1) p = S754_finite neg m e.
Proof.
  intros Hb B G Hbig lo.
  destruct (bounded_cases _ _ Hb) as (He1 & He2 & Hdm & Hcan & Hnorm).
  pose proof (@Zdigits2_bounds (Zpos m) eq_refl) as Hm.
  assert (Hm53 : Zpos m < 2 ^ 53).
  { apply Z.lt_le_trans with (2 ^ Zdigits2 (Zpos m)); [lia|].
    apply Z.pow_le_mono_r; lia. }
  assert (HB : 0 < B).
  { unfold B. pose proof (@pow2_pos (Z.max 0 (- e)) ltac:(lia)).
    pose proof (@pow10_pos (Z.max 0 p) ltac:(lia)). nia. }
  assert (HG : 0 < G).
  { unfold G. pose proof (@pow2_pos (Z.max 0 e) ltac:(lia)).
    pose proof (@pow10_pos (Z.max 0 (- p)) ltac:(lia)). nia. }
  pose proof (@div_bounds (Zpos m * G) B HB) as Hlo. fold lo in Hlo.
  assert (T16 : 2 ^ 53 < 10 ^ 16) by reflexivity.
  assert (BG : 2 * B < G \/ (B < G /\ Zpos m <> 2 ^ 52)).
  { destruct (Z.eq_dec (Zpos m) (2 ^ 52)) as [E|E].
    - left. rewrite E in Hbig.
      assert (2 * 2 ^ 52 < 10 ^ 16) by reflexivity. nia.
    - right. split; [nia|exact E]. }
  assert (BltG : B < G) by lia.
  assert (Hlo16 : 10 ^ 16 <= lo).
  { unfold lo. apply Z.div_le_lower_bound; lia. }
  assert (Hlo0 : 0 < lo) by (assert (0 < 10 ^ 16) by reflexivity; lia).
  assert (Near : forall c, 0 < c ->
            (2 * Z.abs (c * B - Zpos m * G) <= B) ->
            of_decimal neg c p = S754_finite neg m e).
  { intros c Hc Hnear.
    pose proof (@of_decimal_repr neg c p Hc) as R.
    destruct (decimal_repr c p) as [[n d] ex].
    destruct R as (-> & Hd & Hn & Hex & Hf & V).
    apply (@round_near neg m e n d ex (c * B) G); try assumption.
    - unfold B, G.
      pose proof (@pow2_pos (Z.max 0 (- e)) ltac:(lia)).
      pose proof (@pow10_pos (Z.max 0 p) ltac:(lia)).
      pose proof (@pow2_pos (Z.max 0 e) ltac:(lia)).
      pose proof (@pow10_pos (Z.max 0 (- p)) ltac:(lia)).
      pose proof (@pow2_pos (- ex) ltac:(lia)).
      set (N2 := 2 ^ Z.max 0 (- e)) in *. set (P10 := 10 ^ Z.max 0 p) in *.
      set (P2 := 2 ^ Z.max 0 e) in *. set (N10 := 10 ^ Z.max 0 (- p)) in *.
      set (X := 2 ^ (- ex)) in *.
      replace (n * (N10 * P2) * N2) with (n * N10 * (P2 * N2)) by ring.
      rewrite V. ring.
    - lia.
    - intros E52 _. destruct BG as [BG|[_ BG]]; [|contradiction].
      destruct (Z.le_gt_cases (Zpos m * G) (c * B)); [left; assumption|].
      right. lia. }
  destruct (Z.le_gt_cases (2 * (Zpos m * G - lo * B)) B) as [C|C].
  - left. apply Near; [exact Hlo0|lia].
  - right. apply Near; [lia|lia].
Qed.

End SeventeenDigits.

(** *** The helpers of the digit search of [Number::toString] *)

Section DigitSearch.
Import Rounding JSNumber.
Local Open Scope Z_scope.

Lemma fraction_eq (m : positive) (e : Z) :
  fraction m e = (Zpos m * 2 ^ Z.max 0 e, 2 ^ Z.max 0 (- e)).
Proof.
  unfold fraction. destruct (0 <=? e) eqn:E.
  - apply Z.leb_le in E.
    replace (Z.max 0 e) with e by lia. replace (Z.max 0 (- e)) with 0 by lia.
    reflexivity.
  - apply Z.leb_gt in E.
    replace (Z.max 0 e) with 0 by lia.
    replace (Z.max 0 (- e)) with (- e) by lia.
    rewrite Z.pow_0_r, Z.mul_1_r. reflexivity.
Qed.

Lemma scaled_floor_eq (num den p : Z) :
  scaled_floor num den p
  = num * 10 ^ Z.max 0 (- p) / (den * 10 ^ Z.max 0 p).
Proof.
  unfold scaled_floor. destruct (0 <=? p) eqn:E.
  - apply Z.leb_le in E.
    replace (Z.max 0 p) with p by lia. replace (Z.max 0 (- p)) with 0 by lia.
    rewrite Z.pow_0_r, Z.mul_1_r. reflexivity.
  - apply Z.leb_gt in E.
    replace (Z.max 0 p) with 0 by lia.
    replace (Z.max 0 (- p)) with (- p) by lia.
    rewrite Z.pow_0_r, Z.mul_1_r. reflexivity.
Qed.

Lemma count_digits_lower (fuel : nat) :
  forall a, 1 <= a ->
    1 <= count_digits fuel a /\ 10 ^ (count_digits fuel a - 1) <= a.
Proof.
  induction fuel as [|f IH]; intros a Ha; cbn [count_digits].
  - split; [lia|]. change (10 ^ (1 - 1)) with 1. lia.
  - destruct (a <? 10) eqn:E.
    + split; [lia|]. change (10 ^ (1 - 1)) with 1. lia.
    + apply Z.ltb_ge in E.
      assert (Hq : 1 <= a / 10) by (apply Z.div_le_lower_bound; lia).
      destruct (IH (a / 10) Hq) as [C1 C2].
      split; [lia|].
      replace (1 + count_digits f (a / 10) - 1)
        with (Z.succ (count_digits f (a / 10) - 1)) by lia.
      rewrite Z.pow_succ_r by lia.
      pose proof (@div_bounds a 10 ltac:(lia)). lia.
Qed.

Lemma leading_zeros_lower (fuel : nat) :
  forall num den j, 0 < num ->
    den <= num * 10 ^ Z.of_nat fuel ->
    let r := leading_zeros fuel num den j in
    j <= r /\ den <= num * 10 ^ (r - j + 1).
Proof.
  induction fuel as [|f IH]; intros num den j Hn Hf; cbn [leading_zeros].
  - cbv zeta. split; [lia|]. replace (j - j + 1) with 1 by lia.
    change (10 ^ Z.of_nat 0) with 1 in Hf. change (10 ^ 1) with 10. lia.
  - destruct (den <=? num * 10) eqn:E.
    + apply Z.leb_le in E. cbv zeta. split; [lia|].
      replace (j - j + 1) with 1 by lia. change (10 ^ 1) with 10. lia.
    + rewrite Nat2Z.inj_succ, Z.pow_succ_r in Hf by lia.
      destruct (IH (num * 10) den (j + 1) ltac:(lia) ltac:(lia)) as [R1 R2].
      cbv zeta. split; [lia|].
      replace (leading_zeros f (num * 10) den (j + 1) - j + 1)
        with (Z.succ (leading_zeros f (num * 10) den (j + 1) - (j + 1) + 1))
        by lia.
      rewrite Z.pow_succ_r by lia. lia.
Qed.

(** The decimal exponent is not too large: [10^(n-1) <= num / den]. *)
Lemma decimal_exponent_lower (num den : Z) :
  0 < num -> 0 < den -> den <= num * 10 ^ 400 ->
  let n := decimal_exponent num den in
  10 ^ Z.max 0 (n - 1) * den <= num * 10 ^ Z.max 0 (1 - n).
Proof.
  intros Hn Hd Hf. unfold decimal_exponent.
  destruct (den <=? num) eqn:E.
  - apply Z.leb_le in E. cbv zeta.
    assert (Hq : 1 <= num / den) by (apply Z.div_le_lower_bound; lia).
    destruct (@count_digits_lower 400 (num / den) Hq) as [C1 C2].
    replace (Z.max 0 (count_digits 400 (num / den) - 1))
      with (count_digits 400 (num / den) - 1) by lia.
    replace (Z.max 0 (1 - count_digits 400 (num / den))) with 0 by lia.
    rewrite Z.pow_0_r, Z.mul_1_r.
    pose proof (@div_bounds num den Hd). nia.
  - cbv zeta.
    destruct (@leading_zeros_lower 400 num den 1 Hn Hf) as [R1 R2].
    set (r := leading_zeros 400 num den 1) in *.
    replace (Z.max 0 (1 - r - 1)) with 0 by lia.
    replace (Z.max 0 (1 - (1 - r))) with r by lia.
    replace (r - 1 + 1) with r in R2 by lia.
    rewrite Z.pow_0_r. lia.
Qed.

Lemma eqb_refl_finite (s : bool) (m : positive) (e : Z) :
  JSNumber.eqb (S754_finite s m e) (S754_finite s m e) = true.
Proof.
  unfold JSNumber.eqb, SFeqb, SFcompare.
  rewrite Z.compare_refl, Pos.compare_cont_refl. destruct s; reflexivity.
Qed.

Lemma eqb_to_finite (y : Number) (s : bool) (m : positive) (e : Z) :
  JSNumber.eqb y (S754_finite s m e) = true -> y = S754_finite s m e.
Proof.
  unfold JSNumber.eqb, SFeqb, SFcompare.
  destruct y as [s'|s'| |s' m' e']; try (destruct s; discriminate);
    try (destruct s'; discriminate); try discriminate.
  destruct s', s; try discriminate.
  - destruct (Z.compare e' e) eqn:Ee; try discriminate.
    apply Z.compare_eq in Ee. subst e'.
    destruct (Pos.compare_cont Eq m' m) eqn:Em; try discriminate.
    apply Pos.compare_eq in Em. subst. reflexivity.
  - destruct (Z.compare e' e) eqn:Ee; try discriminate.
    apply Z.compare_eq in Ee. subst e'.
    destruct (Pos.compare_cont Eq m' m) eqn:Em; try discriminate.
    apply Pos.compare_eq in Em. subst. reflexivity.
Qed.

Lemma of_decimal_positive (c p : Z) (m : positive) (e : Z) :
  of_decimal false c p = S754_finite false m e -> 0 < c.
Proof. destruct c; [discriminate|lia|discriminate]. Qed.

Lemma strip_zeros_ok (fuel : nat) (m : positive) (e : Z) :
  forall s p,
    of_decimal false s p = S754_finite false m e ->
    of_decimal false (fst (strip_zeros fuel s p)) (snd (strip_zeros fuel s p))
    = S754_finite false m e.
Proof.
  induction fuel as [|f IH]; intros s p H; cbn [strip_zeros]; [exact H|].
  destruct ((s mod 10 =? 0) && (0 <? s)) eqn:E; [|exact H].
  apply andb_true_iff in E. destruct E as [E1 E2].
  apply Z.eqb_eq in E1. apply Z.ltb_lt in E2.
  apply IH.
  pose proof (Z.div_mod s 10 ltac:(lia)) as D.
  rewrite <- (@of_decimal_times_ten false (s / 10) p) by lia.
  replace (10 * (s / 10)) with s by lia. exact H.
Qed.

End DigitSearch.

(** *** The digits [Number::toString] chooses *)

Section ShortestDigits.
Import Rounding JSNumber.
Local Open Scope Z_scope.

Lemma pow10_split (u v : Z) :
  0 <= u -> 0 <= v -> 10 ^ (u + v) = 10 ^ u * 10 ^ v.
Proof. intros. apply Z.pow_add_r; assumption. Qed.

Lemma lower_to_big (num den n : Z) :
  0 < num -> 0 < den ->
  10 ^ Z.max 0 (n - 1) * den <= num * 10 ^ Z.max 0 (1 - n) ->
  10 ^ 16 * (den * 10 ^ Z.max 0 (n - 17))
  <= num * 10 ^ Z.max 0 (- (n - 17)).
Proof.
  intros Hn Hd H.
  assert (T : 0 < 10 ^ 16) by reflexivity.
  destruct (Z.le_gt_cases 17 n) as [C|C].
  - replace (Z.max 0 (n - 1)) with (16 + (n - 17)) in H by lia.
    replace (Z.max 0 (1 - n)) with 0 in H by lia.
    replace (Z.max 0 (n - 17)) with (n - 17) by lia.
    replace (Z.max 0 (- (n - 17))) with 0 by lia.
    rewrite pow10_split in H by lia. lia.
  - destruct (Z.le_gt_cases 1 n) as [C1|C1].
    + replace (Z.max 0 (n - 1)) with (n - 1) in H by lia.
      replace (Z.max 0 (1 - n)) with 0 in H by lia.
      replace (Z.max 0 (n - 17)) with 0 by lia.
      replace (Z.max 0 (- (n - 17))) with (17 - n) by lia.
      rewrite Z.pow_0_r, Z.mul_1_r in *.
      assert (E : 10 ^ 16 = 10 ^ (n - 1) * 10 ^ (17 - n)).
      { rewrite <- pow10_split by lia. f_equal. lia. }
      rewrite E.
      pose proof (@pow10_pos (17 - n) ltac:(lia)).
      pose proof (@pow10_pos (n - 1) ltac:(lia)). nia.
    + replace (Z.max 0 (n - 1)) with 0 in H by lia.
      replace (Z.max 0 (1 - n)) with (1 - n) in H by lia.
      replace (Z.max 0 (n - 17)) with 0 by lia.
      replace (Z.max 0 (- (n - 17))) with (16 + (1 - n)) by lia.
      rewrite Z.pow_0_r, ?Z.mul_1_r, ?Z.mul_1_l in *.
      rewrite pow10_split by lia.
      pose proof (@pow10_pos (1 - n) ltac:(lia)). nia.
Qed.

Lemma shortest_unfold (todo : nat) (k : Z) (x : Number) (num den n : Z) :
  shortest todo k x num den n
  = let p := n - k in
    let lo := scaled_floor num den p in
    let hi := lo + 1 in
    let lo_ok := JSNumber.eqb (of_decimal false lo p) x in
    let hi_ok := JSNumber.eqb (of_decimal false hi p) x in
    let pick :=
      if lo_ok && hi_ok then
        match closer num den p lo with
        | Lt => Some lo
        | Gt => Some hi
        | Eq => Some (if Z.even lo then lo else hi)
        end
      else if lo_ok then Some lo
      else if hi_ok then Some hi
      else None in
    match pick, todo with
    | Some s, _ => strip_zeros 20 s p
    | None, S t => shortest t (k + 1) x num den n
    | None, O => (lo, p)
    end.
Proof. destruct todo; reflexivity. Qed.

(** The digits [Number::toString] chooses convert back to the Number. *)
Lemma shortest_ok (m : positive) (e n : Z) :
  bounded 53 1024 m e = true ->
  10 ^ Z.max 0 (n - 1) * 2 ^ Z.max 0 (- e)
  <= Zpos m * 2 ^ Z.max 0 e * 10 ^ Z.max 0 (1 - n) ->
  forall todo k,
    k + Z.of_nat todo = 17 ->
    let r := shortest todo k (S754_finite false m e)
               (Zpos m * 2 ^ Z.max 0 e) (2 ^ Z.max 0 (- e)) n in
    of_decimal false (fst r) (snd r) = S754_finite false m e.
Proof.
  intros Hb Hlow.
  pose proof (@pow2_pos (Z.max 0 e) ltac:(lia)) as HP2.
  pose proof (@pow2_pos (Z.max 0 (- e)) ltac:(lia)) as HN2.
  set (num := Zpos m * 2 ^ Z.max 0 e) in *.
  set (den := 2 ^ Z.max 0 (- e)) in *.
  set (x := S754_finite false m e).
  assert (Step : forall todo k,
            (JSNumber.eqb (of_decimal false (scaled_floor num den (n - k))
                             (n - k)) x = false ->
             JSNumber.eqb (of_decimal false (scaled_floor num den (n - k) + 1)
                             (n - k)) x = false ->
             let r := match todo with
                      | S t => shortest t (k + 1) x num den n
                      | O => (scaled_floor num den (n - k), n - k)
                      end in
             of_decimal false (fst r) (snd r) = x) ->
            let r := shortest todo k x num den n in
            of_decimal false (fst r) (snd r) = x).
  { intros todo k Hnone. cbv zeta. rewrite shortest_unfold. cbv zeta.
    set (p := n - k) in *. set (lo := scaled_floor num den p) in *.
    destruct (JSNumber.eqb (of_decimal false lo p) x) eqn:Elo;
      destruct (JSNumber.eqb (of_decimal false (lo + 1) p) x) eqn:Ehi;
      cbn [andb].
    - apply eqb_to_finite in Elo. apply eqb_to_finite in Ehi.
      destruct (closer num den p lo); [destruct (Z.even lo)| |];
        apply strip_zeros_ok; assumption.
    - apply eqb_to_finite in Elo. apply strip_zeros_ok; assumption.
    - apply eqb_to_finite in Ehi. apply strip_zeros_ok; assumption.
    - specialize (Hnone eq_refl eq_refl). destruct todo; exact Hnone. }
  induction todo as [|t IH]; intros k Hk; apply Step; intros Elo Ehi.
  - (* seventeen digits and no candidate *)
    exfalso.
    assert (K : k = 17) by lia. subst k.
    pose proof (@lower_to_big num den n ltac:(unfold num; nia) HN2 Hlow)
      as Big.
    pose proof (@seventeen_digits false m e (n - 17) Hb) as S17.
    cbv zeta in S17.
    replace (10 ^ 16 * (2 ^ Z.max 0 (- e) * 10 ^ Z.max 0 (n - 17))
             <= Zpos m * (10 ^ Z.max 0 (- (n - 17)) * 2 ^ Z.max 0 e))
      with (10 ^ 16 * (den * 10 ^ Z.max 0 (n - 17))
            <= num * 10 ^ Z.max 0 (- (n - 17))) in S17
      by (unfold num, den; f_equal; ring).
    specialize (S17 Big).
    replace (Zpos m * (10 ^ Z.max 0 (- (n - 17)) * 2 ^ Z.max 0 e)
             / (2 ^ Z.max 0 (- e) * 10 ^ Z.max 0 (n - 17)))
      with (scaled_floor num den (n - 17)) in S17.
    2:{ rewrite scaled_floor_eq. unfold num, den. f_equal; ring. }
    fold x in S17.
    destruct S17 as [S17|S17]; rewrite S17 in *;
      unfold x in *; rewrite eqb_refl_finite in *; discriminate.
  - (* no candidate with fewer digits *)
    apply (IH (k + 1)). lia.
Qed.

End ShortestDigits.

(** *** Decimal numerals *)

Section DigitStrings.
Import JSNumber JSON.

Lemma uint_chars_digits (u : Decimal.uint) :
  forallb isDigit (uint_chars u) = true.
Proof. induction u; cbn [uint_chars forallb]; auto. Qed.

Lemma decimal_digits (n : N) :
  nonempty (decimal n) = true /\ forallb isDigit (decimal n) = true.
Proof.
  split; [|apply uint_chars_digits].
  unfold decimal. destruct n as [|p]; [reflexivity|].
  cbn [N.to_uint].
  pose proof (DecimalPos.Unsigned.to_uint_nonnil p) as H.
  destruct (Pos.to_uint p); [contradiction H|..]; reflexivity.
Qed.

Lemma fold_uint_acc (d : Decimal.uint) :
  forall a : positive,
    fold_left (fun acc c => (10 * acc + (c - 48))%N) (uint_chars d) (Npos a)
    = Npos (Pos.of_uint_acc d a).
Proof.
  induction d; intros a; cbn [uint_chars fold_left Pos.of_uint_acc];
    [reflexivity| rewrite <- IHd; f_equal; lia ..].
Qed.

Lemma digits_value_uint (d : Decimal.uint) :
  digits_value (uint_chars d) = N.of_uint d.
Proof.
  unfold digits_value, N.of_uint.
  induction d; cbn [uint_chars fold_left Pos.of_uint];
    [reflexivity| exact IHd | rewrite <- fold_uint_acc; f_equal ..].
Qed.

Lemma digits_value_decimal (n : N) : digits_value (decimal n) = n.
Proof.
  unfold decimal. rewrite digits_value_uint. apply DecimalN.Unsigned.of_to.
Qed.

Lemma nzhead_head (d : Decimal.uint) :
  match Decimal.nzhead d with Decimal.D0 _ => False | _ => True end.
Proof. induction d; cbn [Decimal.nzhead]; auto. Qed.

(** The decimal numeral of a positive number does not start with a zero. *)
Lemma decimal_head (n : N) :
  (0 < n)%N ->
  exists c t, decimal n = c :: t /\ isDigit c = true /\ N.eqb c 48 = false.
Proof.
  intros Hn. unfold decimal.
  pose proof (DecimalN.Unsigned.to_of (N.to_uint n)) as E.
  rewrite DecimalN.Unsigned.of_to in E.
  pose proof (nzhead_head (N.to_uint n)) as Hh.
  unfold Decimal.unorm in E.
  destruct (Decimal.nzhead (N.to_uint n)) eqn:Z; try contradiction;
    try (rewrite E; cbn [uint_chars]; eexists _, _;
         split; [reflexivity|split; reflexivity]).
  exfalso. pose proof (DecimalN.Unsigned.of_to n) as O.
  rewrite E in O. cbn in O. lia.
Qed.

Lemma digits_value_app (a b : jsstring) :
  digits_value (a ++ b)
  = (digits_value a * 10 ^ N.of_nat (length b) + digits_value b)%N.
Proof.
  induction b as [|c b IH] using rev_ind.
  - rewrite app_nil_r. cbn [length]. change (digits_value []) with 0%N.
    change (N.of_nat 0) with 0%N. rewrite N.pow_0_r. lia.
  - rewrite app_assoc, !digits_value_snoc, IH, length_app.
    cbn [length].
    replace (N.of_nat (length b + 1)) with (N.succ (N.of_nat (length b)))
      by lia.
    rewrite N.pow_succ_r'. lia.
Qed.

Lemma zeros_digits (j : Z) : forallb isDigit (zeros j) = true.
Proof.
  unfold zeros. induction (Z.to_nat j); cbn [repeat forallb]; auto.
Qed.

Lemma zeros_value (j : Z) : digits_value (zeros j) = 0%N.
Proof.
  unfold zeros. induction (Z.to_nat j) as [|k IH]; [reflexivity|].
  cbn [repeat]. change (48%N :: repeat 48%N k) with ([48%N] ++ repeat 48%N k).
  rewrite digits_value_app, IH. reflexivity.
Qed.

Lemma zeros_length (j : Z) : length (zeros j) = Z.to_nat j.
Proof. apply repeat_length. Qed.

Lemma digits_span (l : jsstring) :
  forallb isDigit l = true ->
  takeWhile isDigit l = l /\ dropWhile isDigit l = [].
Proof.
  induction l as [|x l IH]; cbn [forallb takeWhile dropWhile]; [auto|].
  intros H. apply andb_true_iff in H. destruct H as [Hx Hl].
  rewrite Hx. destruct (IH Hl) as [-> ->]. auto.
Qed.

Lemma digits_stop (l r : jsstring) :
  forallb isDigit l = true ->
  match r with [] => True | c :: _ => isDigit c = false end ->
  takeWhile isDigit (l ++ r) = l /\ dropWhile isDigit (l ++ r) = r.
Proof.
  intros Hl Hr. destruct (takeWhile_app_stop l r Hr) as [E1 E2].
  destruct (digits_span l Hl) as [F1 F2].
  rewrite E1, E2, F1, F2. auto.
Qed.

End DigitStrings.

(** *** Reading the printed form back *)

Section LexLayout.
Import JSNumber JSON.

Lemma of_decimal_shift (neg : bool) (s j : Z) :
  (0 < s)%Z -> (0 <= j)%Z ->
  of_decimal neg (s * 10 ^ j) 0 = of_decimal neg s j.
Proof.
  intros Hs Hj. pose proof (@pow10_pos j Hj) as H10.
  destruct s as [|q|q]; try lia.
  destruct (Zpos q * 10 ^ j)%Z as [|r|r] eqn:E; try lia.
  unfold of_decimal.
  replace (0 <=? j)%Z with true by (symmetry; apply Z.leb_le; lia).
  cbn [Z.leb Z.compare]. rewrite Z.pow_0_r, Z.mul_1_r, E. reflexivity.
Qed.

Lemma Zdecimal_props (s : Z) :
  (0 < s)%Z ->
  exists c t,
    Zdecimal s = c :: t /\ isDigit c = true /\ N.eqb c 48 = false
    /\ forallb isDigit t = true
    /\ Z.of_N (digits_value (c :: t)) = s.
Proof.
  intros Hs. unfold Zdecimal.
  destruct (@decimal_head (Z.to_N s) ltac:(lia)) as (c & t & E & Hc & Hz).
  destruct (decimal_digits (Z.to_N s)) as [_ Hd].
  exists c, t. rewrite E in Hd. cbn [forallb] in Hd.
  apply andb_true_iff in Hd. destruct Hd as [_ Ht].
  split; [exact E|]. split; [exact Hc|]. split; [exact Hz|].
  split; [exact Ht|].
  rewrite <- E, digits_value_decimal. lia.
Qed.

Lemma Zdecimal_nat (e : Z) :
  (0 <= e)%Z ->
  nonempty (Zdecimal e) = true /\ forallb isDigit (Zdecimal e) = true
  /\ Z.of_N (digits_value (Zdecimal e)) = e.
Proof.
  intros He. unfold Zdecimal.
  destruct (decimal_digits (Z.to_N e)) as [Hn Hd].
  split; [exact Hn|]. split; [exact Hd|].
  rewrite digits_value_decimal. lia.
Qed.

(** The exponent part of the scientific form. *)
Lemma lex_exponent_sci (neg : bool) (mant scale e : Z) :
  lex_exponent neg mant scale
    (chr "e" :: (if (0 <=? e)%Z then chr "+" else chr "-")
             :: Zdecimal (Z.abs e))
  = POk (of_decimal neg mant (e - scale)) [].
Proof.
  destruct (@Zdecimal_nat (Z.abs e) ltac:(lia)) as (Hn & Hd & Hv).
  destruct (digits_span _ Hd) as [T D].
  unfold lex_exponent. change (N.eqb (chr "e") 101) with true. cbn [orb].
  destruct (0 <=? e)%Z eqn:Se.
  - change (N.eqb (chr "+") 45) with false.
    change (N.eqb (chr "+") 43) with true. cbv iota.
    rewrite T, D. destruct (Zdecimal (Z.abs e)) eqn:Z; [discriminate|].
    rewrite Hv. apply Z.leb_le in Se.
    replace (Z.abs e) with e by lia. reflexivity.
  - change (N.eqb (chr "-") 45) with true. cbv iota.
    rewrite T, D. destruct (Zdecimal (Z.abs e)) eqn:Z; [discriminate|].
    rewrite Hv. apply Z.leb_gt in Se.
    replace (- Z.abs e)%Z with e by lia. reflexivity.
Qed.

(** The lexer reads the text [Number::toString] lays out for the digits
    [s] and the exponent [p] as the Number [s * 10^p]. *)
Lemma lex_layout (neg : bool) (s p : Z) :
  (0 < s)%Z -> lex_unsigned neg (layout s p) = POk (of_decimal neg s p) [].
Proof.
  intros Hs.
  destruct (@Zdecimal_props s Hs) as (c & t & E & Hc & Hz & Ht & Hv).
  unfold layout. rewrite E. cbv zeta.
  assert (Hdig : forallb isDigit (c :: t) = true)
    by (cbn [forallb]; rewrite Hc, Ht; reflexivity).
  assert (Hk : (1 <= Z.of_nat (length (c :: t)))%Z) by (cbn [length]; lia).
  set (k := Z.of_nat (length (c :: t))) in *. set (n := (p + k)%Z).
  assert (N46 : isDigit 46 = false) by reflexivity.
  assert (N101 : isDigit 101 = false) by reflexivity.
  change (chr ".") with 46%N. change (chr "0") with 48%N.
  destruct ((k <=? n)%Z && (n <=? 21)%Z) eqn:C1.
  - (* an integer *)
    apply andb_true_iff in C1. destruct C1 as [C1 _]. apply Z.leb_le in C1.
    assert (D : forallb isDigit ((c :: t) ++ zeros (n - k)) = true)
      by (rewrite forallb_app, Hdig, zeros_digits; reflexivity).
    destruct (digits_span _ D) as [T1 T2].
    unfold lex_unsigned. rewrite T1, T2. cbn [app]. rewrite Hz. cbn [andb].
    cbn [lex_fraction lex_exponent].
    change (c :: t ++ zeros (n - k)) with ((c :: t) ++ zeros (n - k)).
    rewrite digits_value_app, zeros_value, zeros_length.
    rewrite N.add_0_r, N2Z.inj_mul, N2Z.inj_pow, Hv.
    replace (Z.of_N (N.of_nat (Z.to_nat (n - k)))) with (n - k)%Z by lia.
    change (- 0)%Z with 0%Z.
    rewrite of_decimal_shift by lia.
    replace (n - k)%Z with p by (unfold n; lia). reflexivity.
  - destruct ((0 <? n)%Z && (n <=? 21)%Z) eqn:C2.
    + (* digits on both sides of the point *)
      apply andb_true_iff in C2. destruct C2 as [C2 C2'].
      apply Z.ltb_lt in C2. apply Z.leb_le in C2'.
      assert (Hnk : (n < k)%Z).
      { destruct (Z.lt_ge_cases n k); [assumption|].
        rewrite (proj2 (Z.leb_le k n)), (proj2 (Z.leb_le n 21)) in C1
          by lia. discriminate. }
      pose proof (firstn_skipn (Z.to_nat n) (c :: t)) as FS.
      pose proof (length_skipn (Z.to_nat n) (c :: t)) as LS.
      assert (Hfr : forallb isDigit (skipn (Z.to_nat n) (c :: t)) = true
                    /\ forallb isDigit (firstn (Z.to_nat n) (c :: t)) = true).
      { rewrite <- FS, forallb_app in Hdig.
        apply andb_true_iff in Hdig. tauto. }
      destruct Hfr as [Hfr Hip].
      set (fr := skipn (Z.to_nat n) (c :: t)) in *.
      assert (Hip1 : exists ip', firstn (Z.to_nat n) (c :: t) = c :: ip').
      { destruct (Z.to_nat n) eqn:Zn; [lia|]. cbn [firstn]. eauto. }
      destruct Hip1 as [ip' Eip]. rewrite Eip in *.
      destruct (@digits_stop (c :: ip') (46%N :: fr) Hip N46) as [T1 T2].
      unfold lex_unsigned. rewrite T1, T2. rewrite Hz. cbn [andb].
      destruct (digits_span _ Hfr) as [F1 F2].
      unfold lex_fraction. change (N.eqb 46 46) with true. cbv iota.
      rewrite F1, F2.
      destruct fr as [|f0 fr'] eqn:Efr.
      { unfold k in Hnk. cbn [length] in LS, Hnk. lia. }
      rewrite <- Efr in *. rewrite FS, Hv.
      cbn [lex_exponent].
      replace (- Z.of_nat (length fr))%Z with p
        by (rewrite LS; unfold n, k in *; lia).
      reflexivity.
    + destruct ((-6 <? n)%Z && (n <=? 0)%Z) eqn:C3.
      * (* zeros after the point *)
        apply andb_true_iff in C3. destruct C3 as [_ C3].
        apply Z.leb_le in C3.
        assert (D : forallb isDigit (zeros (- n) ++ c :: t) = true)
          by (rewrite forallb_app, Hdig, zeros_digits; reflexivity).
        destruct (digits_span _ D) as [F1 F2].
        unfold lex_unsigned. cbn [takeWhile dropWhile].
        change (isDigit 48) with true. cbv iota. rewrite N46.
        change (N.eqb 48 48) with true. cbn [nonempty andb].
        unfold lex_fraction. change (N.eqb 46 46) with true. cbv iota.
        rewrite F1, F2.
        destruct (zeros (- n) ++ c :: t) as [|f0 fr'] eqn:Efr.
        { destruct (zeros (- n)); discriminate. }
        rewrite <- Efr.
        change (48%N :: zeros (- n) ++ c :: t)
          with (([48%N] ++ zeros (- n)) ++ c :: t).
        rewrite digits_value_app, digits_value_app, zeros_value.
        change (digits_value [48%N]) with 0%N.
        rewrite N.mul_0_l, N.add_0_l, N.mul_0_l, N.add_0_l, Hv.
        cbn [lex_exponent].
        rewrite length_app, zeros_length.
        replace (- Z.of_nat (Z.to_nat (- n) + length (c :: t)))%Z with p
          by (unfold n, k in *; lia).
        reflexivity.
      * (* the scientific form *)
        destruct t as [|c2 t'].
        -- cbn [app]. unfold lex_unsigned. cbn [takeWhile dropWhile].
           rewrite Hc. change (isDigit (chr "e")) with false. cbv iota.
           rewrite Hz. cbn [andb].
           unfold lex_fraction. change (N.eqb (chr "e") 46) with false.
           cbv iota. rewrite lex_exponent_sci, Hv.
           replace (n - 1 - 0)%Z with p by (unfold n, k; cbn [length]; lia).
           reflexivity.
        -- cbn [app]. unfold lex_unsigned. cbn [takeWhile dropWhile].
           rewrite Hc, N46. rewrite Hz. cbn [andb].
           unfold lex_fraction. change (N.eqb 46 46) with true. cbv iota.
           destruct (@digits_stop (c2 :: t')
                       (chr "e" :: (if (0 <=? n - 1)%Z
                                    then chr "+" else chr "-")
                                :: Zdecimal (Z.abs (n - 1)))
                       Ht eq_refl) as [F1 F2].
           cbn [app] in F1, F2. rewrite F1, F2.
           rewrite lex_exponent_sci.
           change (c :: c2 :: t') with ([c] ++ c2 :: t') in Hv.
           cbn [app] in Hv |- *. rewrite Hv.
           replace (n - 1 - Z.of_nat (length (c2 :: t')))%Z with p
             by (unfold n, k; cbn [length]; lia).
           reflexivity.
Qed.

End LexLayout.

(** *** Every finite Number survives printing *)

Section Survival.
Import Rounding JSNumber JSON RoundTrip.

Lemma of_decimal_valid (neg : bool) (c p : Z) :
  is_binary64 (of_decimal neg c p) = true.
Proof.
  destruct (Z.lt_ge_cases 0 c) as [Hc|Hc].
  - pose proof (@of_decimal_repr neg c p Hc) as R.
    destruct (decimal_repr c p) as [[n d] ex].
    destruct R as (-> & Hd & Hn & Hex & Hf & _).
    apply binary_round_aux_valid; assumption.
  - destruct c; try lia; reflexivity.
Qed.

Lemma lex_number_valid (s rest : jsstring) (y : Number) :
  lex_number s = POk y rest -> is_binary64 y = true.
Proof.
  assert (E : forall neg mant scale s rest y,
             lex_exponent neg mant scale s = POk y rest ->
             is_binary64 y = true).
  { intros neg mant scale s0 rest0 y0. unfold lex_exponent.
    destruct s0 as [|c t].
    - intros H. injection H as <- _. apply of_decimal_valid.
    - destruct (N.eqb c 101 || N.eqb c 69).
      + destruct (match t with
                  | [] => (false, t)
                  | sg :: t' =>
                      if N.eqb sg 45 then (true, t')
                      else if N.eqb sg 43 then (false, t') else (false, t)
                  end) as [eneg t1].
        destruct (takeWhile isDigit t1); [discriminate|].
        intros H. injection H as <- _. apply of_decimal_valid.
      + intros H. injection H as <- _. apply of_decimal_valid. }
  assert (F : forall neg ip s rest y,
             lex_fraction neg ip s = POk y rest -> is_binary64 y = true).
  { intros neg ip s0 rest0 y0. unfold lex_fraction.
    destruct s0 as [|c t]; [apply E|].
    destruct (N.eqb c 46); [|apply E].
    destruct (takeWhile isDigit t); [discriminate|apply E]. }
  assert (U : forall neg s rest y,
             lex_unsigned neg s = POk y rest -> is_binary64 y = true).
  { intros neg s0 rest0 y0. unfold lex_unsigned.
    destruct (takeWhile isDigit s0) as [|d more]; [discriminate|].
    destruct (N.eqb d 48 && nonempty more); [discriminate|apply F]. }
  unfold lex_number. destruct s as [|c t]; [apply U|].
  destruct (N.eqb c 45); apply U.
Qed.

Lemma parse_numbers_valid (fuel : nat) :
  (forall s v rest, parse_value fuel s = POk v rest ->
     numbers_all is_binary64 v = true)
  /\ (forall s vs rest, parse_elements fuel s = POk vs rest ->
        forallb (numbers_all is_binary64) vs = true)
  /\ (forall s ms rest, parse_members fuel s = POk ms rest ->
        forallb (fun kv => numbers_all is_binary64 (snd kv)) ms = true).
Proof.
  induction fuel as [|n (IHv & IHe & IHm)].
  { repeat split; intros; discriminate. }
  split; [|split].
  - intros s v rest. cbn [parse_value].
    destruct (skip_ws s) as [|c t]; [discriminate|].
    destruct (N.eqb c 123).
    { destruct (skip_ws t) as [|c2 t2]; [discriminate|].
      destruct (N.eqb c2 125); [intros H; injection H as <- _; reflexivity|].
      destruct (parse_members n (c2 :: t2)) as [ms r|r] eqn:E; [|discriminate].
      intros H; injection H as <- _. cbn [numbers_all].
      apply forallb_Forall.
      apply (@build_object_values
               (fun v => numbers_all is_binary64 v = true)).
      apply forallb_Forall. eapply IHm, E. }
    destruct (N.eqb c 91).
    { destruct (skip_ws t) as [|c2 t2]; [discriminate|].
      destruct (N.eqb c2 93); [intros H; injection H as <- _; reflexivity|].
      destruct (parse_elements n (c2 :: t2)) as [vs r|r] eqn:E; [|discriminate].
      intros H; injection H as <- _. cbn [numbers_all]. eapply IHe, E. }
    destruct (N.eqb c 34).
    { destruct (parse_string t); [|discriminate].
      intros H; injection H as <- _. reflexivity. }
    destruct (N.eqb c 45 || isDigit c).
    { destruct (lex_number (c :: t)) eqn:L; [|discriminate].
      intros H; injection H as <- _. cbn [numbers_all].
      eapply lex_number_valid, L. }
    destruct (N.eqb c 116).
    { intros H. apply literal_result in H. subst. reflexivity. }
    destruct (N.eqb c 102).
    { intros H. apply literal_result in H. subst. reflexivity. }
    destruct (N.eqb c 110); [|discriminate].
    intros H. apply literal_result in H. subst. reflexivity.
  - intros s vs rest. cbn [parse_elements].
    destruct (parse_value n s) as [v r|r] eqn:Ev; [|discriminate].
    destruct (skip_ws r) as [|c t]; [discriminate|].
    destruct (N.eqb c 44).
    { destruct (parse_elements n t) as [vs' r'|r'] eqn:Ee; [|discriminate].
      intros H; injection H as <- _. cbn [forallb].
      rewrite (IHv _ _ _ Ev), (IHe _ _ _ Ee). reflexivity. }
    destruct (N.eqb c 93); [|discriminate].
    intros H; injection H as <- _. cbn [forallb].
    rewrite (IHv _ _ _ Ev). reflexivity.
  - intros s ms rest. cbn [parse_members].
    destruct (skip_ws s) as [|q t0]; [discriminate|].
    destruct (negb (N.eqb q 34)); [discriminate|].
    destruct (parse_string t0) as [k r|r]; [|discriminate].
    destruct (skip_ws r) as [|c t]; [discriminate|].
    destruct (negb (N.eqb c 58)); [discriminate|].
    destruct (parse_value n t) as [v r'|r'] eqn:Ev; [|discriminate].
    destruct (skip_ws r') as [|c' t']; [discriminate|].
    destruct (N.eqb c' 44).
    { destruct (parse_members n t') as [ms' r''|r''] eqn:Em; [|discriminate].
      intros H; injection H as <- _. cbn [forallb snd].
      rewrite (IHv _ _ _ Ev), (IHm _ _ _ Em). reflexivity. }
    destruct (N.eqb c' 125); [|discriminate].
    intros H; injection H as <- _. cbn [forallb snd].
    rewrite (IHv _ _ _ Ev). reflexivity.
Qed.

(** The numbers [JSON.parse] produces are binary64 values. *)
Lemma parse_gives_binary64 (s : jsstring) (v : JsonValue) :
  parse s = inl v -> numbers_all is_binary64 v = true.
Proof.
  unfold parse.
  destruct (parse_value _ s) as [v' rest|rest] eqn:E; [|discriminate].
  destruct (skip_ws rest); [|discriminate].
  intros H; injection H as <-.
  eapply (proj1 (parse_numbers_valid _)), E.
Qed.

(** Every finite binary64 value survives printing: [Number::toString]
    writes digits that [JSON.parse] reads back as the same value. *)
Lemma finite_number_survives (x : Number) :
  is_binary64 x = true -> isFinite x = true -> number_survives x = true.
Proof.
  intros Hv Hf. destruct x as [s|s| |s m e]; try discriminate.
  - destruct s; vm_compute; reflexivity.
  - unfold number_survives. cbn [isFinite andb].
    unfold is_binary64 in Hv. cbn [valid_binary] in Hv.
    change JSNumber.prec with 53%Z in Hv.
    change JSNumber.emax with 1024%Z in Hv.
    destruct (bounded_cases _ _ Hv) as (He1 & He2 & _).
    unfold toString. rewrite fraction_eq.
    pose proof (@pow2_pos (Z.max 0 e) ltac:(lia)) as HP2.
    pose proof (@pow2_pos (Z.max 0 (- e)) ltac:(lia)) as HN2.
    set (num := (Zpos m * 2 ^ Z.max 0 e)%Z) in *.
    set (den := (2 ^ Z.max 0 (- e))%Z) in *.
    assert (Hfuel : (den <= num * 10 ^ 400)%Z).
    { assert (den <= 2 ^ 1074)%Z
        by (unfold den; apply Z.pow_le_mono_r; lia).
      assert (2 ^ 1074 <= 10 ^ 400)%Z
        by (apply Z.leb_le; vm_compute; reflexivity).
      assert (0 < 10 ^ 400)%Z by (apply pow10_pos; lia).
      unfold num. nia. }
    pose proof (@decimal_exponent_lower num den ltac:(unfold num; nia) HN2
                  Hfuel) as Low.
    cbv zeta in Low.
    pose proof (@shortest_ok m e (decimal_exponent num den) Hv Low 16 1%Z
                  eq_refl) as Sh.
    cbv zeta in Sh. fold num den in Sh.
    destruct (shortest 16 1 (S754_finite false m e) num den
                (decimal_exponent num den)) as [ds p].
    cbn [fst snd] in Sh.
    pose proof (of_decimal_positive _ _ Sh) as Hds.
    pose proof (@lex_layout s ds p Hds) as L.
    rewrite (@of_decimal_sign s ds p m e Sh) in L.
    assert (N : lex_number ((if s then js "-" else []) ++ layout ds p)
                = POk (S754_finite s m e) []).
    { destruct s.
      - change (js "-" ++ layout ds p) with (45%N :: layout ds p).
        unfold lex_number. change (N.eqb 45 45) with true. exact L.
      - cbn [app]. unfold lex_number.
        destruct (lex_unsigned_starts _ _ L) as (c & t & El & Hc).
        rewrite El in *.
        destruct (N.eqb_spec c 45) as [->|]; [discriminate|exact L]. }
    rewrite N. apply eqb_refl_finite.
Qed.

Lemma finite_numbers_survive (v : JsonValue) :
  numbers_all is_binary64 v = true -> numbers_finite v = true ->
  numbers_survive v = true.
Proof.
  unfold numbers_finite.
  induction v as [ |b|x|s|items IH|props IH] using JsonValue_induction;
    cbn [numbers_all numbers_survive]; try reflexivity.
  - apply finite_number_survives.
  - induction IH as [|x xs Hx Hxs IHxs]; [reflexivity|].
    cbn [forallb]. intros Hv Hf.
    apply andb_true_iff in Hv. apply andb_true_iff in Hf.
    rewrite (Hx (proj1 Hv) (proj1 Hf)), (IHxs (proj2 Hv) (proj2 Hf)).
    reflexivity.
  - induction IH as [|[k x] ps Hx Hps IHps]; [reflexivity|].
    cbn [forallb snd] in *. intros Hv Hf.
    apply andb_true_iff in Hv. apply andb_true_iff in Hf.
    rewrite (Hx (proj1 Hv) (proj1 Hf)), (IHps (proj2 Hv) (proj2 Hf)).
    reflexivity.
Qed.

End Survival.

(** ** The round trip of formatting and minifying *)

Section RoundTripClaim.

Import JSNumber JSON RoundTrip Examples.

(** C4 (as amended).  For every valid JSON text [T] whose numbers are all
    finite (no number literal overflows to Infinity) and every indent [n],
    parsing the result of minifying the formatted text gives a value
    structurally equal to the value of [T]: same shape, same keys in the
    same order, equal strings and booleans, numerically equal numbers.
    Both versions of [formatJson] and [minifyJson] return the same texts. *)
Theorem format_minify_roundtrip (T : jsstring) (n : Z) (v : JsonValue) :
  parse T = inl v ->
  numbers_finite v = true ->
  exists pretty small v',
    JsonUtils.formatJson T n = Return pretty
    /\ JsonUtils0.formatJson T n = Return pretty
    /\ JsonUtils.minifyJson pretty = Return small
    /\ JsonUtils0.minifyJson pretty = Return small
    /\ parse small = inl v'
    /\ json_eqb v v' = true.
Proof.
  intros Hp Hf.
  pose proof (@finite_numbers_survive v (parse_gives_binary64 _ Hp) Hf) as Hs.
  pose proof (parse_gives_well_formed _ Hp) as Hwf.
  destruct (renumber_props v Hs) as (Hs' & Hidem & Heq & Hwf').
  assert (P1 : parse (stringify v n) = inl (renumber v))
    by (apply parse_stringify; assumption).
  assert (P2 : parse (stringify (renumber v) 0) = inl (renumber v)).
  { rewrite parse_stringify; [rewrite Hidem; reflexivity|exact Hs'|].
    rewrite Hwf'. exact Hwf. }
  exists (stringify v n), (stringify (renumber v) 0), (renumber v).
  unfold JsonUtils.formatJson, JsonUtils0.formatJson,
    JsonUtils.minifyJson, JsonUtils0.minifyJson.
  rewrite Hp, P1. repeat split; assumption.
Qed.

(** A text with integers, fractions, exponents, a negative zero, an escape
    and index-like keys. *)
Lemma format_minify_roundtrip_witness :
  parse sample_text = inl sample_value
  /\ numbers_finite sample_value = true
  /\ exists pretty small v',
       JsonUtils.formatJson sample_text 4 = Return pretty
       /\ JsonUtils0.formatJson sample_text 4 = Return pretty
       /\ JsonUtils.minifyJson pretty = Return small
       /\ JsonUtils0.minifyJson pretty = Return small
       /\ parse small = inl v'
       /\ json_eqb sample_value v' = true.
Proof.
  split; [vm_compute; reflexivity|].
  split; [vm_compute; reflexivity|].
  apply (@format_minify_roundtrip sample_text 4 sample_value);
    vm_compute; reflexivity.
Defined.

(** The texts of the example. *)
Lemma format_minify_sample :
  JsonUtils.formatJson (jsq "{`b`: [1, -2.5e-7, -0], `a`: {`10`: `x`, `9`: null}}") 2
  = Return (jsq "{
  `b`: [
    1,
    -2.5e-7,
    0
  ],
  `a`: {
    `9`: null,
    `10`: `x`
  }
}")
  /\ JsonUtils.minifyJson (jsq "{`b`: [1, -2.5e-7, -0], `a`: {`10`: `x`, `9`: null}}")
     = Return (jsq "{`b`:[1,-2.5e-7,0],`a`:{`9`:null,`10`:`x`}}").
Proof. split; vm_compute; reflexivity. Qed.

(** The integers below 1000 and some other literals survive printing;
    a literal that overflows does not. *)
Lemma numbers_survive_examples :
  forallb (fun i => number_survives (of_N (N.of_nat i))) (seq 0 1000) = true
  /\ number_survives (of_decimal false 123456789 (-4)) = true
  /\ number_survives (of_decimal true 5 (-324)) = true
  /\ number_survives (of_decimal false 17976931348623157 292) = true
  /\ number_survives (of_decimal false 1 999) = false.
Proof. repeat split; vm_compute; reflexivity. Qed.

(** C4 as stated fails on a number literal that overflows: [1e999] is
    valid JSON and parses to Infinity, which [JSON.stringify] writes as
    [null]. *)
Lemma format_minify_overflow_counterexample :
  parse (js "1e999") = inl (JNumber (S754_infinity false))
  /\ JsonUtils.formatJson (js "1e999") 2 = Return (js "null")
  /\ JsonUtils.minifyJson (js "null") = Return (js "null")
  /\ parse (js "null") = inl JNull
  /\ json_eqb (JNumber (S754_infinity false)) JNull = false.
Proof. repeat split; vm_compute; reflexivity. Qed.

End RoundTripClaim.
(* ================================================================== *)
(** * Part III.  Further properties of the code                        *)
(* ================================================================== *)

(** ** Validation and repair: what [validateJson] and [fixJson] guarantee *)

Section RepairProps.

Import JSON JsonUtils.

Lemma dropWhile_keeps {A} (p : A -> bool) (x : A) (l : list A) :
  In x l -> p x = false -> In x (dropWhile p l).
Proof.
  induction l as [|y l IH]; intros Hin Hp; [contradiction|].
  simpl. destruct (p y) eqn:Ey.
  - destruct Hin as [->|Hin]; [congruence|]. apply IH; assumption.
  - exact Hin.
Qed.

(** A text with a code unit that is not white space is not blank. *)
Lemma trim_truthy (s : jsstring) (c : N) :
  In c s -> isSpace c = false -> truthy (trim s) = true.
Proof.
  intros Hin Hc. unfold trim.
  assert (H : In c (rev (dropWhile isSpace (rev (dropWhile isSpace s))))).
  { apply -> in_rev. apply dropWhile_keeps; [|exact Hc].
    apply -> in_rev. apply dropWhile_keeps; assumption. }
  destruct (rev _); [contradiction|reflexivity].
Qed.

Lemma dropWhile_incl {A} (p : A -> bool) (x : A) (l : list A) :
  In x (dropWhile p l) -> In x l.
Proof.
  induction l as [|y l IH]; simpl; [tauto|].
  destruct (p y); [intros H; right; apply IH, H|tauto].
Qed.

Lemma printable_not_space (c : N) :
  (33 <= c <= 126)%N -> isSpace c = false.
Proof.
  intros H. unfold isSpace, isWhiteSpace, isLineTerminator, one_of, in_range.
  cbn [existsb].
  repeat match goal with
         | |- context [N.eqb c ?k] =>
             destruct (N.eqb_spec c k) as [?|_]; [lia|]
         end.
  destruct (N.leb_spec 8192 c); [lia|]. reflexivity.
Qed.

(** The first code unit of a JSON value is not white space. *)
Lemma parse_value_starts (fuel : nat) (s rest : jsstring) (v : JsonValue) :
  parse_value fuel s = POk v rest ->
  exists c, In c s /\ isSpace c = false.
Proof.
  destruct fuel as [|n]; [discriminate|].
  cbn [parse_value].
  destruct (skip_ws s) as [|c t] eqn:E; [discriminate|].
  assert (Hin : In c s).
  { apply (@dropWhile_incl _ isJsonWs). unfold skip_ws in E. rewrite E.
    left. reflexivity. }
  intros H. exists c. split; [exact Hin|].
  apply printable_not_space.
  destruct (N.eqb_spec c 123); [lia|].
  destruct (N.eqb_spec c 91); [lia|].
  destruct (N.eqb_spec c 34); [lia|].
  destruct (N.eqb_spec c 45); [lia|]. cbn [orb] in H.
  destruct (isDigit c) eqn:Ed.
  { unfold isDigit, in_range in Ed. apply andb_true_iff in Ed.
    destruct Ed as [A B]. apply N.leb_le in A, B. lia. }
  destruct (N.eqb_spec c 116); [lia|].
  destruct (N.eqb_spec c 102); [lia|].
  destruct (N.eqb_spec c 110); [lia|].
  discriminate.
Qed.

(** [JSON.parse] rejects a blank text. *)
Lemma parse_not_blank (s : jsstring) (v : JsonValue) :
  parse s = inl v -> truthy (trim s) = true.
Proof.
  unfold parse.
  destruct (parse_value _ s) as [v' rest|rest] eqn:E; [|discriminate].
  intros _. destruct (parse_value_starts _ _ E) as (c & Hin & Hc).
  eapply trim_truthy; eassumption.
Qed.

(** A result without an error carries a text that parses. *)
Lemma fixJson_fixed_parses (raw : jsstring) :
  error (fixJson raw) = None ->
  exists v, parse (fixed (fixJson raw)) = inl v.
Proof.
  unfold fixJson.
  destruct (truthy (trim raw)); cbn [negb]; [|discriminate].
  destruct (parse raw) as [v|e] eqn:E; cbn [fixed error]; [eauto|].
  destruct (parse (patch raw)) as [v'|e'] eqn:E'; cbn [fixed error];
    [eauto|discriminate].
Qed.

(** X1.  [fixJson] reports no error exactly when the text it hands back is
    valid JSON: a result without an error always parses, and a result with
    an error never does. *)
Theorem fixJson_sound (raw : jsstring) :
  error (fixJson raw) = None
  <-> exists v, parse (fixed (fixJson raw)) = inl v.
Proof.
  split; [apply fixJson_fixed_parses|].
  unfold fixJson.
  destruct (truthy (trim raw)) eqn:Hb; cbn [negb].
  - destruct (parse raw) as [v|e] eqn:E; cbn [fixed error]; [reflexivity|].
    destruct (parse (patch raw)) as [v'|e'] eqn:E'; cbn [fixed error];
      [reflexivity|].
    intros [v H]. congruence.
  - cbn [fixed error]. intros [v H]. apply parse_not_blank in H. congruence.
Qed.

(** X2.  A repair that fails leaves the text alone: whenever [fixJson]
    reports an error, [fixed] is the input itself and [wasFixed] is false.
    And [wasFixed] is true only for an input that does not parse, whose
    patched form is handed back and parses. *)
Theorem fixJson_changes_only_on_success (raw : jsstring) :
  (error (fixJson raw) <> None ->
   fixed (fixJson raw) = raw /\ wasFixed (fixJson raw) = false)
  /\ (wasFixed (fixJson raw) = true ->
      fixed (fixJson raw) = patch raw
      /\ error (fixJson raw) = None
      /\ (exists e, parse raw = inr e)
      /\ exists v, parse (patch raw) = inl v).
Proof.
  unfold fixJson.
  destruct (truthy (trim raw)); cbn [negb].
  - destruct (parse raw) as [v|e] eqn:E; cbn [fixed error wasFixed].
    + split; [auto|discriminate].
    + destruct (parse (patch raw)) as [v'|e'] eqn:E';
        cbn [fixed error wasFixed].
      * split; [intros H; contradiction H; reflexivity|].
        intros _. repeat split; eauto.
      * split; [auto|discriminate].
  - cbn [fixed error wasFixed]. split; [auto|discriminate].
Qed.

Lemma fixJson_changes_only_on_success_witness :
  error (fixJson (js "{a: }")) <> None
  /\ fixed (fixJson (js "{a: }")) = js "{a: }"
  /\ wasFixed (fixJson (js "{a: }")) = false
  /\ wasFixed (fixJson (js "{a: 1,}")) = true
  /\ fixed (fixJson (js "{a: 1,}")) = patch (js "{a: 1,}").
Proof.
  split; [vm_compute; discriminate|].
  split; [|split].
  - apply (proj1 (@fixJson_changes_only_on_success (js "{a: }"))).
    vm_compute; discriminate.
  - apply (proj1 (@fixJson_changes_only_on_success (js "{a: }"))).
    vm_compute; discriminate.
  - split; [vm_compute; reflexivity|].
    apply (proj2 (@fixJson_changes_only_on_success (js "{a: 1,}"))).
    vm_compute; reflexivity.
Defined.

(** X3.  Repairing is idempotent: the text of a result without an error,
    repaired again, comes back verbatim, with [wasFixed] false and no
    error. *)
Theorem fixJson_idempotent (raw : jsstring) :
  error (fixJson raw) = None ->
  fixJson (fixed (fixJson raw))
  = {| fixed := fixed (fixJson raw); wasFixed := false; error := None |}.
Proof.
  intros H. apply fixJson_fixed_parses in H. destruct H as [v Hv].
  pose proof (parse_not_blank _ Hv) as Hb.
  set (s := fixed (fixJson raw)) in *.
  unfold fixJson at 1. rewrite Hb, Hv. reflexivity.
Qed.

Lemma fixJson_idempotent_witness :
  error (fixJson (js "{a: 'b', /* c */ }")) = None
  /\ fixJson (fixed (fixJson (js "{a: 'b', /* c */ }")))
     = {| fixed := fixed (fixJson (js "{a: 'b', /* c */ }"));
          wasFixed := false; error := None |}.
Proof.
  split; [vm_compute; reflexivity|].
  apply (@fixJson_idempotent (js "{a: 'b', /* c */ }")).
  vm_compute; reflexivity.
Defined.

(** X4.  [validateJson] accepts exactly the texts [JSON.parse] accepts, and
    it reports an error, never an empty one, exactly when it rejects.  What
    it accepts, [fixJson] hands back verbatim. *)
Theorem validateJson_accepts (s : jsstring) :
  (isValid (validateJson s) = true <-> exists v, parse s = inl v)
  /\ (isValid (validateJson s) = true -> verror (validateJson s) = None)
  /\ (isValid (validateJson s) = false ->
      exists msg, verror (validateJson s) = Some msg /\ truthy msg = true)
  /\ (isValid (validateJson s) = true ->
      fixJson s = {| fixed := s; wasFixed := false; error := None |}).
Proof.
  unfold validateJson, fixJson.
  destruct (truthy (trim s)) eqn:Hb; cbn [negb].
  - destruct (parse s) as [v|e] eqn:E; cbn [isValid verror].
    + repeat split; eauto. discriminate.
    + repeat split; try discriminate.
      * intros [v H]; discriminate.
      * intros _. exists e. split; [reflexivity|].
        eapply parse_error_truthy; eassumption.
  - cbn [isValid verror]. repeat split; try discriminate.
    + intros [v H]. apply parse_not_blank in H. congruence.
    + intros _. eexists. split; reflexivity.
Qed.

Lemma validateJson_accepts_witness :
  isValid (validateJson (jsq "[1, {`a`: null}]")) = true
  /\ fixJson (jsq "[1, {`a`: null}]")
     = {| fixed := jsq "[1, {`a`: null}]"; wasFixed := false; error := None |}
  /\ isValid (validateJson (js "[1,")) = false
  /\ exists msg, verror (validateJson (js "[1,")) = Some msg
                 /\ truthy msg = true.
Proof.
  split; [vm_compute; reflexivity|].
  split.
  - apply (proj2 (proj2 (proj2 (@validateJson_accepts (jsq "[1, {`a`: null}]"))))).
    vm_compute; reflexivity.
  - split; [vm_compute; reflexivity|].
    apply (proj1 (proj2 (proj2 (@validateJson_accepts (js "[1,"))))).
    vm_compute; reflexivity.
Defined.

End RepairProps.

(** ** Formatting and minifying: what the texts they return are like *)

Section FormatProps.

Import JSNumber JSON RoundTrip JsonUtils.

Lemma toString_reread (x : Number) :
  number_survives x = true ->
  toString (reread x) = toString x /\ isFinite (reread x) = true.
Proof.
  intros H. destruct (number_survives_reread _ H) as (_ & Hf & He & _ & _).
  destruct x as [s|s| |s m e]; try discriminate.
  - destruct s; vm_compute; split; reflexivity.
  - apply eqb_finite in He. rewrite He. split; reflexivity.
Qed.

(** Printing does not see the difference between a number and its re-read
    form. *)
Lemma serialize_renumber (v : JsonValue) :
  numbers_survive v = true ->
  forall gap indent,
    serialize gap indent (renumber v) = serialize gap indent v.
Proof.
  induction v as [ |b|x|s|items IH|props IH] using JsonValue_induction;
    intros Hs gap indent; try reflexivity.
  - cbn [numbers_survive renumber serialize] in *.
    destruct (toString_reread _ Hs) as [Ht Hf]. rewrite Ht, Hf.
    destruct (number_survives_reread _ Hs) as (_ & Hf' & _). rewrite Hf'.
    reflexivity.
  - cbn [numbers_survive renumber serialize] in *. f_equal.
    rewrite map_map.
    induction IH as [|x xs Hx _ IHxs]; [reflexivity|].
    cbn [forallb] in Hs. apply andb_true_iff in Hs. destruct Hs as [Hsx Hsxs].
    cbn [List.map]. rewrite Hx by exact Hsx. rewrite IHxs by exact Hsxs.
    reflexivity.
  - cbn [numbers_survive renumber serialize] in *. f_equal.
    induction IH as [|[k x] ps Hx _ IHps]; [reflexivity|].
    cbn [forallb snd] in Hs. apply andb_true_iff in Hs.
    destruct Hs as [Hsx Hsps]. cbn [snd] in Hx.
    cbn [List.map fst snd]. rewrite Hx by exact Hsx.
    f_equal. apply IHps, Hsps.
Qed.

(** A text printed with one indentation, read and printed with another, is
    the value printed with the other. *)
Lemma restyle (T : jsstring) (v : JsonValue) (a b : Z) :
  parse T = inl v -> numbers_survive v = true ->
  exists v', parse (stringify v a) = inl v'
             /\ stringify v' b = stringify v b.
Proof.
  intros Hp Hs. exists (renumber v). split.
  - apply parse_stringify; [exact Hs|].
    eapply parse_gives_well_formed; eassumption.
  - unfold stringify. apply serialize_renumber, Hs.
Qed.

(** X5.  The text [formatJson] returns for a valid text whose numbers
    survive printing can be formatted or minified again, and the result is
    the one the original text gives: formatting with the same indent is
    idempotent, and only the last of several format or minify steps
    counts. *)
Theorem formatJson_again (T : jsstring) (v : JsonValue) (a b : Z) :
  parse T = inl v ->
  numbers_survive v = true ->
  exists pretty,
    formatJson T a = Return pretty
    /\ formatJson pretty a = Return pretty
    /\ formatJson pretty b = formatJson T b
    /\ minifyJson pretty = minifyJson T.
Proof.
  intros Hp Hs. exists (stringify v a).
  unfold formatJson, minifyJson. rewrite Hp.
  destruct (@restyle T v a a Hp Hs) as (v1 & P1 & S1).
  destruct (@restyle T v a b Hp Hs) as (v2 & P2 & S2).
  destruct (@restyle T v a 0 Hp Hs) as (v3 & P3 & S3).
  split; [reflexivity|].
  rewrite P1 in *. injection P2 as <-. injection P3 as <-.
  rewrite S1, S2, S3. auto.
Qed.

Lemma formatJson_again_witness :
  parse Examples.sample_text = inl Examples.sample_value
  /\ numbers_survive Examples.sample_value = true
  /\ exists pretty,
       formatJson Examples.sample_text 2 = Return pretty
       /\ formatJson pretty 2 = Return pretty
       /\ formatJson pretty 8 = formatJson Examples.sample_text 8
       /\ minifyJson pretty = minifyJson Examples.sample_text.
Proof.
  split; [vm_compute; reflexivity|].
  split; [vm_compute; reflexivity|].
  apply (@formatJson_again Examples.sample_text Examples.sample_value 2 8);
    vm_compute; reflexivity.
Defined.

(** X6.  The same for [minifyJson]: minifying is idempotent, and formatting
    a minified text gives what formatting the original gives. *)
Theorem minifyJson_again (T : jsstring) (v : JsonValue) (b : Z) :
  parse T = inl v ->
  numbers_survive v = true ->
  exists small,
    minifyJson T = Return small
    /\ minifyJson small = Return small
    /\ formatJson small b = formatJson T b.
Proof.
  intros Hp Hs. exists (stringify v 0).
  unfold formatJson, minifyJson. rewrite Hp.
  destruct (@restyle T v 0 0 Hp Hs) as (v1 & P1 & S1).
  destruct (@restyle T v 0 b Hp Hs) as (v2 & P2 & S2).
  split; [reflexivity|].
  rewrite P1 in *. injection P2 as <-.
  rewrite S1, S2. auto.
Qed.

Lemma minifyJson_again_witness :
  parse Examples.sample_text = inl Examples.sample_value
  /\ numbers_survive Examples.sample_value = true
  /\ exists small,
       minifyJson Examples.sample_text = Return small
       /\ minifyJson small = Return small
       /\ formatJson small 4 = formatJson Examples.sample_text 4.
Proof.
  split; [vm_compute; reflexivity|].
  split; [vm_compute; reflexivity|].
  apply (@minifyJson_again Examples.sample_text Examples.sample_value 4);
    vm_compute; reflexivity.
Defined.

(** X7.  What [formatJson] and [minifyJson] return for such a text is
    accepted as it is: [validateJson] finds it valid and [fixJson] hands it
    back verbatim, without an error. *)
Theorem formatted_is_valid (T : jsstring) (v : JsonValue) (n : Z)
  (out : jsstring) :
  parse T = inl v ->
  numbers_survive v = true ->
  formatJson T n = Return out \/ minifyJson T = Return out ->
  isValid (validateJson out) = true
  /\ fixJson out = {| fixed := out; wasFixed := false; error := None |}.
Proof.
  intros Hp Hs Hout.
  assert (P : exists v', parse out = inl v').
  { unfold formatJson, minifyJson in Hout. rewrite Hp in Hout.
    destruct Hout as [H|H]; injection H as <-.
    - destruct (@restyle T v n 0 Hp Hs) as (v' & P & _). eauto.
    - destruct (@restyle T v 0 0 Hp Hs) as (v' & P & _). eauto. }
  destruct P as [v' P]. pose proof (parse_not_blank _ P) as Hb.
  unfold validateJson, fixJson. rewrite Hb, P. split; reflexivity.
Qed.

Lemma formatted_is_valid_witness :
  isValid (validateJson (jsq "[
    1,
    {
        `a`: `b`
    }
]")) = true
  /\ fixJson (jsq "[
    1,
    {
        `a`: `b`
    }
]") = {| fixed := jsq "[
    1,
    {
        `a`: `b`
    }
]"; wasFixed := false; error := None |}.
Proof.
  apply (@formatted_is_valid (jsq "[1,{`a`:`b`}]")
           (JArray [JNumber (of_decimal false 1 0);
                    JObject [(js "a", JString (js "b"))]]) 4).
  - vm_compute; reflexivity.
  - vm_compute; reflexivity.
  - left. vm_compute; reflexivity.
Defined.

End FormatProps.
(** ** The session controller: invariants and how the handlers compose *)

Section SessionProps.

Import JSON JsonUtils Controller.

Local Arguments firstn : simpl never.
Local Arguments skipn : simpl never.

Lemma pushUndo_sync (st : State) : in_sync st -> in_sync (pushUndo st).
Proof.
  intros [A B]. unfold pushUndo.
  destruct (truthy (value_ref st)); cbn [negb]; split; auto.
Qed.

Lemma pushUndo_value (st : State) :
  value (pushUndo st) = value st /\ value_ref (pushUndo st) = value_ref st
  /\ viewMode (pushUndo st) = viewMode st
  /\ activeId (pushUndo st) = activeId st
  /\ snippets (pushUndo st) = snippets st
  /\ chrome (pushUndo st) = chrome st
  /\ indentSize (pushUndo st) = indentSize st.
Proof.
  unfold pushUndo. destruct (truthy (value_ref st)); cbn [negb];
    repeat split; reflexivity.
Qed.

Lemma step_sync (a : Action) (st : State) : in_sync st -> in_sync (step a st).
Proof.
  intros H. destruct a; cbn [step].
  - split; [reflexivity|apply H].
  - unfold handleUndo. destruct (undoStack st) eqn:E; [exact H|].
    split; reflexivity.
  - unfold handleFormat.
    destruct (truthy (trim (value_ref (setError [] st)))); cbn [negb];
      [|exact H].
    destruct (reported _); [exact H|].
    pose proof (@pushUndo_sync (setError [] st) H) as P.
    destruct (formatJson _ _); [|exact P].
    split; [reflexivity|apply P].
  - unfold handleMinify.
    destruct (truthy (trim (value st))); cbn [negb]; [|exact H].
    destruct (reported _); [exact H|].
    pose proof (@pushUndo_sync (setError [] st) H) as P.
    destruct (minifyJson _); [|exact P].
    split; [reflexivity|apply P].
  - unfold handleClear. destruct (_ && _); [exact H|].
    split; [reflexivity|apply (pushUndo_sync H)].
  - split; [reflexivity|apply (pushUndo_sync H)].
  - split; [reflexivity|apply (pushUndo_sync H)].
  - unfold handleSwitchSnippet. destruct (sameId _ _); [exact H|].
    split; [reflexivity|apply (pushUndo_sync H)].
  - split; [reflexivity|apply (pushUndo_sync H)].
  - split; [reflexivity|apply (pushUndo_sync H)].
  - unfold handleDeleteSnippet. destruct (sameId _ _); exact H.
  - unfold handleSidebarDelete. destruct (sameId _ _); [|exact H].
    split; [reflexivity|apply H].
Qed.

Lemma handle_sync (e : Event) (st : State) :
  in_sync st -> in_sync (handle e st).
Proof.
  intros H. destruct e; cbn [handle]; try exact H.
  - apply step_sync, H.
  - unfold fetchStarted. destruct (truthy _); exact H.
  - unfold handleCopy. destruct (exported st); exact H.
  - unfold handleDownload. destruct (exported st); exact H.
  - unfold openSave. destruct (exported st); exact H.
Qed.

(** X8.  Whatever happens to the component, the ref cell and the state cell
    of the document hold the same text, and [undoLen] is the height of the
    undo stack: the Undo button is there exactly when Undo has a text to
    bring back. *)
Theorem cells_stay_in_sync (draft : jsstring) (stored : list Snippet)
  (c : Chrome) (events : list Event) :
  let st := play events (initial draft stored c) in
  value_ref st = value st
  /\ undoLen st = length (undoStack st)
  /\ (undoLen st = 0 <-> handleUndo st = st).
Proof.
  cbv zeta.
  assert (H : in_sync (play events (initial draft stored c))).
  { assert (H0 : in_sync (initial draft stored c)) by (split; reflexivity).
    revert H0. generalize (initial draft stored c).
    induction events as [|e more IH]; intros st H; [exact H|].
    apply IH, handle_sync, H. }
  destruct H as [A B]. split; [exact A|]. split; [exact B|].
  rewrite B. unfold handleUndo.
  destruct (play events (initial draft stored c)) as
    [vm v fv er to ind sn ai us vr ul ch].
  cbn [undoStack] in *. destruct us as [|p r]; cbn [length].
  - split; reflexivity.
  - split; [discriminate|]. intros E.
    apply (f_equal undoStack) in E. cbn in E.
    apply (f_equal (@length _)) in E. cbn in E. lia.
Qed.

Lemma pushUndo_pushes (st : State) :
  value_ref st <> [] ->
  undoStack (pushUndo st) = value_ref st :: firstn 49 (undoStack st).
Proof.
  intros H. unfold pushUndo. destruct (value_ref st) as [|c t] eqn:E.
  - contradiction H; reflexivity.
  - reflexivity.
Qed.

Lemma trim_nil : trim [] = [].
Proof. reflexivity. Qed.

Lemma truthy_trim (s : jsstring) : truthy (trim s) = true -> s <> [].
Proof. intros H ->. discriminate. Qed.

(** An undoable action that changes the document has pushed the old text. *)
Lemma step_pushes (a : Action) (st : State) :
  value_ref st = value st ->
  value st <> [] ->
  undoable a = true ->
  value (step a st) <> value st ->
  undoStack (step a st) = value st :: firstn 49 (undoStack st).
Proof.
  intros Hsync Hne Hun Hch.
  assert (P : forall e, undoStack (pushUndo (setError e st))
                        = value st :: firstn 49 (undoStack st)).
  { intros e. rewrite pushUndo_pushes; cbn [value_ref setError undoStack];
      rewrite Hsync; [reflexivity|exact Hne]. }
  assert (Q : undoStack (pushUndo st) = value st :: firstn 49 (undoStack st)).
  { rewrite pushUndo_pushes; rewrite Hsync; [reflexivity|exact Hne]. }
  destruct a; cbn [step undoable] in *; try discriminate.
  - unfold handleFormat in *.
    destruct (truthy (trim (value_ref (setError [] st)))); cbn [negb] in *;
      [|contradiction Hch; reflexivity].
    destruct (reported _); [contradiction Hch; reflexivity|].
    destruct (formatJson _ _); [|apply P].
    cbn [undoStack showToast setViewMode setFormattedVal setValue]. apply P.
  - unfold handleMinify in *.
    destruct (truthy (trim (value st))); cbn [negb] in *;
      [|contradiction Hch; reflexivity].
    destruct (reported _); [contradiction Hch; reflexivity|].
    destruct (minifyJson _); [|apply P].
    cbn [undoStack showToast setViewMode setValue]. apply P.
  - unfold handleClear in *.
    destruct (_ && _); [contradiction Hch; reflexivity|]. exact Q.
  - exact Q.
  - exact Q.
  - unfold handleSwitchSnippet in *.
    destruct (sameId _ _); [contradiction Hch; reflexivity|]. exact Q.
  - exact Q.
  - exact Q.
  - unfold handleDeleteSnippet in *.
    destruct (sameId _ _); contradiction Hch; reflexivity.
Qed.

(** X9.  Undo takes back the last change: when Format, Minify, Clear, New,
    a loaded file or URL, or a snippet switched to or restored has changed a
    non-empty document, Undo right after it brings the old text back, in
    edit view.  (Typing and the sidebar's delete button push nothing.) *)
Theorem undo_reverts (a : Action) (st : State) :
  value_ref st = value st ->
  value st <> [] ->
  undoable a = true ->
  value (step a st) <> value st ->
  value (handleUndo (step a st)) = value st
  /\ viewMode (handleUndo (step a st)) = edit
  /\ undoStack (handleUndo (step a st)) = firstn 49 (undoStack st).
Proof.
  intros Hsync Hne Hun Hch.
  pose proof (@step_pushes a st Hsync Hne Hun Hch) as E.
  unfold handleUndo. rewrite E. repeat split.
Qed.

Lemma undo_reverts_witness :
  let st := Examples.broken_session in
  value (handleUndo (step Clear st)) = value st
  /\ viewMode (handleUndo (step Clear st)) = edit
  /\ undoStack (handleUndo (step Clear st)) = firstn 49 (undoStack st).
Proof.
  cbv zeta. apply (@undo_reverts Clear Examples.broken_session).
  - reflexivity.
  - vm_compute; discriminate.
  - reflexivity.
  - vm_compute; discriminate.
Defined.

(** X10.  A Format or Minify that leaves no error has worked on a document
    that is not blank and whose repaired form parses (so [formatJson] and
    [minifyJson] do not throw): the document is that value printed, Format
    shows it in tree view and hands the same text to Copy, Download and
    Save, and the text replaced is on top of the undo stack. *)
Theorem format_minify_success (st : State) :
  truthy (trim (value st)) = true ->
  value_ref st = value st ->
  (error (handleFormat st) = [] ->
   exists v,
     parse (fixed (fixJson (trim (value st)))) = inl v
     /\ value (handleFormat st) = stringify v (indentSize st)
     /\ formattedVal (handleFormat st) = stringify v (indentSize st)
     /\ viewMode (handleFormat st) = tree
     /\ exportSource (handleFormat st) = value (handleFormat st)
     /\ undoStack (handleFormat st) = firstn 50 (value st :: undoStack st))
  /\ (error (handleMinify st) = [] ->
      exists v,
        parse (fixed (fixJson (trim (value st)))) = inl v
        /\ value (handleMinify st) = stringify v 0
        /\ viewMode (handleMinify st) = edit
        /\ exportSource (handleMinify st) = value (handleMinify st)
        /\ undoStack (handleMinify st)
           = firstn 50 (value st :: undoStack st)).
Proof.
  intros Hb Hsync.
  pose proof (@truthy_trim (value st) Hb) as Hne.
  assert (P : forall e, pushUndo (setError e st)
                        = setUndoStack (firstn 50 (value st :: undoStack st))
                                       (setError e st)).
  { intros e. unfold pushUndo. cbn [value_ref setError undoStack].
    rewrite Hsync. destruct (value st); [contradiction Hne; reflexivity|].
    reflexivity. }
  split.
  - unfold handleFormat. cbn [value_ref setError]. rewrite Hsync, Hb.
    cbn [negb].
    destruct (reported (JsonUtils.error (fixJson (trim (value st)))))
      as [msg|] eqn:R.
    + cbn [Controller.error setError]. intros ->.
      unfold reported in R.
      destruct (JsonUtils.error _) as [m|]; [|discriminate].
      destruct (truthy m) eqn:T; [|discriminate]. injection R as ->.
      discriminate.
    + intros _.
      assert (N : JsonUtils.error (fixJson (trim (value st))) = None).
      { unfold reported in R.
        destruct (JsonUtils.error _) as [m|] eqn:E; [|reflexivity].
        rewrite (fixJson_error_truthy _ E) in R. discriminate. }
      apply fixJson_fixed_parses in N. destruct N as [v Hv].
      exists v. split; [exact Hv|].
      rewrite P. unfold formatJson. rewrite Hv. repeat split.
  - unfold handleMinify. rewrite Hb. cbn [negb].
    destruct (reported (JsonUtils.error (fixJson (trim (value st)))))
      as [msg|] eqn:R.
    + cbn [Controller.error setError]. intros ->.
      unfold reported in R.
      destruct (JsonUtils.error _) as [m|]; [|discriminate].
      destruct (truthy m) eqn:T; [|discriminate]. injection R as ->.
      discriminate.
    + intros _.
      assert (N : JsonUtils.error (fixJson (trim (value st))) = None).
      { unfold reported in R.
        destruct (JsonUtils.error _) as [m|] eqn:E; [|reflexivity].
        rewrite (fixJson_error_truthy _ E) in R. discriminate. }
      apply fixJson_fixed_parses in N. destruct N as [v Hv].
      exists v. split; [exact Hv|].
      rewrite P. unfold minifyJson. rewrite Hv. repeat split.
Qed.

Lemma format_minify_success_witness :
  let st := typed (js " {a: [1, 2,], } ") Examples.broken_session in
  exists v,
    parse (fixed (fixJson (trim (value st)))) = inl v
    /\ value (handleFormat st) = stringify v (indentSize st)
    /\ formattedVal (handleFormat st) = stringify v (indentSize st)
    /\ viewMode (handleFormat st) = tree
    /\ exportSource (handleFormat st) = value (handleFormat st)
    /\ undoStack (handleFormat st) = firstn 50 (value st :: undoStack st).
Proof.
  cbv zeta.
  apply (proj1 (@format_minify_success
                  (typed (js " {a: [1, 2,], } ") Examples.broken_session)
                  eq_refl eq_refl)).
  vm_compute; reflexivity.
Defined.

(** *** The font size *)

Lemma handle_font (e : Event) (st : State) :
  font_in_range st -> font_in_range (handle e st).
Proof.
  unfold font_in_range. intros H.
  destruct e as [a| | | | | | | | | | | | | | | | | | | | ]; cbn [handle];
    try exact H.
  - destruct a; cbn [step]; try exact H.
    + unfold handleUndo. destruct (undoStack st); exact H.
    + unfold handleFormat.
      destruct (truthy _); cbn [negb]; [|exact H].
      destruct (reported _); [exact H|].
      destruct (formatJson _ _);
        cbn [chrome showToast setViewMode setFormattedVal setValue];
        rewrite (proj1 (proj2 (proj2 (proj2 (proj2 (proj2
                   (@pushUndo_value (setError [] st)))))))); exact H.
    + unfold handleMinify.
      destruct (truthy _); cbn [negb]; [|exact H].
      destruct (reported _); [exact H|].
      destruct (minifyJson _);
        cbn [chrome showToast setViewMode setValue];
        rewrite (proj1 (proj2 (proj2 (proj2 (proj2 (proj2
                   (@pushUndo_value (setError [] st)))))))); exact H.
    + unfold handleClear. destruct (_ && _); [exact H|].
      cbn [chrome showToast setActiveId setViewMode setFormattedVal setError
             setValue].
      rewrite (proj1 (proj2 (proj2 (proj2 (proj2 (proj2
                 (@pushUndo_value st))))))); exact H.
    + unfold fileLoaded.
      cbn [chrome showToast setActiveId setViewMode setError setValue].
      rewrite (proj1 (proj2 (proj2 (proj2 (proj2 (proj2
                 (@pushUndo_value st))))))); exact H.
    + unfold urlLoaded.
      cbn [chrome showToast setActiveId setViewMode setError setValue
             setChrome closeUrlBar fontSize].
      rewrite (proj1 (proj2 (proj2 (proj2 (proj2 (proj2
                 (@pushUndo_value st))))))); exact H.
    + unfold handleSwitchSnippet. destruct (sameId _ _); [exact H|].
      cbn [chrome showToast setActiveId setViewMode setFormattedVal setError
             setValue].
      rewrite (proj1 (proj2 (proj2 (proj2 (proj2 (proj2
                 (@pushUndo_value st))))))); exact H.
    + unfold handleNew.
      cbn [chrome showToast setActiveId setViewMode setFormattedVal setError
             setValue].
      rewrite (proj1 (proj2 (proj2 (proj2 (proj2 (proj2
                 (@pushUndo_value st))))))); exact H.
    + unfold handleRestore.
      cbn [chrome showToast setActiveId setViewMode setError setValue
             setChrome closeSnippets fontSize].
      rewrite (proj1 (proj2 (proj2 (proj2 (proj2 (proj2
                 (@pushUndo_value st))))))); exact H.
    + unfold handleDeleteSnippet. destruct (sameId _ _); exact H.
    + unfold handleSidebarDelete. destruct (sameId _ _); exact H.
  - unfold changeFontSize, FONT_MIN, FONT_MAX in *.
    cbn [chrome setChrome fontSize setFontSize]. lia.
  - unfold fetchStarted. destruct (truthy _); exact H.
  - unfold handleCopy. destruct (exported st); exact H.
  - unfold handleDownload. destruct (exported st); exact H.
  - unfold openSave. destruct (exported st); exact H.
Qed.

Lemma play_font (events : list Event) (st : State) :
  font_in_range st -> font_in_range (play events st).
Proof.
  revert st. induction events as [|e more IH]; intros st H; [exact H|].
  apply IH, handle_font, H.
Qed.

(** X11.  The font size stays between 11 and 22 pixels: if the stored size
    is in that range, or as soon as one of the two size buttons has been
    used, it is in that range after every later event. *)
Theorem font_size_bounded (events : list Event) (st : State) :
  font_in_range st \/ (exists delta, In (ChangeFontSize delta) events) ->
  (11 <= fontSize (chrome (play events st)) <= 22)%Z.
Proof.
  intros [H|[delta Hin]].
  - apply (@play_font events st H).
  - apply in_split in Hin. destruct Hin as (l1 & l2 & ->).
    unfold play. rewrite fold_left_app. cbn [fold_left].
    apply (@play_font l2).
    unfold font_in_range, handle, changeFontSize, FONT_MIN, FONT_MAX.
    cbn [chrome setChrome fontSize setFontSize]. lia.
Qed.

Lemma font_size_bounded_witness :
  (11 <= fontSize (chrome (play [ChangeFontSize 1; Act Format;
                                 ChangeFontSize (-30); ToggleTheme]
                                Examples.broken_session)) <= 22)%Z.
Proof.
  apply (@font_size_bounded
           [ChangeFontSize 1; Act Format; ChangeFontSize (-30); ToggleTheme]
           Examples.broken_session).
  left. unfold font_in_range, FONT_MIN, FONT_MAX. simpl. lia.
Defined.

(** *** Snippets *)

(** X12.  Save puts one new snippet in front of the stored ones and makes it
    the active one.  The snippet holds the exported text (the formatted text
    in tree view, the document otherwise), its name is never empty, its
    preview is that text cut to 80 code units, plus one for the ellipsis.
    Restoring the snippet later makes its text the document. *)
Theorem confirmSave_entry (now : Z) (iso : jsstring) (st : State) :
  exists entry,
    snippets (confirmSave now iso st) = entry :: snippets st
    /\ activeId (confirmSave now iso st) = Some (id entry)
    /\ id entry = now
    /\ json entry = exportSource st
    /\ truthy (name entry) = true
    /\ length (preview entry) <= 81
    /\ firstn 80 (preview entry) = firstn 80 (exportSource st)
    /\ (length (exportSource st) <= 80 -> preview entry = exportSource st)
    /\ value (confirmSave now iso st) = value st
    /\ forall st', value (handleRestore entry st') = exportSource st.
Proof.
  eexists. split; [reflexivity|]. cbn [id json name preview].
  split; [reflexivity|]. split; [reflexivity|]. split; [reflexivity|].
  split.
  { unfold nameOf. destruct (truthy (trim _)) eqn:T; [exact T|reflexivity]. }
  unfold previewOf.
  split.
  { rewrite length_app. pose proof (firstn_length_le 80 (exportSource st)).
    destruct (Nat.ltb 80 _); cbn [length]; lia. }
  split.
  { destruct (Nat.ltb_spec 80 (length (exportSource st))) as [L|L].
    - rewrite firstn_app, firstn_firstn.
      replace (Nat.min 80 80) with 80 by reflexivity.
      rewrite length_firstn.
      replace (80 - Nat.min 80 (length (exportSource st))) with 0 by lia.
      change (firstn 0 [8230%N]) with (@nil N). apply app_nil_r.
    - rewrite app_nil_r. apply firstn_firstn. }
  split.
  { intros L. destruct (Nat.ltb_spec 80 (length (exportSource st))); [lia|].
    rewrite app_nil_r. apply firstn_all2. exact L. }
  split; reflexivity.
Qed.

(** X13.  Deleting a snippet.  Both delete buttons remove exactly the
    snippets with the given id, keep the others, and leave the undo stack
    alone.  Neither leaves the deleted snippet active.  The button of the
    snippets dialog keeps the document; the button of the sidebar empties it
    when the deleted snippet was the active one, which Undo cannot take
    back. *)
Theorem delete_snippet (i : Z) (st : State) :
  let a := handleDeleteSnippet i st in
  let b := handleSidebarDelete i st in
  (forall s, In s (snippets a) <-> In s (snippets st) /\ id s <> i)
  /\ snippets b = snippets a
  /\ activeId a <> Some i
  /\ activeId b = activeId a
  /\ value a = value st
  /\ value b = (if sameId (activeId st) i then [] else value st)
  /\ undoStack a = undoStack st
  /\ undoStack b = undoStack st.
Proof.
  cbv zeta. unfold handleDeleteSnippet, handleSidebarDelete.
  split.
  { intros s.
    assert (F : In s (without i (snippets st))
                <-> In s (snippets st) /\ id s <> i).
    { unfold without. rewrite filter_In.
      destruct (Z.eqb_spec (id s) i); cbn [negb]; intuition congruence. }
    destruct (sameId (activeId st) i); exact F. }
  destruct (sameId (activeId st) i) eqn:S; repeat split; try discriminate.
  intros E. cbn [activeId setSnippets] in E. rewrite E in S.
  cbn [sameId] in S. rewrite Z.eqb_refl in S. discriminate.
Qed.

Lemma active_stored_same (st st' : State) :
  activeId st' = activeId st -> snippets st' = snippets st ->
  active_stored st -> active_stored st'.
Proof. unfold active_stored. intros -> ->. auto. Qed.

Lemma active_stored_none (st : State) :
  activeId st = None -> active_stored st.
Proof. unfold active_stored. intros ->. discriminate. Qed.

Lemma active_stored_delete (i : Z) (st st' : State) :
  snippets st' = without i (snippets st) ->
  activeId st' = (if sameId (activeId st) i then None else activeId st) ->
  active_stored st -> active_stored st'.
Proof.
  unfold active_stored. intros Es Ea H j Hj. rewrite Ea in Hj. rewrite Es.
  destruct (sameId (activeId st) i) eqn:S; [discriminate|].
  destruct (H j Hj) as (s & Hin & Hid). exists s. split; [|exact Hid].
  unfold without. apply filter_In. split; [exact Hin|].
  rewrite Hj in S. cbn [sameId] in S. rewrite Hid, S. reflexivity.
Qed.

Lemma handle_active (e : Event) (st : State) :
  offered e st -> active_stored st -> active_stored (handle e st).
Proof.
  intros Ho H.
  pose proof (@pushUndo_value st) as (_ & _ & _ & Pa & Ps & _ & _).
  pose proof (@pushUndo_value (setError [] st)) as (_ & _ & _ & Pa' & Ps' & _ & _).
  destruct e as [a| | | | | | | | | | | | | | | | | | | | ]; cbn [handle];
    try exact H.
  - destruct a; cbn [step offered] in *; try exact H.
    + unfold handleUndo. destruct (undoStack st); [exact H|].
      apply active_stored_none. reflexivity.
    + unfold handleFormat.
      destruct (truthy _); cbn [negb]; [|exact H].
      destruct (reported _); [exact H|].
      destruct (formatJson _ _);
        (apply (@active_stored_same st); [| |exact H]);
        cbn [activeId snippets showToast setViewMode setFormattedVal
               setValue]; assumption.
    + unfold handleMinify.
      destruct (truthy _); cbn [negb]; [|exact H].
      destruct (reported _); [exact H|].
      destruct (minifyJson _);
        (apply (@active_stored_same st); [| |exact H]);
        cbn [activeId snippets showToast setViewMode setValue]; assumption.
    + unfold handleClear. destruct (_ && _); [exact H|].
      apply active_stored_none. reflexivity.
    + apply active_stored_none. reflexivity.
    + apply active_stored_none. reflexivity.
    + unfold handleSwitchSnippet. destruct (sameId _ _); [exact H|].
      intros j Hj. injection Hj as <-. exists s. split; [|reflexivity].
      cbn [snippets showToast setActiveId setViewMode setFormattedVal
             setError setValue]. rewrite Ps. exact Ho.
    + apply active_stored_none. reflexivity.
    + intros j Hj. injection Hj as <-. exists s. split; [|reflexivity].
      unfold handleRestore.
      cbn [snippets showToast setActiveId setViewMode setError setValue
             setChrome]. rewrite Ps. exact Ho.
    + apply (@active_stored_delete i st); [| |exact H];
        unfold handleDeleteSnippet; destruct (sameId _ _); reflexivity.
    + apply (@active_stored_delete i st); [| |exact H];
        unfold handleSidebarDelete; destruct (sameId _ _); reflexivity.
  - unfold fetchStarted. destruct (truthy _); exact H.
  - unfold handleCopy. destruct (exported st); exact H.
  - unfold handleDownload. destruct (exported st); exact H.
  - unfold openSave. destruct (exported st); exact H.
  - intros j Hj. injection Hj as <-. eexists. split; [left; reflexivity|].
    reflexivity.
Qed.

(** X14.  The active snippet is always a stored one.  Starting from a fresh
    component, after any events in which the snippets switched to or
    restored are snippets listed at that moment, the active id, if there is
    one, is the id of a snippet in the list: deleting the active snippet or
    replacing the document clears it. *)
Theorem active_snippet_stored (draft : jsstring) (stored : list Snippet)
  (c : Chrome) (events : list Event) :
  offered_all events (initial draft stored c) ->
  active_stored (play events (initial draft stored c)).
Proof.
  assert (H0 : active_stored (initial draft stored c))
    by (apply active_stored_none; reflexivity).
  revert H0. generalize (initial draft stored c).
  induction events as [|e more IH]; intros st H Ho; [exact H|].
  destruct Ho as [Ho Hmore].
  apply IH; [apply handle_active; assumption|exact Hmore].
Qed.

Lemma active_snippet_stored_witness :
  let s := {| id := 5; name := js "a"; preview := js "{}"; json := js "{}";
              savedAt := [] |} in
  active_stored
    (play [Act (Type_ (js "[1]")); ConfirmSave 9 []; Act (SwitchSnippet s);
           Act (Restore s); Act (DeleteSnippet 5)]
          (initial [] [s] Examples.blank_chrome)).
Proof.
  cbv zeta. apply active_snippet_stored.
  simpl. repeat split; auto.
Defined.

End SessionProps.
(** ** The first formatter component *)

Section Formatter0Props.

Import JSON RoundTrip JsonUtils JsonUtils0 Formatter0.

(** The two [validateJson] functions accept the same texts. *)
Lemma validateJson0_isValid (s : jsstring) :
  isValid (JsonUtils0.validateJson s) = isValid (JsonUtils.validateJson s).
Proof.
  unfold JsonUtils0.validateJson, JsonUtils.validateJson.
  destruct (truthy (trim s)); cbn [negb]; [|reflexivity].
  destruct (parse s); reflexivity.
Qed.

Lemma validateJson0_valid (s : jsstring) :
  isValid (JsonUtils0.validateJson s) = true ->
  exists v, parse s = inl v.
Proof.
  unfold JsonUtils0.validateJson.
  destruct (truthy (trim s)); cbn [negb]; [|discriminate].
  destruct (parse s) as [v|e]; [eauto|discriminate].
Qed.

Lemma handle_returns (e : Event) (st : State) :
  exists st', handle e st = Return st' /\ (settled st -> settled st').
Proof.
  unfold settled.
  destruct e; cbn [handle].
  - eexists. split; [reflexivity|]. cbn. tauto.
  - unfold handleFormat. cbn [inputJson setError indentSize].
    destruct (isValid (JsonUtils0.validateJson (inputJson st))) eqn:V;
      cbn [negb].
    + destruct (validateJson0_valid _ V) as [v Hv].
      unfold JsonUtils0.formatJson. rewrite Hv.
      eexists. split; [reflexivity|]. intros _. left. reflexivity.
    + eexists. split; [reflexivity|]. intros _. right. reflexivity.
  - unfold handleMinify. cbn [inputJson setError indentSize].
    destruct (isValid (JsonUtils0.validateJson (inputJson st))) eqn:V;
      cbn [negb].
    + destruct (validateJson0_valid _ V) as [v Hv].
      unfold JsonUtils0.minifyJson. rewrite Hv.
      eexists. split; [reflexivity|]. intros _. left. reflexivity.
    + eexists. split; [reflexivity|]. intros _. right. reflexivity.
  - eexists. split; [reflexivity|]. intros _. left. reflexivity.
  - eexists. split; [reflexivity|]. cbn. tauto.
  - eexists. split; [reflexivity|]. cbn. tauto.
  - eexists. split; [reflexivity|]. cbn. tauto.
  - eexists. split; [reflexivity|]. unfold handleEditResult.
    destruct (truthy (outputJson st)); cbn; tauto.
Qed.

(** X15.  The first formatter never fails: [formatJson] and [minifyJson]
    throw on a text that does not parse, but [handleFormat] and
    [handleMinify] call them only after [validateJson] has accepted the text,
    so no sequence of events ends in an exception.  And an error is never on
    display beside a result: whenever [error] is set, [outputJson] is
    empty. *)
Theorem formatter0_never_throws (events : list Event) :
  exists st,
    play events initial = Return st
    /\ (error st = None \/ outputJson st = []).
Proof.
  assert (G : forall st0, settled st0 ->
                exists st, play events st0 = Return st /\ settled st).
  { induction events as [|e more IH]; intros st0 H0.
    - exists st0. split; [reflexivity|exact H0].
    - cbn [play]. destruct (handle_returns e st0) as (st1 & E & S).
      rewrite E. apply IH, S, H0. }
  apply G. left. reflexivity.
Qed.

(** X16.  Format, Edit, Format: when the input is valid JSON whose numbers
    survive printing, formatting it, taking the result over as the new input
    with the Edit button and formatting again shows the same result, which
    is now also the input. *)
Theorem edit_result_reformat (st : State) (v : JsonValue) :
  parse (inputJson st) = inl v ->
  numbers_survive v = true ->
  exists st',
    play [Format; EditResult; Format] st = Return st'
    /\ outputJson st' = stringify v (indentSize st)
    /\ inputJson st' = outputJson st'
    /\ error st' = None
    /\ activeView st' = output.
Proof.
  intros Hp Hs.
  pose proof (parse_not_blank _ Hp) as Hb.
  destruct (@restyle (inputJson st) v (indentSize st) (indentSize st) Hp Hs)
    as (v' & P & S).
  pose proof (parse_not_blank _ P) as Hb'.
  assert (T : truthy (stringify v (indentSize st)) = true).
  { destruct (stringify v (indentSize st)); [discriminate|reflexivity]. }
  cbn [play handle]. unfold handleFormat at 1.
  cbn [inputJson setError indentSize].
  unfold JsonUtils0.validateJson at 1. rewrite Hb, Hp. cbn [negb isValid].
  unfold JsonUtils0.formatJson at 1. rewrite Hp.
  unfold handleEditResult.
  cbn [outputJson setActiveView setOutputJson]. rewrite T.
  unfold handleFormat.
  cbn [inputJson setError indentSize setActiveView setInputJson
         setOutputJson].
  unfold JsonUtils0.validateJson. rewrite Hb', P. cbn [negb isValid].
  unfold JsonUtils0.formatJson. rewrite P.
  eexists. split; [reflexivity|].
  cbn [outputJson inputJson error activeView setActiveView setOutputJson
         setInputJson setError].
  rewrite S. repeat split.
Qed.

Lemma edit_result_reformat_witness :
  exists st',
    play [Format; EditResult; Format]
      (setInputJson Examples.sample_text initial) = Return st'
    /\ outputJson st' = stringify Examples.sample_value 2
    /\ inputJson st' = outputJson st'
    /\ error st' = None
    /\ activeView st' = output.
Proof.
  apply (@edit_result_reformat (setInputJson Examples.sample_text initial)
           Examples.sample_value);
    vm_compute; reflexivity.
Defined.

End Formatter0Props.
(** ** What the tree view shows *)

Section TreeRenderProps.

Import JSON TreeView.

Lemma render_array (lower : jsstring -> jsstring) (term : jsstring)
  (fm : bool) (coll : list nat -> bool) (path : list nat)
  (key : option jsstring) (x : JsonValue) (xs : list JsonValue)
  (isLast : bool) :
  render lower term fm coll path key (JArray (x :: xs)) isLast
  = if fm && negb (hasMatchingDescendant lower key (JArray (x :: xs)) term)
    then []
    else if negb (coll path)
            || (truthy term
                && hasMatchingDescendant lower key (JArray (x :: xs)) term)
         then OpenLine (matchesSearch lower key (JArray (x :: xs)) term
                        && truthy term) key 91
                :: render_items lower term fm coll path 0 (x :: xs)
                ++ [CloseLine 93 (negb isLast)]
         else [ClosedLine (matchesSearch lower key (JArray (x :: xs)) term
                           && truthy term) key 91
                          (meta true (length (x :: xs))) 93 (negb isLast)].
Proof.
  cbn [render].
  destruct (fm && negb _); [reflexivity|].
  destruct (negb (coll path) || _); [|reflexivity].
  f_equal. f_equal. cbn [render_items]. f_equal.
  generalize 1. induction xs as [|y ys IH]; intros i; [reflexivity|].
  cbn [render_items]. f_equal. apply IH.
Qed.

Lemma render_object (lower : jsstring -> jsstring) (term : jsstring)
  (fm : bool) (coll : list nat -> bool) (path : list nat)
  (key : option jsstring) (p : jsstring * JsonValue)
  (ps : list (jsstring * JsonValue)) (isLast : bool) :
  render lower term fm coll path key (JObject (p :: ps)) isLast
  = if fm && negb (hasMatchingDescendant lower key (JObject (p :: ps)) term)
    then []
    else if negb (coll path)
            || (truthy term
                && hasMatchingDescendant lower key (JObject (p :: ps)) term)
         then OpenLine (matchesSearch lower key (JObject (p :: ps)) term
                        && truthy term) key 123
                :: render_props lower term fm coll path 0 (p :: ps)
                ++ [CloseLine 125 (negb isLast)]
         else [ClosedLine (matchesSearch lower key (JObject (p :: ps)) term
                           && truthy term) key 123
                          (meta false (length (p :: ps))) 125 (negb isLast)].
Proof.
  cbn [render].
  destruct (fm && negb _); [reflexivity|].
  destruct (negb (coll path) || _); [|reflexivity].
  destruct p as [k x].
  f_equal. f_equal. cbn [render_props]. f_equal.
  generalize 1. induction ps as [|[k' y] ys IH]; intros i; [reflexivity|].
  cbn [render_props]. f_equal. apply IH.
Qed.

Lemma hasMatchingDescendant_nil (lower : jsstring -> jsstring)
  (key : option jsstring) (v : JsonValue) :
  hasMatchingDescendant lower key v [] = true.
Proof. reflexivity. Qed.

(** With a search term and the Filter box ticked, what is collapsed plays
    no part. *)
Lemma render_filtered_open (lower : jsstring -> jsstring)
  (term : jsstring) (coll coll' : list nat -> bool) (v : JsonValue)
  (path : list nat) (key : option jsstring) (isLast : bool) :
  truthy term = true ->
  render lower term true coll path key v isLast
  = render lower term true coll' path key v isLast.
Proof.
  intros Ht. revert path key isLast.
  induction v as [ |b|x|s|items IH|props IH] using JsonValue_induction;
    intros path key isLast; try reflexivity.
  - destruct items as [|x xs]; [reflexivity|].
    rewrite !render_array, Ht. cbn [andb].
    destruct (hasMatchingDescendant lower key (JArray (x :: xs)) term);
      [|reflexivity].
    cbn [negb]. rewrite !orb_true_r.
    f_equal. f_equal. generalize 0.
    induction IH as [|y ys Hy _ IHys]; intros i; [reflexivity|].
    cbn [render_items]. rewrite Hy, IHys. reflexivity.
  - destruct props as [|p ps]; [reflexivity|].
    rewrite !render_object, Ht. cbn [andb].
    destruct (hasMatchingDescendant lower key (JObject (p :: ps)) term);
      [|reflexivity].
    cbn [negb]. rewrite !orb_true_r.
    f_equal. f_equal. generalize 0.
    induction IH as [|[k y] ys Hy _ IHys]; intros i; [reflexivity|].
    cbn [render_props]. cbn [snd] in Hy. rewrite Hy, IHys. reflexivity.
Qed.

(** X17.  The Filter box and the collapse arrows against the search box.
    Without a search term the Filter box changes nothing: the tree shows the
    same lines whether it is ticked or not.  With a search term and the box
    ticked, what is collapsed plays no part: every array or object on
    display has a match in it and is shown open, so two trees that differ
    only in their collapse flags show the same lines. *)
Theorem filter_and_collapse (lower : jsstring -> jsstring)
  (term : jsstring) (coll coll' : list nat -> bool) (data : JsonValue) :
  render lower [] true coll [] None data true
  = render lower [] false coll [] None data true
  /\ (truthy term = true ->
      render lower term true coll [] None data true
      = render lower term true coll' [] None data true).
Proof.
  split; [reflexivity|]. apply render_filtered_open.
Qed.

Lemma filter_and_collapse_witness :
  render lower_ascii (js "al") true mounted [] None Examples.users_doc true
  = render lower_ascii (js "al") true (fun _ => true) [] None
           Examples.users_doc true.
Proof.
  apply (proj2 (@filter_and_collapse lower_ascii (js "al") mounted
                  (fun _ => true) Examples.users_doc)).
  reflexivity.
Defined.

(** *** Matches below a node *)

Lemma recurse_array (lower : jsstring -> jsstring) (term : jsstring)
  (items : list JsonValue) (x : JsonValue) :
  In x items -> recurse lower term x = true ->
  recurse lower term (JArray items) = true.
Proof.
  intros Hin Hx. cbn [recurse]. generalize 0%N.
  induction items as [|y ys IH]; intros i; [contradiction|].
  destruct Hin as [->|Hin].
  - rewrite Hx, orb_true_r. reflexivity.
  - rewrite (IH Hin). apply orb_true_r.
Qed.

Lemma recurse_object (lower : jsstring -> jsstring) (term : jsstring)
  (props : list (jsstring * JsonValue)) (k : jsstring) (x : JsonValue) :
  In (k, x) props ->
  includes (lower k) term || recurse lower term x = true ->
  recurse lower term (JObject props) = true.
Proof.
  intros Hin Hx. cbn [recurse].
  induction props as [|[k' y] ps IH]; [contradiction|].
  destruct Hin as [E|Hin].
  - injection E as -> ->. rewrite Hx. reflexivity.
  - rewrite (IH Hin). apply orb_true_r.
Qed.

(** A node with a match in it or below it: the key matches, or the search
    inside the value finds something. *)
Lemma found_below (lower : jsstring -> jsstring) (term : jsstring)
  (key : option jsstring) (x : JsonValue) :
  truthy term = true ->
  hasMatchingDescendant lower key x term = true ->
  match key with Some k => includes (lower k) term | None => false end
  || recurse lower term x = true.
Proof.
  intros Ht. unfold hasMatchingDescendant, matchesSearch. rewrite Ht.
  cbn [negb].
  destruct (match key with Some k => includes (lower k) term | None => false end);
    [reflexivity|].
  destruct x; cbn [isLeaf isPrimitive orb recurse]; auto; discriminate.
Qed.

Lemma indexed_in (k : jsstring) (v : JsonValue) (items : list JsonValue)
  (i : N) :
  In (k, v) (indexed i items) -> In v items.
Proof.
  revert i. induction items as [|y ys IH]; intros i; [contradiction|].
  cbn [indexed]. intros [E|H]; [injection E as _ ->; left; reflexivity|].
  right. eapply IH, H.
Qed.

Lemma childProps_in (isArr : bool) (d : nat)
  (kvs : list (jsstring * JsonValue)) (c : NodeProps) :
  In c (childProps isArr d kvs) ->
  exists k, In (k, value c) kvs
            /\ keyName c = (if isArr then None else Some k).
Proof.
  induction kvs as [|[k v] t IH]; [contradiction|].
  cbn [childProps]. intros [<-|H].
  - exists k. split; [left; reflexivity|reflexivity].
  - destruct (IH H) as (k' & Hin & Hk). exists k'. split; [right|]; assumption.
Qed.

Lemma child_found (lower : jsstring -> jsstring) (term : jsstring)
  (p c : NodeProps) :
  truthy term = true ->
  In c (children p) ->
  hasMatchingDescendant lower (keyName c) (value c) term = true ->
  hasMatchingDescendant lower (keyName p) (value p) term = true.
Proof.
  intros Ht Hin Hc. unfold children in Hin.
  apply childProps_in in Hin. destruct Hin as (k & Hin & Hk).
  pose proof (@found_below lower term (keyName c) (value c) Ht Hc) as B. rewrite Hk in B.
  unfold hasMatchingDescendant. rewrite Ht. cbn [negb].
  destruct (value p) as [ |b|x|s|items|props] eqn:E;
    cbn [entries isArray isLeaf] in *; try contradiction.
  - apply indexed_in in Hin. cbn [orb] in B.
    rewrite (@recurse_array lower term items (value c) Hin B). apply orb_true_r.
  - rewrite (@recurse_object lower term props k (value c) Hin B). apply orb_true_r.
Qed.

(** *** The lines of a child are lines of its open parent *)

Lemma indexed_nil (i : N) (items : list JsonValue) :
  match indexed i items with [] => true | _ => false end
  = match items with [] => true | _ => false end.
Proof. destruct items; reflexivity. Qed.

Lemma items_lines (lower : jsstring -> jsstring) (term : jsstring)
  (fm : bool) (coll : list nat -> bool) (base : list nat) (d : nat)
  (items : list JsonValue) (n : N) (j i : nat) (c : NodeProps) :
  nth_error (childProps true d (indexed n items)) i = Some c ->
  incl (render lower term fm coll (base ++ [j + i]) (keyName c) (value c)
               (isLast c))
       (render_items lower term fm coll base j items).
Proof.
  revert n j i. induction items as [|x xs IH]; intros n j i.
  - destruct i; discriminate.
  - cbn [indexed childProps render_items]. destruct i as [|i].
    + cbn [nth_error]. intros E. injection E as <-.
      cbn [keyName value isLast]. rewrite indexed_nil, Nat.add_0_r.
      apply incl_appl, incl_refl.
    + cbn [nth_error]. intros E. apply incl_appr.
      replace (j + S i) with (S j + i) by lia.
      eapply IH, E.
Qed.

Lemma props_lines (lower : jsstring -> jsstring) (term : jsstring)
  (fm : bool) (coll : list nat -> bool) (base : list nat) (d : nat)
  (props : list (jsstring * JsonValue)) (j i : nat) (c : NodeProps) :
  nth_error (childProps false d props) i = Some c ->
  incl (render lower term fm coll (base ++ [j + i]) (keyName c) (value c)
               (isLast c))
       (render_props lower term fm coll base j props).
Proof.
  revert j i. induction props as [|[k x] ps IH]; intros j i.
  - destruct i; discriminate.
  - cbn [childProps render_props]. destruct i as [|i].
    + cbn [nth_error]. intros E. injection E as <-.
      cbn [keyName value isLast]. rewrite Nat.add_0_r.
      apply incl_appl, incl_refl.
    + cbn [nth_error]. intros E. apply incl_appr.
      replace (j + S i) with (S j + i) by lia.
      eapply IH, E.
Qed.

Lemma child_lines (lower : jsstring -> jsstring) (term : jsstring)
  (fm : bool) (coll : list nat -> bool) (base : list nat)
  (q c : NodeProps) (i : nat) :
  truthy term = true ->
  hasMatchingDescendant lower (keyName q) (value q) term = true ->
  nth_error (children q) i = Some c ->
  incl (render lower term fm coll (base ++ [i]) (keyName c) (value c)
               (isLast c))
       (render lower term fm coll base (keyName q) (value q) (isLast q)).
Proof.
  intros Ht Hq Hc. unfold children in Hc.
  destruct (value q) as [ |b|x|s|items|props] eqn:E;
    cbn [entries isArray] in Hc; try (destruct i; discriminate).
  - destruct items as [|x xs]; [destruct i; discriminate|].
    rewrite render_array, Hq, Ht. cbn [negb andb]. rewrite andb_false_r.
    rewrite orb_true_r.
    apply incl_tl, incl_appl.
    apply (@items_lines lower term fm coll base (depth q) (x :: xs) 0%N 0 i c).
    exact Hc.
  - destruct props as [|p ps]; [destruct i; discriminate|].
    rewrite render_object, Hq, Ht. cbn [negb andb]. rewrite andb_false_r.
    rewrite orb_true_r.
    apply incl_tl, incl_appl.
    apply (@props_lines lower term fm coll base (depth q) (p :: ps) 0 i c).
    exact Hc.
Qed.

Lemma descendant_lines (lower : jsstring -> jsstring) (term : jsstring)
  (fm : bool) (coll : list nat -> bool) (path base : list nat)
  (q p : NodeProps) :
  truthy term = true ->
  nodeAt q path = Some p ->
  hasMatchingDescendant lower (keyName p) (value p) term = true ->
  hasMatchingDescendant lower (keyName q) (value q) term = true
  /\ incl (render lower term fm coll (base ++ path) (keyName p) (value p)
                  (isLast p))
          (render lower term fm coll base (keyName q) (value q) (isLast q)).
Proof.
  intros Ht. revert base q.
  induction path as [|i more IH]; intros base q Hn Hp.
  - injection Hn as <-. rewrite app_nil_r. split; [exact Hp|apply incl_refl].
  - cbn [nodeAt] in Hn.
    destruct (nth_error (children q) i) as [c|] eqn:Ec; [|discriminate].
    destruct (IH (base ++ [i]) c Hn Hp) as [Hc Hincl].
    rewrite <- app_assoc in Hincl. cbn [app] in Hincl.
    assert (Hq : hasMatchingDescendant lower (keyName q) (value q) term = true).
    { eapply child_found; [exact Ht| |exact Hc].
      eapply nth_error_In, Ec. }
    split; [exact Hq|].
    eapply incl_tran; [exact Hincl|].
    apply child_lines; assumption.
Qed.

Lemma render_found (lower : jsstring -> jsstring) (term : jsstring)
  (fm : bool) (coll : list nat -> bool) (path : list nat)
  (key : option jsstring) (v : JsonValue) (isLast : bool) :
  hasMatchingDescendant lower key v term = true ->
  render lower term fm coll path key v isLast <> [].
Proof.
  intros H.
  destruct v as [ |b|x|s|items|props].
  - cbn [render]. rewrite H, andb_false_r. discriminate.
  - cbn [render]. rewrite H, andb_false_r. discriminate.
  - cbn [render]. rewrite H, andb_false_r. discriminate.
  - cbn [render]. rewrite H, andb_false_r. discriminate.
  - destruct items as [|x xs].
    + cbn [render]. rewrite H, andb_false_r. discriminate.
    + rewrite render_array, H, andb_false_r.
      destruct (negb (coll path) || _); discriminate.
  - destruct props as [|p ps].
    + cbn [render]. rewrite H, andb_false_r. discriminate.
    + rewrite render_object, H, andb_false_r.
      destruct (negb (coll path) || _); discriminate.
Qed.

(** X18.  A search brings every match on display.  With a search term, a
    node of the document that matches, or has a match below it, is shown,
    with or without the Filter box and whatever is collapsed: each of its
    ancestors has a match below it too, so none is filtered out and all are
    shown open, and the lines of the node are among the lines of the
    tree. *)
Theorem search_reveals_matches (lower : jsstring -> jsstring)
  (term : jsstring) (fm : bool) (coll : list nat -> bool)
  (data : JsonValue) (path : list nat) (p : NodeProps) :
  truthy term = true ->
  nodeAt (rootProps data) path = Some p ->
  hasMatchingDescendant lower (keyName p) (value p) term = true ->
  let lines :=
    render lower term fm coll path (keyName p) (value p) (isLast p) in
  lines <> []
  /\ incl lines (render lower term fm coll [] None data true).
Proof.
  intros Ht Hn Hp lines. split.
  - apply render_found, Hp.
  - apply (@descendant_lines lower term fm coll path [] (rootProps data) p
             Ht Hn Hp).
Qed.

Lemma search_reveals_matches_witness :
  let p := {| keyName := Some (js "name"); value := JString (js "Al");
              isLast := true; depth := 3 |} in
  let lines :=
    render lower_ascii (js "al") false (fun _ => true) [0; 0; 0] (keyName p)
           (value p) (isLast p) in
  lines <> []
  /\ incl lines
          (render lower_ascii (js "al") false (fun _ => true) [] None
                  Examples.users_doc true).
Proof.
  cbv zeta.
  apply (@search_reveals_matches lower_ascii (js "al") false (fun _ => true)
           Examples.users_doc [0; 0; 0]
           {| keyName := Some (js "name"); value := JString (js "Al");
              isLast := true; depth := 3 |});
    vm_compute; reflexivity.
Defined.

Lemma value_lines_match (lower : jsstring -> jsstring)
  (term : jsstring) (coll : list nat -> bool) (data : JsonValue)
  (h : bool) (k : option jsstring) (cls disp : jsstring) (comma : bool)
  (path : list nat) (key : option jsstring) (isLast : bool) :
  truthy term = true ->
  In (ValueLine h k cls disp comma)
     (render lower term true coll path key data isLast) ->
  h = true.
Proof.
  intros Ht. revert path key isLast.
  induction data as [ |b|x|s|items IH|props IH] using JsonValue_induction;
    intros path key isLast.
  1-4: cbn [render]; unfold hasMatchingDescendant; rewrite Ht;
    cbn [negb isLeaf andb];
    destruct (matchesSearch lower key _ term); cbn [negb andb In];
    intros H; [destruct H as [E|F]; [|contradiction]|contradiction];
    apply (f_equal (fun l => match l with
                             | ValueLine h' _ _ _ _ => h'
                             | _ => true
                             end)) in E;
    rewrite <- E; reflexivity.
  - destruct items as [|x xs].
    { cbn [render]. destruct (true && negb _); cbn [In]; intros H;
        [contradiction|destruct H as [E|F]; [discriminate|contradiction]]. }
    rewrite render_array.
    destruct (true && negb _); [intros H; contradiction H|].
    destruct (negb (coll path) || _);
      [|intros H; destruct H as [E|F]; [discriminate|contradiction F]].
    intros H. destruct H as [E|H]; [discriminate|]. apply in_app_or in H.
    destruct H as [H|H];
      [|destruct H as [E|F]; [discriminate|contradiction F]].
    revert H. generalize 0.
    induction IH as [|y ys Hy _ IHys]; intros i; [intros H; contradiction H|].
    cbn [render_items]. intros H. apply in_app_or in H.
    destruct H as [H|H]; [eapply Hy, H|eapply IHys, H].
  - destruct props as [|p ps].
    { cbn [render]. destruct (true && negb _); cbn [In]; intros H;
        [contradiction|destruct H as [E|F]; [discriminate|contradiction]]. }
    rewrite render_object.
    destruct (true && negb _); [intros H; contradiction H|].
    destruct (negb (coll path) || _);
      [|intros H; destruct H as [E|F]; [discriminate|contradiction F]].
    intros H. destruct H as [E|H]; [discriminate|]. apply in_app_or in H.
    destruct H as [H|H];
      [|destruct H as [E|F]; [discriminate|contradiction F]].
    revert H. generalize 0.
    induction IH as [|[k' y] ys Hy _ IHys]; intros i;
      [intros H; contradiction H|].
    cbn [render_props]. intros H. apply in_app_or in H. cbn [snd] in Hy.
    destruct H as [H|H]; [eapply Hy, H|eapply IHys, H].
Qed.

(** X19.  With a search term and the Filter box ticked, every line for a
    null or a primitive value on display is a match, and is highlighted. *)
Theorem filtered_values_match (lower : jsstring -> jsstring)
  (term : jsstring) (coll : list nat -> bool) (data : JsonValue)
  (h : bool) (k : option jsstring) (cls disp : jsstring) (comma : bool) :
  truthy term = true ->
  In (ValueLine h k cls disp comma)
     (render lower term true coll [] None data true) ->
  h = true.
Proof. apply value_lines_match. Qed.

Lemma filtered_values_match_witness :
  exists h,
    In (ValueLine h (Some (js "name")) (js "jtv-string") (jsq "`Al`") false)
       (render lower_ascii (js "al") true mounted [] None Examples.users_doc
               true)
    /\ h = true.
Proof.
  assert (H : In (ValueLine true (Some (js "name")) (js "jtv-string")
                    (jsq "`Al`") false)
                 (render lower_ascii (js "al") true mounted [] None
                         Examples.users_doc true))
    by (vm_compute; auto 10).
  exists true. split; [exact H|].
  apply (@filtered_values_match lower_ascii (js "al") mounted
           Examples.users_doc true (Some (js "name")) (js "jtv-string")
           (jsq "`Al`") false); [reflexivity|exact H].
Defined.

End TreeRenderProps.
(** ** What the regular expressions of the sources match *)

Section MatcherProps.

Import RegExp Matching.

Lemma mstate_eta (st : mstate) :
  MState (before st) (rest st) (caps st) = st.
Proof. destruct st; reflexivity. Qed.

(** Whatever the continuation is handed has been reached by consuming a
    prefix of the input; a pattern without groups leaves the captures as
    they are. *)
Lemma run_sound (r : regex) :
  forall st k res,
    run r st k = Some res ->
    exists w rest' caps',
      rest st = w ++ rest'
      /\ (group_free r = true -> caps' = caps st)
      /\ k (MState (rev w ++ before st) rest' caps') = Some res.
Proof.
  induction r as [ |p|r1 IH1 r2 IH2|r1 IH1 r2 IH2|r1 IH1|r1 IH1|i r1 IH1| | | ];
    intros st k res H; cbn [run] in H; cbn [group_free].
  - exists [], (rest st), (caps st). split; [reflexivity|]. split; [auto|].
    cbn [rev app]. rewrite mstate_eta. exact H.
  - destruct (rest st) as [|c t] eqn:E; [discriminate|].
    destruct (p c); [|discriminate].
    exists [c], t, (caps st). split; [reflexivity|]. split; [auto|exact H].
  - apply IH1 in H. destruct H as (w1 & rest1 & caps1 & E1 & G1 & H).
    apply IH2 in H. cbn [rest before caps] in H.
    destruct H as (w2 & rest2 & caps2 & E2 & G2 & H).
    exists (w1 ++ w2), rest2, caps2. split; [|split].
    + rewrite E1, E2, app_assoc. reflexivity.
    + intros G. apply andb_true_iff in G. destruct G as [Ga Gb].
      rewrite (G2 Gb). apply G1, Ga.
    + rewrite rev_app_distr, <- app_assoc. exact H.
  - destruct (run r1 st k) as [res1|] eqn:E1.
    + injection H as <-. apply IH1 in E1.
      destruct E1 as (w & rest' & caps' & E & G & H).
      exists w, rest', caps'. split; [exact E|]. split; [|exact H].
      intros G'. apply andb_true_iff in G'. apply G, G'.
    + apply IH2 in H.
      destruct H as (w & rest' & caps' & E & G & H).
      exists w, rest', caps'. split; [exact E|]. split; [|exact H].
      intros G'. apply andb_true_iff in G'. apply G, G'.
  - remember (length (rest st)) as n eqn:En in H. clear En. revert st H.
    induction n as [|n IHn]; intros st H.
    + exists [], (rest st), (caps st). split; [reflexivity|]. split; [auto|].
      cbn [rev app]. rewrite mstate_eta. exact H.
    + match type of H with
      | match ?X with _ => _ end = _ => destruct X as [res1|] eqn:E1
      end.
      * injection H as <-. apply IH1 in E1.
        destruct E1 as (w1 & rest1 & caps1 & E1 & G1 & H).
        cbn [rest] in H.
        destruct (Nat.ltb (length rest1) (length (rest st))); [|discriminate].
        apply IHn in H. cbn [rest before caps] in H.
        destruct H as (w2 & rest2 & caps2 & E2 & G2 & H).
        exists (w1 ++ w2), rest2, caps2. split; [|split].
        -- rewrite E1, E2, app_assoc. reflexivity.
        -- intros G. rewrite (G2 G). apply G1, G.
        -- rewrite rev_app_distr, <- app_assoc. exact H.
      * exists [], (rest st), (caps st). split; [reflexivity|].
        split; [auto|]. cbn [rev app]. rewrite mstate_eta. exact H.
  - remember (length (rest st)) as n eqn:En in H. clear En. revert st H.
    induction n as [|n IHn]; intros st H.
    + exists [], (rest st), (caps st). split; [reflexivity|]. split; [auto|].
      cbn [rev app]. rewrite mstate_eta. exact H.
    + destruct (k st) as [res1|] eqn:E1.
      * injection H as <-.
        exists [], (rest st), (caps st). split; [reflexivity|].
        split; [auto|]. cbn [rev app]. rewrite mstate_eta. exact E1.
      * apply IH1 in H.
        destruct H as (w1 & rest1 & caps1 & E1' & G1 & H).
        cbn [rest] in H.
        destruct (Nat.ltb (length rest1) (length (rest st))); [|discriminate].
        apply IHn in H. cbn [rest before caps] in H.
        destruct H as (w2 & rest2 & caps2 & E2 & G2 & H).
        exists (w1 ++ w2), rest2, caps2. split; [|split].
        -- rewrite E1', E2, app_assoc. reflexivity.
        -- intros G. rewrite (G2 G). apply G1, G.
        -- rewrite rev_app_distr, <- app_assoc. exact H.
  - apply IH1 in H. destruct H as (w & rest' & caps' & E & _ & H).
    cbn [before rest caps] in H.
    exists w, rest', ((i, consumed_since st (MState (rev w ++ before st) rest' caps')) :: caps').
    split; [exact E|]. split; [discriminate|exact H].
  - destruct (xorb _ _); [|discriminate].
    exists [], (rest st), (caps st). split; [reflexivity|]. split; [auto|].
    cbn [rev app]. rewrite mstate_eta. exact H.
  - destruct st as [b s c]. cbn [before rest caps] in *.
    destruct b; [|discriminate].
    exists [], s, c. split; [reflexivity|]. split; [auto|exact H].
  - destruct st as [b s c]. cbn [before rest caps] in *.
    destruct s; [|discriminate].
    exists [], [], c. split; [reflexivity|]. split; [auto|exact H].
Qed.

Lemma consumed_since_app (prev w s s' : jsstring)
  (c c' : list (nat * jsstring)) :
  consumed_since (MState prev s c) (MState (rev w ++ prev) s' c') = w.
Proof.
  unfold consumed_since. cbn [before].
  rewrite length_app, length_rev.
  replace (length w + length prev - length prev) with (length (rev w))
    by (rewrite length_rev; lia).
  rewrite firstn_app, Nat.sub_diag, firstn_all. cbn [firstn].
  rewrite app_nil_r. apply rev_involutive.
Qed.

(** A group around a pattern without groups records what the pattern
    consumed. *)
Lemma run_group (i : nat) (r : regex) (st : mstate)
  (k : mstate -> option mstate) (res : mstate) :
  group_free r = true ->
  run (Group i r) st k = Some res ->
  exists w rest',
    rest st = w ++ rest'
    /\ k (MState (rev w ++ before st) rest' ((i, w) :: caps st)) = Some res.
Proof.
  intros G H. cbn [run] in H. apply run_sound in H.
  destruct H as (w & rest' & caps' & E & Gc & H).
  rewrite (Gc G) in H. cbn [before rest caps] in H.
  destruct st as [b s c]. cbn [before rest caps] in *.
  rewrite consumed_since_app in H. eauto.
Qed.

(** A match is a prefix of the text it was tried on. *)
Lemma match_at_prefix (r : regex) (prev s : jsstring) (m : mresult) :
  match_at r prev s = Some m -> exists rest', s = matched m ++ rest'.
Proof.
  unfold match_at.
  destruct (run r (MState prev s []) Some) as [st'|] eqn:E; [|discriminate].
  intros H. injection H as <-. cbn [matched].
  apply run_sound in E. destruct E as (w & rest' & caps' & E & _ & H).
  injection H as <-. cbn [before rest] in *.
  rewrite consumed_since_app. eauto.
Qed.

Lemma match_at_group_free (r : regex) (prev s : jsstring) (m : mresult) :
  group_free r = true ->
  match_at r prev s = Some m -> groups m = [].
Proof.
  unfold match_at. intros G.
  destruct (run r (MState prev s []) Some) as [st'|] eqn:E; [|discriminate].
  intros H. injection H as <-. cbn [groups].
  apply run_sound in E. destruct E as (w & rest' & caps' & E & Gc & H).
  injection H as <-. cbn [caps]. apply Gc, G.
Qed.

(** *** Replacing all matches *)

Section Scan.

Variable R : jsstring -> jsstring -> Prop.
Hypothesis R_nil : R [] [].
Hypothesis R_cons : forall c a b, R a b -> R (c :: a) (c :: b).
Hypothesis R_app : forall a a' b b', R a b -> R a' b' -> R (a ++ a') (b ++ b').

Variable Q : jsstring -> Prop.
Hypothesis Q_tail : forall c t, Q (c :: t) -> Q t.

Variable r : regex.
Variable f : mresult -> jsstring.
Hypothesis f_ok :
  forall prev s m, Q s -> match_at r prev s = Some m -> R (f m) (matched m).

(** If every replacement is related to the text it replaces, the result of
    replacing all matches is related to the whole text. *)
Lemma scan_related (s : jsstring) :
  forall prev k, Q s -> R (scan r f prev k s) (skipn k s).
Proof.
  induction s as [|c t IH]; intros prev k HQ.
  - destruct k as [|k]; cbn [scan skipn]; [|exact R_nil].
    destruct (match_at r prev []) as [m|] eqn:E; [|exact R_nil].
    pose proof (f_ok _ HQ E) as Hm.
    destruct (match_at_prefix _ _ _ E) as [rest' Er].
    symmetry in Er. apply app_eq_nil in Er. destruct Er as [Er _].
    rewrite Er in Hm. exact Hm.
  - pose proof (Q_tail HQ) as HQt.
    destruct k as [|k]; cbn [scan skipn]; [|apply IH, HQt].
    destruct (match_at r prev (c :: t)) as [m|] eqn:E.
    + pose proof (f_ok _ HQ E) as Hm.
      destruct (match_at_prefix _ _ _ E) as [rest' Er].
      destruct (matched m) as [|c' w] eqn:Em; cbn [length].
      * change (c :: t) with ([] ++ c :: t). apply R_app; [exact Hm|].
        apply R_cons. apply (IH (c :: prev) 0 HQt).
      * cbn [app] in Er. injection Er as <- ->.
        change (c :: w ++ rest') with ((c :: w) ++ rest').
        apply R_app; [exact Hm|].
        pose proof (IH (c :: prev) (length w) HQt) as Ht.
        rewrite skipn_app, skipn_all, Nat.sub_diag in Ht. exact Ht.
    + apply R_cons. apply (IH (c :: prev) 0 HQt).
Qed.

Lemma replace_all_related (s : jsstring) : Q s -> R (replace_all r f s) s.
Proof. intros HQ. apply (scan_related [] 0 HQ). Qed.

End Scan.

Lemma run_alt (r1 r2 : regex) (st : mstate) (k : mstate -> option mstate) :
  run (Alt r1 r2) st k
  = match run r1 st k with Some res => Some res | None => run r2 st k end.
Proof. reflexivity. Qed.

Lemma run_seq (r1 r2 : regex) (st : mstate) (k : mstate -> option mstate) :
  run (Seq r1 r2) st k = run r1 st (fun st' => run r2 st' k).
Proof. reflexivity. Qed.

Lemma run_chr (p : N -> bool) (st : mstate) (k : mstate -> option mstate) :
  run (Chr p) st k
  = match rest st with
    | c :: t => if p c then k (MState (c :: before st) t (caps st)) else None
    | [] => None
    end.
Proof. reflexivity. Qed.

Lemma run_bos (st : mstate) (k : mstate -> option mstate) :
  run Bos st k = match before st with [] => k st | _ => None end.
Proof. reflexivity. Qed.

Lemma run_eos (st : mstate) (k : mstate -> option mstate) :
  run Eos st k = match rest st with [] => k st | _ => None end.
Proof. reflexivity. Qed.

Lemma run_eps (st : mstate) (k : mstate -> option mstate) :
  run Eps st k = k st.
Proof. reflexivity. Qed.

(** *** Texts with code units taken out *)

Lemma erased_refl (p : N -> bool) (s : jsstring) : erased p s s.
Proof. induction s; constructor; assumption. Qed.

Lemma erased_app (p : N -> bool) (a a' b b' : jsstring) :
  erased p a b -> erased p a' b' -> erased p (a ++ a') (b ++ b').
Proof.
  intros H H'. induction H; cbn [app]; [exact H'| |];
    constructor; assumption.
Qed.

Lemma erased_all (s : jsstring) : erased (fun _ => true) [] s.
Proof. induction s; constructor; auto. Qed.

End MatcherProps.

(** ** The repair passes of [fixJson] *)

Section PassProps.

Import RegExp Matching JsonUtils.

(** A match of one of the two comment patterns is a string literal, which
    is kept, or starts with a slash and is dropped. *)
Lemma comment_match (comment : regex) (prev s : jsstring) (m : mresult) :
  group_free comment = true ->
  match_at (Alt string_literal (Seq (lit "/") comment)) prev s = Some m ->
  keep_string m = matched m
  \/ (keep_string m = [] /\ exists t, s = 47%N :: t).
Proof.
  intros G. unfold match_at. rewrite run_alt.
  destruct (run string_literal (MState prev s []) Some) as [res|] eqn:E1.
  - intros H. injection H as <-. left.
    unfold string_literal in E1. apply run_group in E1; [|reflexivity].
    destruct E1 as (w & rest' & E & H). injection H as <-.
    cbn [before rest caps] in *.
    unfold keep_string, group. cbn [groups caps assoc_nat Nat.eqb matched].
    rewrite consumed_since_app. reflexivity.
  - destruct (run (Seq (lit "/") comment) (MState prev s []) Some)
      as [res|] eqn:E2; [|discriminate].
    intros H. injection H as <-. right. split.
    + apply run_sound in E2. destruct E2 as (w & rest' & caps' & _ & Gc & H).
      injection H as <-. unfold keep_string, group. cbn [groups caps].
      rewrite Gc; [reflexivity|]. cbn [group_free lit]. exact G.
    + rewrite run_seq in E2. unfold lit in E2. rewrite run_chr in E2.
      cbn [rest] in E2. destruct s as [|c t]; [discriminate|].
      destruct (N.eqb_spec (chr "/") c) as [<-|]; [|discriminate].
      exists t. reflexivity.
Qed.

Lemma line_comment_shape :
  line_comment
  = Alt string_literal (Seq (lit "/") (Seq (lit "/") (Star (none_of [10%N])))).
Proof. reflexivity. Qed.

Lemma block_comment_shape :
  block_comment
  = Alt string_literal
      (Seq (lit "/")
           (Seq (lit "*") (Seq (LazyStar anychar) (Seq (lit "*") (lit "/"))))).
Proof. reflexivity. Qed.

(** X20.  The two comment passes of [fixJson] only take text out: what
    [strip_line_comments] and [strip_block_comments] return is the text they
    were given with some code units deleted and the others kept in order,
    and a text without a slash comes back unchanged. *)
Theorem comment_passes_only_delete (s : jsstring) :
  erased (fun _ => true) (strip_line_comments s) s
  /\ erased (fun _ => true) (strip_block_comments s) s
  /\ (~ In 47%N s ->
      strip_line_comments s = s /\ strip_block_comments s = s).
Proof.
  assert (D : forall comment,
             group_free comment = true ->
             erased (fun _ => true)
               (replace_all (Alt string_literal (Seq (lit "/") comment))
                            keep_string s) s).
  { intros comment G.
    apply (@replace_all_related (erased (fun _ => true))
             (erased_nil _) (fun c a b => @erased_keep _ c a b)
             (@erased_app _) (fun _ => True) (fun _ _ _ => I)); [|exact I].
    intros prev s' m _ Hm.
    destruct (@comment_match comment prev s' m G Hm) as [-> | [-> _]];
      [apply erased_refl|apply erased_all]. }
  assert (K : forall comment,
             group_free comment = true ->
             ~ In 47%N s ->
             replace_all (Alt string_literal (Seq (lit "/") comment))
                         keep_string s = s).
  { intros comment G Hs.
    apply (@replace_all_related (@eq jsstring) eq_refl
             (fun c a b E => f_equal (cons c) E)
             (fun a a' b b' E E' => f_equal2 (@app N) E E')
             (fun t => ~ In 47%N t)
             (fun c t H Hin => H (or_intror Hin))); [|exact Hs].
    intros prev s' m Hs' Hm.
    destruct (@comment_match comment prev s' m G Hm) as [E | [_ [t ->]]]; [exact E|].
    contradiction Hs'. left. reflexivity. }
  unfold strip_line_comments, strip_block_comments.
  rewrite line_comment_shape, block_comment_shape.
  split; [apply D; reflexivity|].
  split; [apply D; reflexivity|].
  intros Hs. split; apply K; auto.
Qed.

Lemma comment_passes_only_delete_witness :
  strip_line_comments (jsq "{`a`: [1, 2] }") = jsq "{`a`: [1, 2] }"
  /\ strip_block_comments (jsq "{`a`: [1, 2] }") = jsq "{`a`: [1, 2] }".
Proof.
  apply (proj2 (proj2 (@comment_passes_only_delete (jsq "{`a`: [1, 2] }")))).
  vm_compute. intuition discriminate.
Defined.

(** A match of the trailing comma pattern is a comma followed by what the
    group took. *)
Lemma trailing_comma_match (prev s : jsstring) (m : mresult) :
  match_at trailing_comma prev s = Some m ->
  matched m = 44%N :: dollar m 1.
Proof.
  unfold match_at, trailing_comma.
  destruct (run _ (MState prev s []) Some) as [res|] eqn:E; [|discriminate].
  intros H. injection H as <-.
  rewrite run_seq in E. unfold code in E at 1. rewrite run_chr in E.
  cbn [rest before caps] in E. destruct s as [|c t]; [discriminate|].
  destruct (N.eqb_spec 44 c) as [<-|]; [|discriminate].
  apply run_group in E; [|reflexivity].
  destruct E as (w & rest' & E & H). injection H as <-.
  cbn [before rest caps] in *. subst t.
  unfold dollar, group. cbn [groups caps assoc_nat Nat.eqb matched].
  change (rev w ++ 44%N :: prev) with (rev w ++ [44%N] ++ prev).
  rewrite app_assoc.
  change (rev w ++ [44%N]) with (rev (44%N :: w)).
  apply consumed_since_app.
Qed.

(** X21.  The trailing comma pass of [fixJson] takes out commas and nothing
    else: what [strip_trailing_commas] returns is the text it was given with
    some commas deleted. *)
Theorem trailing_commas_only_commas (s : jsstring) :
  erased (N.eqb 44) (strip_trailing_commas s) s.
Proof.
  unfold strip_trailing_commas.
  apply (@replace_all_related (erased (N.eqb 44))
           (erased_nil _) (fun c a b => @erased_keep _ c a b)
           (@erased_app _) (fun _ => True) (fun _ _ _ => I)); [|exact I].
  intros prev s' m _ Hm. rewrite (@trailing_comma_match prev s' m Hm).
  apply erased_drop; [reflexivity|apply erased_refl].
Qed.

(** A match of the key pattern is made of its three groups. *)
Lemma bare_key_match (prev s : jsstring) (m : mresult) :
  match_at bare_key prev s = Some m ->
  matched m = dollar m 1 ++ dollar m 2 ++ dollar m 3.
Proof.
  unfold match_at.
  destruct (run _ (MState prev s []) Some) as [res|] eqn:E; [|discriminate].
  intros H. injection H as <-.
  unfold bare_key, cat in E. rewrite run_seq in E.
  apply run_group in E; [|reflexivity].
  destruct E as (w1 & rest1 & E1 & E). rewrite run_seq in E.
  apply run_group in E; [|reflexivity].
  destruct E as (w2 & rest2 & E2 & E).
  apply run_group in E; [|reflexivity].
  destruct E as (w3 & rest3 & E3 & H). injection H as <-.
  cbn [before rest caps] in *.
  unfold dollar, group. cbn [groups caps assoc_nat Nat.eqb matched].
  rewrite !app_assoc, <- !rev_app_distr, <- app_assoc.
  apply consumed_since_app.
Qed.

(** X22.  The key pass of [fixJson] puts in quotation marks and nothing
    else: the text given to [quote_keys] is what it returns with some
    quotation marks deleted. *)
Theorem quote_keys_only_quotes (s : jsstring) :
  erased (N.eqb 34) s (quote_keys s).
Proof.
  unfold quote_keys.
  apply (@replace_all_related (fun a b => erased (N.eqb 34) b a)
           (erased_nil _) (fun c a b => @erased_keep _ c b a)
           (fun a a' b b' => @erased_app _ b b' a a')
           (fun _ => True) (fun _ _ _ => I)); [|exact I].
  intros prev s' m _ Hm. rewrite (@bare_key_match prev s' m Hm).
  unfold quote_key.
  apply erased_app; [apply erased_refl|].
  apply erased_drop; [reflexivity|].
  apply erased_app; [apply erased_refl|].
  apply erased_drop; [reflexivity|apply erased_refl].
Qed.

End PassProps.
(** ** Paths: how [evaluatePath] reads a path with a leading [$] *)

Section PathSyntaxProps.

Import JSON RegExp Matching JsonUtils PathEval.

Lemma span_all {A} (p : A -> bool) (l r : list A) :
  forallb p l = true ->
  match r with [] => True | c :: _ => p c = false end ->
  takeWhile p (l ++ r) = l /\ dropWhile p (l ++ r) = r.
Proof.
  intros Hl Hr. induction l as [|x l IH]; cbn [app takeWhile dropWhile].
  - destruct r as [|c r]; [auto|]. cbn [takeWhile dropWhile]. rewrite Hr. auto.
  - cbn [forallb] in Hl. apply andb_true_iff in Hl. destruct Hl as [Hx Hl].
    rewrite Hx. destruct (IH Hl) as [-> ->]. auto.
Qed.

(** A starred class is greedy: it takes all the code units of the class
    there are, when what follows the star accepts that. *)
Lemma star_chr (p : N -> bool) (k : mstate -> option mstate) (res : mstate) :
  forall st,
    k (MState (rev (takeWhile p (rest st)) ++ before st)
              (dropWhile p (rest st)) (caps st)) = Some res ->
    run (Star (Chr p)) st k = Some res.
Proof.
  intros st. destruct st as [b s c]. cbn [rest before caps]. revert b.
  induction s as [|x t IH]; intros b H.
  - exact H.
  - cbn [run length rest]. cbn [takeWhile dropWhile] in H.
    destruct (p x) eqn:Px.
    + cbn [rest length before caps].
      replace (Nat.ltb (length t) (S (length t))) with true
        by (symmetry; apply Nat.ltb_lt; lia).
      cbn [rev] in H. rewrite <- app_assoc in H. cbn [app] in H.
      pose proof (IH (x :: b) H) as R. cbn [run rest] in R. rewrite R.
      reflexivity.
    + exact H.
Qed.

Lemma plus_chr (p : N -> bool) (k : mstate -> option mstate) (res : mstate)
  (b s r : jsstring) (c : list (nat * jsstring)) :
  nonempty s = true -> forallb p s = true ->
  match r with [] => True | x :: _ => p x = false end ->
  k (MState (rev s ++ b) r c) = Some res ->
  run (Plus (Chr p)) (MState b (s ++ r) c) k = Some res.
Proof.
  intros Hn Hs Hr H. destruct s as [|x t]; [discriminate|].
  cbn [forallb] in Hs. apply andb_true_iff in Hs. destruct Hs as [Hx Ht].
  unfold Plus. rewrite run_seq, run_chr. cbn [rest app before caps].
  rewrite Hx. apply star_chr. cbn [rest before caps].
  destruct (span_all p t r Ht Hr) as [-> ->].
  cbn [rev] in H. rewrite <- app_assoc in H. exact H.
Qed.

Lemma plus_chr_fails (p : N -> bool) (k : mstate -> option mstate)
  (b t : jsstring) (x : N) (c : list (nat * jsstring)) :
  p x = false -> run (Plus (Chr p)) (MState b (x :: t) c) k = None.
Proof.
  intros Hx. unfold Plus. rewrite run_seq, run_chr. cbn [rest].
  rewrite Hx. reflexivity.
Qed.

Lemma run_group_eq (i : nat) (r : regex) (st : mstate)
  (k : mstate -> option mstate) :
  run (Group i r) st k
  = run r st (fun st' =>
      k (MState (before st') (rest st')
                ((i, consumed_since st st') :: caps st'))).
Proof. reflexivity. Qed.

(** *** The three kinds of parts *)

Lemma match_name (prev n r : jsstring) :
  segment_ok (Name n) = true ->
  match r with [] => True | c :: _ => c = 46%N \/ c = 91%N end ->
  match_at part_pattern prev (n ++ r) = Some (MResult n [(1, n)]).
Proof.
  intros Hok Hr. cbn [segment_ok] in Hok. apply andb_true_iff in Hok.
  destruct Hok as [Hn Hs].
  unfold match_at, part_pattern. rewrite run_group_eq, run_alt.
  unfold none_of at 1.
  erewrite plus_chr; [| exact Hn | exact Hs | | reflexivity].
  - cbn [before rest caps]. rewrite !consumed_since_app. reflexivity.
  - destruct r as [|c r]; [exact I|].
    destruct Hr as [-> | ->]; reflexivity.
Qed.

Lemma index_rev (d prev : jsstring) :
  93%N :: rev d ++ 91%N :: prev = rev (91%N :: d ++ [93%N]) ++ prev.
Proof.
  cbn [rev]. rewrite rev_app_distr. cbn [rev app].
  rewrite <- app_assoc. reflexivity.
Qed.

Lemma match_index (prev d r : jsstring) :
  segment_ok (Index d) = true ->
  match_at part_pattern prev (91%N :: d ++ 93%N :: r)
  = Some (MResult (91%N :: d ++ [93%N]) [(1, 91%N :: d ++ [93%N])]).
Proof.
  intros Hok. cbn [segment_ok] in Hok. apply andb_true_iff in Hok.
  destruct Hok as [Hn Hs].
  unfold match_at, part_pattern. rewrite run_group_eq, run_alt.
  unfold none_of at 1. rewrite plus_chr_fails by reflexivity.
  rewrite run_alt. unfold cat at 1. rewrite run_seq.
  unfold code at 1. rewrite run_chr. cbn [rest before caps].
  change (N.eqb 91 91) with true. cbv iota.
  rewrite run_seq.
  erewrite plus_chr; [| exact Hn | exact Hs | reflexivity | ].
  2:{ unfold code. rewrite run_chr. cbn [rest before caps].
      change (N.eqb 93 93) with true. cbv iota. reflexivity. }
  cbn [before rest caps]. rewrite index_rev, !consumed_since_app.
  reflexivity.
Qed.

Lemma quoted_rev (q1 q2 : N) (key prev : jsstring) :
  93%N :: q2 :: rev key ++ q1 :: 91%N :: prev
  = rev (91%N :: q1 :: key ++ [q2; 93%N]) ++ prev.
Proof.
  cbn [rev]. rewrite rev_app_distr. cbn [rev app].
  rewrite <- !app_assoc. reflexivity.
Qed.

Lemma quote_not_digit (q : N) : isQuote q = true -> isDigit q = false.
Proof.
  unfold isQuote, one_of. cbn [existsb]. rewrite orb_false_r.
  intros H. apply orb_true_iff in H.
  destruct H as [H|H]; apply N.eqb_eq in H; subst q; reflexivity.
Qed.

Lemma match_quoted (prev key r : jsstring) (q1 q2 : N) :
  segment_ok (Quoted q1 key q2) = true ->
  match_at part_pattern prev (91%N :: q1 :: key ++ q2 :: 93%N :: r)
  = Some (MResult (91%N :: q1 :: key ++ [q2; 93%N])
                  [(1, 91%N :: q1 :: key ++ [q2; 93%N])]).
Proof.
  intros Hok. cbn [segment_ok] in Hok.
  apply andb_true_iff in Hok. destruct Hok as [Hok Hs].
  apply andb_true_iff in Hok. destruct Hok as [Hok Hn].
  apply andb_true_iff in Hok. destruct Hok as [Hq1 Hq2].
  unfold match_at, part_pattern. rewrite run_group_eq, run_alt.
  unfold none_of at 1. rewrite plus_chr_fails by reflexivity.
  rewrite run_alt. unfold cat at 1. rewrite run_seq.
  unfold code at 1. rewrite run_chr. cbn [rest before caps].
  change (N.eqb 91 91) with true. cbv iota.
  rewrite run_seq.
  rewrite plus_chr_fails by (apply quote_not_digit, Hq1).
  unfold cat. rewrite run_seq. unfold code at 1. rewrite run_chr.
  cbn [rest before caps]. change (N.eqb 91 91) with true. cbv iota.
  rewrite run_seq. unfold any_of at 1. rewrite run_chr.
  cbn [rest before caps]. fold (isQuote q1). rewrite Hq1.
  rewrite run_seq. unfold none_of.
  erewrite plus_chr; [| exact Hn | exact Hs | | ].
  3:{ rewrite run_seq. unfold any_of. rewrite run_chr.
      cbn [rest before caps]. fold (isQuote q2). rewrite Hq2.
      unfold code. rewrite run_chr. cbn [rest before caps].
      change (N.eqb 93 93) with true. cbv iota. reflexivity. }
  2:{ cbn beta. fold (isQuote q2). rewrite Hq2. reflexivity. }
  cbn [before rest caps]. rewrite quoted_rev, !consumed_since_app.
  reflexivity.
Qed.

Lemma match_dot (prev t : jsstring) :
  match_at part_pattern prev (46%N :: t) = None.
Proof. reflexivity. Qed.

Lemma match_end (prev : jsstring) : match_at part_pattern prev [] = None.
Proof. reflexivity. Qed.

(** *** The parts of a path *)

Lemma matches_skip (r : regex) (w s prev : jsstring) :
  matches_from r prev (length w) (w ++ s) = matches_from r (rev w ++ prev) 0 s.
Proof.
  revert prev. induction w as [|x w IH]; intros prev; [reflexivity|].
  cbn [length app matches_from rev]. rewrite IH, <- app_assoc. reflexivity.
Qed.

Lemma stop_head (segments : list Segment) :
  match concat (List.map segment_text segments) with
  | [] => True
  | c :: _ => c = 46%N \/ c = 91%N
  end.
Proof.
  destruct segments as [|[n|d|q1 key q2] more]; cbn; auto.
Qed.

Lemma matches_miss (r : regex) (prev t : jsstring) (c : N) :
  match_at r prev (c :: t) = None ->
  matches_from r prev 0 (c :: t) = matches_from r (c :: prev) 0 t.
Proof. intros H. cbn [matches_from]. rewrite H. reflexivity. Qed.

Lemma matches_token (r : regex) (prev w s : jsstring) (m : mresult) :
  nonempty w = true ->
  match_at r prev (w ++ s) = Some m ->
  matched m = w ->
  matches_from r prev 0 (w ++ s) = w :: matches_from r (rev w ++ prev) 0 s.
Proof.
  intros Hn H Hm. destruct w as [|c t]; [discriminate|].
  cbn [app] in *. cbn [matches_from]. rewrite H, Hm. cbn [length].
  replace (S (length t) - 1) with (length t) by lia.
  rewrite matches_skip. cbn [rev]. rewrite <- app_assoc. reflexivity.
Qed.

Lemma after_name (prev n r : jsstring) (parts : list jsstring) :
  segment_ok (Name n) = true ->
  match r with [] => True | c :: _ => c = 46%N \/ c = 91%N end ->
  (forall prev', matches_from part_pattern prev' 0 r = parts) ->
  matches_from part_pattern prev 0 (n ++ r) = n :: parts.
Proof.
  intros Hok Hr Hparts.
  pose proof (@match_name prev n r Hok Hr) as M.
  rewrite (@matches_token part_pattern prev n r _) with (1 := proj1 (proj1 (andb_true_iff _ _) Hok)) (2 := M) (3 := eq_refl).
  rewrite Hparts. reflexivity.
Qed.

Lemma tokens (segments : list Segment) :
  forallb segment_ok segments = true ->
  forall prev,
    matches_from part_pattern prev 0 (concat (List.map segment_text segments))
    = List.map segment_token segments.
Proof.
  induction segments as [|g more IH]; intros Hok prev.
  - reflexivity.
  - cbn [forallb] in Hok. apply andb_true_iff in Hok.
    destruct Hok as [Hg Hmore]. specialize (IH Hmore).
    cbn [List.map concat].
    destruct g as [n|d|q1 key q2]; cbn [segment_token].
    + cbn [segment_text app]. rewrite matches_miss by apply match_dot.
      apply after_name; [exact Hg|apply stop_head|exact IH].
    + assert (M : match_at part_pattern prev
                    (segment_text (Index d)
                       ++ concat (List.map segment_text more))
                  = Some (MResult (segment_text (Index d))
                                  [(1, segment_text (Index d))])).
      { cbn [segment_text app]. rewrite <- app_assoc. cbn [app].
        apply match_index, Hg. }
      rewrite (@matches_token part_pattern prev (segment_text (Index d)) _ _
                 eq_refl M eq_refl).
      rewrite IH. reflexivity.
    + assert (M : match_at part_pattern prev
                    (segment_text (Quoted q1 key q2)
                       ++ concat (List.map segment_text more))
                  = Some (MResult (segment_text (Quoted q1 key q2))
                                  [(1, segment_text (Quoted q1 key q2))])).
      { cbn [segment_text app]. rewrite <- app_assoc. cbn [app].
        apply match_quoted, Hg. }
      rewrite (@matches_token part_pattern prev
                 (segment_text (Quoted q1 key q2)) _ _ eq_refl M eq_refl).
      rewrite IH. reflexivity.
Qed.

(** *** Reading a part *)

Lemma all_digits_test (d : jsstring) :
  nonempty d = true -> forallb isDigit d = true ->
  test all_digits d = true.
Proof.
  intros Hn Hs. unfold test.
  assert (M : match_at all_digits [] d <> None).
  { unfold match_at, all_digits, cat. rewrite run_seq, run_bos.
    cbn [before]. rewrite run_seq.
    rewrite <- (app_nil_r d) at 1.
    erewrite plus_chr; [discriminate| exact Hn | exact Hs | exact I | ].
    rewrite run_eos. reflexivity. }
  destruct d as [|c t]; [discriminate|].
  cbn [test_from]. destruct (match_at all_digits [] (c :: t));
    [reflexivity|contradiction M; reflexivity].
Qed.

Lemma all_digits_later (s prev : jsstring) (x : N) :
  test_from all_digits (x :: prev) s = false.
Proof.
  revert x prev. induction s as [|c t IH]; intros x prev.
  - reflexivity.
  - cbn [test_from].
    change (match_at all_digits (x :: prev) (c :: t)) with (@None mresult).
    apply IH.
Qed.

Lemma all_digits_quoted (q : N) (s : jsstring) :
  isQuote q = true -> test all_digits (q :: s) = false.
Proof.
  intros Hq. unfold test. cbn [test_from].
  assert (M : match_at all_digits [] (q :: s) = None).
  { unfold match_at, all_digits, cat. rewrite run_seq, run_bos.
    cbn [before]. rewrite run_seq.
    rewrite plus_chr_fails by (apply quote_not_digit, Hq). reflexivity. }
  rewrite M. apply all_digits_later.
Qed.

Lemma end_quote_inside (key prev : jsstring) (x q2 : N) :
  forallb (fun c => negb (isQuote c)) key = true ->
  isQuote q2 = true ->
  scan end_quote (fun _ => []) (x :: prev) 0 (key ++ [q2]) = key.
Proof.
  intros Hs Hq. revert x prev.
  induction key as [|c key IH]; intros x prev.
  - cbn [app scan].
    assert (M : match_at end_quote (x :: prev) [q2]
                = Some (MResult [q2] [])).
    { unfold match_at, end_quote. rewrite run_alt, run_seq, run_bos.
      cbn [before]. rewrite run_seq. unfold any_of. rewrite run_chr.
      cbn [rest before caps]. fold (isQuote q2). rewrite Hq.
      rewrite run_eos. cbn [rest].
      change (q2 :: x :: prev) with (rev [q2] ++ x :: prev).
      rewrite consumed_since_app. reflexivity. }
    rewrite M. reflexivity.
  - cbn [forallb] in Hs. apply andb_true_iff in Hs. destruct Hs as [Hc Hs].
    cbn [app scan].
    assert (M : match_at end_quote (x :: prev) (c :: key ++ [q2]) = None).
    { unfold match_at, end_quote. rewrite run_alt, run_seq, run_bos.
      cbn [before]. rewrite run_seq. unfold any_of. rewrite run_chr.
      cbn [rest]. fold (isQuote c).
      apply negb_true_iff in Hc. rewrite Hc. reflexivity. }
    rewrite M, (IH Hs). reflexivity.
Qed.

Lemma end_quote_strip (q1 q2 : N) (key : jsstring) :
  isQuote q1 = true -> isQuote q2 = true ->
  forallb (fun c => negb (isQuote c)) key = true ->
  replace_all end_quote (fun _ => []) (q1 :: key ++ [q2]) = key.
Proof.
  intros H1 H2 Hs. unfold replace_all. cbn [scan].
  assert (M : match_at end_quote [] (q1 :: key ++ [q2])
              = Some (MResult [q1] [])).
  { unfold match_at, end_quote. rewrite run_alt, run_seq, run_bos.
    cbn [before]. unfold any_of. rewrite run_chr.
    cbn [rest before caps]. fold (isQuote q1). rewrite H1.
    change [q1] with (rev [q1] ++ []) at 1.
    rewrite consumed_since_app. reflexivity. }
  rewrite M. cbn [matched length app].
  apply end_quote_inside; assumption.
Qed.

Section Walk.

Variable Host : Type.
Variable inherited : JsonValue -> jsstring -> JsVal Host.
Variable member : Host -> jsstring -> JsVal Host.

(** The token of a segment stands for the key the segment selects. *)
Lemma token_key (g : Segment) :
  segment_ok g = true -> part_key (segment_token g) = segment_key g.
Proof.
  intros Hok. unfold part_key.
  destruct g as [n|d|q1 key q2];
    cbn [segment_ok segment_token segment_text segment_key] in *.
  - apply andb_true_iff in Hok. destruct Hok as [Hn Hs].
    destruct n as [|c t]; [discriminate|].
    cbn [forallb] in Hs. apply andb_true_iff in Hs. destruct Hs as [Hc _].
    cbn [startsWith]. destruct (N.eqb_spec 91 c) as [<-|]; [discriminate|].
    reflexivity.
  - apply andb_true_iff in Hok. destruct Hok as [Hn Hs].
    cbn [startsWith]. change (N.eqb 91 91) with true. cbn [andb].
    unfold inner. cbn [tl]. rewrite removelast_last.
    rewrite all_digits_test by assumption. reflexivity.
  - apply andb_true_iff in Hok. destruct Hok as [Hok Hs].
    apply andb_true_iff in Hok. destruct Hok as [Hok Hn].
    apply andb_true_iff in Hok. destruct Hok as [Hq1 Hq2].
    cbn [startsWith]. change (N.eqb 91 91) with true. cbn [andb].
    unfold inner. cbn [tl].
    change (q1 :: key ++ [q2; 93%N]) with ((q1 :: key) ++ [q2] ++ [93%N]).
    rewrite app_assoc, removelast_last. cbn [app].
    rewrite all_digits_quoted by exact Hq1.
    rewrite end_quote_strip by assumption. reflexivity.
Qed.

Lemma walk_token (current : JsVal Host) (g : Segment) :
  segment_ok g = true ->
  walk inherited member current (segment_token g)
  = select inherited member current (segment_key g).
Proof.
  intros Hok. rewrite walk_select, (token_key _ Hok). reflexivity.
Qed.

Lemma walk_tokens (segments : list Segment) (current : JsVal Host) :
  forallb segment_ok segments = true ->
  fold_left (walk inherited member) (List.map segment_token segments) current
  = fold_left (fun cur g => select inherited member cur (segment_key g))
              segments current.
Proof.
  revert current. induction segments as [|g more IH]; intros current Hok.
  - reflexivity.
  - cbn [forallb] in Hok. apply andb_true_iff in Hok.
    destruct Hok as [Hg Hmore].
    cbn [List.map fold_left]. rewrite walk_token by exact Hg.
    apply IH, Hmore.
Qed.

Lemma strip_root (t : jsstring) :
  replace_first root_prefix (fun _ => []) (36%N :: t)
  = match t with
    | c :: t' => if N.eqb 46 c then t' else t
    | [] => []
    end.
Proof.
  unfold replace_first. cbn [replace_first_from].
  destruct t as [|c t']; [reflexivity|].
  destruct (N.eqb 46 c) eqn:E.
  - assert (M : match_at root_prefix [] (36%N :: c :: t')
                = Some (MResult [36%N; c] [])).
    { unfold match_at, root_prefix, cat, Opt. rewrite run_seq, run_bos.
      cbn [before]. rewrite run_seq. unfold code at 1. rewrite run_chr.
      cbn [before rest caps]. change (N.eqb 36 36) with true. cbv iota.
      rewrite run_alt. unfold code. rewrite run_chr. cbn [rest].
      rewrite E. reflexivity. }
    rewrite M. reflexivity.
  - assert (M : match_at root_prefix [] (36%N :: c :: t')
                = Some (MResult [36%N] [])).
    { unfold match_at, root_prefix, cat, Opt. rewrite run_seq, run_bos.
      cbn [before]. rewrite run_seq. unfold code at 1. rewrite run_chr.
      cbn [before rest caps]. change (N.eqb 36 36) with true. cbv iota.
      rewrite run_alt. unfold code. rewrite run_chr. cbn [rest].
      rewrite E. reflexivity. }
    rewrite M. reflexivity.
Qed.

(** X23.  How a path with a leading [$] is read.  For a path made of [$]
    and any number of parts of the three kinds ([.name], [[digits]] and a
    key in brackets between quotation marks or apostrophes),
    [evaluatePath] starts at the document and looks up, part by part, the
    name, the number written by the digits, or the key without its quotation
    marks: in a JSON value its own property of that name or else what the
    prototype chain gives, in a value of the host the property the host
    gives; below [null] or [undefined] every lookup gives [undefined]. *)
Theorem evaluatePath_segments (obj : JsonValue) (segments : list Segment) :
  forallb segment_ok segments = true ->
  evaluatePath inherited member obj (path_text segments)
  = fold_left
      (fun cur g =>
         match cur with
         | Undefined | Json JNull => Undefined
         | Json v =>
             match own_property v (segment_key g) with
             | Some x => Json x
             | None => inherited v (segment_key g)
             end
         | Builtin h => member h (segment_key g)
         end)
      segments (Json obj).
Proof.
  intros Hok.
  assert (F : forall l cur,
             fold_left
               (fun cur g =>
                  match cur with
                  | Undefined | Json JNull => Undefined
                  | Json v =>
                      match own_property v (segment_key g) with
                      | Some x => Json x
                      | None => inherited v (segment_key g)
                      end
                  | Builtin h => member h (segment_key g)
                  end) l cur
             = fold_left
                 (fun cur g => select inherited member cur (segment_key g))
                 l cur).
  { induction l as [|g l IH]; intros cur; [reflexivity|].
    cbn [fold_left]. rewrite IH. f_equal.
    destruct cur as [|v|h]; [reflexivity| |reflexivity].
    destruct v; reflexivity. }
  rewrite F. clear F.
  unfold evaluatePath, path_text. rewrite strip_root.
  destruct segments as [|g more]; [reflexivity|].
  pose proof (@walk_tokens (g :: more) (Json obj) Hok) as W.
  cbn [forallb] in Hok. apply andb_true_iff in Hok.
  destruct Hok as [Hg Hmore].
  pose proof (@tokens more Hmore) as T.
  cbn [List.map concat].
  destruct g as [n|d|q1 key q2]; cbn [segment_text app].
  - change (N.eqb 46 46) with true. cbv iota.
    pose proof Hg as Hg'. cbn [segment_ok] in Hg'.
    apply andb_true_iff in Hg'. destruct Hg' as [Hn _].
    destruct n as [|c t] eqn:En; [discriminate|]. rewrite <- En in *.
    replace (truthy (n ++ concat (List.map segment_text more))) with true
      by (rewrite En; reflexivity).
    cbn [negb]. unfold match_all.
    rewrite (@after_name [] n _ (List.map segment_token more) Hg
               (stop_head more) T).
    exact W.
  - change (N.eqb 46 91) with false. cbv iota. cbn [truthy negb].
    unfold match_all.
    pose proof (@tokens (Index d :: more)) as T'.
    cbn [forallb List.map concat segment_text app] in T'.
    rewrite T' by (rewrite Hg, Hmore; reflexivity).
    exact W.
  - change (N.eqb 46 91) with false. cbv iota. cbn [truthy negb].
    unfold match_all.
    pose proof (@tokens (Quoted q1 key q2 :: more)) as T'.
    cbn [forallb List.map concat segment_text app] in T'.
    rewrite T' by (rewrite Hg, Hmore; reflexivity).
    exact W.
Qed.

End Walk.

Lemma evaluatePath_segments_witness :
  evaluatePath object_prototype no_members Examples.users_doc
    (path_text [Name (js "users"); Index (js "0"); Quoted 39 (js "name") 39;
                Name (js "length")])
  = fold_left
      (fun cur g =>
         match cur with
         | Undefined | Json JNull => Undefined
         | Json v =>
             match own_property v (segment_key g) with
             | Some x => Json x
             | None => object_prototype v (segment_key g)
             end
         | Builtin h => no_members h (segment_key g)
         end)
      [Name (js "users"); Index (js "0"); Quoted 39 (js "name") 39;
       Name (js "length")]
      (Json Examples.users_doc).
Proof.
  apply (@evaluatePath_segments _ object_prototype no_members
           Examples.users_doc
           [Name (js "users"); Index (js "0"); Quoted 39 (js "name") 39;
            Name (js "length")]).
  reflexivity.
Defined.

End PathSyntaxProps.
(** ** Lines: [countLines], the printed text and the tree *)

Section LineProps.

Import JSNumber JSON JsonUtils JsonUtils0 TreeView.

Lemma split_cons (sep : N) (s : jsstring) :
  exists piece more, split sep s = piece :: more.
Proof.
  induction s as [|c t (piece & more & E)]; cbn [split]; [eauto|].
  destruct (N.eqb c sep); [eauto|]. rewrite E. eauto.
Qed.

(** [countLines] is one more than the number of line feeds. *)
Lemma countLines_count (s : jsstring) :
  countLines s = S (count_occ N.eq_dec s 10%N).
Proof.
  unfold countLines. induction s as [|c t IH]; [reflexivity|].
  cbn [split count_occ].
  destruct (N.eqb_spec c 10) as [->|Hc].
  - destruct (N.eq_dec 10 10) as [_|F]; [|contradiction F; reflexivity].
    cbn [length]. rewrite IH. reflexivity.
  - destruct (N.eq_dec c 10) as [E|_]; [contradiction|].
    destruct (split_cons 10 t) as (piece & more & E). rewrite E in *.
    exact IH.
Qed.

Lemma no_lf_app (a b : jsstring) :
  ~ In 10%N a -> ~ In 10%N b -> ~ In 10%N (a ++ b).
Proof. intros Ha Hb H. apply in_app_or in H. tauto. Qed.

Lemma no_lf_cons (c : N) (a : jsstring) :
  c <> 10%N -> ~ In 10%N a -> ~ In 10%N (c :: a).
Proof. intros Hc Ha [H|H]; [congruence|tauto]. Qed.

Lemma uint_chars_no_lf (u : Decimal.uint) : ~ In 10%N (uint_chars u).
Proof.
  induction u; cbn [uint_chars]; [tauto|..];
    (apply no_lf_cons; [discriminate|assumption]).
Qed.

Lemma zeros_no_lf (n : Z) : ~ In 10%N (zeros n).
Proof. unfold zeros. intros H. apply repeat_spec in H. discriminate. Qed.

Lemma firstn_no_lf (n : nat) (s : jsstring) :
  ~ In 10%N s -> ~ In 10%N (firstn n s).
Proof.
  intros Hs H. apply Hs. rewrite <- (firstn_skipn n s).
  apply in_or_app. left. exact H.
Qed.

Lemma skipn_no_lf (n : nat) (s : jsstring) :
  ~ In 10%N s -> ~ In 10%N (skipn n s).
Proof.
  intros Hs H. apply Hs. rewrite <- (firstn_skipn n s).
  apply in_or_app. right. exact H.
Qed.

Lemma layout_no_lf (s p : Z) : ~ In 10%N (layout s p).
Proof.
  pose proof (uint_chars_no_lf (N.to_uint (Z.to_N s))) as D.
  fold (decimal (Z.to_N s)) in D. fold (Zdecimal s) in D.
  unfold layout.
  destruct (_ && _).
  { apply no_lf_app; [exact D|apply zeros_no_lf]. }
  destruct (_ && _).
  { apply no_lf_app; [apply firstn_no_lf, D|].
    apply no_lf_cons; [discriminate|apply skipn_no_lf, D]. }
  destruct (_ && _).
  { apply no_lf_cons; [discriminate|]. apply no_lf_cons; [discriminate|].
    apply no_lf_app; [apply zeros_no_lf|exact D]. }
  apply no_lf_app.
  - destruct (Zdecimal s) as [|d [|d' more]]; [tauto|exact D|].
    apply no_lf_cons; [intros ->; apply D; left; reflexivity|].
    apply no_lf_cons; [discriminate|].
    intros H. apply D. right. exact H.
  - apply no_lf_cons; [discriminate|].
    apply no_lf_cons; [destruct (0 <=? _)%Z; discriminate|].
    apply uint_chars_no_lf.
Qed.

Lemma toString_no_lf (x : Number) : ~ In 10%N (toString x).
Proof.
  destruct x as [s|s| |s m e]; cbn [toString].
  - cbn. intuition discriminate.
  - destruct s; cbn; intuition discriminate.
  - cbn. intuition discriminate.
  - destruct (fraction m e) as [num den].
    destruct (shortest _ _ _ _ _ _) as [d p].
    apply no_lf_app; [destruct s; cbn; intuition discriminate|].
    apply layout_no_lf.
Qed.

Lemma hex_digit_no_lf (n : N) : hex_digit n <> 10%N.
Proof.
  unfold hex_digit. destruct (N.ltb_spec n 10); lia.
Qed.

Lemma unicode_escape_no_lf (c : N) (s : jsstring) :
  ~ In 10%N s -> ~ In 10%N (unicode_escape c ++ s).
Proof.
  intros Hs. unfold unicode_escape. cbn [app].
  repeat (apply no_lf_cons; [first [discriminate|apply hex_digit_no_lf]|]).
  exact Hs.
Qed.

Lemma quote_chars_no_lf (s : jsstring) : ~ In 10%N (quote_chars s).
Proof.
  assert (G : forall n s, length s <= n -> ~ In 10%N (quote_chars s)).
  { induction n as [|n IH]; intros [|c t] Hlen; cbn [length] in Hlen;
      try (cbn; tauto); try lia.
    assert (Ht : ~ In 10%N (quote_chars t)) by (apply IH; lia).
    cbn [quote_chars].
    destruct (N.eqb c 8);
      [apply no_lf_cons; [discriminate|apply no_lf_cons; [discriminate|exact Ht]]|].
    destruct (N.eqb c 9);
      [apply no_lf_cons; [discriminate|apply no_lf_cons; [discriminate|exact Ht]]|].
    destruct (N.eqb_spec c 10);
      [apply no_lf_cons; [discriminate|apply no_lf_cons; [discriminate|exact Ht]]|].
    destruct (N.eqb c 12);
      [apply no_lf_cons; [discriminate|apply no_lf_cons; [discriminate|exact Ht]]|].
    destruct (N.eqb c 13);
      [apply no_lf_cons; [discriminate|apply no_lf_cons; [discriminate|exact Ht]]|].
    destruct (N.eqb c 34);
      [apply no_lf_cons; [discriminate|apply no_lf_cons; [discriminate|exact Ht]]|].
    destruct (N.eqb c 92);
      [apply no_lf_cons; [discriminate|apply no_lf_cons; [discriminate|exact Ht]]|].
    destruct (N.ltb c 32); [apply unicode_escape_no_lf, Ht|].
    destruct (isLeadSurrogate c).
    - destruct t as [|c2 t2].
      + rewrite <- (app_nil_r (unicode_escape c)).
        apply unicode_escape_no_lf. tauto.
      + destruct (isTrailSurrogate c2) eqn:T2;
          [|apply unicode_escape_no_lf, Ht].
        apply no_lf_cons; [assumption|].
        apply no_lf_cons.
        * intros ->. discriminate T2.
        * apply IH. cbn [length] in Hlen. lia.
    - destruct (isTrailSurrogate c); [apply unicode_escape_no_lf, Ht|].
      apply no_lf_cons; assumption. }
  apply (G (length s)). lia.
Qed.

Lemma quote_no_lf (s : jsstring) : ~ In 10%N (quote s).
Proof.
  unfold quote. apply no_lf_cons; [discriminate|].
  apply no_lf_app; [apply quote_chars_no_lf|].
  cbn. intuition discriminate.
Qed.

Lemma join_no_lf (sep : jsstring) (parts : list jsstring) :
  ~ In 10%N sep -> Forall (fun p => ~ In 10%N p) parts ->
  ~ In 10%N (join sep parts).
Proof.
  intros Hsep Hall. induction Hall as [|p more Hp _ IH]; [cbn; tauto|].
  destruct more as [|q more]; [exact Hp|].
  rewrite join_cons2. apply no_lf_app; [exact Hp|].
  apply no_lf_app; [exact Hsep|exact IH].
Qed.

Lemma wrap_no_lf (o c : N) (stepback indent : jsstring)
  (parts : list jsstring) :
  o <> 10%N -> c <> 10%N ->
  Forall (fun p => ~ In 10%N p) parts ->
  ~ In 10%N (wrap o c [] stepback indent parts).
Proof.
  intros Ho Hc Hall. destruct parts as [|p more].
  - cbn [wrap]. apply no_lf_cons; [exact Ho|].
    apply no_lf_cons; [exact Hc|tauto].
  - rewrite wrap_shape. cbn [RoundTrip.lead app].
    apply no_lf_cons; [exact Ho|]. apply no_lf_app.
    + apply join_no_lf; [cbn; intuition discriminate|exact Hall].
    + apply no_lf_cons; [exact Hc|tauto].
Qed.

(** Without a gap, the printed form of a value has no line feed. *)
Lemma serialize_no_lf (v : JsonValue) :
  forall indent, ~ In 10%N (serialize [] indent v).
Proof.
  induction v as [ |b|x|s|items IH|props IH] using JsonValue_induction;
    intros indent; cbn [serialize].
  - cbn. intuition discriminate.
  - destruct b; cbn; intuition discriminate.
  - destruct (isFinite x); [apply toString_no_lf|cbn; intuition discriminate].
  - apply quote_no_lf.
  - apply wrap_no_lf; [discriminate|discriminate|].
    rewrite Forall_map. eapply Forall_impl; [|exact IH].
    intros y Hy. apply Hy.
  - apply wrap_no_lf; [discriminate|discriminate|].
    rewrite Forall_map. eapply Forall_impl; [|exact IH].
    intros [k y] Hy. cbn [fst snd] in *.
    apply no_lf_app; [apply quote_no_lf|].
    apply no_lf_cons; [discriminate|]. apply Hy.
Qed.

(** X24.  A minified text is one line: whatever [minifyJson] returns, of
    either version, has no line feed in it, so [countLines] counts one
    line. *)
Theorem minified_is_one_line (T small : jsstring) :
  JsonUtils.minifyJson T = Return small
  \/ JsonUtils0.minifyJson T = Return small ->
  countLines small = 1 /\ ~ In 10%N small.
Proof.
  intros H.
  assert (N : ~ In 10%N small).
  { unfold JsonUtils.minifyJson, JsonUtils0.minifyJson in H.
    destruct (parse T) as [v|e]; [|destruct H; discriminate].
    assert (E : small = stringify v 0)
      by (destruct H as [H|H]; injection H as <-; reflexivity).
    subst small. apply serialize_no_lf. }
  split; [|exact N].
  rewrite countLines_count.
  apply (count_occ_not_In N.eq_dec) in N. rewrite N. reflexivity.
Qed.

Lemma minified_is_one_line_witness :
  countLines (jsq "{`a`:[1,`x\ny`]}") = 1
  /\ ~ In 10%N (jsq "{`a`:[1,`x\ny`]}").
Proof.
  apply (@minified_is_one_line (jsq "{
  `a`: [1,
        `x\ny`]
}") (jsq "{`a`:[1,`x\ny`]}")).
  left. vm_compute. reflexivity.
Defined.

(** *** Counting the line feeds of an indented text *)

Lemma lf_none (s : jsstring) :
  ~ In 10%N s -> count_occ N.eq_dec s 10%N = 0.
Proof. apply count_occ_not_In. Qed.

Lemma lf_cons_lf (s : jsstring) :
  count_occ N.eq_dec (10%N :: s) 10%N = S (count_occ N.eq_dec s 10%N).
Proof. apply count_occ_cons_eq. reflexivity. Qed.

Lemma lf_cons_other (c : N) (s : jsstring) :
  c <> 10%N ->
  count_occ N.eq_dec (c :: s) 10%N = count_occ N.eq_dec s 10%N.
Proof. intros H. apply count_occ_cons_neq. exact H. Qed.

Lemma join_lf (sep : jsstring) (p : jsstring) (more : list jsstring) :
  count_occ N.eq_dec sep 10%N = 1 ->
  S (count_occ N.eq_dec (join sep (p :: more)) 10%N)
  = list_sum (List.map (fun q => S (count_occ N.eq_dec q 10%N)) (p :: more)).
Proof.
  intros Hsep. revert p. induction more as [|q more IH]; intros p.
  - cbn [join List.map list_sum fold_right]. lia.
  - rewrite join_cons2, !count_occ_app, Hsep.
    specialize (IH q). cbn [List.map list_sum fold_right] in *. lia.
Qed.

Lemma wrap_lf (o c : N) (gap stepback indent : jsstring)
  (parts : list jsstring) :
  o <> 10%N -> c <> 10%N -> nonempty gap = true -> nonempty parts = true ->
  ~ In 10%N stepback -> ~ In 10%N indent ->
  count_occ N.eq_dec (wrap o c gap stepback indent parts) 10%N
  = S (list_sum (List.map (fun q => S (count_occ N.eq_dec q 10%N)) parts)).
Proof.
  intros Ho Hc Hg Hp Hsb Hin. destruct parts as [|p more]; [discriminate|].
  rewrite wrap_shape.
  destruct gap as [|g gap]; [discriminate|]. cbn [RoundTrip.lead].
  assert (Hsep : count_occ N.eq_dec (44%N :: 10%N :: indent) 10%N = 1).
  { rewrite lf_cons_other by discriminate.
    rewrite lf_cons_lf, (@lf_none indent Hin). reflexivity. }
  pose proof (@join_lf (44%N :: 10%N :: indent) p more Hsep) as J.
  rewrite lf_cons_other by exact Ho.
  rewrite !count_occ_app, !lf_cons_lf.
  rewrite (@lf_none indent Hin), (@lf_none stepback Hsb).
  rewrite (@lf_cons_other c [] Hc). cbn [count_occ]. lia.
Qed.

Lemma render_open_lines (lower : jsstring -> jsstring) (fm : bool)
  (gap : jsstring) (v : JsonValue) :
  nonempty gap = true -> ~ In 10%N gap ->
  forall indent path key isLast,
    ~ In 10%N indent ->
    length (render lower [] fm (fun _ => false) path key v isLast)
    = S (count_occ N.eq_dec (serialize gap indent v) 10%N).
Proof.
  intros Hg Hgap.
  induction v as [ |b|x|s|items IH|props IH] using JsonValue_induction;
    intros indent path key isLast Hin.
  - cbn [render serialize]. rewrite hasMatchingDescendant_nil, andb_false_r.
    rewrite lf_none; [reflexivity|cbn; intuition discriminate].
  - cbn [render serialize]. rewrite hasMatchingDescendant_nil, andb_false_r.
    rewrite lf_none; [reflexivity|].
    destruct b; cbn; intuition discriminate.
  - cbn [render serialize]. rewrite hasMatchingDescendant_nil, andb_false_r.
    rewrite lf_none; [reflexivity|].
    destruct (isFinite x); [apply toString_no_lf|cbn; intuition discriminate].
  - cbn [render serialize]. rewrite hasMatchingDescendant_nil, andb_false_r.
    rewrite lf_none; [reflexivity|apply quote_no_lf].
  - destruct items as [|x xs].
    { cbn [render serialize List.map wrap].
      rewrite hasMatchingDescendant_nil, andb_false_r.
      rewrite lf_none; [reflexivity|cbn; intuition discriminate]. }
    rewrite render_array, hasMatchingDescendant_nil, andb_false_r.
    cbn [negb orb]. cbn [serialize].
    rewrite wrap_lf;
      [|discriminate|discriminate|exact Hg|reflexivity|exact Hin
       |apply no_lf_app; assumption].
    cbn [length]. rewrite length_app. cbn [length].
    rewrite Nat.add_1_r. f_equal. f_equal.
    generalize 0 as i.
    induction IH as [|y ys Hy _ IHys]; intros i; [reflexivity|].
    cbn [render_items List.map list_sum fold_right].
    rewrite length_app, (Hy (indent ++ gap)) by (apply no_lf_app; assumption).
    rewrite IHys. reflexivity.
  - destruct props as [|p ps].
    { cbn [render serialize List.map wrap].
      rewrite hasMatchingDescendant_nil, andb_false_r.
      rewrite lf_none; [reflexivity|cbn; intuition discriminate]. }
    rewrite render_object, hasMatchingDescendant_nil, andb_false_r.
    cbn [negb orb]. cbn [serialize].
    rewrite wrap_lf;
      [|discriminate|discriminate|exact Hg|reflexivity|exact Hin
       |apply no_lf_app; assumption].
    cbn [length]. rewrite length_app. cbn [length].
    rewrite Nat.add_1_r. f_equal. f_equal.
    generalize 0 as i.
    induction IH as [|[k y] ys Hy _ IHys]; intros i; [reflexivity|].
    cbn [render_props List.map list_sum fold_right fst snd] in *.
    rewrite length_app, (Hy (indent ++ gap)) by (apply no_lf_app; assumption).
    rewrite IHys. f_equal. f_equal.
    rewrite count_occ_app, (@lf_none (quote k) (@quote_no_lf k)).
    rewrite lf_cons_other by discriminate.
    destruct gap as [|g gap']; [discriminate|]. cbn [app].
    rewrite lf_cons_other by discriminate. reflexivity.
Qed.

(** X25.  The tree and the text have the same lines.  With nothing
    collapsed and no search term, the tree view of a value shows as many
    lines as [countLines] counts in the text [JSON.stringify] prints for the
    value with an indent of one or more spaces: one line for a null, a
    primitive or an empty array or object, and for any other array or object
    its opening line, the lines of its members and its closing line. *)
Theorem tree_lines_match_text (lower : jsstring -> jsstring) (fm : bool)
  (v : JsonValue) (n : Z) :
  (1 <= n)%Z ->
  length (render lower [] fm (fun _ => false) [] None v true)
  = countLines (stringify v n).
Proof.
  intros Hn. rewrite countLines_count. unfold stringify.
  assert (G : exists k, gap_of n = repeat 32%N (S k)).
  { unfold gap_of. exists (Z.to_nat (Z.min 10 n) - 1). f_equal. lia. }
  destruct G as [k G].
  apply render_open_lines.
  - rewrite G. reflexivity.
  - rewrite G. intros H. apply repeat_spec in H. discriminate.
  - tauto.
Qed.

Lemma tree_lines_match_text_witness :
  length (render lower_ascii [] false (fun _ => false) [] None
                 Examples.sample_value true)
  = countLines (stringify Examples.sample_value 2).
Proof.
  apply (@tree_lines_match_text lower_ascii false Examples.sample_value 2).
  lia.
Defined.

End LineProps.
(** ** The error message of the first [validateJson] *)

Section ValidateProps.

Import JSNumber JSON RegExp Matching JsonUtils.









End ValidateProps.
(** ** Formatting twice, and the tree after Format *)

Section FormatTwice.

Import JSNumber JSON RoundTrip JsonUtils TreeView Controller.

Local Arguments firstn : simpl never.

(** *** The printed form of a value has no white space at its ends *)

Lemma trim_edges (s : jsstring) :
  isSpace (hd 32%N s) = false -> isSpace (last s 32%N) = false ->
  trim s = s.
Proof.
  intros Hh Hl. destruct s as [|c t]; [discriminate|].
  unfold trim. cbn [hd] in Hh. cbn [dropWhile]. rewrite Hh.
  assert (E : rev (c :: t) = last (c :: t) 32%N :: rev (removelast (c :: t))).
  { rewrite (@app_removelast_last _ (c :: t) 32%N) at 1 by discriminate.
    rewrite rev_app_distr. reflexivity. }
  rewrite E. cbn [dropWhile]. rewrite Hl, <- E. apply rev_involutive.
Qed.

Lemma last_app_one (s : jsstring) (z d : N) : last (s ++ [z]) d = z.
Proof. apply last_last. Qed.

Lemma uint_chars_printable (u : Decimal.uint) :
  Forall (fun c => (33 <= c <= 126)%N) (uint_chars u).
Proof. induction u; cbn [uint_chars]; constructor; auto; lia. Qed.

Lemma layout_printable (s p : Z) :
  Forall (fun c => (33 <= c <= 126)%N) (layout s p) /\ layout s p <> [].
Proof.
  pose proof (uint_chars_printable (N.to_uint (Z.to_N s))) as D.
  destruct (decimal_digits (Z.to_N s)) as [Dn _].
  fold (decimal (Z.to_N s)) in D. fold (Zdecimal s) in D, Dn.
  assert (Z0 : forall n, Forall (fun c => (33 <= c <= 126)%N) (zeros n)).
  { intros n. apply Forall_forall. intros c H. apply repeat_spec in H.
    subst c. lia. }
  assert (F : forall n, Forall (fun c => (33 <= c <= 126)%N)
                               (firstn n (Zdecimal s))).
  { intros n. apply Forall_forall. intros c H.
    apply (proj1 (Forall_forall _ _) D). rewrite <- (firstn_skipn n).
    apply in_or_app. left. exact H. }
  assert (K : forall n, Forall (fun c => (33 <= c <= 126)%N)
                               (skipn n (Zdecimal s))).
  { intros n. apply Forall_forall. intros c H.
    apply (proj1 (Forall_forall _ _) D). rewrite <- (firstn_skipn n).
    apply in_or_app. right. exact H. }
  unfold layout.
  destruct (_ && _).
  { split; [apply Forall_app; auto|].
    destruct (Zdecimal s); [discriminate|discriminate]. }
  destruct (_ && _).
  { split.
    - apply Forall_app. split; [apply F|].
      constructor; [cbn; lia|apply K].
    - intros E. apply app_eq_nil in E. destruct E as [_ E]. discriminate. }
  destruct (_ && _).
  { split; [|discriminate].
    constructor; [cbn; lia|]. constructor; [cbn; lia|].
    apply Forall_app; auto. }
  split.
  - apply Forall_app. split.
    + destruct (Zdecimal s) as [|d [|d' more]]; [constructor|exact D|].
      inversion D as [|? ? Hd Hm]; subst.
      constructor; [exact Hd|]. constructor; [cbn; lia|exact Hm].
    + constructor; [cbn; lia|].
      constructor; [destruct (0 <=? _)%Z; cbn; lia|].
      apply uint_chars_printable.
  - intros E. apply app_eq_nil in E. destruct E as [_ E]. discriminate.
Qed.

Lemma toString_printable (x : Number) :
  isFinite x = true ->
  Forall (fun c => (33 <= c <= 126)%N) (toString x) /\ toString x <> [].
Proof.
  destruct x as [s|s| |s m e]; try discriminate; intros _; cbn [toString].
  - split; [repeat constructor; cbn; lia|discriminate].
  - destruct (fraction m e) as [num den].
    destruct (shortest _ _ _ _ _ _) as [d p].
    destruct (layout_printable d p) as [L Ln]. split.
    + apply Forall_app. split; [|exact L].
      destruct s; repeat constructor; cbn; lia.
    + intros E. apply app_eq_nil in E. destruct E as [_ E]. contradiction.
Qed.

Lemma printable_edges (s : jsstring) :
  Forall (fun c => (33 <= c <= 126)%N) s -> s <> [] ->
  isSpace (hd 32%N s) = false /\ isSpace (last s 32%N) = false.
Proof.
  intros H Hn. split; apply printable_not_space.
  - destruct s; [contradiction Hn; reflexivity|].
    inversion H; assumption.
  - apply (proj1 (Forall_forall _ _) H).
    rewrite (@app_removelast_last _ s 32%N Hn) at 2.
    apply in_or_app. right. left. reflexivity.
Qed.

Lemma wrap_edges (o c : N) (gap stepback indent : jsstring)
  (parts : list jsstring) :
  isSpace o = false -> isSpace c = false ->
  isSpace (hd 32%N (wrap o c gap stepback indent parts)) = false
  /\ isSpace (last (wrap o c gap stepback indent parts) 32%N) = false.
Proof.
  intros Ho Hc. destruct parts as [|p more]; [split; assumption|].
  rewrite wrap_shape. split; [exact Ho|].
  change (o :: RoundTrip.lead gap indent
            ++ join (44%N :: RoundTrip.lead gap indent) (p :: more)
            ++ RoundTrip.lead gap stepback ++ [c])
    with ((o :: RoundTrip.lead gap indent)
            ++ join (44%N :: RoundTrip.lead gap indent) (p :: more)
            ++ RoundTrip.lead gap stepback ++ [c]).
  rewrite !app_assoc, last_last. exact Hc.
Qed.

Lemma serialize_edges (gap indent : jsstring) (v : JsonValue) :
  isSpace (hd 32%N (serialize gap indent v)) = false
  /\ isSpace (last (serialize gap indent v) 32%N) = false.
Proof.
  destruct v as [ |b|x|s|items|props]; cbn [serialize].
  - split; reflexivity.
  - destruct b; split; reflexivity.
  - destruct (isFinite x) eqn:F; [|split; reflexivity].
    destruct (toString_printable x F) as [P Pn].
    apply printable_edges; assumption.
  - unfold quote. split; [reflexivity|].
    change (dquote :: quote_chars s ++ [dquote])
      with ((dquote :: quote_chars s) ++ [dquote]).
    rewrite last_last. reflexivity.
  - apply wrap_edges; reflexivity.
  - apply wrap_edges; reflexivity.
Qed.

Lemma trim_stringify (v : JsonValue) (n : Z) :
  trim (stringify v n) = stringify v n.
Proof.
  unfold stringify.
  destruct (serialize_edges (gap_of n) [] v) as [H L].
  apply trim_edges; assumption.
Qed.

(** *** What a Format or Minify that works leaves behind *)

Lemma fixJson_parses (raw : jsstring) (v : JsonValue) :
  parse (fixed (fixJson raw)) = inl v ->
  JsonUtils.error (fixJson raw) = None /\ truthy (trim raw) = true.
Proof.
  unfold fixJson.
  destruct (truthy (trim raw)) eqn:Hb; cbn [negb].
  - destruct (parse raw) as [v0|e] eqn:E; cbn [fixed JsonUtils.error];
      [auto|].
    destruct (parse (patch raw)) as [v'|e'] eqn:E';
      cbn [fixed JsonUtils.error]; [auto|].
    intros H. congruence.
  - cbn [fixed]. intros H. apply parse_not_blank in H. congruence.
Qed.

Lemma truthy_of_trim (s : jsstring) : truthy (trim s) = true -> truthy s = true.
Proof. destruct s; [discriminate|reflexivity]. Qed.

Lemma pushUndo_done (e : jsstring) (st : State) :
  value_ref st = value st -> value st <> [] ->
  pushUndo (setError e st)
  = setUndoStack (firstn 50 (value st :: undoStack st)) (setError e st).
Proof.
  intros Hsync Hne. unfold pushUndo. cbn [value_ref setError undoStack].
  rewrite Hsync. destruct (value st); [contradiction Hne; reflexivity|].
  reflexivity.
Qed.

Lemma handleFormat_done (st : State) (v : JsonValue) :
  value_ref st = value st ->
  parse (fixed (fixJson (trim (value st)))) = inl v ->
  handleFormat st
  = showToast (if wasFixed (fixJson (trim (value st)))
               then toast_fixed "Formatted!" else toast_done "Formatted!")
      (setViewMode tree
        (setFormattedVal (stringify v (indentSize st))
          (setValue (stringify v (indentSize st))
            (setUndoStack (firstn 50 (value st :: undoStack st))
                          (setError [] st))))).
Proof.
  intros Hsync Hp. destruct (fixJson_parses _ Hp) as [He Hb].
  apply truthy_of_trim in Hb.
  unfold handleFormat. cbn [value_ref setError]. rewrite Hsync, Hb.
  cbn [negb]. rewrite He. cbn [reported].
  rewrite (@pushUndo_done [] st Hsync (@truthy_trim (value st) Hb)).
  unfold formatJson. rewrite Hp. reflexivity.
Qed.

Lemma handleMinify_done (st : State) (v : JsonValue) :
  value_ref st = value st ->
  parse (fixed (fixJson (trim (value st)))) = inl v ->
  handleMinify st
  = showToast (if wasFixed (fixJson (trim (value st)))
               then toast_fixed "Minified!" else toast_done "Minified!")
      (setViewMode edit
        (setValue (stringify v 0)
          (setUndoStack (firstn 50 (value st :: undoStack st))
                        (setError [] st)))).
Proof.
  intros Hsync Hp. destruct (fixJson_parses _ Hp) as [He Hb].
  apply truthy_of_trim in Hb.
  unfold handleMinify. rewrite Hb. cbn [negb]. rewrite He. cbn [reported].
  rewrite (@pushUndo_done [] st Hsync (@truthy_trim (value st) Hb)).
  unfold minifyJson. rewrite Hp. reflexivity.
Qed.

(** A printed value, as the document, is repaired to itself. *)
Lemma fixJson_stringify (v : JsonValue) (n : Z) :
  numbers_survive v = true -> well_formed v = true ->
  parse (fixed (fixJson (trim (stringify v n)))) = inl (renumber v).
Proof.
  intros Hs Hwf. rewrite trim_stringify.
  pose proof (@parse_stringify v n Hs Hwf) as P.
  unfold fixJson. rewrite (parse_not_blank _ P), P. exact P.
Qed.

(** X27.  Format is idempotent on the document.  After a Format that has
    worked on a document whose numbers survive printing, a second Format
    leaves the text and the formatted text as they are, stays in tree view
    without an error, and pushes the text once more on the undo stack; and
    Minify after Format gives the document Minify alone gives. *)
Theorem format_twice (st : State) (v : JsonValue) :
  value_ref st = value st ->
  parse (fixed (fixJson (trim (value st)))) = inl v ->
  numbers_survive v = true ->
  let st1 := handleFormat st in
  value (handleFormat st1) = value st1
  /\ formattedVal (handleFormat st1) = value st1
  /\ viewMode (handleFormat st1) = tree
  /\ Controller.error (handleFormat st1) = []
  /\ undoStack (handleFormat st1) = firstn 50 (value st1 :: undoStack st1)
  /\ value (handleMinify st1) = value (handleMinify st).
Proof.
  intros Hsync Hp Hs. cbv zeta.
  pose proof (parse_gives_well_formed _ Hp) as Hwf.
  pose proof (@fixJson_stringify v (indentSize st) Hs Hwf) as P1.
  rewrite (@handleMinify_done st v Hsync Hp).
  rewrite (@handleFormat_done st v Hsync Hp).
  set (pretty := stringify v (indentSize st)) in *.
  set (stack := firstn 50 (value st :: undoStack st)).
  set (st1 := showToast _ _).
  assert (V : value st1 = pretty) by reflexivity.
  assert (R : value_ref st1 = value st1) by reflexivity.
  assert (I : indentSize st1 = indentSize st) by reflexivity.
  rewrite <- V in P1.
  rewrite (@handleFormat_done st1 (renumber v) R P1).
  rewrite (@handleMinify_done st1 (renumber v) R P1).
  cbn [value formattedVal viewMode Controller.error undoStack showToast
         setViewMode setFormattedVal setValue setUndoStack setError].
  rewrite I. unfold stringify.
  rewrite !(serialize_renumber v Hs). fold (stringify v (indentSize st)).
  fold pretty. rewrite V. repeat split.
Qed.

Lemma format_twice_witness :
  let st := typed (js " {a: [1, 2,], } ") Examples.broken_session in
  let st1 := handleFormat st in
  value (handleFormat st1) = value st1
  /\ formattedVal (handleFormat st1) = value st1
  /\ viewMode (handleFormat st1) = tree
  /\ Controller.error (handleFormat st1) = []
  /\ undoStack (handleFormat st1) = firstn 50 (value st1 :: undoStack st1)
  /\ value (handleMinify st1) = value (handleMinify st).
Proof.
  cbv zeta.
  apply (@format_twice (typed (js " {a: [1, 2,], } ") Examples.broken_session)
           (JObject [(js "a", JArray [JNumber (of_decimal false 1 0);
                                      JNumber (of_decimal false 2 0)])]));
    vm_compute; reflexivity.
Defined.

(** X28.  After a Format that has worked on a document whose numbers
    survive printing, the tree view does not show a parse error: it renders
    the tree of a value structurally equal to the value of the repaired
    document. *)
Theorem tree_after_format (lower : jsstring -> jsstring)
  (coll : list nat -> bool) (term : jsstring) (fm : bool)
  (st : State) (v : JsonValue) :
  value_ref st = value st ->
  parse (fixed (fixJson (trim (value st)))) = inl v ->
  numbers_survive v = true ->
  exists data,
    json_eqb v data = true
    /\ treeView lower coll term fm (formattedVal (handleFormat st))
       = inr (render lower term fm coll [] None data true).
Proof.
  intros Hsync Hp Hs.
  pose proof (parse_gives_well_formed _ Hp) as Hwf.
  destruct (renumber_props v Hs) as (_ & _ & Heq & _).
  exists (renumber v). split; [exact Heq|].
  rewrite (@handleFormat_done st v Hsync Hp).
  cbn [formattedVal showToast setViewMode setFormattedVal].
  unfold treeView. rewrite (@parse_stringify v (indentSize st) Hs Hwf).
  reflexivity.
Qed.

Lemma tree_after_format_witness :
  exists data,
    json_eqb (JObject [(js "a", JArray [JNumber (of_decimal false 1 0);
                                        JNumber (of_decimal false 2 0)])])
             data = true
    /\ treeView lower_ascii mounted [] false
         (formattedVal
            (handleFormat (typed (js " {a: [1, 2,], } ")
                                 Examples.broken_session)))
       = inr (render lower_ascii [] false mounted [] None data true).
Proof.
  apply (@tree_after_format lower_ascii mounted [] false
           (typed (js " {a: [1, 2,], } ") Examples.broken_session)
           (JObject [(js "a", JArray [JNumber (of_decimal false 1 0);
                                      JNumber (of_decimal false 2 0)])]));
    vm_compute; reflexivity.
Defined.

End FormatTwice.
